(* ===== verification/_CoqProject ===== *)
-Q . S2P
Prelude.v
GoTime.v
Presentation.v
GoStrings.v
Occurs.v
Calendar.v
Database.v
Partitions.v
Retention.v
StoreFix.v
StoreEntities.v
Evaluator.v
StoreGeofence.v
GeofenceLog.v
GeofenceSpec.v
StoreReads.v
Auth.v
Config.v
Ledger.v
Dispatcher.v
Json.v
Notify.v
Senders.v
Server.v
ServerSpec.v
Stream.v
StreamSpec.v
Flags.v
Regex.v
Shapes.v
SecretScan.v
Command.v
Shutdown.v
Vulngate.v
VulngateSpec.v
Repo.v
MapPage.v
Programs.v
Migrations.v
Viewer.v
ViewerSpec.v
EndToEnd.v
PinImages.v
PinManifests.v
Pingate.v
PinSpec.v
PinScan.v
Toolchain.v
ProseCount.v
ProseGate.v
ProseSpec.v
UiRecord.v
UiSpec.v
UiRefusal.v
UiScript.v
UiRefusalSpec.v
UiStack.v
UiStackSpec.v
UiSession.v
Measuring.v
UiChecks.v
MeasuringSpec.v
UiChecksSpec.v
UiPolicySpec.v
UiBoot.v
UiBootSpec.v
UiMain.v
