(* ===== verification/Prelude.v ===== *)
(** * tracker: a verification of the location server

    tracker is a self-hosted family location service.  Phones post fixes over HTTP
    with a device credential; the server stores each exactly once, derives enter and
    exit crossings of the family's Places and pushes an alert per crossing; viewers
    of the family read positions, history and crossings, or watch a live stream; a
    retention job drops months that are out of the window.  Beside the service the
    repository keeps gates that a build must pass - secrets, vulnerabilities, pins, the
    toolchain, prose - and a harness that verifies the user interfaces.  This library
    models the Go code of both (cmd/ and internal/ under src/) as executable Rocq
    definitions and proves what makes it correct.

    ** How the parts correspond to the code

    - Prelude.v: notations, tactics and lemmas shared by every file: [result] for Go's
      (value, error) pairs, int64 wrap-around, stable sorting, rows found by a key.
    - GoTime.v, Calendar.v, GoStrings.v, Json.v: the parts of Go's standard library
      the source computes with - instants and durations, months, strings and number
      syntax, encoding/json; Occurs.v: occurrences of texts and lines.
    - Presentation.v: internal/presentation - the published value of a device.
    - Database.v: the tables, the statement environment and the monad [M] in which
      every store function runs: [exec] runs one SQL statement, which may fail before
      or after it took effect.  Partitions.v (internal/db/partitions.go), Retention.v
      (internal/retention), StoreFix.v (internal/store/store.go), StoreEntities.v
      (entities.go), StoreGeofence.v (geofence.go) and StoreReads.v (read.go,
      presentation.go, push.go) are the operations; each SQL text is one function on
      tables, each Go function the composition of statements the code makes.
    - Evaluator.v, GeofenceLog.v, GeofenceSpec.v: the debounced crossing machine
      [confirmTransitions], the log it appends to and its theorems.
    - Auth.v (internal/auth), Config.v (internal/config).
    - Ledger.v, Dispatcher.v, Notify.v, Senders.v: internal/push - the delivery ledger,
      the bounded queue with its worker, the geofence notifier, FCM and UnifiedPush
      senders with the OAuth token cache.
    - Server.v, ServerSpec.v: internal/server - gates, decoding, ingestion, reads, push
      registration and the route table.  Stream.v, StreamSpec.v: stream.go, the poll
      loop of a live connection.  MapPage.v: the map's documents, their policies and
      nonces, in the same file.  Viewer.v, ViewerSpec.v: the script of the map page
      (static/map.html), its variables, events, replies, watches and rows; EndToEnd.v:
      that page fed by a session of the stream.
    - Command.v: cmd/tracker - the operator's commands over the store, [runServe] and
      the exit status; Flags.v: the flag package and time.ParseDuration.  Shutdown.v: how
      a serving process ends.  Migrations.v: internal/db/db.go, the pool and goose.
    - Regex.v: the regexp package, as a backtracking matcher with a declarative
      meaning; Shapes.v: the shapes the gates' patterns describe.
    - SecretScan.v (internal/secretscan, cmd/secretscan).  Vulngate.v, VulngateSpec.v
      (internal/vulngate, cmd/vulncheck): the govulncheck stream, the suppression file,
      the verdict.
    - Repo.v: a working tree and the path functions.  PinImages.v, PinManifests.v,
      Pingate.v, PinSpec.v, PinScan.v (internal/pingate, cmd/pincheck): the scanners,
      the demonstrations and the gate.  Toolchain.v (internal/toolchain).
    - ProseCount.v, ProseGate.v, ProseSpec.v (internal/prosegate, cmd/prosecheck): the
      count of a file, the sweep, the ceiling and its record.
    - UiRecord.v, UiSpec.v (internal/uiverify: record.go, android.go, mutation.go,
      run.go): the record of the conventions and its checks.  UiStack.v, UiStackSpec.v
      (stack.go, run.go): the scripted surface and the run over it.  UiSession.v
      (browser.go, readouts.go), UiChecks.v, UiChecksSpec.v (checks.go), UiPolicySpec.v:
      the browser session, the rendered checks, and the map page's policy under them.
      Measuring.v, MeasuringSpec.v (audit.go): the measuring library on a document, and what it
      reads off the map page.  UiRefusal.v, UiRefusalSpec.v (browser.go, refusal.go,
      readouts.go): refusals; UiScript.v: one run of the emulator script.
      UiBoot.v, UiBootSpec.v (bootrestart.go): the reboot route.  Programs.v: the
      state-and-error programs both are written in.  UiMain.v: cmd/uiverify.

    ** State and interaction

    The server keeps no state of its own between requests: the database is a [DB]
    (one list per table, the partition catalog a map), and a handler is a computation
    [M (Response * N)] over a [World] - the tables, the environment of the statements
    still to come (fault, server clock, generated uuid of each) and a counter.  Every
    theorem quantifies over that environment, so it speaks of lost requests, lost
    replies and any clock; [quiet] is the environment without faults.  [N] is the
    notifier's state; the class [Notifier] (Notify.v) is what the server relies on and
    is implemented by the no-op notifier and by [EventNotifier] over a dispatcher.
    The dispatcher's goroutines (handlers that classify and enqueue, the worker, the
    registration handler that clears an endpoint) interleave by the step relation
    [sys_step]; its senders are the class [Senders], implemented in Senders.v.  A
    stream connection is the record [streamConn]; between two of its passes the
    database may change in any way, so a session is a list of (instant, world) pairs.
    The map page is the record [viewer]; what can happen to it - a click, a reply, an
    event or the loss of a connection - is a [happening], and a script that throws keeps
    what it did before.  In EndToEnd.v the events of a session are happenings of a page.
    A serving process at its end is the record [proc] under the step relation [step].

    A gate is a function of the tree it reads and of what the tools it runs answer.  A
    route of the UI harness acts on a state: the stack with the requests in flight (each
    critical section of a handler is one event), a browser session on that surface, or a
    device behind adb: a [Program] on that state, which an error ends.

    ** What the theorems show

    - Storage: any number of retries of a fix over a faulty connection leave exactly
      one row once one is acknowledged; an accepted fix is stored in its month whatever
      was provisioned; a refused one reaches no statement.
    - Crossings: each (device, Place) log stays increasing and alternating under any
      faults, without faults one evaluation appends exactly what the specification
      [settle] confirms beyond the log, and evaluating fix by fix or all at once gives
      one log.
    - Retention: no pass takes a row from the window; a pass without faults removes
      exactly the expired months; provisioning keeps the catalog's layout and always
      succeeds on it.
    - Credentials and scope: authentication means one unexpired row of the right table
      with that digest; rotation is atomic; without a live credential of the route's
      kind nothing is read, written or notified; writes touch the authenticated device
      only; reads are a function of the caller's family's rows; a registration reveals
      and touches nothing of other viewers.
    - Configuration: exactly which environments load, and what a loaded one guarantees.
    - Push: no delivery is lost or recorded twice, the ledger never counts a key that
      nobody handed over, closing drains, a crossing fans out to every endpoint of the
      family, and what each backend is sent.
    - The stream: what one pass sends, exactly; and over any session the values the
      watcher holds are the published function's at the last pass that read.  The page
      it runs in is served with a policy that admits what it names and no more.
    - The map page: whatever happens, its variables keep their types, an event costs at
      most itself, an interruption marks every row and freezes none as live, and the rows
      are exactly the devices held.  Fed by a session, with late answers beside it, it
      says what the stream announced, unconfirmed exactly while the server cannot read;
      an outage that ends leaves it with the published values, on a fresh connection and
      on a resumed one that has read before.  On a resumed connection that has not, a
      theorem says exactly when the first pass that reads ends the outage on the page.
    - Commands: a credential a command prints authenticates until it expires; a command
      that failed changed nothing unless the reply of a statement that took effect was
      lost ([serve] may have added partitions); a server only starts on a configuration
      and a database it can serve.
    - Gates: each passes exactly when what it is for holds - every dependency pinned and
      every demonstration red, every advisory reached and unrecorded refused, every
      counted line under the derived ceiling, no secret in the tree - and what it reads
      (streams, suppressions, records) is read exactly.
    - The UI harness: the record holds exactly when every convention is answered by
      evidence; the browser route is green exactly when every check was shown able to
      fail on the surface it broke; each check ends with a verdict of its own, and the
      policy the server sends is judged as meant; the rows the audit reads are those the
      page drew, and nothing escapes its sweeps; a missing engine is refused by name; a green reboot
      route went through every run, the disabled one red for the right reason, and
      gave root back last if it held it (whether that worked is not looked at).

    Loops with a stop condition carry fuel: the dispatcher's retry loop the number of
    attempts left, its drain the length of the queue, the eviction loop the length of
    the insertion order, the scanners and matchers (JSON, numbers, regular expressions,
    [strings] functions) the length of their input, the waits of the reboot route and of the
    rendered checks two more than the polls their budget has room for; each is shown to suffice where a
    theorem depends on it.

    ** Parameters

    Code that is not under src/ is a type class the definitions take: [PostGIS]
    (geometry, collation), [Unicode] (case folding beyond ASCII), [FloatText] and
    [FloatJson] (shortest decimals), [SHA256] (of which only the digest length is
    used), [NetURL], [RSA], [UUID] and the network oracle [Net]; for the gates the
    parsers and quoters of Go's library ([YAML], [GoQuote], [GoParser], [JUnit],
    [Times] and the like) and what git, the tools and the machine answer ([Host],
    [Machine], [Workbench], [Drivers]); the device [Phone] and the browser [Engine] with
    their clocks; and what a JavaScript engine computes with ([Browser], [Measures]).  The witnesses instantiate
    them with concrete functions.  Identifiers are strings: a uuid column holds the
    canonical text, so comparing texts is comparing uuids.

    ** Not modelled

    Texts of errors and logs of the service; TLS, timeouts and the recoverer middleware;
    the protocols of pgx, goose and net/http; two transactions interleaving inside one Go
    function (statements are atomic, functions are not, except where one runs in a
    transaction); of the map page the Leaflet layer, layout and paint, and names of
    properties every JavaScript object inherits as device ids; launching the browser
    engine and the DevTools protocol; the test containers (internal/testsupport); the
    Android client, which is another program in another language. *)

From Stdlib Require Import ZArith Lia String Ascii List Bool SpecFloat Sorted Permutation.
From stdpp Require Import base option list list_numbers strings gmap sorting.

Declare Scope go_scope.
Delimit Scope go_scope with go.
Global Open Scope Z_scope.
Global Open Scope go_scope.

(* ------------------------------------------------------------------ *)
(** ** Automation shared by the component files *)

(** Rewriting and resolution lemmas of the library are collected here. *)
Create HintDb tracker.
Create Rewrite HintDb tracker_rw.

(** Turns the boolean comparisons the code computes into propositions. *)
Ltac b2p :=
  repeat match goal with
  | H : (_ =? _)%Z = true |- _ => apply Z.eqb_eq in H
  | H : (_ =? _)%Z = false |- _ => apply Z.eqb_neq in H
  | H : (_ <? _)%Z = true |- _ => apply Z.ltb_lt in H
  | H : (_ <? _)%Z = false |- _ => apply Z.ltb_ge in H
  | H : (_ <=? _)%Z = true |- _ => apply Z.leb_le in H
  | H : (_ <=? _)%Z = false |- _ => apply Z.leb_gt in H
  | H : _ && _ = true |- _ => apply andb_true_iff in H; destruct H
  | H : _ || _ = false |- _ => apply orb_false_iff in H; destruct H
  | H : _ || _ = true |- _ => apply orb_true_iff in H
  | H : _ && _ = false |- _ => apply andb_false_iff in H
  | H : negb _ = true |- _ => apply negb_true_iff in H
  | H : negb _ = false |- _ => apply negb_false_iff in H
  | H : String.eqb _ _ = true |- _ => apply String.eqb_eq in H
  | H : String.eqb _ _ = false |- _ => apply String.eqb_neq in H
  end.

(** Splits the innermost [match] scrutinee of the goal, keeping its equation. *)
Ltac break :=
  match goal with
  | |- context [match ?x with _ => _ end] =>
      lazymatch x with
      | context [match _ with _ => _ end] => fail
      | _ => let E := fresh "E" in destruct x eqn:E
      end
  end.

(** The same in a hypothesis. *)
Ltac break_in H :=
  match type of H with
  | context [match ?x with _ => _ end] =>
      lazymatch x with
      | context [match _ with _ => _ end] => fail
      | _ => let E := fresh "E" in destruct x eqn:E
      end
  end.

Ltac crush := repeat (break; simplify_eq/=; try done); b2p; try lia.

(* ------------------------------------------------------------------ *)
(** ** Results: a Go [(value, error)] pair whose value is unused on error *)

Inductive result (E A : Type) : Type :=
| Ok (a : A)
| Err (e : E).
Arguments Ok {E A} a.
Arguments Err {E A} e.

Definition is_ok {E A} (r : result E A) : bool :=
  match r with Ok _ => true | Err _ => false end.

Definition rbind {E A B} (r : result E A) (f : A -> result E B) : result E B :=
  match r with Ok a => f a | Err e => Err e end.

Notation "'try' x ':=' c 'in' k" := (rbind c (fun x => k))
  (at level 10, x pattern, c at level 100, k at level 200) : go_scope.

(* ------------------------------------------------------------------ *)
(** ** Machine integers *)

Definition max_int64 : Z := 2^63 - 1.
Definition min_int64 : Z := - 2^63.

(** Two's-complement wrap-around of a 64-bit signed result. *)
Definition wrap64 (z : Z) : Z := (z + 2^63) mod 2^64 - 2^63.

Definition int64 (z : Z) : Prop := - 2^63 <= z < 2^63.

Lemma wrap64_id z : int64 z -> wrap64 z = z.
Proof. unfold wrap64, int64. intros H. rewrite Z.mod_small; lia. Qed.

Lemma wrap64_range z : int64 (wrap64 z).
Proof. unfold wrap64, int64. pose proof (Z.mod_pos_bound (z + 2^63) (2^64)). lia. Qed.

(** One turn past the top: the first overflow of a growing product. *)
Lemma wrap64_over z : 2^63 <= z < 2^63 + 2^64 -> wrap64 z = z - 2^64.
Proof.
  intros H. unfold wrap64.
  rewrite <- (Z.mod_unique (z + 2^63) (2^64) 1 (z + 2^63 - 2^64)); [lia|left; lia|lia].
Qed.

Lemma wrap64_wrap64_add a b : wrap64 (wrap64 a + b) = wrap64 (a + b).
Proof.
  unfold wrap64. f_equal.
  replace ((a + 2^63) mod 2^64 - 2^63 + b + 2^63) with ((a + 2^63) mod 2^64 + b) by lia.
  rewrite Zplus_mod_idemp_l. f_equal. lia.
Qed.

#[export] Hint Resolve wrap64_range : tracker.

(* ------------------------------------------------------------------ *)
(** ** IEEE-754 doubles: Go's [float64], as Stdlib's executable [spec_float] *)

Abbreviation float64 := spec_float.

(** The double nearest to an integer constant of the source. *)
Definition f64 (z : Z) : float64 := binary_normalize 53 1024 z 0 false.

Definition f_isNaN (f : float64) : bool := match f with S754_nan => true | _ => false end.
Definition f_isInf (f : float64) : bool := match f with S754_infinity _ => true | _ => false end.
Definition f_ltb (a b : float64) : bool := SFltb a b.
Definition f_leb (a b : float64) : bool := SFleb a b.
Definition f_eqb (a b : float64) : bool := SFeqb a b.
Definition f_div (a b : float64) : float64 := SFdiv 53 1024 a b.

(** Finite doubles are totally ordered: this is what makes a range check by
    [<] on both sides a range guarantee once NaN has been excluded. *)
Lemma f_not_ltb_leb a b : f_isNaN a = false -> f_isNaN b = false ->
  f_ltb a b = false -> f_leb b a = true.
Proof.
  unfold f_ltb, f_leb, SFltb, SFleb, f_isNaN.
  destruct a as [s| s| |s m e], b as [s'| s'| |s' m' e']; try done;
    try (destruct s; simpl; done); try (destruct s'; simpl; done);
    try (destruct s, s'; simpl; done).
  assert (Hp : Pos.compare_cont Eq m' m = CompOpp (Pos.compare_cont Eq m m'))
    by apply Pos.compare_antisym.
  destruct s, s'; simpl; try done;
    rewrite (Z.compare_antisym e e'); destruct (e ?= e'); simpl; try done;
    change (Pcompare m' m Eq) with (Pos.compare_cont Eq m' m); rewrite ?Hp;
    destruct (Pos.compare_cont Eq m m'); simpl; done.
Qed.

Lemma f_leb_not_ltb a b : f_leb a b = true -> f_ltb b a = false.
Proof.
  unfold f_ltb, f_leb, SFltb, SFleb.
  destruct a as [s| s| |s m e], b as [s'| s'| |s' m' e']; try done;
    try (destruct s; simpl; done); try (destruct s'; simpl; done);
    try (destruct s, s'; simpl; done).
  assert (Hp : Pos.compare_cont Eq m' m = CompOpp (Pos.compare_cont Eq m m'))
    by apply Pos.compare_antisym.
  destruct s, s'; simpl; try done;
    rewrite (Z.compare_antisym e e'); destruct (e ?= e'); simpl; try done;
    change (Pcompare m' m Eq) with (Pos.compare_cont Eq m' m); rewrite ?Hp;
    destruct (Pos.compare_cont Eq m m'); simpl; done.
Qed.

Lemma f_eqb_refl a : f_isNaN a = false -> f_eqb a a = true.
Proof.
  unfold f_eqb, SFeqb, f_isNaN. destruct a as [s|s| |s m e]; try done; [by destruct s|].
  unfold SFcompare. destruct s; rewrite Z.compare_refl;
    change (Pcompare m m Eq) with (Pos.compare_cont Eq m m); by rewrite Pos.compare_cont_refl.
Qed.

#[export] Instance float64_eq_dec : EqDecision float64.
Proof. solve_decision. Defined.

(* ------------------------------------------------------------------ *)
(** ** Sorting: [sort.SliceStable] with a boolean less-than *)

Section StableSort.
Context {A : Type} (lt : A -> A -> bool).

  (** Inserts an element that precedes every element of [l] in the input, so it
      goes before the ones it ties with. *)
Fixpoint insert_stable (x : A) (l : list A) : list A :=
    match l with
    | [] => [x]
    | y :: l' => if lt y x then y :: insert_stable x l' else x :: y :: l'
    end.

Definition stable_sort (l : list A) : list A := foldr insert_stable [] l.

Lemma insert_stable_perm x l : insert_stable x l ≡ₚ x :: l.
Proof.
  induction l as [|y l IH]; simpl; [done|].
  destruct (lt y x); [|done]. rewrite IH. apply Permutation_swap.
Qed.

Lemma stable_sort_perm l : stable_sort l ≡ₚ l.
Proof.
  induction l as [|x l IH]; simpl; [done|].
  rewrite insert_stable_perm. by constructor.
Qed.

  (** [le x y]: [y] is not strictly before [x]. *)
Definition sort_le (x y : A) : Prop := lt y x = false.

Hypothesis lt_asym : forall x y, lt x y = true -> lt y x = false.
Hypothesis lt_negtrans : forall x y z, lt y x = false -> lt z y = false -> lt z x = false.

Lemma insert_stable_sorted x l :
    StronglySorted sort_le l -> StronglySorted sort_le (insert_stable x l).
Proof.
  induction 1 as [|y l Hl IH Hy]; simpl; [repeat constructor|].
  destruct (lt y x) eqn:E.
  - constructor; [done|]. rewrite Forall_forall in Hy |- *. intros z Hz.
    rewrite insert_stable_perm in Hz. apply elem_of_cons in Hz as [->|Hz]; [|auto].
    by apply lt_asym.
  - constructor; [by constructor|]. constructor; [done|].
    rewrite Forall_forall in Hy |- *. intros z Hz. eapply lt_negtrans; eauto. by apply Hy.
Qed.

Lemma stable_sort_sorted l : StronglySorted sort_le (stable_sort l).
Proof. induction l; simpl; [constructor | by apply insert_stable_sorted]. Qed.

  (** A list that is already in order is left alone: a stable sort is the
      identity on sorted input. *)
Lemma stable_sort_id l : StronglySorted sort_le l -> stable_sort l = l.
Proof.
  induction 1 as [|y l Hl IH Hy]; simpl; [done|]. rewrite IH.
  destruct l as [|z l]; simpl; [done|]. inversion_clear Hy. by rewrite H.
Qed.

  (** When no two distinct elements tie, the result depends only on the set of
      elements: the input order is forgotten. *)
Lemma stable_sort_unique l l' :
    (forall x y, x ∈ l -> y ∈ l -> lt x y = false -> lt y x = false -> x = y) ->
    l ≡ₚ l' -> stable_sort l = stable_sort l'.
Proof.
  intros Htri Hp.
  assert (Hp' : stable_sort l ≡ₚ stable_sort l') by (by rewrite !stable_sort_perm).
  assert (Hin : forall x, x ∈ stable_sort l -> x ∈ l) by (intros x; by rewrite stable_sort_perm).
  pose proof (stable_sort_sorted l) as Hs. pose proof (stable_sort_sorted l') as Hs'.
  revert Hp' Hin Hs Hs'. generalize (stable_sort l) as k, (stable_sort l') as k'.
  clear Hp. intros k. induction k as [|x k IH]; intros k' Hp Hin Hs Hs'.
  - apply Permutation_nil in Hp. by subst.
  - destruct k' as [|x' k']; [by apply Permutation_sym, Permutation_nil in Hp|].
    inversion Hs as [|? ? Hk Hx]; subst. inversion Hs' as [|? ? Hk' Hx']; subst.
    assert (x = x') as <-.
    { assert (x' ∈ x :: k) as Hx1 by (rewrite Hp; by left).
      assert (x ∈ x' :: k') as Hx2 by (rewrite <- Hp; by left).
      apply elem_of_cons in Hx1 as [->|Hx1]; [done|].
      apply elem_of_cons in Hx2 as [->|Hx2]; [done|].
      rewrite Forall_forall in Hx, Hx'. apply Htri; [apply Hin; by left|..].
      - apply Hin. by right.
      - by apply Hx'.
      - by apply Hx. }
    f_equal. apply IH; auto.
    + by apply Permutation_cons_inv in Hp.
    + intros y Hy. apply Hin. by right.
Qed.
End StableSort.



(* ------------------------------------------------------------------ *)
(** ** Lists *)

(** The last element, as Go's [l\[len(l)-1\]]. *)
Lemma last_snoc_some {A} (l : list A) x : last (l ++ [x]) = Some x.
Proof. apply last_snoc. Qed.

Lemma StronglySorted_firstn {A} (R : A -> A -> Prop) n l : StronglySorted R l -> StronglySorted R (firstn n l).
Proof. intros H. rewrite <- (firstn_skipn n l) in H. by apply StronglySorted_app_1_l in H. Qed.

Lemma StronglySorted_weaken {A} (R R' : A -> A -> Prop) l :
  (forall x y, R x y -> R' x y) -> StronglySorted R l -> StronglySorted R' l.
Proof.
  intros HR. induction 1 as [|x l Hl IH Hx]; [constructor|]. constructor; [done|].
  eapply List.Forall_impl; [|exact Hx]. auto.
Qed.

Lemma StronglySorted_skipn {A} (R : A -> A -> Prop) n l : StronglySorted R l -> StronglySorted R (skipn n l).
Proof. intros H. rewrite <- (firstn_skipn n l) in H. by apply StronglySorted_app_1_r in H. Qed.

Lemma StronglySorted_snoc {A} (R : A -> A -> Prop) l x :
  StronglySorted R l -> (forall y, y ∈ l -> R y x) -> StronglySorted R (l ++ [x]).
Proof.
  induction 1 as [|y l Hl IH Hy]; simpl; intros Hx; [repeat constructor|]. constructor.
  - apply IH. intros z Hz. apply Hx. by right.
  - apply Forall_app. split; [done|]. constructor; [apply Hx; by left|constructor].
Qed.

Lemma StronglySorted_rev {A} (R : A -> A -> Prop) l : StronglySorted R l -> StronglySorted (fun x y => R y x) (rev l).
Proof.
  induction 1 as [|y l Hl IH Hy]; simpl; [constructor|]. apply StronglySorted_snoc; [done|].
  intros z Hz. rewrite <- Permutation_rev in Hz. rewrite Forall_forall in Hy. by apply Hy.
Qed.

Lemma StronglySorted_filter_b {A} (R : A -> A -> Prop) (f : A -> bool) l :
  StronglySorted R l -> StronglySorted R (List.filter f l).
Proof.
  induction 1 as [|x l Hl IH Hx]; simpl; [constructor|]. destruct (f x); [|done]. constructor; [done|].
  rewrite List.Forall_forall in *. intros y [Hy _]%filter_In. by apply Hx.
Qed.

Lemma filter_all {A} (f : A -> bool) l :
  (forall x, x ∈ l -> f x = true) -> List.filter f l = l.
Proof.
  induction l as [|x l IH]; simpl; [done|]. intros H.
  rewrite H by (by left). rewrite IH; [done|]. intros y Hy. apply H. by right.
Qed.

Lemma filter_none {A} (f : A -> bool) l :
  (forall x, x ∈ l -> f x = false) -> List.filter f l = [].
Proof.
  induction l as [|x l IH]; simpl; [done|]. intros H.
  rewrite H by (by left). apply IH. intros y Hy. apply H. by right.
Qed.

Lemma filter_filter_andb {A} (f g : A -> bool) l :
  List.filter f (List.filter g l) = List.filter (fun x => g x && f x) l.
Proof.
  induction l as [|x l IH]; simpl; [done|].
  destruct (g x); simpl; [destruct (f x)|]; by rewrite ?IH.
Qed.

Lemma filter_perm {A} (f : A -> bool) l l' : l ≡ₚ l' -> List.filter f l ≡ₚ List.filter f l'.
Proof.
  induction 1 as [|x l l' _ IH|x y l|l1 l2 l3 _ IH1 _ IH2]; simpl; [done| | |by transitivity (List.filter f l2)].
  - destruct (f x); [by constructor|done].
  - destruct (f x), (f y); try done. constructor.
Qed.

Lemma flat_map_ext_elem {A B} (f g : A -> list B) l :
  (forall x, x ∈ l -> f x = g x) -> flat_map f l = flat_map g l.
Proof.
  induction l as [|x l IH]; intros H; simpl; [done|].
  rewrite H by (by left). f_equal. apply IH. intros y Hy. apply H. by right.
Qed.

(** Splitting a filter on a second predicate. *)
Lemma filter_split_perm {A} (p q : A -> bool) l :
  List.filter (fun x => p x && negb (q x)) l ++ List.filter (fun x => p x && q x) l ≡ₚ List.filter p l.
Proof.
  induction l as [|x l IH]; simpl; [done|]. destruct (p x); simpl; [|done].
  destruct (q x); simpl; [|by constructor]. rewrite <- IH. symmetry. apply Permutation_middle.
Qed.

Lemma elem_of_filter_b {A} (f : A -> bool) l x :
  x ∈ List.filter f l <-> x ∈ l /\ f x = true.
Proof. rewrite !list_elem_of_In. apply filter_In. Qed.

Lemma find_some_elem {A} (f : A -> bool) l x :
  List.find f l = Some x -> x ∈ l /\ f x = true.
Proof. intros H. apply find_some in H as [H1 H2]. by rewrite list_elem_of_In. Qed.

Lemma filter_nil_iff {A} (f : A -> bool) l : List.filter f l = [] <-> forall x, x ∈ l -> f x = false.
Proof.
  induction l as [|x l IH]; simpl; [split; [by intros _ ? ?%elem_of_nil|done]|]. setoid_rewrite elem_of_cons.
  destruct (f x) eqn:E; [split; [done|intros H; rewrite H in E; [done|by left]]|]. rewrite IH. naive_solver.
Qed.

Lemma existsb_elem {A} (f : A -> bool) l :
  existsb f l = true <-> exists x, x ∈ l /\ f x = true.
Proof. rewrite existsb_exists. by setoid_rewrite list_elem_of_In. Qed.

Lemma existsb_elem_false {A} (f : A -> bool) l :
  existsb f l = false <-> forall x, x ∈ l -> f x = false.
Proof.
  split.
  - intros H x Hx. destruct (f x) eqn:E; [|done].
    exfalso. apply not_true_iff_false in H. apply H, existsb_elem. eauto.
  - intros H. apply not_true_iff_false. intros (x & Hx & E)%existsb_elem.
    rewrite H in E; done.
Qed.

(** Two conjunctions with the same left part, compared under it. *)
Lemma and_iff_congr (P Q R : Prop) : (P -> (Q <-> R)) -> (P /\ Q <-> P /\ R).
Proof. tauto. Qed.

(** Looking a row up by a unique key. *)
Section UniqueKey.
Context {R : Type} (key : R -> string).

Lemma filter_unique_key (p : R -> bool) l r : NoDup (map key l) -> r ∈ l ->
  List.filter (fun x => String.eqb (key x) (key r) && p x) l = if p r then [r] else [].
Proof.
  induction l as [|x l IH]; csimpl; [by intros _ ?%elem_of_nil|].
  intros [Hx Hd]%NoDup_cons [->|Hr]%elem_of_cons.
  - rewrite String.eqb_refl. simpl. rewrite (filter_none _ l); [done|].
    intros y Hy. destruct (String.eqb_spec (key y) (key x)) as [E|]; [|done].
    destruct Hx. rewrite <- E. by apply list_elem_of_fmap_2.
  - destruct (String.eqb_spec (key x) (key r)) as [E|]; simpl; [|by apply IH].
    destruct Hx. rewrite E. by apply list_elem_of_fmap_2.
Qed.

Lemma filter_missing_key (p : R -> bool) l k : ~ k ∈ map key l ->
  List.filter (fun x => String.eqb (key x) k && p x) l = [].
Proof.
  intros Hk. apply filter_none. intros x Hx. destruct (String.eqb_spec (key x) k) as [E|]; [|done].
  destruct Hk. rewrite <- E. by apply list_elem_of_fmap_2.
Qed.

Lemma unique_key_eq l r r' : NoDup (map key l) -> r ∈ l -> r' ∈ l -> key r = key r' -> r = r'.
Proof.
  intros Hd Hr Hr' E. pose proof (filter_unique_key (fun _ => true) l r Hd Hr) as H1.
  pose proof (filter_unique_key (fun _ => true) l r' Hd Hr') as H2. rewrite E in H1.
  simpl in *. congruence.
Qed.

Lemma NoDup_snoc_key l r : NoDup (map key l) -> existsb (fun x => String.eqb (key x) (key r)) l = false ->
  NoDup (map key (l ++ [r])).
Proof.
  intros Hd He. rewrite map_app. apply NoDup_app. split; [done|]. split; [|apply NoDup_singleton].
  simpl. intros k (x & -> & Hx)%list_elem_of_fmap H%list_elem_of_singleton.
  apply (proj1 (existsb_elem_false _ _)) with (x := x) in He; [|done].
  by rewrite H, String.eqb_refl in He.
Qed.
End UniqueKey.

#[export] Hint Rewrite @stable_sort_perm @elem_of_filter_b : tracker_rw.
