(* ===== verification/GoTime.v ===== *)
(** Go's [time] package as the source uses it: instants without a monotonic
    reading ([Time] is the [ext]/[nsec] pair of the library: seconds since
    January 1 of year 1 UTC, an int64, and nanoseconds within the second),
    durations (int64 nanoseconds), the proleptic Gregorian month arithmetic of
    [time.Date] and [AddDate], and the order and range lemmas the components
    share.  [nanos] maps an instant to the integer line; the comparison lemmas
    state that [Before], [After] and [Equal] are [<], [>] and [=] there. *)

From S2P Require Import Prelude.
From Stdlib Require Import ZArith Lia Bool.
From stdpp Require Import base option list.
Local Open Scope Z_scope.

Record Time := mkTime { t_sec : Z; t_nsec : Z }.

#[export] Instance Time_eq_dec : EqDecision Time.
Proof. solve_decision. Defined.

Definition second : Z := 1000000000.
Definition minute : Z := 60 * second.
Definition hour : Z := 60 * minute.
Definition millisecond : Z := 1000000.
Definition microsecond : Z := 1000.

Definition wf_time (t : Time) : Prop := int64 (t_sec t) /\ 0 <= t_nsec t < second.

Definition zero_time : Time := mkTime 0 0.
Definition IsZero (t : Time) : bool := (t_sec t =? 0) && (t_nsec t =? 0).

Definition Before (a b : Time) : bool :=
  (t_sec a <? t_sec b) || ((t_sec a =? t_sec b) && (t_nsec a <? t_nsec b)).
Definition After (a b : Time) : bool := Before b a.
Definition Equal (a b : Time) : bool := (t_sec a =? t_sec b) && (t_nsec a =? t_nsec b).

(** Seconds between January 1 of year 1 and the Unix epoch. *)
Definition unix_to_internal : Z := 62135596800.

Definition Unix_secs (t : Time) : Z := wrap64 (t_sec t - unix_to_internal).
Definition Nanosecond (t : Time) : Z := t_nsec t.
Definition UnixMicro (t : Time) : Z :=
  wrap64 (wrap64 (Unix_secs t * 1000000) + t_nsec t / 1000).

(** [time.Unix(sec, nsec)], normalising the nanoseconds as the library does. *)
Definition Unix (sec nsec : Z) : Time :=
  if (nsec <? 0) || (nsec >=? second) then
    let n := Z.quot nsec second in
    let sec := wrap64 (sec + n) in
    let nsec := nsec - n * second in
    if nsec <? 0 then mkTime (wrap64 (wrap64 (sec - 1) + unix_to_internal)) (nsec + second)
    else mkTime (wrap64 (sec + unix_to_internal)) nsec
  else mkTime (wrap64 (sec + unix_to_internal)) nsec.

(** [time.UnixMicro(usec)]. *)
Definition UnixMicro_time (usec : Z) : Time :=
  Unix (Z.quot usec 1000000) (Z.rem usec 1000000 * 1000).

(** [addSec]: the one place the library saturates instead of wrapping. *)
Definition addSec (s d : Z) : Z :=
  let sum := wrap64 (s + d) in
  if Bool.eqb (s <? sum) (0 <? d) then sum
  else if 0 <? d then max_int64 else - max_int64.

(** [t.Add(d)], [d] in nanoseconds. *)
Definition Add (t : Time) (d : Z) : Time :=
  let dsec := Z.quot d second in
  let nsec := t_nsec t + Z.rem d second in
  if nsec >=? second then mkTime (addSec (t_sec t) (dsec + 1)) (nsec - second)
  else if nsec <? 0 then mkTime (addSec (t_sec t) (dsec - 1)) (nsec + second)
  else mkTime (addSec (t_sec t) dsec) nsec.

(* ------------------------------------------------------------------ *)
(** ** The integer line *)

Definition nanos (t : Time) : Z := t_sec t * second + t_nsec t.

(** An instant far enough from the ends of the int64 range that adding any
    int64 duration (292 years at most) stays inside it. *)
Definition sane_time (t : Time) : Prop :=
  - 2^62 <= t_sec t < 2^62 /\ 0 <= t_nsec t < second.

Lemma sane_wf t : sane_time t -> wf_time t.
Proof. unfold sane_time, wf_time, int64. lia. Qed.

Lemma Before_nanos a b : wf_time a -> wf_time b ->
  Before a b = (nanos a <? nanos b).
Proof.
  unfold wf_time, Before, nanos, second. intros [_ Ha] [_ Hb].
  destruct (Z.ltb_spec (t_sec a) (t_sec b)), (Z.eqb_spec (t_sec a) (t_sec b)),
    (Z.ltb_spec (t_nsec a) (t_nsec b)),
    (Z.ltb_spec (t_sec a * 1000000000 + t_nsec a) (t_sec b * 1000000000 + t_nsec b));
    simpl; try done; nia.
Qed.

Lemma Before_irrefl t : Before t t = false.
Proof. unfold Before. rewrite Z.ltb_irrefl, Z.eqb_refl, Z.ltb_irrefl. done. Qed.

Lemma Before_trans a b c : Before a b = true -> Before b c = true -> Before a c = true.
Proof.
  unfold Before. intros H1 H2. b2p.
  apply orb_true_iff. destruct H1, H2; b2p;
  try (left; apply Z.ltb_lt; lia).
  right. apply andb_true_iff. split; [apply Z.eqb_eq|apply Z.ltb_lt]; lia.
Qed.

Lemma Before_asym a b : Before a b = true -> Before b a = false.
Proof.
  intros H. destruct (Before b a) eqn:E; [|done].
  pose proof (Before_trans _ _ _ H E) as F. by rewrite Before_irrefl in F.
Qed.

Lemma Before_total a b : Before a b = false -> Before b a = false -> a = b.
Proof.
  unfold Before. destruct a as [s n], b as [s' n']; simpl.
  intros [Hs Hn]%orb_false_iff [Hs' Hn']%orb_false_iff. b2p.
  assert (s = s') by lia. subst. rewrite Z.eqb_refl in *. simpl in *. b2p. f_equal. lia.
Qed.

Lemma Before_negtrans a b c : Before b a = false -> Before c b = false -> Before c a = false.
Proof.
  intros H1 H2. destruct (Before c a) eqn:E; [|done].
  destruct (Before a b) eqn:E2.
  - pose proof (Before_trans _ _ _ E E2). congruence.
  - rewrite (Before_total a b E2 H1) in E. congruence.
Qed.

Lemma Equal_eq a b : Equal a b = true <-> a = b.
Proof.
  unfold Equal. destruct a, b; simpl. rewrite andb_true_iff, !Z.eqb_eq.
  split; [intros []; by subst | intros; by simplify_eq].
Qed.

#[export] Hint Resolve Before_irrefl Before_trans Before_asym Before_total Before_negtrans : tracker.

Lemma addSec_exact s d : - 2^62 <= s < 2^62 -> - 2^61 <= d <= 2^61 -> addSec s d = s + d.
Proof.
  intros Hs Hd. unfold addSec. rewrite wrap64_id by (unfold int64; lia).
  destruct (Z.ltb_spec s (s + d)), (Z.ltb_spec 0 d); simpl; lia.
Qed.

(** Away from the ends of the range, [Add] is addition. *)
Lemma Add_nanos t d : sane_time t -> int64 d ->
  nanos (Add t d) = nanos t + d /\ wf_time (Add t d).
Proof.
  intros [Hs Hn] Hd. unfold Add, int64 in *.
  assert (Hq : - 2^60 <= Z.quot d second <= 2^60).
  { unfold second. pose proof (Z.quot_rem' d 1000000000).
    pose proof (Z.rem_bound_abs d 1000000000). lia. }
  pose proof (Z.quot_rem' d second) as Hqr.
  assert (Hr : - second < Z.rem d second < second).
  { pose proof (Z.rem_bound_abs d second). unfold second in *. lia. }
  unfold wf_time, nanos, int64. unfold second in *.
  destruct (Z.geb_spec (t_nsec t + Z.rem d 1000000000) 1000000000); simpl;
    [|destruct (Z.ltb_spec (t_nsec t + Z.rem d 1000000000) 0); simpl];
    rewrite addSec_exact by lia; split; lia.
Qed.

(** The seconds/nanoseconds borrow of a difference of two instants. *)
Lemma nanos_sub_div a b : 0 <= t_nsec a < second -> 0 <= t_nsec b < second ->
  (nanos a - nanos b) / second =
  t_sec a - t_sec b - (if t_nsec a <? t_nsec b then 1 else 0).
Proof.
  unfold nanos, second. intros Ha Hb.
  symmetry. apply Z.div_unique with
    (r := t_nsec a - t_nsec b + (if t_nsec a <? t_nsec b then 1000000000 else 0)).
  - left. destruct (Z.ltb_spec (t_nsec a) (t_nsec b)); lia.
  - destruct (Z.ltb_spec (t_nsec a) (t_nsec b)); lia.
Qed.
