(* ===== verification/Presentation.v ===== *)
(** The presentation component ([internal/presentation/presentation.go]): the
    one word every surface publishes for a device, computed from the evaluation
    instant, the device's last contact and the operator's windows.  The age is
    the int64 subtraction of the code; [AgeSeconds_floor] says it is the whole
    seconds of the true difference, floored at zero, and the sweep-bound lemmas
    are what the stream's poll cadence rests on. *)

From S2P Require Import Prelude GoTime.
From Stdlib Require Import ZArith Lia Bool String List.
From stdpp Require Import base option list strings.
Local Open Scope Z_scope.

(** [Value]: the constructors stand for the four wire tokens. *)
Inductive Value := NoPosition | Live | Recent | Stale.

#[export] Instance Value_eq_dec : EqDecision Value.
Proof. solve_decision. Defined.

Definition token (v : Value) : string :=
  match v with
  | NoPosition => "no-position"
  | Live => "live"
  | Recent => "recent"
  | Stale => "stale"
  end.

Definition Values : list Value := [NoPosition; Live; Recent; Stale].

(** [Valid] on the raw wire string. *)
Definition Valid (s : string) : bool := existsb (fun v => String.eqb s (token v)) Values.

Record Windows := mkWindows { LiveSeconds : Z; StaleSeconds : Z }.

(** The pair [config.Load] lets through. *)
Definition valid_windows (w : Windows) : Prop :=
  1 <= LiveSeconds w /\ LiveSeconds w < StaleSeconds w /\ StaleSeconds w <= max_int64.

Definition AgeSeconds (evaluationInstant lastContact : Time) : Z :=
  let secs := wrap64 (Unix_secs evaluationInstant - Unix_secs lastContact) in
  let secs :=
    if Nanosecond evaluationInstant - Nanosecond lastContact <? 0
    then wrap64 (secs - 1) else secs in
  if secs <? 0 then 0 else secs.

Definition Evaluate (evaluationInstant : Time) (lastContact : option Time) (w : Windows) : Value :=
  match lastContact with
  | None => NoPosition
  | Some lc =>
      let age := AgeSeconds evaluationInstant lc in
      if age <=? LiveSeconds w then Live
      else if age <=? StaleSeconds w then Recent
      else Stale
  end.

Definition SweepBound (w : Windows) : Z :=
  let band := wrap64 (StaleSeconds w - LiveSeconds w) in
  let smaller := LiveSeconds w in
  let smaller := if band <? smaller then band else smaller in
  let b := Z.quot smaller 2 in
  if b >? 1 then b else 1.

(* ------------------------------------------------------------------ *)
(** ** Lemmas *)

Lemma token_inj v v' : token v = token v' -> v = v'.
Proof. destruct v, v'; simpl; intros; by try discriminate. Qed.

Lemma Unix_secs_sane t : sane_time t -> Unix_secs t = t_sec t - unix_to_internal.
Proof.
  intros [H _]. unfold Unix_secs, unix_to_internal in *. apply wrap64_id. unfold int64. lia.
Qed.

(** The code's borrow is the floor of the true difference. *)
Lemma AgeSeconds_floor e l : sane_time e -> sane_time l ->
  AgeSeconds e l = Z.max 0 ((nanos e - nanos l) / second).
Proof.
  intros He Hl. unfold AgeSeconds. rewrite !Unix_secs_sane by done.
  destruct He as [He Hen], Hl as [Hl Hln].
  rewrite nanos_sub_div by done. unfold Nanosecond.
  replace (t_sec e - unix_to_internal - (t_sec l - unix_to_internal)) with (t_sec e - t_sec l) by lia.
  rewrite (wrap64_id (t_sec e - t_sec l)) by (unfold int64; lia).
  destruct (Z.ltb_spec (t_nsec e - t_nsec l) 0), (Z.ltb_spec (t_nsec e) (t_nsec l)); try lia.
  - rewrite (wrap64_id (t_sec e - t_sec l - 1)) by (unfold int64; lia).
    destruct (Z.ltb_spec (t_sec e - t_sec l - 1) 0); lia.
  - destruct (Z.ltb_spec (t_sec e - t_sec l) 0); lia.
Qed.

Lemma AgeSeconds_nonneg e l : 0 <= AgeSeconds e l.
Proof. unfold AgeSeconds. cbv zeta. match goal with |- context [if ?x <? 0 then 0 else _] => destruct (Z.ltb_spec x 0) end; lia. Qed.

Lemma AgeSeconds_mono e e' l : sane_time e -> sane_time e' -> sane_time l ->
  nanos e <= nanos e' -> AgeSeconds e l <= AgeSeconds e' l.
Proof.
  intros He He' Hl Hle. rewrite !AgeSeconds_floor by done.
  pose proof (Z.div_le_mono (nanos e - nanos l) (nanos e' - nanos l) second).
  unfold second in *. lia.
Qed.

(** Advancing the clock by [b] whole seconds ages a device by at most [b]. *)
Lemma AgeSeconds_step e e' l b : sane_time e -> sane_time e' -> sane_time l -> 0 <= b ->
  nanos e' <= nanos e + b * second -> AgeSeconds e' l <= AgeSeconds e l + b.
Proof.
  intros He He' Hl Hb Hle. rewrite !AgeSeconds_floor by done.
  assert ((nanos e' - nanos l) / second <= (nanos e - nanos l) / second + b); [|lia].
  rewrite <- Z.div_add by (unfold second; lia).
  apply Z.div_le_mono; unfold second in *; lia.
Qed.

Lemma SweepBound_spec w : valid_windows w ->
  SweepBound w = Z.max 1 (Z.min (LiveSeconds w) (StaleSeconds w - LiveSeconds w) / 2).
Proof.
  intros (H1 & H2 & H3). unfold SweepBound, max_int64 in *.
  rewrite wrap64_id by (unfold int64; lia).
  destruct (Z.ltb_spec (StaleSeconds w - LiveSeconds w) (LiveSeconds w));
    rewrite Z.quot_div_nonneg by lia; rewrite Z.gtb_ltb;
    [rewrite Z.min_r by lia | rewrite Z.min_l by lia];
    match goal with |- context [1 <? ?x] => destruct (Z.ltb_spec 1 x) end; lia.
Qed.

Lemma SweepBound_pos w : 1 <= SweepBound w.
Proof. unfold SweepBound. cbv zeta. match goal with |- context [?x >? 1] => destruct (Z.gtb_spec x 1) end; lia. Qed.

Lemma SweepBound_band w : valid_windows w -> SweepBound w <= StaleSeconds w - LiveSeconds w.
Proof. intros H. rewrite SweepBound_spec by done. destruct H as (? & ? & ?).
  pose proof (Z.div_le_upper_bound (Z.min (LiveSeconds w) (StaleSeconds w - LiveSeconds w)) 2
    (StaleSeconds w - LiveSeconds w)). lia. Qed.

#[export] Hint Resolve AgeSeconds_nonneg SweepBound_pos : tracker.

Lemma Evaluate_no_position e lc w : Evaluate e lc w = NoPosition <-> lc = None.
Proof. destruct lc; simpl; [|done]. repeat break; done. Qed.

(** How stale a value is: the precedence order of [Values]. *)
Definition staleness (v : Value) : Z :=
  match v with NoPosition => 0 | Live => 1 | Recent => 2 | Stale => 3 end.

(* ------------------------------------------------------------------ *)
(** ** Properties *)

(** Classification is a total partition of the ages: a device is
    [no-position] exactly when it has no last contact, and otherwise its value
    is decided by the whole seconds elapsed (floored at zero under clock skew)
    against the two half-open boundaries. *)
Theorem Evaluate_classifies (e : Time) (lc : option Time) (w : Windows) :
  valid_windows w -> sane_time e -> (forall l, lc = Some l -> sane_time l) ->
  match lc with
  | None => Evaluate e lc w = NoPosition
  | Some l =>
      let age := Z.max 0 ((nanos e - nanos l) / second) in
      (Evaluate e lc w = Live <-> age <= LiveSeconds w) /\
      (Evaluate e lc w = Recent <-> LiveSeconds w < age <= StaleSeconds w) /\
      (Evaluate e lc w = Stale <-> StaleSeconds w < age)
  end.
Proof.
  intros (? & ? & ?) He Hl. destruct lc as [l|]; [|done]. simpl.
  rewrite <- AgeSeconds_floor by auto.
  destruct (Z.leb_spec (AgeSeconds e l) (LiveSeconds w));
    [|destruct (Z.leb_spec (AgeSeconds e l) (StaleSeconds w))];
    repeat split; intros; try done; lia.
Qed.

Definition t_noon : Time := mkTime 63900000000 0.
Definition t_contact : Time := mkTime 63899999879 600000000.

(** At 120.4 seconds the device is still [live] under the default windows. *)
Lemma Evaluate_classifies_witness :
  let w := mkWindows 120 900 in
  valid_windows w /\ sane_time t_noon /\ Evaluate t_noon (Some t_contact) w = Live.
Proof.
  split; [unfold valid_windows, max_int64; simpl; lia|].
  split; [unfold sane_time, second; simpl; lia|].
  assert (Hw : valid_windows (mkWindows 120 900)) by (unfold valid_windows, max_int64; simpl; lia).
  assert (He : sane_time t_noon) by (unfold sane_time, second; simpl; lia).
  assert (Hl : forall l, Some t_contact = Some l -> sane_time l)
    by (intros l [= <-]; unfold sane_time, second; simpl; lia).
  destruct (Evaluate_classifies t_noon (Some t_contact) (mkWindows 120 900) Hw He Hl) as [[_ H] _].
  apply H. vm_compute. discriminate.
Defined.

(** Re-evaluating within the sweep bound cannot step over a state: a device
    that is [live] at one evaluation and has had no further contact is, at any
    evaluation at most [SweepBound] seconds later, still [live] or [recent] -
    never already [stale] - and its value never gets fresher by waiting. *)
Theorem SweepBound_never_skips_recent (e e' l : Time) (w : Windows) :
  valid_windows w -> sane_time e -> sane_time e' -> sane_time l ->
  nanos e <= nanos e' <= nanos e + SweepBound w * second ->
  (Evaluate e (Some l) w = Live -> Evaluate e' (Some l) w <> Stale) /\
  staleness (Evaluate e (Some l) w) <= staleness (Evaluate e' (Some l) w).
Proof.
  intros Hw He He' Hl [H1 H2].
  pose proof (AgeSeconds_mono e e' l He He' Hl H1) as Hmono.
  pose proof (SweepBound_pos w). pose proof (SweepBound_band w Hw).
  pose proof (AgeSeconds_step e e' l (SweepBound w) He He' Hl ltac:(lia) H2).
  destruct Hw as (? & ? & ?). simpl.
  destruct (Z.leb_spec (AgeSeconds e l) (LiveSeconds w)), (Z.leb_spec (AgeSeconds e' l) (LiveSeconds w)),
    (Z.leb_spec (AgeSeconds e l) (StaleSeconds w)), (Z.leb_spec (AgeSeconds e' l) (StaleSeconds w));
    simpl; (split; [intros; try done|]); lia.
Qed.

Lemma SweepBound_never_skips_recent_witness :
  let w := mkWindows 5 10 in
  SweepBound w = 2 /\
  Evaluate (mkTime 105 0) (Some (mkTime 100 0)) w = Live /\
  Evaluate (mkTime 107 0) (Some (mkTime 100 0)) w <> Stale.
Proof.
  split; [reflexivity|]. split; [reflexivity|].
  apply (SweepBound_never_skips_recent (mkTime 105 0) (mkTime 107 0) (mkTime 100 0) (mkWindows 5 10));
    try (unfold sane_time, valid_windows, max_int64, second; simpl; lia); try reflexivity.
  vm_compute. split; discriminate.
Defined.
