(* ===== verification/GoStrings.v ===== *)
(** Go's [strings], [strconv] and number formatting as the source uses them, on
    byte strings (Stdlib's [string] is a list of bytes, as a Go string is).
    White space is Unicode's: [TrimSpace] knows the UTF-8 encodings of the
    non-ASCII spaces.  Case folding beyond ASCII needs the Unicode tables, which
    are data of the library, and is a field of the class [Unicode]. *)

From S2P Require Import Prelude.
From Stdlib Require Import ZArith Lia Bool String Ascii List.
From stdpp Require Import base option list strings.
Local Open Scope string_scope.
Local Open Scope Z_scope.

Definition byte_of (n : Z) : ascii := ascii_of_nat (Z.to_nat n).
Definition code (c : ascii) : Z := Z.of_nat (nat_of_ascii c).

Fixpoint to_list (s : string) : list ascii :=
  match s with EmptyString => [] | String c s' => c :: to_list s' end.
Fixpoint of_list (l : list ascii) : string :=
  match l with [] => EmptyString | c :: l' => String c (of_list l') end.

Lemma of_to_list s : of_list (to_list s) = s.
Proof. induction s; simpl; congruence. Qed.
Lemma to_of_list l : to_list (of_list l) = l.
Proof. induction l; simpl; congruence. Qed.
Lemma of_list_inj l l' : of_list l = of_list l' -> l = l'.
Proof. intros H. by rewrite <- (to_of_list l), H, to_of_list. Qed.
Lemma to_list_inj s s' : to_list s = to_list s' -> s = s'.
Proof. intros H. by rewrite <- (of_to_list s), H, of_to_list. Qed.
Lemma to_list_app s s' : to_list (s ++ s') = (to_list s ++ to_list s')%list.
Proof. induction s; simpl; [done|]. by rewrite IHs. Qed.

Lemma sapp_assoc (a b c : string) : (a ++ b) ++ c = a ++ (b ++ c).
Proof. induction a as [|x a IH]; [done|]. exact (f_equal (String x) IH). Qed.
Lemma sapp_nil_r (a : string) : a ++ "" = a.
Proof. induction a as [|x a IH]; [done|]. exact (f_equal (String x) IH). Qed.

Definition len (s : string) : Z := Z.of_nat (String.length s).

Lemma length_to_list s : List.length (to_list s) = String.length s.
Proof. induction s; simpl; congruence. Qed.

(* ------------------------------------------------------------------ *)
(** ** strings *)

(** [strings.HasPrefix(s, p)]. *)
Definition HasPrefix (s p : string) : bool := String.prefix p s.

Fixpoint drop_prefix (p s : list ascii) : option (list ascii) :=
  match p, s with
  | [], _ => Some s
  | c :: p', d :: s' => if Ascii.eqb c d then drop_prefix p' s' else None
  | _ :: _, [] => None
  end.

Fixpoint index_list (s sub : list ascii) : option nat :=
  match drop_prefix sub s with
  | Some _ => Some 0%nat
  | None => match s with [] => None | _ :: s' => option_map S (index_list s' sub) end
  end.

(** [strings.Index], [None] for -1. *)
Definition Index (s sub : string) : option nat := index_list (to_list s) (to_list sub).
Definition Contains (s sub : string) : bool := match Index s sub with Some _ => true | None => false end.

(** [strings.ContainsAny(s, chars)] for ASCII [chars]. *)
Definition ContainsAny (s chars : string) : bool :=
  existsb (fun c => existsb (Ascii.eqb c) (to_list chars)) (to_list s).

Definition TrimPrefix (s p : string) : string :=
  match drop_prefix (to_list p) (to_list s) with Some r => of_list r | None => s end.

Definition drop_suffix (p s : list ascii) : option (list ascii) :=
  option_map (@rev ascii) (drop_prefix (rev p) (rev s)).
Definition HasSuffix (s p : string) : bool :=
  match drop_suffix (to_list p) (to_list s) with Some _ => true | None => false end.
Definition TrimSuffix (s p : string) : string :=
  match drop_suffix (to_list p) (to_list s) with Some r => of_list r | None => s end.

(** [strings.Cut(s, sep)]: before, after, found. *)
Definition Cut (s sep : string) : string * string * bool :=
  match Index s sep with
  | Some i =>
      (of_list (firstn i (to_list s)),
       of_list (skipn (i + List.length (to_list sep)) (to_list s)), true)
  | None => (s, "", false)
  end.

(** [strings.Split(s, sep)] for a one-byte separator. *)
Fixpoint split_list (c : ascii) (s acc : list ascii) : list (list ascii) :=
  match s with
  | [] => [rev acc]
  | d :: s' => if Ascii.eqb c d then rev acc :: split_list c s' [] else split_list c s' (d :: acc)
  end.
Definition Split (s : string) (c : ascii) : list string := map of_list (split_list c (to_list s) []).

(** [strings.Join]. *)
Fixpoint Join (l : list string) (sep : string) : string :=
  match l with
  | [] => ""
  | [x] => x
  | x :: l' => x ++ sep ++ Join l' sep
  end.

(** The UTF-8 encodings of the runes [unicode.IsSpace] accepts. *)
Definition space_runes : list (list ascii) :=
  map (map byte_of)
    ([[9]; [10]; [11]; [12]; [13]; [32]; [194; 133]; [194; 160];
      [225; 154; 128]; [226; 128; 168]; [226; 128; 169]; [226; 128; 175];
      [226; 129; 159]; [227; 128; 128]] ++
     map (fun k => [226; 128; k]) [128; 129; 130; 131; 132; 133; 134; 135; 136; 137; 138])%list.

Fixpoint strip_one (rs : list (list ascii)) (s : list ascii) : option (list ascii) :=
  match rs with
  | [] => None
  | r :: rs' => match drop_prefix r s with Some s' => Some s' | None => strip_one rs' s end
  end.

(** Drops leading runes of [rs]; one step per byte is enough, since a rune has
    at least one byte. *)
Fixpoint strip (fuel : nat) (rs : list (list ascii)) (s : list ascii) : list ascii :=
  match fuel with
  | O => s
  | S f => match strip_one rs s with Some s' => strip f rs s' | None => s end
  end.

Definition strip_all (rs : list (list ascii)) (s : list ascii) : list ascii :=
  strip (List.length s) rs s.

Definition TrimLeftSpace (s : list ascii) : list ascii := strip_all space_runes s.
Definition TrimRightSpace (s : list ascii) : list ascii :=
  rev (strip_all (map (@rev ascii) space_runes) (rev s)).
Definition TrimSpace (s : string) : string :=
  of_list (TrimRightSpace (TrimLeftSpace (to_list s))).

(** ASCII case mapping. *)
Definition is_upper (c : ascii) : bool := (65 <=? code c) && (code c <=? 90).
Definition is_lower (c : ascii) : bool := (97 <=? code c) && (code c <=? 122).
Definition is_digit (c : ascii) : bool := (48 <=? code c) && (code c <=? 57).
Definition lower_byte (c : ascii) : ascii := if is_upper c then byte_of (code c + 32) else c.
Definition upper_byte (c : ascii) : ascii := if is_lower c then byte_of (code c - 32) else c.
Definition is_ascii (s : string) : bool := forallb (fun c => code c <? 128) (to_list s).
Definition ascii_lower (s : string) : string := of_list (map lower_byte (to_list s)).
Definition ascii_upper (s : string) : string := of_list (map upper_byte (to_list s)).

(** The Unicode case tables: how the library maps a string that is not ASCII. *)
Class Unicode := {
  map_lower : string -> string;
  map_upper : string -> string;
  fold_equal : string -> string -> bool }.

Definition ToLower `{Unicode} (s : string) : string :=
  if is_ascii s then ascii_lower s else map_lower s.
Definition ToUpper `{Unicode} (s : string) : string :=
  if is_ascii s then ascii_upper s else map_upper s.
Definition EqualFold `{Unicode} (s t : string) : bool :=
  if is_ascii s && is_ascii t then String.eqb (ascii_lower s) (ascii_lower t) else fold_equal s t.

(** A table that knows only ASCII, for concrete evaluation. *)
Definition ascii_unicode : Unicode := {|
  map_lower := ascii_lower; map_upper := ascii_upper;
  fold_equal := fun s t => String.eqb (ascii_lower s) (ascii_lower t) |}.

(** Byte order of strings: Go's [<]. *)
Fixpoint list_ltb (a b : list ascii) : bool :=
  match a, b with
  | _, [] => false
  | [], _ :: _ => true
  | x :: a', y :: b' => (code x <? code y) || ((code x =? code y) && list_ltb a' b')
  end.
Definition str_ltb (a b : string) : bool := list_ltb (to_list a) (to_list b).

(* ------------------------------------------------------------------ *)
(** ** strconv *)

Inductive num_error := ErrSyntax | ErrRange.

Definition digit (c : ascii) : option Z := if is_digit c then Some (code c - 48) else None.

(** [strconv.ParseUint(s, 10, 64)]'s loop, with its early range error. *)
Fixpoint parse_uint (s : list ascii) (n : Z) : result num_error Z :=
  match s with
  | [] => Ok n
  | c :: s' =>
      match digit c with
      | None => Err ErrSyntax
      | Some d =>
          if 1844674407370955162 <=? n then Err ErrRange
          else
            let n1 := n * 10 + d in
            if 2^64 <=? n1 then Err ErrRange else parse_uint s' n1
      end
  end.

(** [strconv.ParseInt(s, 10, 64)]; [strconv.Atoi] agrees with it on 64 bits. *)
Definition ParseInt (s : string) : result num_error Z :=
  match to_list s with
  | [] => Err ErrSyntax
  | c :: s' =>
      let neg := Ascii.eqb c "-"%char in
      let body := if neg || Ascii.eqb c "+"%char then s' else c :: s' in
      match body with
      | [] => Err ErrSyntax
      | _ =>
          match parse_uint body 0 with
          | Err e => Err e
          | Ok un =>
              if negb neg && (2^63 <=? un) then Err ErrRange
              else if neg && (2^63 <? un) then Err ErrRange
              else Ok (if neg then - un else un)
          end
      end
  end.
Definition Atoi (s : string) : result num_error Z := ParseInt s.

(** Decimal digits of a non-negative integer, most significant first. *)
Fixpoint digits_aux (fuel : nat) (n : Z) (acc : list ascii) : list ascii :=
  match fuel with
  | O => acc
  | S f =>
      let acc := byte_of (48 + n mod 10) :: acc in
      if n / 10 =? 0 then acc else digits_aux f (n / 10) acc
  end.
Definition digits (n : Z) : list ascii := digits_aux (S (Z.to_nat (Z.log2 n))) n [].

(** [strconv.Itoa] / [%d]. *)
Definition Itoa (n : Z) : string :=
  if n <? 0 then String "-"%char (of_list (digits (- n))) else of_list (digits n).

(** [%0wd]: the width counts the sign. *)
Definition Itoa_pad (w : nat) (n : Z) : string :=
  if n <? 0 then
    let ds := digits (- n) in
    String "-"%char (of_list (repeat "0"%char (w - 1 - List.length ds) ++ ds)%list)
  else
    let ds := digits n in of_list (repeat "0"%char (w - List.length ds) ++ ds)%list.

(* ------------------------------------------------------------------ *)
(** ** Lemmas *)

Lemma digits_aux_app fuel n acc : digits_aux fuel n acc = (digits_aux fuel n [] ++ acc)%list.
Proof.
  revert n acc. induction fuel as [|f IH]; intros n acc; simpl; [done|].
  destruct (n / 10 =? 0); [done|]. rewrite IH. rewrite (IH _ [_]). by rewrite <- app_assoc.
Qed.

Lemma code_range c : 0 <= code c < 256.
Proof. unfold code. pose proof (nat_ascii_bounded c). lia. Qed.

Lemma code_byte_of n : 0 <= n < 256 -> code (byte_of n) = n.
Proof. intros H. unfold code, byte_of. rewrite nat_ascii_embedding by lia. lia. Qed.

(** The value of a digit string. *)
Fixpoint value_of (l : list ascii) (n : Z) : Z :=
  match l with [] => n | c :: l' => value_of l' (n * 10 + (code c - 48)) end.

Lemma value_of_app l l' n : value_of (l ++ l')%list n = value_of l' (value_of l n).
Proof. revert n. induction l; intros; simpl; auto. Qed.

Lemma digits_aux_value fuel n : 0 <= n < 2 ^ Z.of_nat fuel -> value_of (digits_aux fuel n []) 0 = n.
Proof.
  revert n. induction fuel as [|f IH]; intros n Hn; simpl.
  - simpl in Hn. lia.
  - assert (Hc : code (byte_of (48 + n mod 10)) = 48 + n mod 10).
    { apply code_byte_of. pose proof (Z.mod_pos_bound n 10). lia. }
    destruct (Z.eqb_spec (n / 10) 0) as [E|E]; simpl.
    + rewrite Hc. pose proof (Z.div_mod n 10). lia.
    + rewrite digits_aux_app, value_of_app, IH; simpl.
      * rewrite Hc. pose proof (Z.div_mod n 10). lia.
      * rewrite Nat2Z.inj_succ, Z.pow_succ_r in Hn by lia.
        split; [apply Z.div_pos; lia|]. apply Z.div_lt_upper_bound; lia.
Qed.

Lemma digits_value n : 0 <= n -> value_of (digits n) 0 = n.
Proof.
  intros H. unfold digits. apply digits_aux_value. split; [done|].
  rewrite Nat2Z.inj_succ, Z2Nat.id by apply Z.log2_nonneg.
  destruct (Z.eq_dec n 0) as [->|]; [done|]. apply Z.log2_spec. lia.
Qed.

Lemma value_of_zeros k l : value_of (repeat "0"%char k ++ l)%list 0 = value_of l 0.
Proof. induction k; simpl; [done|]. exact IHk. Qed.

(** Padded printing of non-negative integers is injective. *)
Lemma Itoa_pad_inj w n m : 0 <= n -> 0 <= m -> Itoa_pad w n = Itoa_pad w m -> n = m.
Proof.
  intros Hn Hm. unfold Itoa_pad.
  destruct (Z.ltb_spec n 0), (Z.ltb_spec m 0); try lia.
  intros E%of_list_inj. apply (f_equal (fun l => value_of l 0)) in E.
  by rewrite !value_of_zeros, !digits_value in E by done.
Qed.

Lemma digits_digit n c : 0 <= n -> c ∈ digits n -> is_digit c = true.
Proof.
  unfold digits. generalize (S (Z.to_nat (Z.log2 n))). intros f. revert n.
  induction f as [|f IH]; intros n Hn; simpl; [by intros ?%elem_of_nil|].
  assert (Hd : is_digit (byte_of (48 + n mod 10)) = true).
  { pose proof (Z.mod_pos_bound n 10). unfold is_digit. rewrite code_byte_of by lia.
    apply andb_true_iff. rewrite !Z.leb_le. lia. }
  destruct (n / 10 =? 0).
  - intros ->%list_elem_of_singleton. done.
  - rewrite digits_aux_app, elem_of_app, list_elem_of_singleton. intros [H| ->]; [|done].
    eapply IH; [|exact H]. apply Z.div_pos; lia.
Qed.
Lemma list_ltb_irrefl a : list_ltb a a = false.
Proof. induction a as [|x a IH]; simpl; [done|]. rewrite Z.ltb_irrefl, Z.eqb_refl. done. Qed.

Lemma code_inj x y : code x = code y -> x = y.
Proof. unfold code. intros H. rewrite <- (ascii_nat_embedding x), <- (ascii_nat_embedding y). f_equal. lia. Qed.

Lemma list_ltb_trans a b c : list_ltb a b = true -> list_ltb b c = true -> list_ltb a c = true.
Proof.
  revert b c. induction a as [|x a IH]; intros [|y b] [|z c]; simpl; try done.
  rewrite !orb_true_iff, !andb_true_iff, !Z.ltb_lt, !Z.eqb_eq.
  intros [H|[H1 H2]] [H'|[H1' H2']]; try (left; lia). right. split; [lia|eauto].
Qed.

Lemma list_ltb_total a b : list_ltb a b = false -> list_ltb b a = false -> a = b.
Proof.
  revert b. induction a as [|x a IH]; intros [|y b]; simpl; try done.
  rewrite !orb_false_iff, !Z.ltb_ge. intros [H1 H2] [H3 H4].
  assert (E : code x = code y) by lia. rewrite (code_inj x y E) in *. rewrite Z.eqb_refl in *.
  simpl in *. f_equal. auto.
Qed.

Lemma str_ltb_irrefl a : str_ltb a a = false.
Proof. apply list_ltb_irrefl. Qed.
Lemma str_ltb_trans a b c : str_ltb a b = true -> str_ltb b c = true -> str_ltb a c = true.
Proof. apply list_ltb_trans. Qed.
Lemma str_ltb_total a b : str_ltb a b = false -> str_ltb b a = false -> a = b.
Proof. intros H1 H2. apply to_list_inj. by apply list_ltb_total. Qed.
Lemma str_ltb_asym a b : str_ltb a b = true -> str_ltb b a = false.
Proof.
  intros H. destruct (str_ltb b a) eqn:E; [|done].
  pose proof (str_ltb_trans _ _ _ H E) as F. by rewrite str_ltb_irrefl in F.
Qed.
Lemma str_ltb_negtrans a b c : str_ltb b a = false -> str_ltb c b = false -> str_ltb c a = false.
Proof.
  intros H1 H2. destruct (str_ltb c a) eqn:E; [|done].
  destruct (str_ltb a b) eqn:E2.
  - pose proof (str_ltb_trans _ _ _ E E2). congruence.
  - rewrite (str_ltb_total a b E2 H1) in E. congruence.
Qed.

#[export] Hint Resolve str_ltb_irrefl str_ltb_trans str_ltb_total str_ltb_asym str_ltb_negtrans : tracker.
