(* ===== verification/Occurs.v ===== *)
(** Occurrences of one text in another, and the lines of a text: what [strings.Index],
    [strings.Contains] and [strings.Split] answer, stated on lists of bytes. *)

From Stdlib Require Import ZArith Lia Bool String Ascii List.
From stdpp Require Import base option list strings.
From S2P Require Import Prelude GoStrings.
Local Open Scope string_scope.
Local Open Scope Z_scope.

(* ------------------------------------------------------------------ *)
(** ** Occurrences *)

Definition occurs (l w : list ascii) : Prop := exists a b, l = (a ++ w ++ b)%list.

Lemma drop_prefix_some p : forall l r, drop_prefix p l = Some r <-> l = (p ++ r)%list.
Proof.
  induction p as [|c p IH]; intros [|d l] r; simpl; try (split; congruence).
  destruct (Ascii.eqb_spec c d) as [->|Hne]; [rewrite IH; split; congruence|split; congruence].
Qed.
Lemma index_list_none w : forall l, index_list l w = None <-> ~ occurs l w.
Proof.
  assert (Hhere : forall l, drop_prefix w l = None <-> ~ exists b, l = (w ++ b)%list).
  { intros l. destruct (drop_prefix w l) as [r|] eqn:E.
    - apply drop_prefix_some in E. split; [done|]. intros []. by exists r.
    - split; [|done]. intros _ [b Hb]. apply drop_prefix_some in Hb. congruence. }
  induction l as [|c l IH]; unfold index_list; fold index_list.
  - destruct (drop_prefix w []) eqn:E.
    + apply drop_prefix_some in E. split; [done|]. intros []. by exists [], l.
    + apply Hhere in E. split; [|done]. intros _ (a & b & H). apply E. destruct a; [by exists b|done].
  - destruct (drop_prefix w (c :: l)) eqn:E.
    + apply drop_prefix_some in E. split; [done|]. intros []. by exists [], l0.
    + apply Hhere in E. transitivity (index_list l w = None); [by destruct (index_list l w)|]. rewrite IH. unfold occurs. split.
      * intros Hl (a & b & H). destruct a as [|a0 a]; [by apply E; exists b|]. injection H as <- H. apply Hl. by exists a, b.
      * intros Hl (a & b & H). apply Hl. exists (c :: a), b. by rewrite H.
Qed.
Lemma Contains_false s w : Contains s w = false <-> ~ occurs (to_list s) (to_list w).
Proof. unfold Contains, Index. rewrite <- index_list_none. by destruct (index_list _ _). Qed.
Lemma Contains_true s w : Contains s w = true <-> occurs (to_list s) (to_list w).
Proof.
  destruct (Contains s w) eqn:E; [|split; [done|intros H; by apply Contains_false in E]].
  split; [intros _|done]. unfold Contains, Index in E. destruct (index_list (to_list s) (to_list w)) eqn:E2; [|done]. clear E.
  generalize dependent n. generalize (to_list s) as l. induction l as [|c l IH]; unfold index_list; fold index_list; intros n.
  - destruct (drop_prefix (to_list w) []) eqn:E; [|done]. apply drop_prefix_some in E. intros _. by exists [], l.
  - destruct (drop_prefix (to_list w) (c :: l)) eqn:E; [apply drop_prefix_some in E; intros _; by exists [], l0|].
    destruct (index_list l (to_list w)) eqn:E2; [|done]. intros _. destruct (IH _ eq_refl) as (a & b & ->). by exists (c :: a), b.
Qed.
Lemma Contains_mid a w b : Contains (a ++ w ++ b) w = true.
Proof. apply Contains_true. rewrite !to_list_app. by exists (to_list a), (to_list b). Qed.

(** A word that a separator does not occur in lies on one side of it. *)
Lemma occurs_sep a c b w : c ∉ w -> occurs (a ++ c :: b) w -> occurs a w \/ occurs b w.
Proof.
  intros Hc (x & y & H). destruct (app_eq_inv a (c :: b) x (w ++ y) H) as [(k & Ha & Hb)|(k & Hx & Hw)].
  - destruct (app_eq_inv w y k (c :: b) Hb) as [(m & Hw & Hm)|(m & Hk & Hm)].
    + destruct m as [|d m]; [left; exists x, []; subst; by rewrite !app_nil_r|]. injection Hm as <- ->.
      exfalso. apply Hc. subst w. apply elem_of_app. right. left.
    + left. exists x, m. subst. done.
  - destruct k as [|d k].
    + simpl in Hw. destruct w as [|e w]; [right; by exists [], b|]. injection Hw as <- Hw. exfalso. apply Hc. left.
    + injection Hw as <- Hw. right. by exists k, y.
Qed.
Lemma occurs_middle a b c w : occurs b w -> occurs (a ++ b ++ c) w.
Proof. intros (x & y & ->). exists (a ++ x)%list, (y ++ c)%list. by rewrite <- !app_assoc. Qed.

(** The lines of a text. *)
Lemma split_list_app c a : forall b acc, split_list c (a ++ c :: b) acc = (split_list c a acc ++ split_list c b [])%list.
Proof.
  induction a as [|d a IH]; intros b acc; simpl; [by rewrite (proj2 (Ascii.eqb_eq c c) eq_refl)|].
  destruct (Ascii.eqb c d); simpl; by rewrite IH.
Qed.
Lemma Split_app a c b : Split (a ++ String c b) c = (Split a c ++ Split b c)%list.
Proof. unfold Split. rewrite to_list_app. cbn [to_list]. by rewrite split_list_app, map_app. Qed.
Lemma split_list_part c l : forall acc part, part ∈ split_list c l acc -> exists a b, (rev acc ++ l)%list = (a ++ part ++ b)%list.
Proof.
  induction l as [|d l IH]; intros acc part; simpl.
  - intros ->%list_elem_of_singleton. by exists [], [].
  - destruct (Ascii.eqb c d).
    + intros [->|H]%elem_of_cons; [by exists [], (d :: l)|]. apply IH in H as (a & b & H). simpl in H. exists (rev acc ++ d :: a)%list, b. rewrite H. by rewrite <- app_assoc.
    + intros H. apply IH in H as (a & b & H). exists a, b. rewrite <- H. simpl. by rewrite <- app_assoc.
Qed.
Lemma Split_part s c line w : line ∈ Split s c -> Contains line w = true -> Contains s w = true.
Proof.
  unfold Split. intros (part & -> & H)%list_elem_of_fmap. apply split_list_part in H as (a & b & H). simpl in H.
  rewrite !Contains_true, H, to_of_list. apply occurs_middle.
Qed.
