(* ===== verification/Calendar.v ===== *)
(** The proleptic Gregorian calendar behind [time.Date], [Year], [Month] and
    [AddDate], in UTC.  Months are counted from January of year 0; the day
    arithmetic runs on years that start in March, so the leap day is the last
    day of its year and every month starts at a fixed day of the year.  The
    lemmas the partition code needs: month starts are strictly increasing, a
    month has between 28 and 31 days, and every instant lies in exactly the
    month its [Year] and [Month] name. *)

From S2P Require Import Prelude GoTime.
From Stdlib Require Import ZArith Lia Bool.
From stdpp Require Import base option list.
Local Open Scope Z_scope.

Definition seconds_per_day : Z := 86400.

(** First day of March-year [y], in days from March 1 of year 0. *)
Definition march_year_start (y : Z) : Z := 365 * y + y / 4 - y / 100 + y / 400.

(** First day of the month [k] months after March of year 0. *)
Definition march_month_start (k : Z) : Z :=
  march_year_start (k / 12) + (153 * (k mod 12) + 2) / 5.

(** The March-year a day falls in: an estimate from the mean length of a year,
    corrected by at most one. *)
Definition march_year_of (d : Z) : Z :=
  let y := (400 * d) / 146097 in
  if d <? march_year_start y then y - 1
  else if march_year_start (y + 1) <=? d then y + 1
  else y.

Definition march_month_of (d : Z) : Z :=
  let y := march_year_of d in
  12 * y + (5 * (d - march_year_start y) + 2) / 153.

(** Days from January 1 of year 1 (day 0) to the start of civil month [c],
    counted from January of year 0. *)
Definition month_day (c : Z) : Z := march_month_start (c - 2) - 306.

Definition day_of (t : Time) : Z := t_sec t / seconds_per_day.

(** The civil month of an instant: [12 * Year + (Month - 1)]. *)
Definition month_index (t : Time) : Z := march_month_of (day_of t + 306) + 2.

Definition Year (t : Time) : Z := month_index t / 12.
Definition Month (t : Time) : Z := month_index t mod 12 + 1.
Definition Day (t : Time) : Z := day_of t - month_day (month_index t) + 1.

(** [time.Date(y, m, d, 0, 0, s, ns, UTC)], with [m] and [d] normalised. *)
Definition Date (y m d s ns : Z) : Time :=
  mkTime (seconds_per_day * (month_day (12 * y + (m - 1)) + (d - 1)) + s) ns.

(** [t.AddDate(years, months, days)]. *)
Definition AddDate (t : Time) (years months days : Z) : Time :=
  Date (Year t + years) (Month t + months) (Day t + days)
       (t_sec t mod seconds_per_day) (t_nsec t).

(* ------------------------------------------------------------------ *)
(** ** Lemmas *)

Lemma march_year_start_bounds y :
  146097 * y - 800 < 400 * march_year_start y < 146097 * y + 400.
Proof.
  unfold march_year_start.
  pose proof (Z.div_mod y 4 ltac:(lia)). pose proof (Z.mod_pos_bound y 4 ltac:(lia)).
  pose proof (Z.div_mod y 100 ltac:(lia)). pose proof (Z.mod_pos_bound y 100 ltac:(lia)).
  pose proof (Z.div_mod y 400 ltac:(lia)). pose proof (Z.mod_pos_bound y 400 ltac:(lia)).
  lia.
Qed.

(** A year has 365 or 366 days. *)
Lemma march_year_length y :
  365 <= march_year_start (y + 1) - march_year_start y <= 366.
Proof.
  unfold march_year_start.
  assert (H4 : (y + 1) / 4 = y / 4 \/ ((y + 1) / 4 = y / 4 + 1 /\ (y + 1) mod 4 = 0)).
  { Z.to_euclidean_division_equations; lia. }
  assert (H100 : (y + 1) / 100 = y / 100 \/
    ((y + 1) / 100 = y / 100 + 1 /\ (y + 1) mod 100 = 0)).
  { Z.to_euclidean_division_equations; lia. }
  assert (H400 : (y + 1) / 400 = y / 400 \/
    ((y + 1) / 400 = y / 400 + 1 /\ (y + 1) mod 400 = 0)).
  { Z.to_euclidean_division_equations; lia. }
  assert ((y + 1) mod 100 = 0 -> (y + 1) / 4 = y / 4 + 1) by (Z.to_euclidean_division_equations; lia).
  assert ((y + 1) mod 400 = 0 -> (y + 1) / 100 = y / 100 + 1) by (Z.to_euclidean_division_equations; lia).
  lia.
Qed.

Lemma march_year_of_spec d :
  march_year_start (march_year_of d) <= d < march_year_start (march_year_of d + 1).
Proof.
  unfold march_year_of. set (y := 400 * d / 146097).
  assert (Hy : 146097 * y <= 400 * d < 146097 * y + 146097).
  { subst y. pose proof (Z.div_mod (400 * d) 146097 ltac:(lia)).
    pose proof (Z.mod_pos_bound (400 * d) 146097 ltac:(lia)). lia. }
  pose proof (march_year_start_bounds y). pose proof (march_year_start_bounds (y + 1)).
  pose proof (march_year_start_bounds (y + 2)). pose proof (march_year_start_bounds (y - 1)).
  replace (y + 1 + 1) with (y + 2) by lia.
  destruct (Z.ltb_spec d (march_year_start y)).
  - replace (y - 1 + 1) with y by lia. lia.
  - destruct (Z.leb_spec (march_year_start (y + 1)) d).
    + replace (y + 1 + 1) with (y + 2) by lia. lia.
    + lia.
Qed.

Lemma march_month_start_split y m : 0 <= m < 12 ->
  march_month_start (12 * y + m) = march_year_start y + (153 * m + 2) / 5.
Proof.
  intros Hm. unfold march_month_start.
  replace ((12 * y + m) / 12) with y by (Z.to_euclidean_division_equations; lia).
  replace ((12 * y + m) mod 12) with m by (Z.to_euclidean_division_equations; lia).
  done.
Qed.

(** The start of the following month, within a year and across its end. *)
Lemma march_month_start_next y m : 0 <= m < 12 ->
  march_month_start (12 * y + m + 1) =
  if m =? 11 then march_year_start (y + 1) else march_year_start y + (153 * (m + 1) + 2) / 5.
Proof.
  intros Hm. destruct (Z.eqb_spec m 11).
  - subst. replace (12 * y + 11 + 1) with (12 * (y + 1) + 0) by lia.
    rewrite march_month_start_split by lia. change ((153 * 0 + 2) / 5) with 0. lia.
  - rewrite <- Z.add_assoc, march_month_start_split by lia. done.
Qed.

Lemma march_month_length k : 28 <= march_month_start (k + 1) - march_month_start k <= 31.
Proof.
  rewrite (Z.div_mod k 12) by lia. set (y := k / 12). set (m := k mod 12).
  assert (0 <= m < 12) by (apply Z.mod_pos_bound; lia).
  rewrite march_month_start_next, march_month_start_split by lia.
  pose proof (march_year_length y).
  destruct (Z.eqb_spec m 11) as [->|].
  - change ((153 * 11 + 2) / 5) with 337. lia.
  - Z.to_euclidean_division_equations; lia.
Qed.

Lemma march_month_of_spec d :
  march_month_start (march_month_of d) <= d < march_month_start (march_month_of d + 1).
Proof.
  unfold march_month_of. set (y := march_year_of d).
  pose proof (march_year_of_spec d) as Hy. fold y in Hy.
  pose proof (march_year_length y). set (n := d - march_year_start y).
  assert (0 <= n <= 365) by lia.
  assert (Hm : 0 <= (5 * n + 2) / 153 < 12) by (Z.to_euclidean_division_equations; lia).
  rewrite march_month_start_split, march_month_start_next by done.
  destruct (Z.eqb_spec ((5 * n + 2) / 153) 11) as [E|E]; [|clear E];
    Z.to_euclidean_division_equations; lia.
Qed.

Lemma month_day_next c : 28 <= month_day (c + 1) - month_day c <= 31.
Proof.
  unfold month_day. replace (c + 1 - 2) with (c - 2 + 1) by lia.
  pose proof (march_month_length (c - 2)). lia.
Qed.

Lemma month_day_le c c' : c <= c' -> month_day c + 28 * (c' - c) <= month_day c'.
Proof.
  intros H. remember (Z.to_nat (c' - c)) as n eqn:Hn.
  assert (c' = c + Z.of_nat n) as -> by lia. clear H Hn.
  induction n as [|n IH].
  - rewrite Z.add_0_r. lia.
  - pose proof (month_day_next (c + Z.of_nat n)).
    replace (c + Z.of_nat (S n)) with (c + Z.of_nat n + 1) by lia. lia.
Qed.

Lemma month_day_lt c c' : month_day c < month_day c' <-> c < c'.
Proof.
  destruct (Z.le_gt_cases c' c) as [H|H].
  - pose proof (month_day_le _ _ H). split; intros; lia.
  - pose proof (month_day_le c c'). split; intros; lia.
Qed.

Lemma month_day_inj c c' : month_day c = month_day c' -> c = c'.
Proof.
  intros H. pose proof (month_day_lt c c'). pose proof (month_day_lt c' c). lia.
Qed.

Lemma month_index_spec t :
  month_day (month_index t) <= day_of t < month_day (month_index t + 1).
Proof.
  unfold month_day, month_index.
  replace (march_month_of (day_of t + 306) + 2 - 2) with (march_month_of (day_of t + 306)) by lia.
  replace (march_month_of (day_of t + 306) + 2 + 1 - 2) with (march_month_of (day_of t + 306) + 1) by lia.
  pose proof (march_month_of_spec (day_of t + 306)). lia.
Qed.

(** The civil month is determined by the interval the day falls in. *)
Lemma month_index_unique t c : month_day c <= day_of t < month_day (c + 1) -> month_index t = c.
Proof.
  intros H. pose proof (month_index_spec t).
  pose proof (month_day_lt (month_index t) (c + 1)).
  pose proof (month_day_lt c (month_index t + 1)). lia.
Qed.

Lemma Year_Month_index t : 12 * Year t + (Month t - 1) = month_index t.
Proof. unfold Year, Month. pose proof (Z.div_mod (month_index t) 12). lia. Qed.

Lemma Month_range t : 1 <= Month t <= 12.
Proof. unfold Month. pose proof (Z.mod_pos_bound (month_index t) 12). lia. Qed.

Lemma day_of_seconds n s ns : 0 <= s < seconds_per_day ->
  day_of (mkTime (seconds_per_day * n + s) ns) = n.
Proof.
  unfold day_of, seconds_per_day. simpl. intros. Z.to_euclidean_division_equations; lia.
Qed.
