(* ===== verification/Database.v ===== *)
(** The PostgreSQL + PostGIS database the store package talks to.

    The schema is the one of [internal/db/migrations]: a record per table, one
    field per column the Go code reads or writes; the keys and checks of the
    migrations are the guards of the statements that insert.  PostGIS itself is not under src/: its functions are
    the operations of the class [PostGIS].  A statement is a function from the
    tables to a result and the new tables; [exec] runs it the way a client sees
    it run - it may fail before it reaches the server ([LostRequest]) or its
    reply may be lost after it took effect ([LostReply]), and the database clock
    and generated uuid come from the environment, so every theorem about a Go
    function quantifies over them.  [M] is the state monad of the Go functions
    over the database; [let*] sequences, [let?] also returns early on an error
    the way [if err != nil { return err }] does. *)

From Stdlib Require Import ZArith Lia Bool String Ascii List SpecFloat.
From stdpp Require Import base option list strings gmap.
From S2P Require Import Prelude GoTime GoStrings.
Local Open Scope Z_scope.

(** PostGIS and PostgreSQL's text functions, as the SQL of the store uses them. *)
Class PostGIS := {
  geopoint : Type;                                   (* geography(Point,4326) *)
  geoarea : Type;                                    (* geography(Polygon,4326) *)
  ST_Point : float64 -> float64 -> geopoint;         (* ST_Point(lon, lat, 4326)::geography *)
  ST_X : geopoint -> float64;
  ST_Y : geopoint -> float64;
  ST_Covers : geoarea -> geopoint -> bool;
  ST_DWithin : geopoint -> geopoint -> float64 -> bool;
  ST_Distance : geopoint -> geopoint -> float64;
  ST_GeogFromText : string -> option geoarea;        (* None: a parse error *)
  ST_IsValid : geoarea -> bool;
  ST_IsValidReason : geoarea -> string;
  ST_AsGeoJSON : geoarea -> string;
  collate_ltb : string -> string -> bool;            (* ORDER BY on a text column *)
  pg_lower : string -> string;                        (* lower() under the database's locale *)
}.

(** [*pgconn.PgError]: the SQLSTATE and the primary message. *)
Record pgerror := mkPgError { Code : string; Message : string }.

(** Go errors, as [errors.Is] and [errors.As] tell them apart; [%w] wrapping
    keeps the kind, and the text around it is not modelled. *)
Inductive error :=
| EPg (e : pgerror)
| ENoRows
| ErrUnrecognizedPartition
| ErrCoordinateOutOfRange
| ErrTimestampOutOfWindow
| ErrInvalidTokenHash
| ErrUnknownToken
| ErrUnknownDevice
| ErrUnknownGeofence
| ErrInvalidGeofence
| ErrInvalidPushProvider
| EText (msg : string).

(* ------------------------------------------------------------------ *)
(** ** Tables *)

Record family_row := mkFamily { fam_id : string; fam_name : string }.

Record device_row := mkDevice {
  dev_id : string; dev_family_id : string; dev_name : string;
  dev_token_hash : string; dev_expires_at : option Time }.

Record viewer_row := mkViewer {
  vw_id : string; vw_family_id : string; vw_email : string; vw_display_name : string;
  vw_token_hash : string; vw_expires_at : option Time }.

Record event_row := mkEvent {
  ev_id : string; ev_device_id : string; ev_geofence_id : string;
  ev_transition : string; ev_fix_ts : Time }.

Record sub_row := mkSub {
  sub_id : string; sub_viewer_id : string; sub_provider : string; sub_token : string }.

(** Partition bounds: [BMin]/[BMax] are MINVALUE and MAXVALUE, whose catalog
    text holds no timestamp literal. *)
Inductive bound := BMin | BAt (t : Time) | BMax.

Inductive table_kind :=
| FixesPart (lo hi : bound)     (* a range partition of fixes *)
| OtherRelation.                (* anything else of that name *)

Section Rows.
Context `{G : PostGIS}.

Record fix_row := mkFixRow {
    fr_device_id : string; fr_ts : Time; fr_location : geopoint;
    fr_accuracy_m : option float64; fr_battery_pct : option Z; fr_speed_mps : option float64;
    fr_trigger_reason : option string; fr_msg_id : option string;
    fr_received_at : Time }.

Record geofence_row := mkGeofence {
    gf_id : string; gf_family_id : string; gf_name : string; gf_area : geoarea }.

Record DB := mkDB {
    families : list family_row;
    devices : list device_row;
    viewers : list viewer_row;
    fixes : list fix_row;
    geofences : list geofence_row;
    geofence_events : list event_row;
    push_subscriptions : list sub_row;
    relations : gmap string table_kind }.

Definition empty_db : DB := mkDB [] [] [] [] [] [] [] ∅.

Definition set_families x (d : DB) := mkDB x (devices d) (viewers d) (fixes d) (geofences d) (geofence_events d) (push_subscriptions d) (relations d).
Definition set_devices x (d : DB) := mkDB (families d) x (viewers d) (fixes d) (geofences d) (geofence_events d) (push_subscriptions d) (relations d).
Definition set_viewers x (d : DB) := mkDB (families d) (devices d) x (fixes d) (geofences d) (geofence_events d) (push_subscriptions d) (relations d).
Definition set_fixes x (d : DB) := mkDB (families d) (devices d) (viewers d) x (geofences d) (geofence_events d) (push_subscriptions d) (relations d).
Definition set_geofences x (d : DB) := mkDB (families d) (devices d) (viewers d) (fixes d) x (geofence_events d) (push_subscriptions d) (relations d).
Definition set_events x (d : DB) := mkDB (families d) (devices d) (viewers d) (fixes d) (geofences d) x (push_subscriptions d) (relations d).
Definition set_subs x (d : DB) := mkDB (families d) (devices d) (viewers d) (fixes d) (geofences d) (geofence_events d) x (relations d).
Definition set_relations x (d : DB) := mkDB (families d) (devices d) (viewers d) (fixes d) (geofences d) (geofence_events d) (push_subscriptions d) x.

  (* ---------------------------------------------------------------- *)
  (** *** The statement environment and the client monad *)

Inductive fault := NoFault | LostRequest (e : pgerror) | LostReply (e : pgerror).

Record stmt_env := mkStmtEnv { se_fault : fault; se_now : Time; se_uuid : string }.

Record World := mkWorld { w_db : DB; w_env : nat -> stmt_env; w_next : nat }.

Definition M (A : Type) : Type := World -> A * World.

Definition ret {A} (a : A) : M A := fun w => (a, w).
Definition bind {A B} (m : M A) (f : A -> M B) : M B :=
    fun w => let '(a, w') := m w in f a w'.
Definition bindr {E A B} (m : M (result E A)) (f : A -> M (result E B)) : M (result E B) :=
    bind m (fun r => match r with Ok a => f a | Err e => ret (Err e) end).

Definition exec {A} (stmt : stmt_env -> DB -> result pgerror A * DB) : M (result error A) :=
    fun w =>
      let env := w_env w (w_next w) in
      let step := mkWorld (w_db w) (w_env w) (S (w_next w)) in
      match se_fault env with
      | LostRequest e => (Err (EPg e), step)
      | LostReply e =>
          (Err (EPg e), mkWorld (snd (stmt env (w_db w))) (w_env w) (S (w_next w)))
      | NoFault =>
          let '(r, db') := stmt env (w_db w) in
          (match r with Ok a => Ok a | Err e => Err (EPg e) end,
           mkWorld db' (w_env w) (S (w_next w)))
      end.

  (** A statement that only reads. *)
Definition query {A} (q : stmt_env -> DB -> A) : M (result error A) :=
    exec (fun env db => (Ok (q env db), db)).

  (** [QueryRow(...).Scan(...)]: no row is [pgx.ErrNoRows]. *)
Definition query_row {A} (q : stmt_env -> DB -> list A) : M (result error A) :=
    bindr (query q) (fun rows =>
      match rows with [] => ret (Err ENoRows) | r :: _ => ret (Ok r) end).

  (** No statement fails from here on. *)
Definition quiet (w : World) : Prop :=
    forall n, (w_next w <= n)%nat -> se_fault (w_env w n) = NoFault.
End Rows.

Arguments M {G} A.

Notation "'let*' x ':=' c 'in' k" := (bind c (fun x => k))
  (at level 10, x pattern, c at level 100, k at level 200) : go_scope.
Notation "'let?' x ':=' c 'in' k" := (bindr c (fun x => k))
  (at level 10, x pattern, c at level 100, k at level 200) : go_scope.

(** The double-quote character. *)
Definition dquote : string := String (Ascii.ascii_of_nat 34) EmptyString.

(* SQLSTATEs the code or the schema can raise *)
Local Open Scope string_scope.
Definition unique_violation : pgerror := mkPgError "23505" "duplicate key value violates unique constraint".
Definition foreign_key_violation : pgerror := mkPgError "23503" "insert or update on table violates foreign key constraint".
Definition check_violation : pgerror := mkPgError "23514" "new row violates check constraint".
Definition no_partition : pgerror := mkPgError "23514" ("no partition of relation " ++ dquote ++ "fixes" ++ dquote ++ " found for row").
Definition invalid_enum : pgerror := mkPgError "22P02" "invalid input value for enum".
Definition invalid_text : pgerror := mkPgError "XX000" "parse error - invalid geometry".
Definition partition_overlap : pgerror := mkPgError "42P17" "partition would overlap partition".
Definition undefined_table : pgerror := mkPgError "42P01" "table does not exist".

(* ------------------------------------------------------------------ *)
(** ** Routing of the partitioned table *)

Definition bound_le_time (b : bound) (t : Time) : bool :=
  match b with BMin => true | BAt l => negb (Before t l) | BMax => false end.
Definition time_lt_bound (t : Time) (b : bound) : bool :=
  match b with BMin => false | BAt h => Before t h | BMax => true end.

(** [lo <= ts < hi]. *)
Definition in_range (lo hi : bound) (ts : Time) : bool :=
  bound_le_time lo ts && time_lt_bound ts hi.

Definition bound_ltb (a b : bound) : bool :=
  match a, b with
  | BMin, BMin => false
  | BMin, _ => true
  | BAt x, BAt y => Before x y
  | BAt _, BMax => true
  | BAt _, BMin => false
  | BMax, _ => false
  end.

Definition ranges_overlap (lo hi lo' hi' : bound) : bool :=
  bound_ltb lo hi' && bound_ltb lo' hi.

Definition covers (r : table_kind) (ts : Time) : bool :=
  match r with FixesPart lo hi => in_range lo hi ts | OtherRelation => false end.

Definition rel_list (rels : gmap string table_kind) : list (string * table_kind) := map_to_list rels.

(** Some partition takes a row with this [ts]. *)
Definition routed (rels : gmap string table_kind) (ts : Time) : bool :=
  existsb (fun p => covers (snd p) ts) (rel_list rels).

Lemma routed_spec rels ts :
  routed rels ts = true <-> exists name r, rels !! name = Some r /\ covers r ts = true.
Proof.
  unfold routed, rel_list. rewrite existsb_elem. split.
  - intros ([name r] & H & Hc). apply elem_of_map_to_list in H. eauto.
  - intros (name & r & H & Hc). exists (name, r). split; [|done]. by apply elem_of_map_to_list.
Qed.

(* ------------------------------------------------------------------ *)
(** ** Running statements *)

Section ExecLemmas.
Context `{G : PostGIS}.

Definition env_of (w : World) : stmt_env := w_env w (w_next w).
Definition tick (w : World) : World := mkWorld (w_db w) (w_env w) (S (w_next w)).
Definition with_db (db : DB) (w : World) : World := mkWorld db (w_env w) (w_next w).

Lemma exec_quiet {A} (stmt : stmt_env -> DB -> result pgerror A * DB) w :
    quiet w ->
    exec stmt w =
      (match fst (stmt (env_of w) (w_db w)) with Ok a => Ok a | Err e => Err (EPg e) end,
       with_db (snd (stmt (env_of w) (w_db w))) (tick w)).
Proof.
  intros Hq. unfold exec, env_of, tick, with_db. rewrite Hq by done.
  by destruct (stmt _ _) as [r db'].
Qed.

Lemma query_quiet {A} (q : stmt_env -> DB -> A) w :
    quiet w -> query q w = (Ok (q (env_of w) (w_db w)), tick w).
Proof. intros Hq. unfold query. rewrite exec_quiet by done. by destruct w. Qed.

Lemma query_row_quiet {A} (q : stmt_env -> DB -> list A) w :
    quiet w ->
    query_row q w =
      (match q (env_of w) (w_db w) with [] => Err ENoRows | r :: _ => Ok r end, tick w).
Proof.
  intros Hq. unfold query_row, bindr, bind. rewrite query_quiet by done. simpl.
  by destruct (q _ _).
Qed.

Lemma quiet_tick w : quiet w -> quiet (tick w).
Proof. intros Hq n Hn. apply Hq. simpl in Hn. lia. Qed.
Lemma quiet_with_db db w : quiet w -> quiet (with_db db w).
Proof. done. Qed.

  (** Whatever the network does, a query leaves the tables alone. *)
Lemma query_db {A} (q : stmt_env -> DB -> A) w : w_db (snd (query q w)) = w_db w.
Proof. unfold query, exec. by destruct (se_fault _). Qed.

Lemma query_row_db {A} (q : stmt_env -> DB -> list A) w : w_db (snd (query_row q w)) = w_db w.
Proof.
  unfold query_row, bindr, bind. pose proof (query_db q w) as H.
  destruct (query q w) as [[rows|e] w']; simpl in *; [|done]. by destruct rows.
Qed.

  (** A successful query answered from the tables it ran against. *)
Lemma bindr_ok_inv {E A B} (m : M (result E A)) (f : A -> M (result E B)) w b w' :
    bindr m f w = (Ok b, w') -> exists a w1, m w = (Ok a, w1) /\ f a w1 = (Ok b, w').
Proof. unfold bindr, bind, ret. destruct (m w) as [[a|e] w1]; [eauto|done]. Qed.

Lemma query_ok_inv {A} (q : stmt_env -> DB -> A) w a w' :
    query q w = (Ok a, w') -> a = q (env_of w) (w_db w) /\ w' = tick w.
Proof.
  unfold query, exec, env_of, tick. destruct (se_fault _); intros H; simplify_eq. done.
Qed.

Lemma query_row_ok_inv {A} (q : stmt_env -> DB -> list A) w a w' :
    query_row q w = (Ok a, w') ->
    (exists rest, q (env_of w) (w_db w) = a :: rest) /\ w' = tick w.
Proof.
  unfold query_row, bindr, bind. destruct (query q w) as [r w1] eqn:E.
  destruct r as [rows|e]; [|intros; simplify_eq].
  apply query_ok_inv in E as [-> ->].
  destruct (q _ _) as [|x rest]; unfold ret; intros H; simplify_eq. eauto.
Qed.

  (** A statement that reports success took effect exactly once. *)
Lemma exec_ok_inv {A} (stmt : stmt_env -> DB -> result pgerror A * DB) w a w' :
    exec stmt w = (Ok a, w') ->
    fst (stmt (env_of w) (w_db w)) = Ok a /\
    w' = with_db (snd (stmt (env_of w) (w_db w))) (tick w).
Proof.
  unfold exec, env_of, with_db, tick. destruct (se_fault _); intros H; simplify_eq.
  destruct (stmt _ _) as [[x|e] db']; simplify_eq/=. done.
Qed.

  (** Any outcome of [exec]: either the statement ran once, or not at all. *)
Lemma exec_db {A} (stmt : stmt_env -> DB -> result pgerror A * DB) w :
    w_db (snd (exec stmt w)) = w_db w \/
    w_db (snd (exec stmt w)) = snd (stmt (env_of w) (w_db w)).
Proof.
  unfold exec, env_of. destruct (se_fault _); simpl; auto.
  destruct (stmt _ _) as [[x|e] db']; simpl; auto.
Qed.

Lemma exec_env {A} (stmt : stmt_env -> DB -> result pgerror A * DB) w :
    w_env (snd (exec stmt w)) = w_env w.
Proof. unfold exec. destruct (se_fault _); [destruct (stmt _ _) as [[] ?]|..]; done. Qed.

  (** A run is its result and the world it leaves. *)
Lemma run_pair {A} (m : M A) w a : fst (m w) = a -> m w = (a, snd (m w)).
Proof. intros <-. apply surjective_pairing. Qed.

Lemma with_db_db db w : w_db (with_db db w) = db.
Proof. done. Qed.

(** [m] keeps [I], whatever the database does to its statements. *)
Definition preserves (I : DB -> Prop) {A} (m : M A) : Prop :=
  forall w, I (w_db w) -> I (w_db (snd (m w))).

Lemma preserves_ret I {A} (a : A) : preserves I (ret a).
Proof. intros w Hw; exact Hw. Qed.

Lemma preserves_bind I {A B} (m : M A) (f : A -> M B) :
  preserves I m -> (forall a, preserves I (f a)) -> preserves I (bind m f).
Proof.
  intros Hm Hf w Hw. unfold bind. specialize (Hm w Hw). destruct (m w) as [a w']. by apply Hf.
Qed.

Lemma preserves_bindr I {E A B} (m : M (result E A)) (f : A -> M (result E B)) :
  preserves I m -> (forall a, preserves I (f a)) -> preserves I (bindr m f).
Proof. intros Hm Hf. apply preserves_bind; [done|]. intros [a|e]; [apply Hf|apply preserves_ret]. Qed.

Lemma preserves_exec I {A} (stmt : stmt_env -> DB -> result pgerror A * DB) :
  (forall env db, I db -> I (snd (stmt env db))) -> preserves I (exec stmt).
Proof. intros Hs w Hw. destruct (exec_db stmt w) as [->| ->]; auto. Qed.

Lemma preserves_query I {A} (q : stmt_env -> DB -> A) : preserves I (query q).
Proof. intros w Hw. by rewrite query_db. Qed.

Lemma preserves_query_row I {A} (q : stmt_env -> DB -> list A) : preserves I (query_row q).
Proof. intros w Hw. by rewrite query_row_db. Qed.
End ExecLemmas.

#[export] Hint Resolve quiet_tick quiet_with_db : tracker.
#[export] Hint Resolve preserves_ret preserves_query preserves_query_row : tracker.

(** Walks a Go function of the model down to its statements. *)
Ltac preserves_steps :=
  repeat first
    [ apply preserves_ret | apply preserves_query | apply preserves_query_row
    | apply preserves_bindr; [|intros] | apply preserves_bind; [|intros]
    | match goal with |- preserves _ (match ?x with _ => _ end) => destruct x end ].

(** A [timestamptz] holds whole microseconds: what a Go instant becomes as a
    statement parameter. *)
Definition timestamptz (t : Time) : Time := mkTime (t_sec t) (t_nsec t / 1000 * 1000).

(** [length(trim(s)) > 0]: PostgreSQL's [trim] strips spaces only. *)
Definition not_blank (s : string) : bool := existsb (fun c => negb (Ascii.eqb c " "%char)) (to_list s).

(* ------------------------------------------------------------------ *)
(** ** A concrete instance, for evaluation *)

(** A flat geometry: an area is a closed box, distance is the difference of
    longitudes.  Any text parses to the box (0,0)-(10,10). *)
#[export] Instance planar : PostGIS := {|
  geopoint := float64 * float64;
  geoarea := (float64 * float64) * (float64 * float64);
  ST_Point := fun lon lat => (lon, lat);
  ST_X := fst;
  ST_Y := snd;
  ST_Covers := fun a p =>
    f_leb (fst (fst a)) (fst p) && f_leb (fst p) (fst (snd a)) &&
    f_leb (snd (fst a)) (snd p) && f_leb (snd p) (snd (snd a));
  ST_DWithin := fun p q r => f_leb (SFabs (SFsub 53 1024 (fst p) (fst q))) r;
  ST_Distance := fun p q => SFabs (SFsub 53 1024 (fst p) (fst q));
  ST_GeogFromText := fun _ => Some ((f64 0, f64 0), (f64 10, f64 10));
  ST_IsValid := fun _ => true;
  ST_IsValidReason := fun _ => "Valid Geometry"%string;
  ST_AsGeoJSON := fun _ => "{}"%string;
  collate_ltb := str_ltb;
  pg_lower := ascii_lower |}.

(** A world in which nothing fails and the database clock stands at [now];
    statement [n] generates the uuid made of [n] marks. *)
Definition calm (db : @DB planar) (now : Time) : @World planar :=
  mkWorld db (fun n => mkStmtEnv NoFault now (string_of_list_ascii (repeat "u"%char n))) 0.

Lemma calm_quiet db now : quiet (calm db now).
Proof. done. Qed.
