(* ===== verification/Partitions.v ===== *)
(** Monthly partitions of [fixes] ([internal/db/partitions.go]): provisioning,
    verification against the catalog, and the purge by DROP.  [monthly] is the
    layout invariant of the catalog; provisioning and purging keep it, and under
    it provisioning always succeeds and a purge removes exactly the months that
    ended by the cutoff. *)

From S2P Require Import Prelude GoTime GoStrings Calendar Database.
From Stdlib Require Import ZArith Lia Bool String Ascii List.
From stdpp Require Import base option list strings gmap sorting.
Local Open Scope string_scope.
Local Open Scope Z_scope.

Definition monthStart (t : Time) : Time := Date (Year t) (Month t) 1 0 0.

Definition partitionName (monthStart : Time) : string :=
  "fixes_" ++ Itoa_pad 4 (Year monthStart) ++ "_" ++ Itoa_pad 2 (Month monthStart).

Section Partitions.
Context `{G : PostGIS}.

  (** [CREATE TABLE IF NOT EXISTS name PARTITION OF fixes FOR VALUES FROM (lo) TO (hi)]. *)
Definition sql_createPartition (name : string) (lo hi : Time) (db : DB)
    : result pgerror unit * DB :=
    match relations db !! name with
    | Some _ => (Ok tt, db)
    | None =>
        if existsb (fun p => match snd p with
                             | FixesPart lo' hi' => ranges_overlap (BAt lo) (BAt hi) lo' hi'
                             | OtherRelation => false end) (rel_list (relations db))
        then (Err partition_overlap, db)
        else (Ok tt, set_relations (<[name := FixesPart (BAt lo) (BAt hi)]> (relations db)) db)
    end.

  (** The bounds the two regular expressions of the catalog query read; a bound
      that is not a timestamp literal makes both NULL. *)
Definition sql_partitionBounds (name : string) (db : DB)
    : list (option Time * option Time) :=
    match relations db !! name with
    | None => []
    | Some (FixesPart (BAt lo) (BAt hi)) => [(Some lo, Some hi)]
    | Some _ => [(None, None)]
    end.

Definition EnsureMonthlyPartition (month : Time) : M (result error string) :=
    let start := monthStart month in
    let end_ := AddDate start 0 1 0 in
    let name := partitionName start in
    let? _ := exec (fun _ => sql_createPartition name start end_) in
    let? (lower, upper) := query_row (fun _ => sql_partitionBounds name) in
    match lower, upper with
    | Some lo, Some hi =>
        if negb (Equal lo start) || negb (Equal hi end_) then ret (Err ErrUnrecognizedPartition)
        else ret (Ok name)
    | _, _ => ret (Err ErrUnrecognizedPartition)
    end.

  (** The loop [for i := range months], from iteration [i] on. *)
Fixpoint ensure_loop (start : Time) (i n : nat) (names : list string)
    : M (result error (list string)) :=
    match n with
    | O => ret (Ok names)
    | S n' =>
        let? name := EnsureMonthlyPartition (AddDate start 0 (Z.of_nat i) 0) in
        ensure_loop start (S i) n' (names ++ [name])%list
    end.

Definition EnsurePartitions (from : Time) (months : Z) : M (result error (list string)) :=
    if months <? 1 then ret (Err (EText "months must be at least 1"))
    else ensure_loop (monthStart from) 0 (Z.to_nat months) [].

  (** The children of [fixes], by name, with the upper bound when it is readable. *)
Definition sql_children (db : DB) : list (string * option Time) :=
    stable_sort (fun a b => str_ltb (fst a) (fst b))
      (omap (fun p => match snd p with
                      | FixesPart _ (BAt hi) => Some (fst p, Some hi)
                      | FixesPart _ _ => Some (fst p, None)
                      | OtherRelation => None
                      end) (rel_list (relations db))).

  (** [DROP TABLE name]: the partition's rows go with it. *)
Definition sql_dropTable (name : string) (db : DB)
    : result pgerror unit * DB :=
    match relations db !! name with
    | None => (Err undefined_table, db)
    | Some r =>
        (Ok tt, set_relations (delete name (relations db))
                  (set_fixes (List.filter (fun f => negb (covers r (fr_ts f))) (fixes db)) db))
    end.

Fixpoint drop_loop (cutoff : Time) (children : list (string * option Time)) (dropped : list string)
    : M (list string * option error) :=
    match children with
    | [] => ret (dropped, None)
    | (name, upper) :: rest =>
        match upper with
        | None => ret (dropped, Some ErrUnrecognizedPartition)
        | Some u =>
            if After u cutoff then drop_loop cutoff rest dropped
            else
              let* r := exec (fun _ => sql_dropTable name) in
              match r with
              | Err e => ret (dropped, Some e)
              | Ok _ => drop_loop cutoff rest (dropped ++ [name])%list
              end
        end
    end.

Definition DropPartitionsBefore (cutoff : Time) : M (list string * option error) :=
    let* r := query (fun _ => sql_children) in
    match r with
    | Err e => ret ([], Some e)
    | Ok children => drop_loop cutoff children []
    end.
End Partitions.

(* ------------------------------------------------------------------ *)
(** ** Months as instants and as names *)

Definition month_start (c : Z) : Time := mkTime (seconds_per_day * month_day c) 0.
Definition month_name (c : Z) : string := partitionName (month_start c).

Lemma month_index_start c : month_index (month_start c) = c.
Proof.
  apply month_index_unique. unfold month_start.
  replace (seconds_per_day * month_day c) with (seconds_per_day * month_day c + 0) by lia.
  rewrite day_of_seconds by (unfold seconds_per_day; lia).
  pose proof (month_day_next c). lia.
Qed.

Lemma monthStart_eq t : monthStart t = month_start (month_index t).
Proof.
  unfold monthStart, Date, month_start. rewrite <- Year_Month_index. f_equal. f_equal. lia.
Qed.

Lemma day_month_start c : Day (month_start c) = 1.
Proof.
  unfold Day. rewrite month_index_start. unfold month_start.
  replace (seconds_per_day * month_day c) with (seconds_per_day * month_day c + 0) by lia.
  rewrite day_of_seconds by (unfold seconds_per_day; lia). lia.
Qed.

Lemma AddDate_month c i : AddDate (month_start c) 0 i 0 = month_start (c + i).
Proof.
  unfold AddDate, Date, month_start. fold (month_start c). rewrite day_month_start. simpl.
  rewrite (Z.mul_comm seconds_per_day (month_day c)), Z.mod_mul by done.
  f_equal. pose proof (Year_Month_index (month_start c)) as H. rewrite month_index_start in H.
  replace (12 * (Year (month_start c) + 0) + (Month (month_start c) + i - 1)) with (c + i) by lia.
  lia.
Qed.

Lemma month_start_before c c' : Before (month_start c) (month_start c') = (c <? c').
Proof.
  unfold Before, month_start, seconds_per_day; simpl. rewrite andb_false_r, orb_false_r.
  pose proof (month_day_lt c c').
  destruct (Z.ltb_spec (86400 * month_day c) (86400 * month_day c')), (Z.ltb_spec c c'); try done; lia.
Qed.

(** An instant lies in the half-open interval of its month. *)
Lemma in_month t : 0 <= t_nsec t < second ->
  Before t (month_start (month_index t)) = false /\
  Before t (month_start (month_index t + 1)) = true.
Proof.
  intros Hn. pose proof (month_index_spec t) as H. unfold day_of in H.
  unfold Before, month_start, seconds_per_day in *; simpl.
  split; [apply orb_false_iff; split; [apply Z.ltb_ge | apply andb_false_iff]
         | apply orb_true_iff; left; apply Z.ltb_lt].
  - Z.to_euclidean_division_equations; lia.
  - right. apply Z.ltb_ge. lia.
  - Z.to_euclidean_division_equations; lia.
Qed.

Lemma month_index_in_range t c : 0 <= t_nsec t < second ->
  in_range (BAt (month_start c)) (BAt (month_start (c + 1))) t = true -> month_index t = c.
Proof.
  intros Hn. unfold in_range; simpl. intros [H1 H2]%andb_true_iff. b2p.
  destruct (in_month t Hn) as [H3 H4].
  assert (Hc : Before (month_start c) (month_start (month_index t + 1)) = true).
  { destruct (Before (month_start c) _) eqn:E; [done|].
    pose proof (Before_negtrans _ _ _ E H1). congruence. }
  assert (Hc' : Before (month_start (month_index t)) (month_start (c + 1)) = true).
  { destruct (Before (month_start (month_index t)) _) eqn:E; [done|].
    pose proof (Before_negtrans _ _ _ E H3). congruence. }
  rewrite month_start_before in Hc, Hc'. b2p. lia.
Qed.

Lemma in_range_own t : 0 <= t_nsec t < second ->
  in_range (BAt (month_start (month_index t))) (BAt (month_start (month_index t + 1))) t = true.
Proof. intros Hn. unfold in_range; simpl. destruct (in_month t Hn) as [-> ->]. done. Qed.

Lemma ranges_disjoint c c' : c <> c' ->
  ranges_overlap (BAt (month_start c)) (BAt (month_start (c + 1)))
                 (BAt (month_start c')) (BAt (month_start (c' + 1))) = false.
Proof.
  intros H. unfold ranges_overlap; simpl. rewrite !month_start_before.
  destruct (Z.ltb_spec c (c' + 1)), (Z.ltb_spec c' (c + 1)); simpl; try done; lia.
Qed.

(** Splitting at the first separator: digit strings contain none. *)
Lemma split_at_sep (c : ascii) (a a' b b' : list ascii) :
  ~ c ∈ a -> ~ c ∈ a' -> (a ++ c :: b)%list = (a' ++ c :: b')%list -> a = a' /\ b = b'.
Proof.
  revert a'. induction a as [|x a IH]; intros [|x' a'] Ha Ha' E; simplify_eq/=.
  - done.
  - destruct Ha'. by left.
  - destruct Ha. by left.
  - destruct (IH a') as [-> ->]; try done; intros ?; [apply Ha|apply Ha']; by right.
Qed.

Lemma Itoa_pad_no_sep w n : 0 <= n -> ~ ("_"%char : ascii) ∈ to_list (Itoa_pad w n).
Proof.
  intros Hn. unfold Itoa_pad. destruct (Z.ltb_spec n 0); [lia|]. rewrite to_of_list.
  rewrite elem_of_app. intros [H1|H1].
  - apply list_elem_of_In, repeat_spec in H1. discriminate.
  - apply digits_digit in H1; [discriminate|done].
Qed.

Lemma month_name_inj c c' : 0 <= c -> 0 <= c' -> month_name c = month_name c' -> c = c'.
Proof.
  intros Hc Hc' E. unfold month_name, partitionName in E.
  apply (f_equal to_list) in E. rewrite !to_list_app in E. apply app_inv_head in E.
  assert (0 <= Year (month_start c)) by (unfold Year; rewrite month_index_start; apply Z.div_pos; lia).
  assert (0 <= Year (month_start c')) by (unfold Year; rewrite month_index_start; apply Z.div_pos; lia).
  pose proof (Month_range (month_start c)). pose proof (Month_range (month_start c')).
  apply split_at_sep in E as [E1 E2]; try (by apply Itoa_pad_no_sep).
  apply to_list_inj, Itoa_pad_inj in E1; [|done..].
  apply to_list_inj, Itoa_pad_inj in E2; [|lia..].
  pose proof (Year_Month_index (month_start c)) as Y. pose proof (Year_Month_index (month_start c')) as Y'.
  rewrite month_index_start in Y, Y'. lia.
Qed.

#[export] Hint Resolve in_range_own : tracker.

(* ------------------------------------------------------------------ *)
(** ** The catalog invariant *)

Definition month_part (c : Z) : table_kind :=
  FixesPart (BAt (month_start c)) (BAt (month_start (c + 1))).

(** Every partition of [fixes] is a month under its own name, and no other
    relation has the name of a month. *)
Definition monthly (rels : gmap string table_kind) : Prop :=
  forall name r, rels !! name = Some r ->
    (exists c, 0 <= c /\ name = month_name c /\ r = month_part c) \/
    (r = OtherRelation /\ forall c, 0 <= c -> name <> month_name c).

Lemma monthly_lookup rels c r : monthly rels -> 0 <= c ->
  rels !! month_name c = Some r -> r = month_part c.
Proof.
  intros Hm Hc Hl. destruct (Hm _ _ Hl) as [(c' & Hc' & E & ->)|[_ Hn]].
  - by rewrite (month_name_inj c c').
  - by destruct (Hn c).
Qed.

Lemma monthly_insert rels c : monthly rels -> 0 <= c ->
  monthly (<[month_name c := month_part c]> rels).
Proof.
  intros Hm Hc name r. rewrite lookup_insert. case_decide; [|by apply Hm].
  intros [= <-]. left. eauto.
Qed.

Lemma monthly_delete rels name : monthly rels -> monthly (delete name rels).
Proof. intros Hm n r [_ H]%lookup_delete_Some. by apply Hm. Qed.

Lemma monthly_no_overlap rels c : monthly rels -> 0 <= c -> rels !! month_name c = None ->
  existsb (fun p => match snd p with
     | FixesPart lo' hi' =>
         ranges_overlap (BAt (month_start c)) (BAt (month_start (c + 1))) lo' hi'
     | OtherRelation => false end) (rel_list rels) = false.
Proof.
  intros Hm Hc Hn. apply existsb_elem_false. intros [name r] Hin. simpl.
  apply elem_of_map_to_list in Hin.
  destruct (Hm _ _ Hin) as [(c' & Hc' & -> & ->)|[-> _]]; [|done].
  apply ranges_disjoint. intros ->. congruence.
Qed.

Lemma routed_month rels t c : 0 <= t_nsec t < second ->
  rels !! month_name c = Some (month_part c) -> month_index t = c -> routed rels t = true.
Proof.
  intros Hn Hl <-. apply routed_spec. exists (month_name (month_index t)), (month_part (month_index t)).
  split; [done|]. by apply in_range_own.
Qed.

#[export] Hint Resolve monthly_insert monthly_delete : tracker.

Section EnsureLemmas.
Context `{G : PostGIS}.

Lemma createPartition_grows name lo hi db n r :
    relations db !! n = Some r ->
    relations (snd (sql_createPartition name lo hi db)) !! n = Some r.
Proof.
  intros H. unfold sql_createPartition. destruct (relations db !! name) eqn:E; simpl; [done|].
  destruct (existsb _ _); simpl; [done|].
  rewrite lookup_insert_ne; [done|]. congruence.
Qed.

Lemma createPartition_fixes name lo hi db :
    fixes (snd (sql_createPartition name lo hi db)) = fixes db.
Proof.
  unfold sql_createPartition. destruct (relations db !! name); [done|].
  by destruct (existsb _ _).
Qed.

  (** Provisioning never takes a partition away, whatever fails. *)
Lemma Ensure_grows month w n r : relations (w_db w) !! n = Some r ->
    relations (w_db (snd (EnsureMonthlyPartition month w))) !! n = Some r.
Proof.
  intros H. unfold EnsureMonthlyPartition, bindr, bind.
  match goal with |- context [exec ?s w] =>
    pose proof (exec_db s w) as Hdb; destruct (exec s w) as [[u|e] w1] end; simpl in *.
  - assert (relations (w_db w1) !! n = Some r) as H1.
    { destruct Hdb as [->| ->]; [done|by apply createPartition_grows]. }
    match goal with |- context [query_row ?q w1] =>
      pose proof (query_row_db q w1) as Hq; destruct (query_row q w1) as [[[[lo|] [hi|]]|e] w2] end;
      simpl in *; try (destruct (_ || _)); simpl; by rewrite Hq.
  - destruct Hdb as [->| ->]; [done|by apply createPartition_grows].
Qed.

Lemma Ensure_ok_inv month w name w' :
    EnsureMonthlyPartition month w = (Ok name, w') ->
    name = month_name (month_index month) /\
    relations (w_db w') !! name = Some (month_part (month_index month)).
Proof.
  unfold EnsureMonthlyPartition, bindr, bind.
  destruct (exec _ w) as [[u|e] w1]; [|done].
  destruct (query_row _ w1) as [[[lower upper]|e] w2] eqn:E2; [|done].
  apply query_row_ok_inv in E2 as [[rest E2] ->].
  destruct lower as [lo|]; [|done]. destruct upper as [hi|]; [|done].
  destruct (negb (Equal lo _) || _) eqn:Eq; [done|]. unfold ret. intros H; simplify_eq.
  b2p. apply Equal_eq in H. apply Equal_eq in H0. subst.
  rewrite monthStart_eq, AddDate_month in *. split; [done|].
  unfold sql_partitionBounds in E2. simpl.
  destruct (relations (w_db w1) !! _) as [[[| |] [| |]|]|] eqn:El; simplify_eq. done.
Qed.

  (** With no fault and a monthly catalog, provisioning succeeds. *)
Lemma Ensure_quiet month w : quiet w -> monthly (relations (w_db w)) ->
    0 <= month_index month ->
    EnsureMonthlyPartition month w =
      (Ok (month_name (month_index month)),
       with_db (set_relations (<[month_name (month_index month) := month_part (month_index month)]>
                                 (relations (w_db w))) (w_db w)) (tick (tick w))).
Proof.
  intros Hq Hm Hc. unfold EnsureMonthlyPartition, bindr, bind.
  rewrite exec_quiet by done. rewrite monthStart_eq, AddDate_month.
  fold (month_name (month_index month)). set (c := month_index month) in *.
  assert (Hcreate : sql_createPartition (month_name c) (month_start c) (month_start (c + 1)) (w_db w) =
    (Ok tt, set_relations (<[month_name c := month_part c]> (relations (w_db w))) (w_db w))).
  { unfold sql_createPartition. destruct (relations (w_db w) !! month_name c) as [r|] eqn:E.
    - pose proof (monthly_lookup _ _ _ Hm Hc E). subst r.
      rewrite insert_id by done. by destruct (w_db w).
    - by rewrite monthly_no_overlap. }
  rewrite Hcreate. simpl. rewrite query_row_quiet by auto with tracker. simpl.
  unfold sql_partitionBounds. simpl. rewrite lookup_insert_eq. simpl.
  unfold Equal. rewrite !Z.eqb_refl. done.
Qed.
End EnsureLemmas.

Section EnsureAll.
Context `{G : PostGIS}.

Lemma ensure_loop_grows start n i names w k r : relations (w_db w) !! k = Some r ->
    relations (w_db (snd (ensure_loop start i n names w))) !! k = Some r.
Proof.
  revert i names w. induction n as [|n IH]; intros i names w H; simpl; [done|].
  unfold bindr, bind. pose proof (Ensure_grows (AddDate start 0 (Z.of_nat i) 0) w k r H) as H1.
  destruct (EnsureMonthlyPartition _ w) as [[name|e] w1]; simpl in *; auto.
Qed.

Lemma ensure_loop_ok c n i names w names' w' :
    ensure_loop (month_start c) i n names w = (Ok names', w') ->
    forall j, (i <= j < i + n)%nat ->
      relations (w_db w') !! month_name (c + Z.of_nat j) = Some (month_part (c + Z.of_nat j)).
Proof.
  revert i names w. induction n as [|n IH]; intros i names w H j Hj; [lia|]. simpl in H.
  unfold bindr, bind in H.
  destruct (EnsureMonthlyPartition _ w) as [[name|e] w1] eqn:E; [|done].
  apply Ensure_ok_inv in E as [Hname Hrel].
  rewrite AddDate_month, month_index_start in Hname, Hrel. subst name.
  destruct (decide (j = i)) as [->|].
  - pose proof (ensure_loop_grows (month_start c) n (S i)
      (names ++ [month_name (c + Z.of_nat i)])%list w1 _ _ Hrel) as Hg.
    by rewrite H in Hg.
  - eapply IH; [exact H|lia].
Qed.

Lemma ensure_loop_quiet c n i names w : quiet w -> monthly (relations (w_db w)) -> 0 <= c ->
    exists w', ensure_loop (month_start c) i n names w =
      (Ok (names ++ map (fun j => month_name (c + Z.of_nat j)) (seq i n))%list, w') /\
      monthly (relations (w_db w')) /\ fixes (w_db w') = fixes (w_db w) /\ quiet w'.
Proof.
  revert i names w. induction n as [|n IH]; intros i names w Hq Hm Hc.
  - exists w. simpl. by rewrite app_nil_r.
  - simpl. unfold bindr, bind. rewrite AddDate_month.
    rewrite Ensure_quiet; [|done..|]; rewrite ?month_index_start by lia; [|lia].
    set (w1 := with_db _ _).
    destruct (IH (S i) (names ++ [month_name (c + Z.of_nat i)])%list w1) as (w' & E & Hm' & Hf & Hq');
      [by apply quiet_with_db, quiet_tick, quiet_tick| |done|].
    { simpl. apply monthly_insert; [done|lia]. }
    exists w'. rewrite E, <- app_assoc. done.
Qed.

Lemma month_within c n t : 0 <= t_nsec t < second ->
    Before t (month_start c) = false -> Before t (month_start (c + n)) = true ->
    c <= month_index t < c + n.
Proof.
  intros Hn H1 H2. destruct (in_month t Hn) as [H3 H4].
  assert (Before (month_start (month_index t)) (month_start (c + n)) = true) as H5.
  { destruct (Before (month_start (month_index t)) _) eqn:E; [done|].
    pose proof (Before_negtrans _ _ _ E H3). congruence. }
  assert (Before (month_start c) (month_start (month_index t + 1)) = true) as H6.
  { destruct (Before (month_start c) _) eqn:E; [done|].
    pose proof (Before_negtrans _ _ _ E H1). congruence. }
  rewrite month_start_before in H5, H6. b2p. lia.
Qed.

Lemma EnsurePartitions_months (from : Time) (months : Z) (w w' : World) names :
  EnsurePartitions from months w = (Ok names, w') ->
  forall c, month_index from <= c < month_index from + months -> relations (w_db w') !! month_name c = Some (month_part c).
Proof.
  unfold EnsurePartitions. destruct (Z.ltb_spec months 1) as [|Hm]; [done|]. rewrite monthStart_eq. intros E c Hc.
  pose proof (ensure_loop_ok _ _ _ _ _ _ _ E (Z.to_nat (c - month_index from)) ltac:(lia)) as Hr.
  by replace (month_index from + Z.of_nat (Z.to_nat (c - month_index from))) with c in Hr by lia.
Qed.

(** A successful [EnsurePartitions] means what it reports, whatever the
      network did on the way: every instant from the first of the starting month
      up to [months] months later has a partition, so no insert in that span can
      be rejected for want of one. *)
Theorem EnsurePartitions_provisions (from : Time) (months : Z) (w w' : World) names (t : Time) :
    EnsurePartitions from months w = (Ok names, w') ->
    0 <= t_nsec t < second ->
    Before t (monthStart from) = false ->
    Before t (AddDate (monthStart from) 0 months 0) = true ->
    routed (relations (w_db w')) t = true.
Proof.
  intros E Hn H1 H2. rewrite monthStart_eq in H1. rewrite monthStart_eq, AddDate_month in H2.
  eapply routed_month; [done| |done]. eapply EnsurePartitions_months; [exact E|]. by apply month_within.
Qed.

(** On a catalog in the monthly layout, and when no statement fails,
      provisioning succeeds, names the months in order, keeps the layout and
      leaves the rows alone; asking for no months is refused. *)
Theorem EnsurePartitions_succeeds (from : Time) (months : Z) (w : World) :
    quiet w -> monthly (relations (w_db w)) -> 0 <= month_index from ->
    if months <? 1 then is_ok (fst (EnsurePartitions from months w)) = false
    else exists w',
      EnsurePartitions from months w =
        (Ok (map (fun j => month_name (month_index from + Z.of_nat j)) (seq 0 (Z.to_nat months))), w') /\
      monthly (relations (w_db w')) /\ fixes (w_db w') = fixes (w_db w).
Proof.
  intros Hq Hm Hc. unfold EnsurePartitions. destruct (Z.ltb_spec months 1); [done|].
  rewrite monthStart_eq.
  destruct (ensure_loop_quiet (month_index from) (Z.to_nat months) 0 [] w Hq Hm Hc)
    as (w' & E & Hm' & Hf & _).
  exists w'. done.
Qed.
End EnsureAll.

(* ------------------------------------------------------------------ *)
(** ** The purge *)

(** A partition the purge may take: its whole range is before [cutoff]. *)
Definition expired (cutoff : Time) (r : table_kind) : bool :=
  match r with FixesPart _ (BAt hi) => negb (After hi cutoff) | _ => false end.

Lemma expired_covers cutoff r ts :
  expired cutoff r = true -> covers r ts = true -> Before ts cutoff = true.
Proof.
  destruct r as [lo [|hi|]|]; simpl; try done. unfold in_range, After. simpl.
  intros He [_ Hc]%andb_true_iff. b2p.
  destruct (Before ts cutoff) eqn:E; [done|].
  pose proof (Before_negtrans _ _ _ He E). congruence.
Qed.

Section DropLemmas.
Context `{G : PostGIS}.

Lemma elem_of_children (db : DB) name up :
  (name, up) ∈ sql_children db <->
  exists lo hi, relations db !! name = Some (FixesPart lo hi) /\
    up = match hi with BAt t => Some t | _ => None end.
Proof.
  unfold sql_children. rewrite stable_sort_perm. rewrite list_elem_of_omap. split.
  - intros ([n r] & Hin & E). apply elem_of_map_to_list in Hin.
    destruct r as [lo [|hi|]|]; simplify_eq/=; eauto.
  - intros (lo & hi & Hl & ->). exists (name, FixesPart lo hi). split.
    + by apply elem_of_map_to_list.
    + by destruct hi.
Qed.

Lemma children_NoDup (db : DB) : NoDup (map fst (sql_children db)).
Proof.
  assert (map fst (sql_children db) ≡ₚ
    map fst (omap (fun p => match snd p with
                      | FixesPart _ (BAt hi) => Some (fst p, Some hi)
                      | FixesPart _ _ => Some (fst p, None)
                      | OtherRelation => None
                      end) (rel_list (relations db)))) as ->
    by (apply Permutation_map, stable_sort_perm).
  pose proof (NoDup_fst_map_to_list (relations db)) as H. unfold rel_list.
  revert H. generalize (map_to_list (relations db)) as l.
  induction l as [|[n r] l IH]; csimpl; [constructor|]. intros [Hn Hd]%NoDup_cons.
  assert (forall k : string, k ∉ l.*1 -> k ∉ map fst (omap (fun p : string * table_kind => match snd p with
                      | FixesPart _ (BAt hi) => Some (fst p, Some hi)
                      | FixesPart _ _ => Some (fst p, None)
                      | OtherRelation => None
                      end) l)) as Hk.
  { intros k Hk Hi. apply Hk. clear -Hi. induction l as [|[n r] l IH]; csimpl in *; [by apply elem_of_nil in Hi|].
    destruct r as [lo [|hi|]|]; csimpl in *; rewrite ?elem_of_cons in *; naive_solver. }
  destruct r as [lo [|hi|]|]; csimpl; auto; constructor; auto.
Qed.

Lemma dropTable_rel name db n r :
  relations (snd (sql_dropTable name db)) !! n = Some r -> relations db !! n = Some r.
Proof.
  unfold sql_dropTable. destruct (relations db !! name); simpl; [|done].
  by intros [_ H]%lookup_delete_Some.
Qed.

Lemma dropTable_keeps name db f :
  f ∈ fixes db -> (forall r, relations db !! name = Some r -> covers r (fr_ts f) = false) ->
  f ∈ fixes (snd (sql_dropTable name db)).
Proof.
  intros Hf Hr. unfold sql_dropTable. destruct (relations db !! name) as [r|]; simpl; [|done].
  rewrite elem_of_filter_b, (Hr r); done.
Qed.

(** Whatever fails on the way, the loop removes no row a kept instant needs. *)
Lemma drop_loop_safe cutoff ch : forall acc w f,
  (forall name u, (name, Some u) ∈ ch -> After u cutoff = false ->
     forall r, relations (w_db w) !! name = Some r -> expired cutoff r = true) ->
  f ∈ fixes (w_db w) -> Before (fr_ts f) cutoff = false ->
  f ∈ fixes (w_db (snd (drop_loop cutoff ch acc w))).
Proof.
  induction ch as [|[name up] ch IH]; intros acc w f He Hf Hb; simpl; [done|].
  destruct up as [u|]; [|done].
  assert (forall n u', (n, Some u') ∈ ch -> After u' cutoff = false ->
     forall r, relations (w_db w) !! n = Some r -> expired cutoff r = true) as He'.
  { intros n u' Hin. apply He. by right. }
  destruct (After u cutoff) eqn:Eu; [by apply IH|].
  unfold bind. match goal with |- context [exec ?s w] =>
    pose proof (exec_db s w) as Hdb; destruct (exec s w) as [[v|e] w1] end; simpl in *.
  - assert (f ∈ fixes (w_db w1)) as Hf1.
    { destruct Hdb as [->| ->]; [done|]. apply dropTable_keeps; [done|]. intros r Hr.
      destruct (covers r (fr_ts f)) eqn:Ec; [|done].
      rewrite (expired_covers cutoff r) in Hb; [done| |done].
      apply (He name u); [by left|done..]. }
    apply IH; [|done..]. intros n u' Hin Hu' r Hr. apply (He' n u'); [done..|].
    destruct Hdb as [E|E]; rewrite E in Hr; [done|by eapply dropTable_rel].
  - destruct Hdb as [->| ->]; [done|]. apply dropTable_keeps; [done|]. intros r Hr.
    destruct (covers r (fr_ts f)) eqn:Ec; [|done].
    rewrite (expired_covers cutoff r) in Hb; [done| |done].
    apply (He name u); [by left|done..].
Qed.

(** The names a purge drops, of the children it read. *)
Definition to_drop (cutoff : Time) (ch : list (string * option Time)) : list string :=
  map fst (List.filter (fun c => match snd c with
                                 | Some u => negb (After u cutoff) | None => false end) ch).

Lemma drop_loop_quiet cutoff ch : forall acc w,
  quiet w -> NoDup (map fst ch) ->
  (forall name up, (name, up) ∈ ch -> is_Some up /\ is_Some (relations (w_db w) !! name)) ->
  exists w', drop_loop cutoff ch acc w = ((acc ++ to_drop cutoff ch)%list, None, w') /\ quiet w' /\
    (forall n r, relations (w_db w') !! n = Some r <->
       relations (w_db w) !! n = Some r /\ n ∉ to_drop cutoff ch) /\
    (forall f, f ∈ fixes (w_db w') <-> f ∈ fixes (w_db w) /\
       forall n r, n ∈ to_drop cutoff ch -> relations (w_db w) !! n = Some r ->
         covers r (fr_ts f) = false).
Proof.
  induction ch as [|[name up] ch IH]; intros acc w Hq Hnd Hch.
  - exists w. simpl. unfold to_drop; simpl. rewrite app_nil_r. split; [done|]. split; [done|].
    split; [set_solver|]. intros f. split; [|naive_solver]. intros Hf. split; [done|]. set_solver.
  - destruct (Hch name up) as [[u ->] [r0 Hr0]]; [by left|]. simpl in Hnd.
    apply NoDup_cons in Hnd as [Hni Hnd].
    assert (name ∉ to_drop cutoff ch) as Hni'.
    { intros Hin. apply Hni. unfold to_drop in Hin. apply list_elem_of_fmap in Hin as ([n b] & -> & Hin).
      apply elem_of_filter_b in Hin as [Hin _]. apply list_elem_of_fmap. by exists (n, b). }
    simpl. unfold to_drop; simpl. destruct (After u cutoff) eqn:Eu; simpl.
    + apply (IH acc w Hq Hnd). intros n b Hin. apply Hch. by right.
    + unfold bind. rewrite exec_quiet by done. unfold sql_dropTable at 1 2. rewrite Hr0. simpl.
      match goal with |- context [drop_loop _ _ _ ?w1] => set (w1' := w1) end.
      destruct (IH (acc ++ [name])%list w1') as (w' & E & Hq' & Hrel & Hfix);
        [by apply quiet_with_db, quiet_tick|done| |].
      { intros n b Hin. destruct (Hch n b) as [Hb [r Hr]]; [by right|]. split; [done|].
        exists r. simpl. apply lookup_delete_Some. split; [|done]. intros ->. apply Hni.
        apply list_elem_of_fmap. by exists (n, b). }
      exists w'. rewrite E, <- app_assoc. split; [done|]. split; [done|]. fold (to_drop cutoff ch). split.
      * intros n r. rewrite Hrel. simpl. rewrite lookup_delete_Some, elem_of_cons. naive_solver.
      * intros f. rewrite Hfix. simpl. rewrite elem_of_filter_b, negb_true_iff.
        split.
        -- intros [[Hf Hc] Hrest]. split; [done|]. intros n r [->|Hin]%elem_of_cons Hr; [congruence|].
           apply (Hrest n r); [done|]. apply lookup_delete_Some. split; [|done]. congruence.
        -- intros [Hf Hall]. split; [split; [done|]|].
           ++ apply (Hall name); [by left|done].
           ++ intros n r Hin [_ Hr]%lookup_delete_Some. apply (Hall n r); [by right|done].
Qed.

Lemma elem_of_to_drop cutoff (db : DB) n :
  n ∈ to_drop cutoff (sql_children db) <->
  exists r, relations db !! n = Some r /\ expired cutoff r = true.
Proof.
  unfold to_drop. rewrite list_elem_of_fmap. split.
  - intros ([n' up] & -> & Hin). apply elem_of_filter_b in Hin as [Hin He]. simpl in *.
    apply elem_of_children in Hin as (lo & hi & Hr & ->). exists (FixesPart lo hi).
    by destruct hi.
  - intros (r & Hr & He). destruct r as [lo [|hi|]|]; try done.
    exists (n, Some hi). split; [done|]. apply elem_of_filter_b. split; [|done].
    apply elem_of_children. eauto.
Qed.

Lemma monthly_children (db : DB) name up :
  monthly (relations db) -> (name, up) ∈ sql_children db ->
  is_Some up /\ is_Some (relations db !! name).
Proof.
  intros Hm (lo & hi & Hr & ->)%elem_of_children. rewrite Hr. split; [|eauto].
  destruct (Hm _ _ Hr) as [(c & _ & _ & E)|[E _]]; [|done]. unfold month_part in E.
  injection E as -> ->. eauto.
Qed.

(** Every row sits in a partition. *)
Definition all_routed (db : DB) : Prop :=
  Forall (fun f => 0 <= t_nsec (fr_ts f) < second /\ routed (relations db) (fr_ts f) = true) (fixes db).

(** Dropping a table takes its rows with it, so no row is left without a
    partition; this holds of the whole purge under any faults. *)
Definition layout (db : DB) : Prop := monthly (relations db) /\ all_routed db.

Lemma dropTable_layout name db : layout db -> layout (snd (sql_dropTable name db)).
Proof.
  intros [Hm Ha]. unfold sql_dropTable. destruct (relations db !! name) as [r|] eqn:Er; [|done].
  simpl. split; simpl; [by apply monthly_delete|].
  unfold all_routed in *. rewrite Forall_forall in *. simpl. intros f [Hf Hc]%elem_of_filter_b.
  destruct (Ha f Hf) as [Hn Hr]. split; [done|]. apply routed_spec in Hr as (n & r' & Hr' & Hc').
  apply routed_spec. exists n, r'. split; [|done]. apply lookup_delete_Some. split; [|done].
  intros ->. assert (r' = r) as -> by congruence. by rewrite Hc' in Hc.
Qed.

Lemma drop_loop_layout cutoff ch : forall acc w, layout (w_db w) ->
  layout (w_db (snd (drop_loop cutoff ch acc w))).
Proof.
  induction ch as [|[name up] ch IH]; intros acc w Hl; simpl; [done|].
  destruct up as [u|]; [|done]. destruct (After u cutoff); [by apply IH|].
  unfold bind. match goal with |- context [exec ?s w] =>
    pose proof (exec_db s w) as Hdb; destruct (exec s w) as [[v|e] w1] end; simpl in *.
  - apply IH. destruct Hdb as [->| ->]; [done|by apply dropTable_layout].
  - destruct Hdb as [->| ->]; [done|by apply dropTable_layout].
Qed.

Lemma DropPartitionsBefore_layout cutoff w : layout (w_db w) ->
  layout (w_db (snd (DropPartitionsBefore cutoff w))).
Proof.
  intros Hl. unfold DropPartitionsBefore, bind.
  pose proof (query_db (fun _ : stmt_env => sql_children) w) as Hdb.
  destruct (query _ w) as [[ch|e] w1]; simpl in *; [apply drop_loop_layout|]; by rewrite Hdb.
Qed.

(** What an exact purge at [cutoff] does to the catalog and the rows. *)
Definition purged (cutoff : Time) (db : DB) (dropped : list string) (db' : DB) : Prop :=
  layout db' /\
  (forall n, n ∈ dropped <-> exists r, relations db !! n = Some r /\ expired cutoff r = true) /\
  (forall n r, relations db' !! n = Some r <->
     relations db !! n = Some r /\ expired cutoff r = false) /\
  (forall f, f ∈ fixes db' <->
     f ∈ fixes db /\ Before cutoff (month_start (month_index (fr_ts f) + 1)) = true).

Lemma DropPartitionsBefore_keeps (cutoff : Time) (w : World) (f : fix_row) :
  f ∈ fixes (w_db w) -> Before (fr_ts f) cutoff = false ->
  f ∈ fixes (w_db (snd (DropPartitionsBefore cutoff w))).
Proof.
  intros Hf Hb. unfold DropPartitionsBefore, bind.
  pose proof (query_db (fun _ : stmt_env => sql_children) w) as Hdb.
  destruct (query _ w) as [[ch|e] w1] eqn:E; simpl in Hdb; [|simpl; by rewrite Hdb].
  apply query_ok_inv in E as [-> ->].
  apply drop_loop_safe; [|by rewrite Hdb|done].
  intros name u Hin Hu r Hr. apply elem_of_children in Hin as (lo & hi & Hr' & E).
  simpl in Hr. rewrite Hr in Hr'. injection Hr' as ->. destruct hi; simplify_eq. simpl. by rewrite Hu.
Qed.

Lemma DropPartitionsBefore_quiet (cutoff : Time) (w : World) :
  quiet w -> layout (w_db w) ->
  exists dropped w', DropPartitionsBefore cutoff w = (dropped, None, w') /\
    purged cutoff (w_db w) dropped (w_db w') /\ quiet w'.
Proof.
  intros Hq [Hm Hall]. unfold DropPartitionsBefore, bind. rewrite query_quiet by done.
  destruct (drop_loop_quiet cutoff (sql_children (w_db w)) [] (tick w)) as (w' & E & Hq' & Hrel & Hfix);
    [by auto with tracker|apply children_NoDup|by intros ???; eapply monthly_children|].
  exists (to_drop cutoff (sql_children (w_db w))), w'. simpl in *. split; [done|]. split; [|done]. unfold purged.
  assert (forall n r, relations (w_db w') !! n = Some r <->
       relations (w_db w) !! n = Some r /\ expired cutoff r = false) as Hrel'.
  { intros n r. rewrite Hrel, elem_of_to_drop. split; intros [Hr Hn]; (split; [done|]).
    - apply not_true_iff_false. intros Hx. apply Hn. eauto.
    - intros (r' & Hr' & Hx). congruence. }
  split; [pose proof (drop_loop_layout cutoff (sql_children (w_db w)) [] (tick w) (conj Hm Hall)) as Hl;
    by rewrite E in Hl|].
  split; [intros n; apply elem_of_to_drop|]. split; [done|].
  intros f. rewrite Hfix. apply and_iff_congr. intros Hf.
  unfold all_routed in Hall. rewrite Forall_forall in Hall. destruct (Hall f Hf) as [Hn Hr].
  apply routed_spec in Hr as (n & r & Hr & Hc).
  destruct (Hm _ _ Hr) as [(c & Hc0 & -> & ->)|[-> _]]; [|done].
  pose proof (month_index_in_range _ _ Hn Hc) as Hi. rewrite Hi. split.
  - intros Hx. apply not_false_iff_true. intros Hb. rewrite (Hx (month_name c) (month_part c)) in Hc; [done| |done].
    apply elem_of_to_drop. exists (month_part c). split; [done|]. simpl. unfold After. by rewrite Hb.
  - intros Hb n r Hin Hr'. apply elem_of_to_drop in Hin as (r' & Hr'' & He).
    assert (r' = r) as -> by congruence. apply not_true_iff_false. intros Hcr.
    destruct (Hm _ _ Hr') as [(c' & _ & -> & ->)|[-> _]]; [|done].
    pose proof (month_index_in_range _ _ Hn Hcr) as Hi'.
    simpl in He. unfold After in He. replace c' with c in He by congruence. by rewrite Hb in He.
Qed.
End DropLemmas.

Definition july_15 : Time := Date 2026 7 15 0 0.
Definition august_31 : Time := Date 2026 8 31 86399 0.

Lemma EnsurePartitions_provisions_witness :
  routed (relations (w_db (snd (EnsurePartitions july_15 2 (calm empty_db july_15))))) august_31 = true.
Proof.
  apply (EnsurePartitions_provisions july_15 2 (calm empty_db july_15)
           (snd (EnsurePartitions july_15 2 (calm empty_db july_15)))
           ["fixes_2026_07"; "fixes_2026_08"] august_31).
  - apply run_pair. vm_compute. reflexivity.
  - split; vm_compute; [discriminate | reflexivity].
  - vm_compute. reflexivity.
  - vm_compute. reflexivity.
Defined.

Lemma EnsurePartitions_succeeds_witness :
  exists w', EnsurePartitions july_15 2 (calm empty_db july_15) =
      (Ok (map (fun j => month_name (month_index july_15 + Z.of_nat j)) (seq 0 (Z.to_nat 2))), w') /\
    monthly (relations (w_db w')) /\ fixes (w_db w') = [].
Proof.
  apply (EnsurePartitions_succeeds july_15 2 (calm empty_db july_15)).
  - intros n Hn. reflexivity.
  - intros name r H. simpl in H. by rewrite lookup_empty in H.
  - vm_compute. discriminate.
Defined.
