(* ===== verification/Retention.v ===== *)
(** The retention job ([internal/retention/retention.go]) and the window
    [cmd/tracker/main.go] starts it with.  A run of the job is the list of clock
    readings of its passes: the immediate one, then one per tick until the
    context is cancelled.  The theorems say that no pass takes a row from the
    window, that one pass without faults purges exactly the expired months
    whatever the earlier passes met, and where the int64 product that computes
    the window stops being the number of days. *)

From Stdlib Require Import ZArith Lia Bool String Ascii List.
From stdpp Require Import base option list strings gmap.
From S2P Require Import Prelude GoTime GoStrings Calendar Database Partitions.
Local Open Scope string_scope.
Local Open Scope Z_scope.

(** [time.Duration(cfg.RetentionDays)*24*time.Hour], an int64 product. *)
Definition retention_window (days : Z) : Z := wrap64 (wrap64 (days * 24) * hour).

(** The guard in [runServe]: no job for a window of 0. *)
Definition retention_job (days : Z) : option Z :=
  if days >? 0 then Some (retention_window days) else None.

Definition day : Z := 24 * hour.

Section Retention.
Context `{G : PostGIS}.

Definition RunOnce (window : Z) (now : Time) : M (list string * option error) :=
  let cutoff := Add now (wrap64 (- window)) in
  DropPartitionsBefore cutoff.

(** The purge passes of [Run], one per clock reading; a pass that fails is
    logged and the loop goes on. *)
Fixpoint Run (window : Z) (passes : list Time) : M (list (list string * option error)) :=
  match passes with
  | [] => ret []
  | now :: rest =>
      let* r := RunOnce window now in
      let* rs := Run window rest in
      ret (r :: rs)
  end.

Lemma Run_snoc window passes now w :
  snd (Run window (passes ++ [now]) w) = snd (RunOnce window now (snd (Run window passes w))).
Proof.
  revert w. induction passes as [|p passes IH]; intros w; simpl; unfold bind.
  - by destruct (RunOnce window now w).
  - destruct (RunOnce window p w) as [r w1]. specialize (IH w1).
    destruct (Run window (passes ++ [now]) w1), (Run window passes w1). simpl in *. done.
Qed.

Lemma Run_layout window passes w : layout (w_db w) -> layout (w_db (snd (Run window passes w))).
Proof.
  revert w. induction passes as [|p passes IH]; intros w Hl; simpl; [done|]. unfold bind.
  pose proof (DropPartitionsBefore_layout (Add p (wrap64 (- window))) w Hl) as Hl1.
  unfold RunOnce. destruct (DropPartitionsBefore _ w) as [r w1]. simpl in Hl1.
  specialize (IH w1 Hl1). by destruct (Run window passes w1).
Qed.

Lemma Run_keeps window passes w f : f ∈ fixes (w_db w) ->
  (forall now, now ∈ passes -> Before (fr_ts f) (Add now (wrap64 (- window))) = false) ->
  f ∈ fixes (w_db (snd (Run window passes w))).
Proof.
  revert w. induction passes as [|p passes IH]; intros w Hf Hp; simpl; [done|]. unfold bind, RunOnce.
  pose proof (DropPartitionsBefore_keeps (Add p (wrap64 (- window))) w f Hf (Hp p ltac:(by left))) as H1.
  destruct (DropPartitionsBefore _ w) as [r w1]. simpl in H1.
  specialize (IH w1 H1 (fun n Hn => Hp n ltac:(by right))). by destruct (Run window passes w1).
Qed.

Lemma retention_window_exact days : 0 <= days <= 106751 -> retention_window days = days * day.
Proof.
  intros H. unfold retention_window, day, hour, minute, second.
  rewrite (wrap64_id (days * 24)) by (unfold int64; lia). rewrite wrap64_id by (unfold int64; lia). lia.
Qed.

Lemma not_before_cutoff ts now d : wf_time ts -> sane_time now -> int64 d ->
  nanos now + d <= nanos ts -> Before ts (Add now d) = false.
Proof.
  intros Ht Hn Hd Hle. destruct (Add_nanos now d Hn Hd) as [E Hw].
  rewrite Before_nanos by done. apply Z.ltb_ge. lia.
Qed.

(** C17: while the window is representable (up to 106751 days, 292 years), the job
    never removes a fix that is inside the window at every pass, whatever the
    catalog looks like and whatever the database does to its statements. *)
Theorem Run_keeps_window (days : Z) (passes : list Time) (w : World) (f : fix_row) :
  0 < days <= 106751 -> f ∈ fixes (w_db w) -> wf_time (fr_ts f) ->
  (forall now, now ∈ passes -> sane_time now /\ nanos now - days * day <= nanos (fr_ts f)) ->
  f ∈ fixes (w_db (snd (Run (retention_window days) passes w))).
Proof.
  intros Hd Hf Ht Hp. apply Run_keeps; [done|]. intros now Hin.
  rewrite retention_window_exact by lia. destruct (Hp now Hin) as [Hs Hle].
  rewrite wrap64_id by (unfold int64, day, hour, minute, second; lia).
  apply not_before_cutoff; [done..| |lia]. unfold int64, day, hour, minute, second; lia.
Qed.

(** Whatever the earlier passes of the job met, one pass that reaches the
    database purges exactly: it reports the months that ended by its cutoff, and
    a row survives it exactly when its month ends after the cutoff. *)
Theorem Run_enforces (window : Z) (passes : list Time) (now : Time) (w : World) :
  layout (w_db w) -> quiet (snd (Run window passes w)) ->
  exists dropped,
    fst (RunOnce window now (snd (Run window passes w))) = (dropped, None) /\
    purged (Add now (wrap64 (- window))) (w_db (snd (Run window passes w))) dropped
      (w_db (snd (Run window (passes ++ [now]) w))).
Proof.
  intros Hl Hq. apply (Run_layout window passes) in Hl.
  destruct (DropPartitionsBefore_quiet (Add now (wrap64 (- window))) _ Hq Hl)
    as (dropped & w' & E & Hp & _).
  exists dropped. rewrite Run_snoc. unfold RunOnce. by rewrite E.
Qed.

Lemma month_end_bound t : 0 <= t_nsec t < second -> int64 (t_sec t) ->
  nanos (month_start (month_index t + 1)) <= nanos t + 31 * day.
Proof.
  intros Hn Hs. pose proof (month_index_spec t) as H. pose proof (month_day_next (month_index t)) as Hm.
  unfold day_of, nanos, month_start, day, hour, minute, second, seconds_per_day in *. simpl.
  Z.to_euclidean_division_equations; lia.
Qed.

Lemma month_start_wf t : wf_time t -> sane_time t -> wf_time (month_start (month_index t + 1)).
Proof.
  intros [Hs Hn] [Hs' _]. pose proof (month_end_bound t Hn Hs) as Hb.
  pose proof (month_index_spec t) as H. pose proof (month_day_next (month_index t)) as Hm.
  unfold day_of, wf_time, month_start, int64, nanos, day, hour, minute, second, seconds_per_day in *.
  simpl in *. Z.to_euclidean_division_equations; lia.
Qed.

(** Past 106751 days the product overflows.  For every accepted setting from
    106752 up to 213503 days the window is negative, the cutoff lies in the
    future, and for 150000 days one pass deletes every fix ever recorded up to
    the present. *)
Theorem retention_window_overflows (days : Z) (now : Time) (w : World) :
  106752 <= days <= 213503 -> sane_time now -> quiet w -> layout (w_db w) ->
  retention_window days < 0 /\
  Before now (Add now (wrap64 (- retention_window days))) = true /\
  (days = 150000 -> forall f, f ∈ fixes (w_db w) -> sane_time (fr_ts f) -> nanos (fr_ts f) <= nanos now ->
     f ∉ fixes (w_db (snd (RunOnce (retention_window days) now w)))).
Proof.
  intros Hd Hn Hq Hl.
  assert (Hw : retention_window days = days * day - 2^64).
  { unfold retention_window, day, hour, minute, second.
    rewrite (wrap64_id (days * 24)) by (unfold int64; lia).
    rewrite wrap64_over; lia. }
  assert (Hneg : retention_window days < 0) by (rewrite Hw; unfold day, hour, minute, second; lia).
  assert (Hi : int64 (- retention_window days))
    by (rewrite Hw; unfold int64, day, hour, minute, second; lia).
  rewrite (wrap64_id _ Hi). destruct (Add_nanos now _ Hn Hi) as [E Hwf].
  split; [done|]. split.
  { rewrite Before_nanos; [|by apply sane_wf|done]. apply Z.ltb_lt. lia. }
  intros -> f Hf Hs Hle. unfold RunOnce. rewrite (wrap64_id _ Hi).
  destruct (DropPartitionsBefore_quiet (Add now (- retention_window 150000)) w Hq Hl)
    as (dropped & w' & E' & (_ & _ & _ & Hfix) & _).
  rewrite E'. simpl. rewrite Hfix. intros [_ Hb].
  rewrite Before_nanos in Hb; [|done|apply month_start_wf; [by apply sane_wf|done]]. b2p.
  destruct (sane_wf _ Hs) as [Hi1 Hn1]. pose proof (month_end_bound (fr_ts f) Hn1 Hi1) as Hm.
  rewrite E, Hw in Hb. unfold day, hour, minute, second in *. lia.
Qed.
End Retention.

(* ------------------------------------------------------------------ *)
(** ** Witnesses: a family with a fix in January and one in July 2026 *)

Definition sample_fix (ts : Time) : @fix_row planar :=
  mkFixRow "d" ts (f64 1, f64 1) None None None None None ts.

Definition jan_15 : Time := Date 2026 1 15 0 0.
Definition jul_15 : Time := Date 2026 7 15 0 0.
Definition jul_16 : Time := Date 2026 7 16 0 0.

Definition two_months : @DB planar :=
  mkDB [] [] [] [sample_fix jan_15; sample_fix jul_15] [] [] []
    (<[month_name (month_index jan_15) := month_part (month_index jan_15)]>
    (<[month_name (month_index jul_15) := month_part (month_index jul_15)]> ∅)).

Lemma monthly_empty : monthly ∅.
Proof. intros n r H. by rewrite lookup_empty in H. Qed.

Lemma two_months_layout : layout two_months.
Proof.
  assert (H0 : 0 <= month_index jan_15 /\ 0 <= month_index jul_15) by (vm_compute; split; discriminate).
  destruct H0 as [H1 H2]. assert (Hne : month_index jan_15 <> month_index jul_15) by (vm_compute; discriminate).
  split; [by apply monthly_insert, H1; apply monthly_insert, H2; apply monthly_empty|].
  assert (Hn : forall t, 0 <= t_nsec (Date 2026 t 15 0 0) < second) by (intros; unfold Date, second; simpl; lia).
  unfold all_routed. apply Forall_cons_2; [|apply Forall_cons_2; [|apply Forall_nil_2]];
    (split; [apply Hn|]); simpl.
  - eapply routed_month; [apply Hn| |reflexivity]. by rewrite lookup_insert_eq.
  - eapply routed_month; [apply Hn| |reflexivity].
    rewrite lookup_insert_ne; [by rewrite lookup_insert_eq|].
    intros E. apply Hne, month_name_inj; done.
Qed.

Lemma Run_keeps_window_witness :
  sample_fix jul_15 ∈ fixes (w_db (snd (Run (retention_window 90) [jul_16] (calm two_months jul_16)))).
Proof.
  apply (Run_keeps_window 90 [jul_16] (calm two_months jul_16) (sample_fix jul_15)).
  - lia.
  - right. by left.
  - split; vm_compute; [split; [discriminate|reflexivity] | split; [discriminate|reflexivity]].
  - intros now ->%list_elem_of_singleton. split; [|vm_compute; discriminate].
    split; vm_compute; (split; [discriminate|reflexivity]).
Defined.

Lemma Run_enforces_witness :
  exists dropped,
    fst (RunOnce (retention_window 90) jul_16 (snd (Run (retention_window 90) [] (calm two_months jul_16)))) = (dropped, None) /\
    purged (Add jul_16 (wrap64 (- retention_window 90))) two_months dropped
      (w_db (snd (Run (retention_window 90) ([] ++ [jul_16]) (calm two_months jul_16)))).
Proof.
  apply (Run_enforces (retention_window 90) [] jul_16 (calm two_months jul_16)).
  - exact two_months_layout.
  - apply calm_quiet.
Defined.

Lemma retention_window_overflows_witness :
  retention_window 150000 < 0 /\
  Before jul_16 (Add jul_16 (wrap64 (- retention_window 150000))) = true /\
  (150000 = 150000 -> forall f, f ∈ fixes two_months -> sane_time (fr_ts f) -> nanos (fr_ts f) <= nanos jul_16 ->
     f ∉ fixes (w_db (snd (RunOnce (retention_window 150000) jul_16 (calm two_months jul_16))))).
Proof.
  apply (retention_window_overflows 150000 jul_16 (calm two_months jul_16)).
  - lia.
  - split; vm_compute; (split; [discriminate|reflexivity]).
  - apply calm_quiet.
  - exact two_months_layout.
Defined.
