(* ===== verification/StoreFix.v ===== *)
(** Fixes in the store ([internal/store/store.go]): the coordinate and timestamp
    checks, the idempotent insert, the ingest entry point that provisions a
    missing month and retries once, and the two spatial reads.  The theorems: a
    rejected fix reaches no statement; an accepted one is stored, in its month,
    whatever was provisioned before; and any number of retries of one fix, with
    requests or replies lost on the way, leaves exactly one row once one of them
    is acknowledged. *)

From Stdlib Require Import ZArith Lia Bool String Ascii List SpecFloat.
From stdpp Require Import base option list strings gmap.
From S2P Require Import Prelude GoTime GoStrings Calendar Database Partitions.
Local Open Scope string_scope.
Local Open Scope Z_scope.

Definition ValidateLonLat (lon lat : float64) : option error :=
  if f_isNaN lon || f_isNaN lat || f_isInf lon || f_isInf lat then Some ErrCoordinateOutOfRange
  else if f_ltb lon (f64 (-180)) || f_ltb (f64 180) lon then Some ErrCoordinateOutOfRange
  else if f_ltb lat (f64 (-90)) || f_ltb (f64 90) lat then Some ErrCoordinateOutOfRange
  else None.

(** [Fix]; [BatteryPct] is an int16. *)
Record Fix := mkFix {
  DeviceID : string; TS : Time; Lon : float64; Lat : float64;
  AccuracyM : option float64; BatteryPct : option Z; SpeedMPS : option float64;
  TriggerReason : option string; MsgID : option string }.

Definition MaxIngestFutureSkew : Z := 24 * hour.
Definition MaxIngestBacklog : Z := 90 * 24 * hour.

Definition validateFixTimestamp (ts now : Time) : option error :=
  if After ts (GoTime.Add now MaxIngestFutureSkew) then Some ErrTimestampOutOfWindow
  else if Before ts (GoTime.Add now (- MaxIngestBacklog)) then Some ErrTimestampOutOfWindow
  else None.

Definition isMissingPartitionErr (err : error) : bool :=
  match err with EPg e => Contains (Message e) "no partition of relation" | _ => false end.

Definition isDuplicateRelationErr (err : error) : bool :=
  match err with EPg e => String.eqb (Code e) "42P07" | _ => false end.

(** [fixes_accuracy_m_nonneg], [fixes_speed_mps_nonneg], [fixes_battery_pct_range];
    PostgreSQL orders NaN above every number. *)
Definition pg_nonneg (f : float64) : bool := f_isNaN f || f_leb (f64 0) f.

Definition opt_ok {A} (p : A -> bool) (o : option A) : bool :=
  match o with Some a => p a | None => true end.

Definition battery_in_range (b : Z) : bool := (0 <=? b) && (b <=? 100).

Definition fix_checks (f : Fix) : bool :=
  opt_ok pg_nonneg (AccuracyM f) && opt_ok pg_nonneg (SpeedMPS f) && opt_ok battery_in_range (BatteryPct f).

Section StoreFix.
Context `{G : PostGIS}.

Definition same_key (id : string) (ts : Time) (r : fix_row) : bool :=
  String.eqb (fr_device_id r) id && Equal (fr_ts r) ts.

Definition has_device (id : string) (db : DB) : bool :=
  existsb (fun d => String.eqb (dev_id d) id) (devices db).

Definition row_of (now : Time) (f : Fix) : fix_row :=
  mkFixRow (DeviceID f) (timestamptz (TS f)) (ST_Point (Lon f) (Lat f)) (AccuracyM f)
    (BatteryPct f) (SpeedMPS f) (TriggerReason f) (MsgID f) now.

(** [upsertFixSQL]: the row is routed to its partition, then checked, then the
    unique index is consulted, then the foreign key; the tag counts rows. *)
Definition upsertFixSQL (f : Fix) (env : stmt_env) (db : DB) : result pgerror Z * DB :=
  let row := row_of (se_now env) f in
  if negb (routed (relations db) (fr_ts row)) then (Err no_partition, db)
  else if negb (fix_checks f) then (Err check_violation, db)
  else if existsb (same_key (DeviceID f) (fr_ts row)) (fixes db) then (Ok 0, db)
  else if negb (has_device (DeviceID f) db) then (Err foreign_key_violation, db)
  else (Ok 1, set_fixes (fixes db ++ [row])%list db).

Definition UpsertFix (f : Fix) : M (result error bool) :=
  match ValidateLonLat (Lon f) (Lat f) with
  | Some e => ret (Err e)
  | None =>
      let? tag := exec (upsertFixSQL f) in
      ret (Ok (tag =? 1))
  end.

Definition IngestFix (f : Fix) (now : Time) : M (result error bool) :=
  match validateFixTimestamp (TS f) now with
  | Some e => ret (Err e)
  | None =>
      let* r := UpsertFix f in
      match r with
      | Ok inserted => ret (Ok inserted)
      | Err err =>
          if isMissingPartitionErr err then
            let* p := EnsureMonthlyPartition (TS f) in
            match p with
            | Err perr =>
                if negb (isDuplicateRelationErr perr) then ret (Err perr) else UpsertFix f
            | Ok _ => UpsertFix f
            end
          else ret (Err err)
      end
  end.

(* ------------------------------------------------------------------ *)
(** ** Spatial reads *)

Record NearbyFix := mkNearbyFix {
  nf_DeviceID : string; nf_DeviceName : string; nf_TS : Time;
  nf_Lon : float64; nf_Lat : float64; nf_DistanceM : float64 }.

(** The devices a row joins to. *)
Definition join_device (db : DB) (r : fix_row) : list device_row :=
  List.filter (fun d => String.eqb (dev_id d) (fr_device_id r)) (devices db).

(** [fixesNearSQL]; ties in the distance keep the table's order. *)
Definition fixesNearSQL (familyID : string) (lon lat radiusM : float64) (db : DB) : list NearbyFix :=
  stable_sort (fun a b => f_ltb (nf_DistanceM a) (nf_DistanceM b))
    (flat_map (fun r =>
       map (fun d => mkNearbyFix (fr_device_id r) (dev_name d) (fr_ts r)
                       (ST_X (fr_location r)) (ST_Y (fr_location r))
                       (ST_Distance (fr_location r) (ST_Point lon lat)))
         (List.filter (fun d => String.eqb (dev_family_id d) familyID &&
                           ST_DWithin (fr_location r) (ST_Point lon lat) radiusM)
            (join_device db r))) (fixes db)).

Definition FixesNear (familyID : string) (lon lat radiusM : float64) : M (result error (list NearbyFix)) :=
  match ValidateLonLat lon lat with
  | Some e => ret (Err e)
  | None =>
      if f_ltb radiusM (f64 0) || f_isNaN radiusM || f_isInf radiusM
      then ret (Err (EText "radius must be a finite, non-negative number of metres"))
      else query (fun _ => fixesNearSQL familyID lon lat radiusM)
  end.

Record Geofence := mkGeo { geo_ID : string; geo_Name : string }.

(** [geofencesContainingSQL]; equal names keep the table's order. *)
Definition geofencesContainingSQL (familyID : string) (lon lat : float64) (db : DB) : list Geofence :=
  stable_sort (fun a b => collate_ltb (geo_Name a) (geo_Name b))
    (map (fun g => mkGeo (gf_id g) (gf_name g))
      (List.filter (fun g => String.eqb (gf_family_id g) familyID && ST_Covers (gf_area g) (ST_Point lon lat))
         (geofences db))).

Definition GeofencesContaining (familyID : string) (lon lat : float64) : M (result error (list Geofence)) :=
  match ValidateLonLat lon lat with
  | Some e => ret (Err e)
  | None => query (fun _ => geofencesContainingSQL familyID lon lat)
  end.

(* ------------------------------------------------------------------ *)
(** ** One insert *)

(** A coordinate that passes is a finite point of the map; NaN cannot slip
    through the comparisons. *)
Lemma ValidateLonLat_range lon lat : ValidateLonLat lon lat = None <->
  (f_isNaN lon = false /\ f_isNaN lat = false /\ f_isInf lon = false /\ f_isInf lat = false) /\
  f_leb (f64 (-180)) lon = true /\ f_leb lon (f64 180) = true /\
  f_leb (f64 (-90)) lat = true /\ f_leb lat (f64 90) = true.
Proof.
  unfold ValidateLonLat. split.
  - repeat (break; [done|]). intros _. b2p.
    split; [done|]. repeat split; apply f_not_ltb_leb; first [done|reflexivity].
  - intros ((-> & -> & -> & ->) & H1 & H2 & H3 & H4). simpl.
    rewrite !f_leb_not_ltb by done. done.
Qed.

Lemma same_key_refl f now : same_key (DeviceID f) (timestamptz (TS f)) (row_of now f) = true.
Proof. unfold same_key. simpl. rewrite String.eqb_refl. apply Equal_eq. done. Qed.

Lemma same_key_iff id ts (r : fix_row) :
  same_key id ts r = true <-> fr_device_id r = id /\ fr_ts r = ts.
Proof. unfold same_key. by rewrite andb_true_iff, String.eqb_eq, Equal_eq. Qed.

(** The rows of [fixes] under one key. *)
Definition rows_at (id : string) (ts : Time) (db : DB) : list fix_row :=
  List.filter (same_key id ts) (fixes db).

(** What the statement can do to the table. *)
Lemma upsertFixSQL_fixes f env db :
  let db' := snd (upsertFixSQL f env db) in
  relations db' = relations db /\
  (fixes db' = fixes db \/
   fixes db' = (fixes db ++ [row_of (se_now env) f])%list /\ rows_at (DeviceID f) (timestamptz (TS f)) db = []).
Proof.
  unfold upsertFixSQL. simpl. destruct (negb (routed _ _)); [by auto|].
  destruct (negb (fix_checks f)); [by auto|]. destruct (existsb _ _) eqn:E; [by auto|].
  destruct (negb (has_device _ _)); [by auto|]. simpl. split; [done|]. right. split; [done|].
  apply filter_none. by apply existsb_elem_false.
Qed.

Lemma upsertFixSQL_ok f env db n :
  fst (upsertFixSQL f env db) = Ok n ->
  rows_at (DeviceID f) (timestamptz (TS f)) (snd (upsertFixSQL f env db)) <> [].
Proof.
  unfold upsertFixSQL. simpl. destruct (negb (routed _ _)); [done|].
  destruct (negb (fix_checks f)); [done|]. destruct (existsb _ _) eqn:E; simpl.
  - intros _. apply existsb_elem in E as (r & Hr & Hk). intros Hn.
    assert (r ∈ rows_at (DeviceID f) (timestamptz (TS f)) db) as Hin by by apply elem_of_filter_b.
    rewrite Hn in Hin. by apply elem_of_nil in Hin.
  - destruct (negb (has_device _ _)); simpl; [done|]. intros _. unfold rows_at. simpl.
    rewrite List.filter_app. simpl. rewrite same_key_refl. by destruct (List.filter _ _).
Qed.

(** [Grows]: the table keeps its rows and gains at most this fix, once. *)
Definition fix_grows (f : Fix) (db db' : DB) : Prop :=
  fixes db' = fixes db \/
  exists now, fixes db' = (fixes db ++ [row_of now f])%list /\
    rows_at (DeviceID f) (timestamptz (TS f)) db = [].

Lemma rows_at_grown f now db db' : fixes db' = (fixes db ++ [row_of now f])%list ->
  rows_at (DeviceID f) (timestamptz (TS f)) db' <> [].
Proof.
  intros E. unfold rows_at. rewrite E, List.filter_app. simpl. rewrite same_key_refl.
  by destruct (List.filter _ _).
Qed.

Lemma fix_grows_trans f a b c : fix_grows f a b -> fix_grows f b c -> fix_grows f a c.
Proof.
  intros [E1|(n1 & E1 & H1)] [E2|(n2 & E2 & H2)]; unfold fix_grows, rows_at in *.
  - left. congruence.
  - right. exists n2. rewrite E2, E1 in *. done.
  - right. exists n1. rewrite E2, E1 in *. done.
  - exfalso. by apply (rows_at_grown f n1 a b).
Qed.

Lemma UpsertFix_grows f w : fix_grows f (w_db w) (w_db (snd (UpsertFix f w))).
Proof.
  unfold UpsertFix. destruct (ValidateLonLat _ _); [by left|]. unfold bindr, bind.
  pose proof (exec_db (upsertFixSQL f) w) as Hdb.
  assert (w_db (snd (match exec (upsertFixSQL f) w with
    | (r, w') => match r with Ok tag => ret (Ok (tag =? 1)) | Err e => ret (Err e) end w' end)) =
    w_db (snd (exec (upsertFixSQL f) w))) as -> by (by destruct (exec _ w) as [[]]).
  destruct (upsertFixSQL_fixes f (env_of w) (w_db w)) as [_ H].
  destruct Hdb as [->| ->]; [by left|]. destruct H as [H|[H1 H2]]; [by left|]. right. eauto.
Qed.

Lemma UpsertFix_ok f w b w' : UpsertFix f w = (Ok b, w') ->
  rows_at (DeviceID f) (timestamptz (TS f)) (w_db w') <> [].
Proof.
  unfold UpsertFix. destruct (ValidateLonLat _ _); [done|]. unfold bindr, bind.
  destruct (exec _ w) as [[n|e] w1] eqn:E; [|done]. apply exec_ok_inv in E as [E ->].
  unfold ret. intros H. simplify_eq. simpl. by eapply upsertFixSQL_ok.
Qed.

Lemma Ensure_fixes month w : fixes (w_db (snd (EnsureMonthlyPartition month w))) = fixes (w_db w).
Proof.
  assert (preserves (fun db => fixes db = fixes (w_db w)) (EnsureMonthlyPartition month)) as H.
  { unfold EnsureMonthlyPartition. apply preserves_bindr.
    - apply preserves_exec. intros env db H. by rewrite createPartition_fixes.
    - intros _. apply preserves_bindr; [apply preserves_query_row|]. intros [[lo|] [hi|]];
      repeat break; apply preserves_ret. }
  by apply H.
Qed.

Lemma IngestFix_grows f now w : fix_grows f (w_db w) (w_db (snd (IngestFix f now w))).
Proof.
  unfold IngestFix. destruct (validateFixTimestamp _ _); [by left|]. unfold bind at 1.
  pose proof (UpsertFix_grows f w) as H1. destruct (UpsertFix f w) as [[b|e] w1]; simpl in H1; [done|].
  destruct (isMissingPartitionErr e); [|done]. unfold bind.
  pose proof (Ensure_fixes (TS f) w1) as H2.
  destruct (EnsureMonthlyPartition (TS f) w1) as [p w2]. simpl in H2.
  assert (fix_grows f (w_db w) (w_db w2)) as H3.
  { eapply fix_grows_trans; [exact H1|]. by left. }
  destruct p as [name|perr]; [|destruct (negb _); [done|]];
    (eapply fix_grows_trans; [exact H3|apply UpsertFix_grows]).
Qed.

Lemma IngestFix_ok f now w b w' : IngestFix f now w = (Ok b, w') ->
  rows_at (DeviceID f) (timestamptz (TS f)) (w_db w') <> [].
Proof.
  unfold IngestFix. destruct (validateFixTimestamp _ _); [done|]. unfold bind at 1.
  destruct (UpsertFix f w) as [[b1|e] w1] eqn:E1.
  - unfold ret. intros H. simplify_eq. by eapply UpsertFix_ok.
  - destruct (isMissingPartitionErr e); [|done]. unfold bind.
    destruct (EnsureMonthlyPartition (TS f) w1) as [[name|perr] w2];
      [|destruct (negb _); [done|]]; intros H; by eapply UpsertFix_ok.
Qed.

(** A client that resends one fix, as its offline queue does. *)
Fixpoint ingest_retries (f : Fix) (clocks : list Time) : M (list (result error bool)) :=
  match clocks with
  | [] => ret []
  | now :: rest =>
      let* r := IngestFix f now in
      let* rs := ingest_retries f rest in
      ret (r :: rs)
  end.

Lemma retries_grow f clocks w : fix_grows f (w_db w) (w_db (snd (ingest_retries f clocks w))).
Proof.
  revert w. induction clocks as [|now clocks IH]; intros w; simpl; [by left|]. unfold bind.
  pose proof (IngestFix_grows f now w) as H. destruct (IngestFix f now w) as [r w1].
  specialize (IH w1). destruct (ingest_retries f clocks w1) as [rs w2].
  by eapply fix_grows_trans.
Qed.

Lemma rows_at_grows f db db' : fix_grows f db db' ->
  rows_at (DeviceID f) (timestamptz (TS f)) db <> [] ->
  rows_at (DeviceID f) (timestamptz (TS f)) db' <> [].
Proof.
  intros [E|(n & E & _)] H; [unfold rows_at; by rewrite E|by eapply rows_at_grown].
Qed.

Lemma retries_ok f clocks w rs w' b : ingest_retries f clocks w = (rs, w') -> Ok b ∈ rs ->
  rows_at (DeviceID f) (timestamptz (TS f)) (w_db w') <> [].
Proof.
  revert w rs w'. induction clocks as [|now clocks IH]; intros w rs w'; simpl.
  - unfold ret. intros [= <- <-]. by intros ?%elem_of_nil.
  - unfold bind. destruct (IngestFix f now w) as [r w1] eqn:E1.
    pose proof (retries_grow f clocks w1) as Hg.
    destruct (ingest_retries f clocks w1) as [rs1 w2] eqn:E2. unfold ret. intros [= <- <-].
    intros [<-|Hin]%elem_of_cons; [|by eapply IH].
    eapply rows_at_grows; [exact Hg|]. by eapply IngestFix_ok.
Qed.

(** C1: at-least-once delivery of a fix stores it exactly once.  However many
    times one fix is sent, and whatever requests, replies or partitions are lost
    on the way: no stored row changes or disappears, at most one row is added, and
    once any of the attempts was acknowledged the table holds exactly one row for
    the fix's device and timestamp - the new one if the key was free. *)
Theorem IngestFix_exactly_once (f : Fix) (clocks : list Time) (w w' : World) rs :
  ingest_retries f clocks w = (rs, w') ->
  (length (rows_at (DeviceID f) (timestamptz (TS f)) (w_db w)) <= 1)%nat ->
  exists added, fixes (w_db w') = (fixes (w_db w) ++ added)%list /\
    (length (rows_at (DeviceID f) (timestamptz (TS f)) (w_db w')) <= 1)%nat /\
    (added = [] \/ exists received_at, added = [row_of received_at f]) /\
    ((exists b, Ok b ∈ rs) -> length (rows_at (DeviceID f) (timestamptz (TS f)) (w_db w')) = 1%nat).
Proof.
  intros E Hle. pose proof (retries_grow f clocks w) as Hg. rewrite E in Hg. simpl in Hg.
  assert (Hok : (exists b, Ok b ∈ rs) -> rows_at (DeviceID f) (timestamptz (TS f)) (w_db w') <> [])
    by (intros [b Hb]; by eapply retries_ok).
  destruct Hg as [Hf|(n & Hf & Hn)].
  - exists []. rewrite app_nil_r. unfold rows_at in *. rewrite Hf in *.
    split; [done|]. split; [done|]. split; [by left|]. intros H%Hok.
    destruct (List.filter _ _); simpl in *; [done|lia].
  - exists [row_of n f]. unfold rows_at in *. rewrite Hf, List.filter_app, Hn. simpl.
    rewrite same_key_refl. simpl. split; [done|]. split; [lia|]. split; [|done]. right. eauto.
Qed.

(* ------------------------------------------------------------------ *)
(** ** The ingest entry point *)

Lemma validateFixTimestamp_window ts now : sane_time now -> wf_time ts ->
  validateFixTimestamp ts now = None <->
  nanos now - MaxIngestBacklog <= nanos ts <= nanos now + MaxIngestFutureSkew.
Proof.
  intros Hn Ht. unfold validateFixTimestamp, After.
  assert (H1 : int64 MaxIngestFutureSkew) by (vm_compute; split; [discriminate|reflexivity]).
  assert (H2 : int64 (- MaxIngestBacklog)) by (vm_compute; split; [discriminate|reflexivity]).
  destruct (Add_nanos now _ Hn H1) as [E1 W1]. destruct (Add_nanos now _ Hn H2) as [E2 W2].
  rewrite !Before_nanos by done. rewrite E1, E2.
  destruct (Z.ltb_spec (nanos now + MaxIngestFutureSkew) (nanos ts)); [split; [done|lia]|].
  destruct (Z.ltb_spec (nanos ts) (nanos now + - MaxIngestBacklog)); split; try done; lia.
Qed.

(** A fix outside the ingest window or with an impossible coordinate is
    refused with its own error and no statement at all reaches the database; in
    particular it provisions no partition. *)
Theorem IngestFix_refuses (f : Fix) (now : Time) (w : World) :
  sane_time now -> wf_time (TS f) ->
  (~ (nanos now - MaxIngestBacklog <= nanos (TS f) <= nanos now + MaxIngestFutureSkew) ->
     IngestFix f now w = (Err ErrTimestampOutOfWindow, w)) /\
  (nanos now - MaxIngestBacklog <= nanos (TS f) <= nanos now + MaxIngestFutureSkew ->
   ValidateLonLat (Lon f) (Lat f) <> None ->
     IngestFix f now w = (Err ErrCoordinateOutOfRange, w)).
Proof.
  intros Hn Ht. pose proof (validateFixTimestamp_window (TS f) now Hn Ht) as Hw. unfold IngestFix.
  split; intros Hr.
  - destruct (validateFixTimestamp (TS f) now) as [e|] eqn:E; [|destruct Hr; by apply Hw].
    unfold validateFixTimestamp in E. repeat break_in E; simplify_eq; done.
  - apply Hw in Hr. rewrite Hr. intros Hv. unfold UpsertFix.
    destruct (ValidateLonLat (Lon f) (Lat f)) as [e|] eqn:E; [|done].
    assert (e = ErrCoordinateOutOfRange) as ->
      by (unfold ValidateLonLat in E; repeat break_in E; simplify_eq; done).
    done.
Qed.

Lemma UpsertFix_routed f w : quiet w -> ValidateLonLat (Lon f) (Lat f) = None ->
  fix_checks f = true -> has_device (DeviceID f) (w_db w) = true ->
  routed (relations (w_db w)) (timestamptz (TS f)) = true ->
  let known := existsb (same_key (DeviceID f) (timestamptz (TS f))) (fixes (w_db w)) in
  UpsertFix f w =
    (Ok (negb known),
     with_db (if known then w_db w
              else set_fixes (fixes (w_db w) ++ [row_of (se_now (env_of w)) f])%list (w_db w)) (tick w)).
Proof.
  intros Hq Hv Hc Hd Hr. simpl. unfold UpsertFix. rewrite Hv. unfold bindr, bind.
  rewrite exec_quiet by done. unfold upsertFixSQL. simpl. rewrite Hr, Hc. simpl.
  destruct (existsb _ _); simpl; [done|]. by rewrite Hd.
Qed.

Lemma UpsertFix_unrouted f w : quiet w -> ValidateLonLat (Lon f) (Lat f) = None ->
  routed (relations (w_db w)) (timestamptz (TS f)) = false ->
  UpsertFix f w = (Err (EPg no_partition), tick w).
Proof.
  intros Hq Hv Hr. unfold UpsertFix. rewrite Hv. unfold bindr, bind.
  rewrite exec_quiet by done. unfold upsertFixSQL. simpl. rewrite Hr. simpl. by destruct w.
Qed.

Lemma month_index_timestamptz t : month_index (timestamptz t) = month_index t.
Proof. done. Qed.

Lemma timestamptz_wf t : 0 <= t_nsec t < second -> 0 <= t_nsec (timestamptz t) < second.
Proof. unfold timestamptz, second. simpl. intros. Z.to_euclidean_division_equations; lia. Qed.

Lemma routed_by_month rels t c : monthly rels -> 0 <= t_nsec t < second ->
  routed rels t = true -> month_index t = c -> rels !! month_name c = Some (month_part c).
Proof.
  intros Hm Hn (n & r & Hr & Hc)%routed_spec <-.
  destruct (Hm _ _ Hr) as [(c' & _ & -> & ->)|[-> _]]; [|done].
  apply month_index_in_range in Hc; [|done]. by rewrite Hc.
Qed.

(** C2: an accepted fix is stored whether or not its month was provisioned: on a
    monthly catalog and without faults, a valid fix from an enrolled device is
    inserted exactly when its key is free, the reply says which, every other row
    is left alone, and the catalog stays monthly with the fix's month in it - so a
    process that outlives its provisioned months heals itself. *)
Theorem IngestFix_stores (f : Fix) (now : Time) (w : World) :
  quiet w -> monthly (relations (w_db w)) ->
  wf_time (TS f) -> 0 <= month_index (TS f) ->
  validateFixTimestamp (TS f) now = None -> ValidateLonLat (Lon f) (Lat f) = None ->
  fix_checks f = true -> has_device (DeviceID f) (w_db w) = true ->
  let known := existsb (same_key (DeviceID f) (timestamptz (TS f))) (fixes (w_db w)) in
  exists received_at w', IngestFix f now w = (Ok (negb known), w') /\
    fixes (w_db w') = (if known then fixes (w_db w) else fixes (w_db w) ++ [row_of received_at f])%list /\
    monthly (relations (w_db w')) /\
    relations (w_db w') !! month_name (month_index (TS f)) = Some (month_part (month_index (TS f))).
Proof.
  intros Hq Hm [_ Hn] Hc Ht Hv Hk Hd known. unfold IngestFix. rewrite Ht. unfold bind.
  apply timestamptz_wf in Hn.
  destruct (routed (relations (w_db w)) (timestamptz (TS f))) eqn:Hr.
  - rewrite UpsertFix_routed by done. exists (se_now (env_of w)). eexists. split; [done|].
    fold known. pose proof (routed_by_month _ _ _ Hm Hn Hr eq_refl). by destruct known.
  - rewrite UpsertFix_unrouted by done. change (isMissingPartitionErr (EPg no_partition)) with true. cbv iota beta.
    rewrite Ensure_quiet by (first [by apply quiet_tick | done]).
    match goal with |- context [UpsertFix f ?w1] => set (w2 := w1) end.
    assert (quiet w2) as Hq2 by (by apply quiet_with_db, quiet_tick, quiet_tick, quiet_tick).
    assert (relations (w_db w2) !! month_name (month_index (TS f)) = Some (month_part (month_index (TS f)))) as Hl
      by (simpl; by rewrite lookup_insert_eq).
    rewrite UpsertFix_routed; [|done..|by eapply routed_month].
    exists (se_now (env_of w2)). eexists. split; [done|].
    assert (monthly (relations (w_db w2))) by (simpl; by apply (monthly_insert (relations (w_db w)))).
    change (existsb _ (fixes (w_db w2))) with known. destruct known; done.
Qed.

(* ------------------------------------------------------------------ *)
(** ** Family scope of the spatial reads *)

Lemma elem_of_fixesNearSQL familyID lon lat radiusM db n :
  n ∈ fixesNearSQL familyID lon lat radiusM db <->
  exists r d, r ∈ fixes db /\ d ∈ devices db /\ dev_id d = fr_device_id r /\
    dev_family_id d = familyID /\ ST_DWithin (fr_location r) (ST_Point lon lat) radiusM = true /\
    n = mkNearbyFix (fr_device_id r) (dev_name d) (fr_ts r) (ST_X (fr_location r)) (ST_Y (fr_location r))
          (ST_Distance (fr_location r) (ST_Point lon lat)).
Proof.
  unfold fixesNearSQL. rewrite stable_sort_perm, list_elem_of_In, in_flat_map.
  setoid_rewrite in_map_iff. setoid_rewrite <- list_elem_of_In. unfold join_device.
  setoid_rewrite elem_of_filter_b. setoid_rewrite elem_of_filter_b.
  setoid_rewrite andb_true_iff. setoid_rewrite String.eqb_eq. naive_solver.
Qed.

(** The proximity read is scoped to the family in the query itself: whatever
    it returns, in whatever state of the tables, is a fix of a device of the
    family asked for, within the radius - and it misses none; a radius that is
    not a number of metres and an impossible centre never reach the database. *)
Theorem FixesNear_scoped (familyID : string) (lon lat radiusM : float64) (w w' : World) out :
  FixesNear familyID lon lat radiusM w = (Ok out, w') ->
  ValidateLonLat lon lat = None /\ f_isNaN radiusM = false /\ f_leb (f64 0) radiusM = true /\
  w_db w' = w_db w /\
  forall n, n ∈ out <->
    exists r d, r ∈ fixes (w_db w) /\ d ∈ devices (w_db w) /\ dev_id d = fr_device_id r /\
      dev_family_id d = familyID /\ ST_DWithin (fr_location r) (ST_Point lon lat) radiusM = true /\
      n = mkNearbyFix (fr_device_id r) (dev_name d) (fr_ts r) (ST_X (fr_location r)) (ST_Y (fr_location r))
            (ST_Distance (fr_location r) (ST_Point lon lat)).
Proof.
  unfold FixesNear. destruct (ValidateLonLat lon lat); [done|].
  destruct (f_ltb radiusM (f64 0)) eqn:E1; [done|]. destruct (f_isNaN radiusM) eqn:E2; [done|].
  destruct (f_isInf radiusM); [done|]. simpl. intros H. apply query_ok_inv in H as [-> ->].
  split; [done|]. split; [done|]. split; [by apply f_not_ltb_leb|]. split; [done|].
  intros n. apply elem_of_fixesNearSQL.
Qed.
End StoreFix.

(* ------------------------------------------------------------------ *)
(** ** Witnesses: one family, one phone *)

Definition phone : device_row := mkDevice "d" "fam" "phone" "hash" None.
Definition home_db : @DB planar :=
  mkDB [mkFamily "fam" "Family"] [phone] [] [] [] [] [] ∅.
Definition noon : Time := Date 2026 7 15 43200 0.
Definition fix1 : Fix := mkFix "d" noon (f64 5) (f64 5) None (Some 80) None None None.

Lemma IngestFix_stores_witness :
  exists received_at w', IngestFix fix1 noon (calm home_db noon) = (Ok true, w') /\
    fixes (w_db w') = [row_of received_at fix1] /\
    monthly (relations (w_db w')) /\
    relations (w_db w') !! month_name (month_index noon) = Some (month_part (month_index noon)).
Proof.
  apply (IngestFix_stores fix1 noon (calm home_db noon)).
  - apply calm_quiet.
  - intros n r H. simpl in H. by rewrite lookup_empty in H.
  - split; vm_compute; (split; [discriminate|reflexivity]).
  - vm_compute. discriminate.
  - vm_compute. reflexivity.
  - vm_compute. reflexivity.
  - reflexivity.
  - reflexivity.
Defined.

(** The first reply is lost after the insert took effect; the client sends again. *)
Definition flaky : @World planar :=
  mkWorld (set_relations (<[month_name (month_index noon) := month_part (month_index noon)]> ∅) home_db)
    (fun n => mkStmtEnv (match n with O => LostReply (mkPgError "08006" "connection failure") | _ => NoFault end)
                noon "u") 0.

Lemma IngestFix_exactly_once_witness :
  exists added,
    fixes (w_db (snd (ingest_retries fix1 [noon; noon] flaky))) = ([] ++ added)%list /\
    (length (rows_at "d" noon (w_db (snd (ingest_retries fix1 [noon; noon] flaky)))) <= 1)%nat /\
    (added = [] \/ exists received_at, added = [row_of received_at fix1]) /\
    ((exists b, Ok b ∈ [Err (EPg (mkPgError "08006" "connection failure")); Ok false]) ->
       length (rows_at "d" noon (w_db (snd (ingest_retries fix1 [noon; noon] flaky)))) = 1%nat).
Proof.
  apply (IngestFix_exactly_once fix1 [noon; noon] flaky
           (snd (ingest_retries fix1 [noon; noon] flaky))
           [Err (EPg (mkPgError "08006" "connection failure")); Ok false]).
  - apply run_pair. vm_compute. reflexivity.
  - simpl. lia.
Defined.

Lemma IngestFix_refuses_witness :
  (~ (nanos noon - MaxIngestBacklog <= nanos (TS fix1) <= nanos noon + MaxIngestFutureSkew) ->
     IngestFix fix1 noon flaky = (Err ErrTimestampOutOfWindow, flaky)) /\
  (nanos noon - MaxIngestBacklog <= nanos (TS fix1) <= nanos noon + MaxIngestFutureSkew ->
   ValidateLonLat (Lon fix1) (Lat fix1) <> None ->
     IngestFix fix1 noon flaky = (Err ErrCoordinateOutOfRange, flaky)).
Proof.
  apply (IngestFix_refuses fix1 noon flaky);
    split; vm_compute; (split; [discriminate|reflexivity]).
Defined.

Definition fix_at_5 : @fix_row planar := row_of noon fix1.

Lemma FixesNear_scoped_witness :
  ValidateLonLat (f64 5) (f64 5) = None /\ f_isNaN (f64 1) = false /\ f_leb (f64 0) (f64 1) = true /\
  w_db (snd (FixesNear "fam" (f64 5) (f64 5) (f64 1) (calm (set_fixes [fix_at_5] home_db) noon))) =
    set_fixes [fix_at_5] home_db /\
  forall n, n ∈ [mkNearbyFix "d" "phone" noon (f64 5) (f64 5) (f64 0)] <->
    exists r d, r ∈ [fix_at_5] /\ d ∈ [phone] /\ dev_id d = fr_device_id r /\
      dev_family_id d = "fam" /\ ST_DWithin (fr_location r) (ST_Point (f64 5) (f64 5)) (f64 1) = true /\
      n = mkNearbyFix (fr_device_id r) (dev_name d) (fr_ts r) (ST_X (fr_location r)) (ST_Y (fr_location r))
            (ST_Distance (fr_location r) (ST_Point (f64 5) (f64 5))).
Proof.
  apply (FixesNear_scoped "fam" (f64 5) (f64 5) (f64 1) (calm (set_fixes [fix_at_5] home_db) noon)
    (snd (FixesNear "fam" (f64 5) (f64 5) (f64 1) (calm (set_fixes [fix_at_5] home_db) noon)))).
  apply run_pair. vm_compute. reflexivity.
Defined.
