(* ===== verification/StoreEntities.v ===== *)
(** Families, devices, viewers, credentials and Places
    ([internal/store/entities.go]).  A token hash is the byte string of its
    SHA-256 digest.  The theorems: authentication is exactly "one unexpired row of
    the right table carries this digest", a fresh credential authenticates as the
    row it was created for, a rotation replaces the old credential and installs
    the new one in one step whatever the network does, and a ring becomes a Place
    only if it is a closed polygon of the map with at least three corners. *)

From Stdlib Require Import ZArith Lia Bool String Ascii List SpecFloat.
From stdpp Require Import base option list strings gmap.
From S2P Require Import Prelude GoTime GoStrings Calendar Database Partitions StoreFix.
Local Open Scope string_scope.
Local Open Scope Z_scope.

Definition TokenHashLen : Z := 32.


Record Point := mkPoint { pt_Lon : float64; pt_Lat : float64 }.

Record Device := mkDev { d_ID : string; d_FamilyID : string; d_Name : string }.

Record Viewer := mkView { v_ID : string; v_FamilyID : string; v_Email : string; v_DisplayName : string }.

(** [strconv.FormatFloat(v, 'f', -1, 64)], the shortest decimal that reads back. *)
Class FloatText := { FormatFloat : float64 -> string }.

(* ------------------------------------------------------------------ *)
(** ** Rings *)

(** Go's [==] on a [Point], and its equality as a map key, once the coordinates
    are numbers: the two zeros are one. *)
Definition point_eqb (p q : Point) : bool :=
  f_eqb (pt_Lon p) (pt_Lon q) && f_eqb (pt_Lat p) (pt_Lat q).

(** The keys of the [corners] map. *)
Fixpoint distinct_corners (l : list Point) : list Point :=
  match l with
  | [] => []
  | p :: l' => if existsb (point_eqb p) l' then distinct_corners l' else p :: distinct_corners l'
  end.

Section Rings.
Context `{F : FloatText}.

Definition f (v : float64) : string := FormatFloat v.

Definition coord (p : Point) : string := f (pt_Lon p) ++ " " ++ f (pt_Lat p).

(** The corners counted: an explicit closing point is dropped first. *)
Definition open_ring (ring : list Point) : list Point :=
  match ring, last ring with
  | p :: _ :: _, Some q => if point_eqb p q then removelast ring else ring
  | _, _ => ring
  end.

Definition closed_ring (ring : list Point) : list Point :=
  match ring, last ring with
  | first :: _, Some l => if negb (point_eqb first l) then (ring ++ [first])%list else ring
  | _, _ => ring
  end.

Definition polygonWKT (ring : list Point) : result error string :=
  if existsb (fun p => match ValidateLonLat (pt_Lon p) (pt_Lat p) with Some _ => true | None => false end) ring
  then Err ErrCoordinateOutOfRange
  else if Z.of_nat (length (distinct_corners (open_ring ring))) <? 3 then Err ErrInvalidGeofence
  else Ok ("SRID=4326;POLYGON((" ++ Join (map coord (closed_ring ring)) ", " ++ "))").
End Rings.

Section StoreEntities.
Context `{G : PostGIS} `{F : FloatText}.

(* ------------------------------------------------------------------ *)
(** ** Statements *)

Definition sql_insertFamily (name : string) (env : stmt_env) (db : DB) : result pgerror string * DB :=
  if negb (not_blank name) then (Err check_violation, db)
  else if existsb (fun r => String.eqb (fam_id r) (se_uuid env)) (families db) then (Err unique_violation, db)
  else (Ok (se_uuid env), set_families (families db ++ [mkFamily (se_uuid env) name])%list db).

Definition has_family (id : string) (db : DB) : bool :=
  existsb (fun r => String.eqb (fam_id r) id) (families db).

Definition sql_insertDevice (familyID name tokenHash : string) (env : stmt_env) (db : DB)
  : result pgerror string * DB :=
  if negb (not_blank name && (len tokenHash =? TokenHashLen)) then (Err check_violation, db)
  else if existsb (fun r => String.eqb (dev_id r) (se_uuid env) || String.eqb (dev_token_hash r) tokenHash)
            (devices db) then (Err unique_violation, db)
  else if negb (has_family familyID db) then (Err foreign_key_violation, db)
  else (Ok (se_uuid env),
        set_devices (devices db ++ [mkDevice (se_uuid env) familyID name tokenHash None])%list db).

Definition sql_insertViewer (familyID email displayName tokenHash : string) (env : stmt_env) (db : DB)
  : result pgerror string * DB :=
  if negb (not_blank email && not_blank displayName && (len tokenHash =? TokenHashLen)) then (Err check_violation, db)
  else if existsb (fun r => String.eqb (vw_id r) (se_uuid env) || String.eqb (vw_token_hash r) tokenHash
                     || String.eqb (pg_lower (vw_email r)) (pg_lower email)) (viewers db)
       then (Err unique_violation, db)
  else if negb (has_family familyID db) then (Err foreign_key_violation, db)
  else (Ok (se_uuid env),
        set_viewers (viewers db ++ [mkViewer (se_uuid env) familyID email displayName tokenHash None])%list db).

(** [expires_at IS NULL OR expires_at > now()]. *)
Definition unexpired (exp : option Time) (now : Time) : bool :=
  match exp with None => true | Some e => After e now end.

Definition sql_deviceByHash (h : string) (env : stmt_env) (db : DB) : list Device :=
  map (fun r => mkDev (dev_id r) (dev_family_id r) (dev_name r))
    (List.filter (fun r => String.eqb (dev_token_hash r) h && unexpired (dev_expires_at r) (se_now env)) (devices db)).

Definition sql_viewerByHash (h : string) (env : stmt_env) (db : DB) : list Viewer :=
  map (fun r => mkView (vw_id r) (vw_family_id r) (vw_email r) (vw_display_name r))
    (List.filter (fun r => String.eqb (vw_token_hash r) h && unexpired (vw_expires_at r) (se_now env)) (viewers db)).

Definition sql_deviceByID (id : string) (db : DB) : list Device :=
  map (fun r => mkDev (dev_id r) (dev_family_id r) (dev_name r))
    (List.filter (fun r => String.eqb (dev_id r) id) (devices db)).

(** [UPDATE ... SET token_hash, expires_at WHERE id]; the tag counts the rows. *)
Definition sql_rotateDevice (id h : string) (exp : option Time) (db : DB) : result pgerror Z * DB :=
  let hit r := String.eqb (dev_id r) id in
  let n := Z.of_nat (length (List.filter hit (devices db))) in
  if n =? 0 then (Ok 0, db)
  else if existsb (fun r => negb (hit r) && String.eqb (dev_token_hash r) h) (devices db)
       then (Err unique_violation, db)
  else (Ok n, set_devices (map (fun r => if hit r
          then mkDevice (dev_id r) (dev_family_id r) (dev_name r) h (option_map timestamptz exp) else r) (devices db)) db).

Definition sql_rotateViewer (id h : string) (exp : option Time) (db : DB) : result pgerror Z * DB :=
  let hit r := String.eqb (vw_id r) id in
  let n := Z.of_nat (length (List.filter hit (viewers db))) in
  if n =? 0 then (Ok 0, db)
  else if existsb (fun r => negb (hit r) && String.eqb (vw_token_hash r) h) (viewers db)
       then (Err unique_violation, db)
  else (Ok n, set_viewers (map (fun r => if hit r
          then mkViewer (vw_id r) (vw_family_id r) (vw_email r) (vw_display_name r) h (option_map timestamptz exp) else r)
          (viewers db)) db).

(** [SELECT ST_IsValid(g), ST_IsValidReason(g) FROM (SELECT ST_GeogFromText($1) AS g)]. *)
Definition sql_checkArea (wkt : string) (db : DB) : result pgerror (bool * string) * DB :=
  match ST_GeogFromText wkt with
  | None => (Err invalid_text, db)
  | Some g => (Ok (ST_IsValid g, ST_IsValidReason g), db)
  end.

Definition sql_insertGeofence (familyID name wkt : string) (env : stmt_env) (db : DB) : result pgerror string * DB :=
  match ST_GeogFromText wkt with
  | None => (Err invalid_text, db)
  | Some g =>
      if negb (not_blank name && ST_IsValid g) then (Err check_violation, db)
      else if existsb (fun r => String.eqb (gf_id r) (se_uuid env)) (geofences db) then (Err unique_violation, db)
      else if negb (has_family familyID db) then (Err foreign_key_violation, db)
      else (Ok (se_uuid env), set_geofences (geofences db ++ [mkGeofence (se_uuid env) familyID name g])%list db)
  end.

(* ------------------------------------------------------------------ *)
(** ** Operations *)

Definition CreateFamily (name : string) : M (result error string) := exec (sql_insertFamily name).

Definition CreateDevice (familyID name tokenHash : string) : M (result error string) :=
  if negb (len tokenHash =? TokenHashLen) then ret (Err ErrInvalidTokenHash)
  else exec (sql_insertDevice familyID name tokenHash).

(** [errors.Is(err, pgx.ErrNoRows)] turned into the operation's own sentinel. *)
Definition or_unknown {A} (unknown : error) (m : M (result error A)) : M (result error A) :=
  let* r := m in
  match r with
  | Err ENoRows => ret (Err unknown)
  | Err e => ret (Err e)
  | Ok a => ret (Ok a)
  end.

Definition AuthenticateDevice (tokenHash : string) : M (result error Device) :=
  if negb (len tokenHash =? TokenHashLen) then ret (Err ErrInvalidTokenHash)
  else or_unknown ErrUnknownToken (query_row (sql_deviceByHash tokenHash)).

Definition RotateDeviceToken (deviceID newHash : string) (expiresAt : option Time) : M (result error bool) :=
  if negb (len newHash =? TokenHashLen) then ret (Err ErrInvalidTokenHash)
  else
    let? tag := exec (fun _ => sql_rotateDevice deviceID newHash expiresAt) in
    ret (Ok (tag >? 0)).

Definition DeviceByID (deviceID : string) : M (result error Device) :=
  or_unknown ErrUnknownDevice (query_row (fun _ => sql_deviceByID deviceID)).

Definition CreateViewer (familyID email displayName tokenHash : string) : M (result error string) :=
  if negb (len tokenHash =? TokenHashLen) then ret (Err ErrInvalidTokenHash)
  else exec (sql_insertViewer familyID email displayName tokenHash).

Definition AuthenticateViewer (tokenHash : string) : M (result error Viewer) :=
  if negb (len tokenHash =? TokenHashLen) then ret (Err ErrInvalidTokenHash)
  else or_unknown ErrUnknownToken (query_row (sql_viewerByHash tokenHash)).

Definition RotateViewerToken (viewerID newHash : string) (expiresAt : option Time) : M (result error bool) :=
  if negb (len newHash =? TokenHashLen) then ret (Err ErrInvalidTokenHash)
  else
    let? tag := exec (fun _ => sql_rotateViewer viewerID newHash expiresAt) in
    ret (Ok (tag >? 0)).

(** The validity question both Place writers ask before they write. *)
Definition check_area (wkt : string) : M (result error unit) :=
  let? (valid, reason) := exec (fun _ => sql_checkArea wkt) in
  if negb valid then ret (Err ErrInvalidGeofence) else ret (Ok tt).

Definition CreateGeofence (familyID name : string) (ring : list Point) : M (result error string) :=
  match polygonWKT ring with
  | Err e => ret (Err e)
  | Ok wkt =>
      let? _ := check_area wkt in
      exec (sql_insertGeofence familyID name wkt)
  end.
End StoreEntities.

(* ------------------------------------------------------------------ *)
(** ** Credential tables *)

(** Devices and viewers are both tables of digests: what rotation does to such a
    table does not depend on which. *)
Section Credentials.
Context {R : Type} (id hash : R -> string) (upd : R -> R) (i h : string).
Context (upd_hash : forall r, hash (upd r) = h) (upd_id : forall r, id (upd r) = id r).

Definition rotated (l : list R) : list R := map (fun r => if String.eqb (id r) i then upd r else r) l.

Lemma rotated_other l : ~ i ∈ map id l -> rotated l = l.
Proof.
  intros Hi. unfold rotated. induction l as [|x l IH]; csimpl in *; [done|].
  apply not_elem_of_cons in Hi as [Hx Hi]. rewrite IH by done.
  by destruct (String.eqb_spec (id x) i).
Qed.

Lemma rotated_ids l : map id (rotated l) = map id l.
Proof.
  unfold rotated. induction l as [|x l IH]; csimpl; [done|]. rewrite IH. f_equal.
  by destruct (String.eqb (id x) i).
Qed.

Lemma rotated_NoDup l : NoDup (map id l) -> NoDup (map hash l) ->
  (forall x, x ∈ l -> id x <> i -> hash x <> h) -> NoDup (map hash (rotated l)).
Proof.
  induction l as [|x l IH]; csimpl; [done|]. intros [Hx Hd]%NoDup_cons [Hhx Hhd]%NoDup_cons Hne.
  destruct (String.eqb_spec (id x) i) as [E|E].
  - fold (rotated l). rewrite rotated_other by (by rewrite <- E). apply NoDup_cons. split; [|done].
    rewrite upd_hash. intros (y & Hy & Hin)%list_elem_of_fmap. apply (Hne y); [by right| |done].
    intros Ey. apply Hx. rewrite E, <- Ey. by apply list_elem_of_fmap_2.
  - apply NoDup_cons. split; [|apply IH; [done..|]; intros y Hy; apply Hne; by right].
    intros (y & Hy & Hin)%list_elem_of_fmap. unfold rotated in Hin.
    apply list_elem_of_fmap in Hin as (z & -> & Hz). destruct (String.eqb_spec (id z) i).
    + rewrite upd_hash in Hy. apply (Hne x); [by left|done..].
    + apply Hhx. rewrite Hy. by apply list_elem_of_fmap_2.
Qed.

Lemma elem_of_rotated l x : x ∈ rotated l <->
  (exists r, r ∈ l /\ id r = i /\ x = upd r) \/ (x ∈ l /\ id x <> i).
Proof.
  unfold rotated. rewrite list_elem_of_fmap. split.
  - intros (r & -> & Hr). destruct (String.eqb_spec (id r) i); naive_solver.
  - intros [(r & Hr & E & ->)|[Hx E]].
    + exists r. split; [|done]. by rewrite E, String.eqb_refl.
    + exists x. split; [|done]. by destruct (String.eqb_spec (id x) i).
Qed.
End Credentials.

(** The row of a credential table a digest names, if its expiry allows it. *)
Definition live_row {R} (hash : R -> string) (expiry : R -> option Time) (now : Time) (h : string) (l : list R) : list R :=
  List.filter (fun r => String.eqb (hash r) h && unexpired (expiry r) now) l.

Lemma live_row_spec {R} (hash : R -> string) expiry now h l r : NoDup (map hash l) -> r ∈ l ->
  hash r = h -> live_row hash expiry now h l = if unexpired (expiry r) now then [r] else [].
Proof. intros Hd Hr <-. by apply (filter_unique_key hash (fun r => unexpired (expiry r) now)). Qed.

(** Rotation of row [r]: its old digest dies, the new one names it alone until the
    new expiry, and no other credential changes. *)
Lemma live_row_rotated {R} (id hash : R -> string) (expiry : R -> option Time) (upd : R -> R) i h l r now :
  (forall r, hash (upd r) = h) -> (forall r, id (upd r) = id r) ->
  NoDup (map id l) -> NoDup (map hash l) -> (forall x, x ∈ l -> id x <> i -> hash x <> h) ->
  r ∈ l -> id r = i ->
  live_row hash expiry now h (rotated id upd i l) = (if unexpired (expiry (upd r)) now then [upd r] else []) /\
  (hash r <> h -> live_row hash expiry now (hash r) (rotated id upd i l) = []) /\
  (forall k, k <> h -> k <> hash r ->
     live_row hash expiry now k (rotated id upd i l) = live_row hash expiry now k l).
Proof.
  intros Hu Hi Hid Hh Hne Hr Er.
  assert (Hd : NoDup (map hash (rotated id upd i l))) by (by apply rotated_NoDup with (h := h)).
  split; [|split].
  - rewrite <- (Hu r). apply live_row_spec; [done| |done].
    apply elem_of_rotated. left. eauto.
  - intros Hrh. apply filter_missing_key. intros (x & Ex & Hx)%list_elem_of_fmap.
    apply elem_of_rotated in Hx as [(r' & Hr' & Er' & ->)|[Hx Ei]].
    + by rewrite Hu in Ex.
    + destruct Ei. by rewrite <- (unique_key_eq hash l r x).
  - intros k Hk Hkr. unfold rotated, live_row. clear Hd. induction l as [|x l IH]; csimpl; [done|].
    apply NoDup_cons in Hid as [Hx1 Hid]. apply NoDup_cons in Hh as [Hx2 Hh].
    apply elem_of_cons in Hr as [->|Hr].
    + rewrite Er, String.eqb_refl, Hu. destruct (String.eqb_spec h k); [done|].
      destruct (String.eqb_spec (hash x) k); [done|]. simpl.
      fold (rotated id upd i l). rewrite rotated_other; [done|]. by rewrite <- Er.
    + destruct (String.eqb_spec (id x) i) as [E|E].
      * destruct Hx1. rewrite E, <- Er. by apply list_elem_of_fmap_2.
      * pose proof (IH Hid Hh (fun y Hy => Hne y ltac:(by right)) Hr) as IH'.
        destruct (_ && _); by rewrite IH'.
Qed.

Section CredentialTheorems.
Context `{G : PostGIS} `{F : FloatText}.

Definition credentials_ok (db : DB) : Prop :=
  (NoDup (map dev_id (devices db)) /\ NoDup (map dev_token_hash (devices db))) /\
  (NoDup (map vw_id (viewers db)) /\ NoDup (map vw_token_hash (viewers db))).

Definition device_of (r : device_row) : Device := mkDev (dev_id r) (dev_family_id r) (dev_name r).
Definition viewer_of (r : viewer_row) : Viewer := mkView (vw_id r) (vw_family_id r) (vw_email r) (vw_display_name r).

(** The answer of an authentication that matched these rows. *)
Definition first_or_unknown {A} (l : list A) : result error A :=
  match l with [] => Err ErrUnknownToken | a :: _ => Ok a end.

Lemma AuthenticateDevice_quiet h w : quiet w -> len h = TokenHashLen ->
  AuthenticateDevice h w =
    (first_or_unknown (map device_of (live_row dev_token_hash dev_expires_at (se_now (env_of w)) h (devices (w_db w)))), tick w).
Proof.
  intros Hq Hl. unfold AuthenticateDevice. rewrite Hl. simpl. unfold or_unknown, bind.
  rewrite query_row_quiet by done. unfold sql_deviceByHash. fold device_of.
  change (List.filter _ (devices (w_db w))) with
    (live_row dev_token_hash dev_expires_at (se_now (env_of w)) h (devices (w_db w))).
  by destruct (live_row _ _ _ _ _).
Qed.

Lemma AuthenticateViewer_quiet h w : quiet w -> len h = TokenHashLen ->
  AuthenticateViewer h w =
    (first_or_unknown (map viewer_of (live_row vw_token_hash vw_expires_at (se_now (env_of w)) h (viewers (w_db w)))), tick w).
Proof.
  intros Hq Hl. unfold AuthenticateViewer. rewrite Hl. simpl. unfold or_unknown, bind.
  rewrite query_row_quiet by done. unfold sql_viewerByHash. fold viewer_of.
  change (List.filter _ (viewers (w_db w))) with
    (live_row vw_token_hash vw_expires_at (se_now (env_of w)) h (viewers (w_db w))).
  by destruct (live_row _ _ _ _ _).
Qed.

(** C5: a credential authenticates as the row that carries its digest and as
    nothing else: under any faults, a positive answer names a device whose stored
    digest is the presented one and whose expiry, on the database's clock, has not
    passed; a digest of the wrong length is refused before any statement; and
    without faults every unexpired row's digest is accepted and every other one is
    the uniform unknown-token error.  No table changes. *)
Theorem AuthenticateDevice_exact (h : string) (w : World) :
  credentials_ok (w_db w) ->
  (len h <> TokenHashLen -> AuthenticateDevice h w = (Err ErrInvalidTokenHash, w)) /\
  w_db (snd (AuthenticateDevice h w)) = w_db w /\
  (forall d, fst (AuthenticateDevice h w) = Ok d ->
     exists r, r ∈ devices (w_db w) /\ dev_token_hash r = h /\ d = device_of r /\
       forall e, dev_expires_at r = Some e -> Before (se_now (env_of w)) e = true) /\
  (quiet w -> len h = TokenHashLen ->
     (forall r, r ∈ devices (w_db w) -> dev_token_hash r = h ->
        fst (AuthenticateDevice h w) =
          match dev_expires_at r with
          | Some e => if Before (se_now (env_of w)) e then Ok (device_of r) else Err ErrUnknownToken
          | None => Ok (device_of r)
          end) /\
     (~ h ∈ map dev_token_hash (devices (w_db w)) -> fst (AuthenticateDevice h w) = Err ErrUnknownToken)).
Proof.
  intros [[_ Hd] _]. split; [|split; [|split]].
  - intros Hl. unfold AuthenticateDevice. by destruct (Z.eqb_spec (len h) TokenHashLen).
  - unfold AuthenticateDevice, or_unknown, bind. destruct (negb _); [done|].
    pose proof (query_row_db (sql_deviceByHash h) w) as E.
    by destruct (query_row _ w) as [[a|[]] w'].
  - intros d. unfold AuthenticateDevice, or_unknown, bind. destruct (negb _); [done|].
    destruct (query_row _ w) as [[a|e] w'] eqn:E; [|by destruct e].
    apply query_row_ok_inv in E as [[rest E] _]. intros [= <-].
    assert (a ∈ sql_deviceByHash h (env_of w) (w_db w)) as Hin by (rewrite E; by left).
    unfold sql_deviceByHash in Hin. apply list_elem_of_fmap in Hin as (r & -> & Hr).
    apply elem_of_filter_b in Hr as [Hr [Eh Hx]%andb_true_iff]. apply String.eqb_eq in Eh. exists r.
    split; [done|]. split; [done|]. split; [done|]. intros x Ex. by rewrite Ex in Hx.
  - intros Hq Hl. rewrite AuthenticateDevice_quiet by done. simpl. split.
    + intros r Hr Eh. rewrite (live_row_spec _ _ _ _ _ r) by done. unfold unexpired, After.
      destruct (dev_expires_at r) as [x|]; [|done]. by destruct (Before _ x).
    + intros Hn. unfold live_row. by rewrite filter_missing_key.
Qed.

(** What a rotation of [r] to digest [h] has done to the table it lives in. *)
Definition device_rotated (r : device_row) (h : string) (exp : option Time) (db db' : DB) : Prop :=
  forall wq, quiet wq -> w_db wq = db' ->
    fst (AuthenticateDevice h wq) =
      (if unexpired (option_map timestamptz exp) (se_now (env_of wq)) then Ok (device_of r) else Err ErrUnknownToken) /\
    (dev_token_hash r <> h -> len (dev_token_hash r) = TokenHashLen ->
       fst (AuthenticateDevice (dev_token_hash r) wq) = Err ErrUnknownToken) /\
    (forall k wq0, k <> h -> k <> dev_token_hash r -> len k = TokenHashLen ->
       quiet wq0 -> w_db wq0 = db -> se_now (env_of wq0) = se_now (env_of wq) ->
       fst (AuthenticateDevice k wq) = fst (AuthenticateDevice k wq0)).

Definition viewer_rotated (r : viewer_row) (h : string) (exp : option Time) (db db' : DB) : Prop :=
  forall wq, quiet wq -> w_db wq = db' ->
    fst (AuthenticateViewer h wq) =
      (if unexpired (option_map timestamptz exp) (se_now (env_of wq)) then Ok (viewer_of r) else Err ErrUnknownToken) /\
    (vw_token_hash r <> h -> len (vw_token_hash r) = TokenHashLen ->
       fst (AuthenticateViewer (vw_token_hash r) wq) = Err ErrUnknownToken) /\
    (forall k wq0, k <> h -> k <> vw_token_hash r -> len k = TokenHashLen ->
       quiet wq0 -> w_db wq0 = db -> se_now (env_of wq0) = se_now (env_of wq) ->
       fst (AuthenticateViewer k wq) = fst (AuthenticateViewer k wq0)).

Lemma sql_rotateDevice_cases id h exp (db : DB) r :
  credentials_ok db -> r ∈ devices db -> dev_id r = id -> len h = TokenHashLen ->
  sql_rotateDevice id h exp db = (Err unique_violation, db) \/
  (exists n, fst (sql_rotateDevice id h exp db) = Ok n /\ 0 < n /\
     device_rotated r h exp db (snd (sql_rotateDevice id h exp db))).
Proof.
  intros [[Hid Hh] _] Hr Er Hl. unfold sql_rotateDevice.
  assert (0 < Z.of_nat (length (List.filter (fun r => String.eqb (dev_id r) id) (devices db)))) as Hn.
  { assert (r ∈ List.filter (fun r => String.eqb (dev_id r) id) (devices db)) as Hin.
    { apply elem_of_filter_b. by rewrite Er, String.eqb_refl. }
    destruct (List.filter _ _); [by apply elem_of_nil in Hin|simpl; lia]. }
  destruct (Z.eqb_spec (Z.of_nat (length (List.filter (fun r => String.eqb (dev_id r) id) (devices db)))) 0); [lia|].
  destruct (existsb _ _) eqn:Ex; [by left|]. right. eexists. split; [done|]. split; [done|].
  intros wq Hq Edb. simpl in Edb.
  set (upd := fun r => mkDevice (dev_id r) (dev_family_id r) (dev_name r) h (option_map timestamptz exp)) in *.
  assert (Edev : devices (w_db wq) = rotated dev_id upd id (devices db)) by (by rewrite Edb).
  destruct (live_row_rotated dev_id dev_token_hash dev_expires_at upd id h (devices db) r (se_now (env_of wq)))
    as (H1 & H2 & H3); try done.
  { intros x Hx Ei Ehx. apply (proj1 (existsb_elem_false _ _)) with (x := x) in Ex; [|done].
    rewrite Ehx, String.eqb_refl in Ex. by destruct (String.eqb_spec (dev_id x) id). }
  split; [|split].
  - rewrite AuthenticateDevice_quiet, Edev, H1 by done. by destruct (unexpired _ _).
  - intros Hne Hlr. rewrite AuthenticateDevice_quiet, Edev, H2 by done. done.
  - intros k wq0 Hk Hkr Hlk Hq0 Edb0 En. rewrite !AuthenticateDevice_quiet by done.
    rewrite Edev, H3, Edb0, En by done. done.
Qed.

Lemma sql_rotateViewer_cases id h exp (db : DB) r :
  credentials_ok db -> r ∈ viewers db -> vw_id r = id -> len h = TokenHashLen ->
  sql_rotateViewer id h exp db = (Err unique_violation, db) \/
  (exists n, fst (sql_rotateViewer id h exp db) = Ok n /\ 0 < n /\
     viewer_rotated r h exp db (snd (sql_rotateViewer id h exp db))).
Proof.
  intros [_ [Hid Hh]] Hr Er Hl. unfold sql_rotateViewer.
  assert (0 < Z.of_nat (length (List.filter (fun r => String.eqb (vw_id r) id) (viewers db)))) as Hn.
  { assert (r ∈ List.filter (fun r => String.eqb (vw_id r) id) (viewers db)) as Hin.
    { apply elem_of_filter_b. by rewrite Er, String.eqb_refl. }
    destruct (List.filter _ _); [by apply elem_of_nil in Hin|simpl; lia]. }
  destruct (Z.eqb_spec (Z.of_nat (length (List.filter (fun r => String.eqb (vw_id r) id) (viewers db)))) 0); [lia|].
  destruct (existsb _ _) eqn:Ex; [by left|]. right. eexists. split; [done|]. split; [done|].
  intros wq Hq Edb. simpl in Edb.
  set (upd := fun r => mkViewer (vw_id r) (vw_family_id r) (vw_email r) (vw_display_name r) h (option_map timestamptz exp)) in *.
  assert (Edev : viewers (w_db wq) = rotated vw_id upd id (viewers db)) by (by rewrite Edb).
  destruct (live_row_rotated vw_id vw_token_hash vw_expires_at upd id h (viewers db) r (se_now (env_of wq)))
    as (H1 & H2 & H3); try done.
  { intros x Hx Ei Ehx. apply (proj1 (existsb_elem_false _ _)) with (x := x) in Ex; [|done].
    rewrite Ehx, String.eqb_refl in Ex. by destruct (String.eqb_spec (vw_id x) id). }
  split; [|split].
  - rewrite AuthenticateViewer_quiet, Edev, H1 by done. by destruct (unexpired _ _).
  - intros Hne Hlr. rewrite AuthenticateViewer_quiet, Edev, H2 by done. done.
  - intros k wq0 Hk Hkr Hlk Hq0 Edb0 En. rewrite !AuthenticateViewer_quiet by done.
    rewrite Edev, H3, Edb0, En by done. done.
Qed.

(** C11: a device credential is replaced atomically.  Whatever happens to the
    request or the reply, afterwards the tables are as they were, or the new
    digest authenticates as the same device until its new expiry, the old digest
    authenticates nothing, and every other device's credential is untouched; a
    success reply means the second, and a known device never gets "not found". *)
Theorem RotateDeviceToken_atomic (id h : string) (exp : option Time) (w w' : World) res (r : device_row) :
  credentials_ok (w_db w) -> r ∈ devices (w_db w) -> dev_id r = id -> len h = TokenHashLen ->
  RotateDeviceToken id h exp w = (res, w') ->
  res <> Ok false /\
  ((w_db w' = w_db w /\ res <> Ok true) \/ device_rotated r h exp (w_db w) (w_db w')).
Proof.
  intros Hc Hr Er Hl. unfold RotateDeviceToken. rewrite Hl. simpl. unfold bindr, bind.
  pose proof (exec_db (fun _ : stmt_env => sql_rotateDevice id h exp) w) as Hdb.
  destruct (sql_rotateDevice_cases id h exp (w_db w) r Hc Hr Er Hl) as [E|(n & E & Hn & Hrot)].
  - destruct (exec _ w) as [[m|e] w1] eqn:Ex; simpl in Hdb; unfold ret; intros [= <- <-].
    + apply exec_ok_inv in Ex as [Ex _]. by rewrite E in Ex.
    + split; [done|]. left. split; [|done]. rewrite E in Hdb. by destruct Hdb.
  - destruct (exec _ w) as [[m|e] w1] eqn:Ex; simpl in Hdb; unfold ret; intros [= <- <-].
    + apply exec_ok_inv in Ex as [Ex ->]. rewrite E in Ex. injection Ex as <-.
      rewrite (proj2 (Z.gtb_lt n 0)) by lia. split; [done|]. by right.
    + split; [done|]. destruct Hdb as [->| ->]; [by left|by right].
Qed.

(** The same for a viewer credential, on the viewers table. *)
Theorem RotateViewerToken_atomic (id h : string) (exp : option Time) (w w' : World) res (r : viewer_row) :
  credentials_ok (w_db w) -> r ∈ viewers (w_db w) -> vw_id r = id -> len h = TokenHashLen ->
  RotateViewerToken id h exp w = (res, w') ->
  res <> Ok false /\
  ((w_db w' = w_db w /\ res <> Ok true) \/ viewer_rotated r h exp (w_db w) (w_db w')).
Proof.
  intros Hc Hr Er Hl. unfold RotateViewerToken. rewrite Hl. simpl. unfold bindr, bind.
  pose proof (exec_db (fun _ : stmt_env => sql_rotateViewer id h exp) w) as Hdb.
  destruct (sql_rotateViewer_cases id h exp (w_db w) r Hc Hr Er Hl) as [E|(n & E & Hn & Hrot)].
  - destruct (exec _ w) as [[m|e] w1] eqn:Ex; simpl in Hdb; unfold ret; intros [= <- <-].
    + apply exec_ok_inv in Ex as [Ex _]. by rewrite E in Ex.
    + split; [done|]. left. split; [|done]. rewrite E in Hdb. by destruct Hdb.
  - destruct (exec _ w) as [[m|e] w1] eqn:Ex; simpl in Hdb; unfold ret; intros [= <- <-].
    + apply exec_ok_inv in Ex as [Ex ->]. rewrite E in Ex. injection Ex as <-.
      rewrite (proj2 (Z.gtb_lt n 0)) by lia. split; [done|]. by right.
    + split; [done|]. destruct Hdb as [->| ->]; [by left|by right].
Qed.
End CredentialTheorems.

Section Enrolment.
Context `{G : PostGIS} `{F : FloatText}.

Lemma sql_insertDevice_ok familyID name h env db id :
  fst (sql_insertDevice familyID name h env db) = Ok id ->
  let row := mkDevice id familyID name h None in
  snd (sql_insertDevice familyID name h env db) = set_devices (devices db ++ [row])%list db /\
  len h = TokenHashLen /\ has_family familyID db = true /\
  existsb (fun r => String.eqb (dev_id r) (dev_id row)) (devices db) = false /\
  existsb (fun r => String.eqb (dev_token_hash r) (dev_token_hash row)) (devices db) = false.
Proof.
  unfold sql_insertDevice. destruct (negb (not_blank name && _)) eqn:E1; [done|].
  destruct (existsb _ _) eqn:E2; [done|]. destruct (negb (has_family _ _)) eqn:E3; [done|].
  intros [= <-]. simpl. b2p. split; [done|]. split; [done|]. split; [done|].
  rewrite existsb_elem_false in E2.
  split; apply existsb_elem_false; intros x Hx; specialize (E2 x Hx); by destruct (orb_false_elim _ _ E2).
Qed.

(** an enrolled device can use its credential at once and forever: a
    successful [CreateDevice], under any faults, adds exactly one device row of
    the named family, and the digest it was given authenticates as that device at
    every later time, while no viewer row and no other device changes; digests
    and ids stay unique. *)
Lemma CreateDevice_authenticates (familyID name h id : string) (w w' : World) :
  credentials_ok (w_db w) -> CreateDevice familyID name h w = (Ok id, w') ->
  credentials_ok (w_db w') /\ has_family familyID (w_db w) = true /\
  w_db w' = set_devices (devices (w_db w) ++ [mkDevice id familyID name h None])%list (w_db w) /\
  forall wq, quiet wq -> w_db wq = w_db w' ->
    fst (AuthenticateDevice h wq) = Ok (mkDev id familyID name).
Proof.
  intros [[Hi Hh] Hv]. unfold CreateDevice. destruct (negb _); [done|]. intros E.
  apply exec_ok_inv in E as [E ->]. apply sql_insertDevice_ok in E as (E & Hl & Hf & He1 & He2).
  simpl. rewrite E. simpl.
  assert (Hc : credentials_ok (set_devices (devices (w_db w) ++ [mkDevice id familyID name h None])%list (w_db w))).
  { split; [|done]. simpl. split; by apply NoDup_snoc_key. }
  split; [done|]. split; [done|]. split; [done|]. intros wq Hq Edb.
  destruct Hc as [[_ Hd] _]. rewrite AuthenticateDevice_quiet, Edb by done. simpl.
  rewrite (live_row_spec _ _ _ _ _ (mkDevice id familyID name h None)); [done|done| |done].
  apply elem_of_app. right. by left.
Qed.

Lemma sql_insertViewer_ok familyID email displayName h env db id :
  fst (sql_insertViewer familyID email displayName h env db) = Ok id ->
  let row := mkViewer id familyID email displayName h None in
  snd (sql_insertViewer familyID email displayName h env db) = set_viewers (viewers db ++ [row])%list db /\
  len h = TokenHashLen /\ has_family familyID db = true /\
  existsb (fun r => String.eqb (vw_id r) (vw_id row)) (viewers db) = false /\
  existsb (fun r => String.eqb (vw_token_hash r) (vw_token_hash row)) (viewers db) = false.
Proof.
  unfold sql_insertViewer. destruct (negb _) eqn:E1; [done|].
  destruct (existsb _ _) eqn:E2; [done|]. destruct (negb (has_family _ _)) eqn:E3; [done|].
  intros [= <-]. simpl. b2p. split; [done|]. split; [done|]. split; [done|].
  rewrite existsb_elem_false in E2.
  split; apply existsb_elem_false; intros x Hx; specialize (E2 x Hx); apply orb_false_elim in E2 as [E2 _];
    by destruct (orb_false_elim _ _ E2).
Qed.

Lemma CreateViewer_authenticates (familyID email displayName h id : string) (w w' : World) :
  credentials_ok (w_db w) -> CreateViewer familyID email displayName h w = (Ok id, w') ->
  credentials_ok (w_db w') /\ has_family familyID (w_db w) = true /\
  w_db w' = set_viewers (viewers (w_db w) ++ [mkViewer id familyID email displayName h None])%list (w_db w) /\
  forall wq, quiet wq -> w_db wq = w_db w' ->
    fst (AuthenticateViewer h wq) = Ok (mkView id familyID email displayName).
Proof.
  intros [Hv [Hi Hh]]. unfold CreateViewer. destruct (negb _); [done|]. intros E.
  apply exec_ok_inv in E as [E ->]. apply sql_insertViewer_ok in E as (E & Hl & Hf & He1 & He2).
  simpl. rewrite E. simpl.
  assert (Hc : credentials_ok (set_viewers (viewers (w_db w) ++ [mkViewer id familyID email displayName h None])%list (w_db w))).
  { split; [done|]. simpl. split; by apply NoDup_snoc_key. }
  split; [done|]. split; [done|]. split; [done|]. intros wq Hq Edb.
  destruct Hc as [_ [_ Hd]]. rewrite AuthenticateViewer_quiet, Edb by done. simpl.
  rewrite (live_row_spec _ _ _ _ _ (mkViewer id familyID email displayName h None)); [done|done| |done].
  apply elem_of_app. right. by left.
Qed.

(* ------------------------------------------------------------------ *)
(** ** Rings and Places *)

Lemma point_eqb_refl p : f_isNaN (pt_Lon p) = false -> f_isNaN (pt_Lat p) = false -> point_eqb p p = true.
Proof. intros H1 H2. unfold point_eqb. by rewrite !f_eqb_refl. Qed.

Lemma in_range_point p : ValidateLonLat (pt_Lon p) (pt_Lat p) = None -> point_eqb p p = true.
Proof. intros ((? & ? & _) & _)%ValidateLonLat_range. by apply point_eqb_refl. Qed.

(** A ring the code accepts: every vertex on the map, three distinct corners. *)
Definition good_ring (ring : list Point) : bool :=
  forallb (fun p => match ValidateLonLat (pt_Lon p) (pt_Lat p) with None => true | Some _ => false end) ring &&
  (3 <=? Z.of_nat (length (distinct_corners (open_ring ring)))).

Lemma polygonWKT_cases ring :
  polygonWKT ring =
    if good_ring ring then Ok ("SRID=4326;POLYGON((" ++ Join (map coord (closed_ring ring)) ", " ++ "))")
    else Err (if forallb (fun p => match ValidateLonLat (pt_Lon p) (pt_Lat p) with None => true | Some _ => false end) ring
              then ErrInvalidGeofence else ErrCoordinateOutOfRange).
Proof.
  unfold polygonWKT, good_ring.
  assert (E : existsb (fun p => match ValidateLonLat (pt_Lon p) (pt_Lat p) with Some _ => true | None => false end) ring =
    negb (forallb (fun p => match ValidateLonLat (pt_Lon p) (pt_Lat p) with None => true | Some _ => false end) ring)).
  { induction ring as [|p ring IH]; simpl; [done|]. rewrite IH. by destruct (ValidateLonLat _ _). }
  rewrite E. destruct (forallb _ ring); simpl; [|done].
  destruct (Z.ltb_spec (Z.of_nat (length (distinct_corners (open_ring ring)))) 3),
    (Z.leb_spec 3 (Z.of_nat (length (distinct_corners (open_ring ring))))); try done; lia.
Qed.

Lemma closed_ring_closes ring : good_ring ring = true ->
  exists first last_, head (closed_ring ring) = Some first /\ last (closed_ring ring) = Some last_ /\
    point_eqb first last_ = true /\ (closed_ring ring = ring \/ closed_ring ring = (ring ++ [first])%list).
Proof.
  intros [Hf Hc]%andb_true_iff. destruct ring as [|p ring]; [done|].
  rewrite forallb_forall in Hf.
  destruct (last (p :: ring)) as [q|] eqn:El; [|by apply last_None in El].
  unfold closed_ring. rewrite El. destruct (point_eqb p q) eqn:Eq; simpl negb; cbv iota.
  - exists p, q. auto.
  - exists p, p. split; [done|]. split; [by rewrite last_snoc|]. split; [|by right].
    apply in_range_point. specialize (Hf p (or_introl eq_refl)). by destruct (ValidateLonLat _ _).
Qed.

(** A Place is created only from a ring that encloses an area.  A vertex off
    the map or fewer than three distinct corners is refused with its own error and
    no statement runs; otherwise the ring sent to the database is closed, extends
    the given one by at most its first vertex, and a success - under any faults -
    means the stored area is what that text parses to and is valid. *)
Theorem CreateGeofence_valid (familyID name : string) (ring : list Point) (w : World) :
  (good_ring ring = false ->
     exists e, CreateGeofence familyID name ring w = (Err e, w) /\
       (e = ErrCoordinateOutOfRange \/ e = ErrInvalidGeofence)) /\
  (good_ring ring = true ->
     exists first last_, head (closed_ring ring) = Some first /\ last (closed_ring ring) = Some last_ /\
       point_eqb first last_ = true /\ (closed_ring ring = ring \/ closed_ring ring = (ring ++ [first])%list)) /\
  (forall id w', CreateGeofence familyID name ring w = (Ok id, w') ->
     exists g, ST_GeogFromText ("SRID=4326;POLYGON((" ++ Join (map coord (closed_ring ring)) ", " ++ "))") = Some g /\
       ST_IsValid g = true /\ has_family familyID (w_db w) = true /\
       geofences (w_db w') = (geofences (w_db w) ++ [mkGeofence id familyID name g])%list).
Proof.
  split; [|split; [apply closed_ring_closes|]].
  - intros Hg. unfold CreateGeofence. rewrite polygonWKT_cases, Hg.
    eexists. split; [done|]. destruct (forallb _ _); auto.
  - intros id w'. unfold CreateGeofence. rewrite polygonWKT_cases. destruct (good_ring ring); [|done].
    set (wkt := ("SRID=4326;POLYGON((" ++ _)%string). unfold bindr at 1, bind at 1.
    destruct (check_area wkt w) as [[[]|e] w1] eqn:E1; [|done]. intros E2.
    assert (w_db w1 = w_db w) as Edb.
    { assert (preserves (fun db => db = w_db w) (check_area wkt)) as Hp.
      { unfold check_area. apply preserves_bindr; [|intros [v rs]; destruct (negb v); apply preserves_ret].
        apply preserves_exec. intros env db ->. unfold sql_checkArea. by destruct (ST_GeogFromText wkt). }
      specialize (Hp w eq_refl). by rewrite E1 in Hp. }
    apply exec_ok_inv in E2 as [E2 ->]. unfold sql_insertGeofence in *. simpl.
    destruct (ST_GeogFromText wkt) as [g|]; [|done]. exists g. split; [done|].
    destruct (negb (not_blank name && ST_IsValid g)) eqn:Ev; [done|].
    destruct (existsb _ _); [done|]. destruct (negb (has_family familyID (w_db w1))) eqn:Ef; [done|].
    injection E2 as <-. simpl. b2p. by rewrite <- Edb.
Qed.
End Enrolment.

(* ------------------------------------------------------------------ *)
(** ** Witnesses *)

Definition hash_a : string := string_of_list_ascii (repeat "a"%char 32).
Definition hash_b : string := string_of_list_ascii (repeat "b"%char 32).
Definition phone_a : device_row := mkDevice "d" "fam" "phone" hash_a None.
Definition viewer_a : viewer_row := mkViewer "v" "fam" "alice@x" "Alice" hash_b None.
Definition family_db : @DB planar := mkDB [mkFamily "fam" "Family"] [phone_a] [viewer_a] [] [] [] [] ∅.

Lemma family_credentials : credentials_ok family_db.
Proof. split; (split; apply NoDup_singleton). Qed.

Lemma AuthenticateDevice_exact_witness :
  (len hash_a <> TokenHashLen ->
     AuthenticateDevice hash_a (calm family_db noon) = (Err ErrInvalidTokenHash, calm family_db noon)) /\
  w_db (snd (AuthenticateDevice hash_a (calm family_db noon))) = family_db /\
  (forall d, fst (AuthenticateDevice hash_a (calm family_db noon)) = Ok d ->
     exists r, r ∈ [phone_a] /\ dev_token_hash r = hash_a /\ d = device_of r /\
       forall e, dev_expires_at r = Some e -> Before noon e = true) /\
  (quiet (calm family_db noon) -> len hash_a = TokenHashLen ->
     (forall r, r ∈ [phone_a] -> dev_token_hash r = hash_a ->
        fst (AuthenticateDevice hash_a (calm family_db noon)) =
          match dev_expires_at r with
          | Some e => if Before noon e then Ok (device_of r) else Err ErrUnknownToken
          | None => Ok (device_of r)
          end) /\
     (~ hash_a ∈ map dev_token_hash [phone_a] ->
        fst (AuthenticateDevice hash_a (calm family_db noon)) = Err ErrUnknownToken)).
Proof. apply (AuthenticateDevice_exact hash_a (calm family_db noon)). exact family_credentials. Defined.

Lemma RotateDeviceToken_atomic_witness :
  Ok true <> @Ok error bool false /\
  ((w_db (snd (RotateDeviceToken "d" hash_b (Some noon) (calm family_db noon))) = family_db /\ Ok true <> @Ok error bool true) \/
   device_rotated phone_a hash_b (Some noon) family_db
     (w_db (snd (RotateDeviceToken "d" hash_b (Some noon) (calm family_db noon))))).
Proof.
  apply (RotateDeviceToken_atomic "d" hash_b (Some noon) (calm family_db noon)
    (snd (RotateDeviceToken "d" hash_b (Some noon) (calm family_db noon))) (Ok true) phone_a).
  - exact family_credentials.
  - by left.
  - reflexivity.
  - reflexivity.
  - apply run_pair. vm_compute. reflexivity.
Defined.

Lemma RotateViewerToken_atomic_witness :
  Ok true <> @Ok error bool false /\
  ((w_db (snd (RotateViewerToken "v" hash_a None (calm family_db noon))) = family_db /\ Ok true <> @Ok error bool true) \/
   viewer_rotated viewer_a hash_a None family_db
     (w_db (snd (RotateViewerToken "v" hash_a None (calm family_db noon))))).
Proof.
  apply (RotateViewerToken_atomic "v" hash_a None (calm family_db noon)
    (snd (RotateViewerToken "v" hash_a None (calm family_db noon))) (Ok true) viewer_a).
  - exact family_credentials.
  - by left.
  - reflexivity.
  - reflexivity.
  - apply run_pair. vm_compute. reflexivity.
Defined.

Lemma CreateDevice_authenticates_witness :
  credentials_ok (w_db (snd (CreateDevice "fam" "tablet" hash_b (calm family_db noon)))) /\
  has_family "fam" family_db = true /\
  w_db (snd (CreateDevice "fam" "tablet" hash_b (calm family_db noon))) =
    set_devices (devices family_db ++ [mkDevice "" "fam" "tablet" hash_b None])%list family_db /\
  forall wq, quiet wq -> w_db wq = w_db (snd (CreateDevice "fam" "tablet" hash_b (calm family_db noon))) ->
    fst (AuthenticateDevice hash_b wq) = Ok (mkDev "" "fam" "tablet").
Proof.
  apply (CreateDevice_authenticates "fam" "tablet" hash_b "" (calm family_db noon)
    (snd (CreateDevice "fam" "tablet" hash_b (calm family_db noon)))).
  - exact family_credentials.
  - apply run_pair. vm_compute. reflexivity.
Defined.
