(* ===== verification/Evaluator.v ===== *)
(** The debounced enter/exit state machine of the geofence evaluator
    ([confirmTransitions] in [internal/store/geofence.go]), as a function on one
    Place's readings in timestamp order.  [settle] is the specification: cut the
    readings into maximal runs of equal containment, and cross into a run exactly
    when the side it leaves has been observed and the run spans the debounce.  The
    theorems: the index loops compute [settle]; later readings never retract or
    reorder what was confirmed; resuming from the last confirmed crossing, as the
    stored log does, gives the same log as evaluating everything at once. *)

From Stdlib Require Import ZArith Lia Bool String List Sorted.
From stdpp Require Import base option list strings.
From S2P Require Import Prelude GoTime.
Local Open Scope Z_scope.

Record reading := mkReading { r_ts : Time; r_inside : bool }.
Record transition := mkTransition { tr_ts : Time; tr_enter : bool }.

(** [ts >= onset + debounce]. *)
Definition met (debounce : Z) (onset : Time) (r : reading) : bool :=
  negb (Before (r_ts r) (Add onset debounce)).

(** The inner loop, from [readings\[i\]] on: does the new state hold long enough? *)
Fixpoint dwell (debounce : Z) (newState : bool) (onset : Time) (readings : list reading) : bool :=
  match readings with
  | [] => false
  | r :: rest =>
      if Bool.eqb (r_inside r) newState
      then if met debounce onset r then true else dwell debounce newState onset rest
      else false
  end.

(** The outer loop over the readings still to come. *)
Fixpoint confirm_loop (debounce : Z) (readings : list reading) (state observed : bool) : list transition :=
  match readings with
  | [] => []
  | r :: rest =>
      if Bool.eqb (r_inside r) state then confirm_loop debounce rest state true
      else if negb observed then confirm_loop debounce rest state observed
      else if dwell debounce (r_inside r) (r_ts r) readings
           then mkTransition (r_ts r) (r_inside r) :: confirm_loop debounce rest (r_inside r) true
           else confirm_loop debounce rest state observed
  end.

Definition confirmTransitions (readings : list reading) (seedInside haveSeedEvidence : bool) (debounce : Z)
  : list transition :=
  confirm_loop debounce readings seedInside haveSeedEvidence.

(* ------------------------------------------------------------------ *)
(** ** Specification *)

(** Maximal runs of readings on one side. *)
Fixpoint runs (readings : list reading) : list (list reading) :=
  match readings with
  | [] => []
  | r :: rest =>
      match runs rest with
      | (r' :: g) :: gs =>
          if Bool.eqb (r_inside r) (r_inside r') then (r :: r' :: g) :: gs else [r] :: (r' :: g) :: gs
      | _ => [[r]]
      end
  end.

(** One run decides at most one crossing: from its first to its last reading. *)
Fixpoint settle (debounce : Z) (gs : list (list reading)) (state observed : bool) : list transition :=
  match gs with
  | [] => []
  | g :: gs' =>
      match g, last g with
      | r :: _, Some l =>
          if Bool.eqb (r_inside r) state then settle debounce gs' state true
          else if observed && met debounce (r_ts r) l
               then mkTransition (r_ts r) (r_inside r) :: settle debounce gs' (r_inside r) true
               else settle debounce gs' state observed
      | _, _ => settle debounce gs' state observed
      end
  end.

(** Readings as the query returns them: strictly increasing in time. *)
Definition ordered (rs : list reading) : Prop :=
  StronglySorted (fun a b => Before (r_ts a) (r_ts b) = true) rs.

Definition sane_readings (rs : list reading) : Prop := Forall (fun r => sane_time (r_ts r)) rs.

(* ------------------------------------------------------------------ *)
(** ** The inner loop *)

Definition one_sided (b : bool) (g : list reading) : Prop := Forall (fun r => r_inside r = b) g.

(** The readings after a run: none, or on the other side. *)
Definition starts_other (b : bool) (rest : list reading) : Prop :=
  match rest with [] => True | r :: _ => r_inside r <> b end.

Lemma dwell_run d b onset g rest : one_sided b g -> starts_other b rest ->
  dwell d b onset (g ++ rest) = existsb (met d onset) g.
Proof.
  intros Hg Hr. induction Hg as [|r g Er Hg IH]; simpl.
  - destruct rest as [|r rest]; simpl; [done|]. simpl in Hr. by destruct (Bool.eqb_spec (r_inside r) b).
  - rewrite Er, Bool.eqb_reflx. destruct (met d onset r); simpl; [done|]. apply IH.
Qed.

Lemma met_later d onset r r' : Before (r_ts r) (r_ts r') = true -> met d onset r = true -> met d onset r' = true.
Proof.
  unfold met. intros Hb Hm. b2p. apply negb_true_iff.
  eapply Before_negtrans; [exact Hm|]. by apply Before_asym.
Qed.

(** In a run in time order, some reading meets the dwell iff the last one does. *)
Lemma existsb_met_last d onset g l : ordered g -> last g = Some l ->
  existsb (met d onset) g = met d onset l.
Proof.
  intros Ho Hl. apply last_Some in Hl as [g' ->]. rewrite existsb_app. simpl. rewrite orb_false_r.
  destruct (met d onset l) eqn:E; [apply orb_true_r|]. rewrite orb_false_r.
  apply existsb_elem_false. intros r Hr. destruct (met d onset r) eqn:Er; [|done].
  assert (Before (r_ts r) (r_ts l) = true) as Hb.
  { clear E Er. induction g' as [|x g' IH]; [by apply elem_of_nil in Hr|]. inversion_clear Ho.
    apply elem_of_cons in Hr as [->|Hr]; [|by apply IH].
    rewrite Forall_forall in H0. apply H0. apply elem_of_app. right. by left. }
  pose proof (met_later _ _ _ _ Hb Er). congruence.
Qed.

(** A dwell that fails from one reading fails from every later one. *)
Lemma met_onset_mono d a b r : int64 d -> sane_time (r_ts a) -> sane_time (r_ts b) -> sane_time (r_ts r) ->
  Before (r_ts a) (r_ts b) = true -> met d (r_ts a) r = false -> met d (r_ts b) r = false.
Proof.
  intros Hd Ha Hb Hr. unfold met. destruct (Add_nanos (r_ts a) d Ha Hd) as [Ea Wa].
  destruct (Add_nanos (r_ts b) d Hb Hd) as [Eb Wb].
  rewrite !Before_nanos by (try done; by apply sane_wf). rewrite Ea, Eb.
  intros Hab Hm. b2p. apply negb_false_iff, Z.ltb_lt. lia.
Qed.

(* ------------------------------------------------------------------ *)
(** ** One run at a time *)

Lemma loop_same d g rest state obs : one_sided state g -> g <> [] ->
  confirm_loop d (g ++ rest) state obs = confirm_loop d rest state true.
Proof.
  intros Hg. revert obs. induction Hg as [|r g Er Hg IH]; intros obs Hne; [done|].
  simpl. rewrite Er, Bool.eqb_reflx. destruct g as [|r' g]; [done|]. by apply IH.
Qed.

Lemma loop_unobserved d g rest state b : one_sided b g -> b <> state ->
  confirm_loop d (g ++ rest) state false = confirm_loop d rest state false.
Proof.
  intros Hg Hb. induction Hg as [|r g Er Hg IH]; [done|]. simpl. rewrite Er.
  by destruct (Bool.eqb_spec b state).
Qed.

Lemma ordered_cons r g : ordered (r :: g) -> ordered g /\ forall x, x ∈ g -> Before (r_ts r) (r_ts x) = true.
Proof. intros H. inversion_clear H. split; [done|]. by apply Forall_forall. Qed.

Lemma loop_unmet d g rest state b : int64 d -> one_sided b g -> starts_other b rest -> b <> state ->
  ordered g -> sane_readings g ->
  (forall r, head g = Some r -> existsb (met d (r_ts r)) g = false) ->
  confirm_loop d (g ++ rest) state true = confirm_loop d rest state true.
Proof.
  intros Hd Hg Hrest Hb. induction Hg as [|r g Er Hg IH]; intros Ho Hs Hm; [done|].
  simpl. rewrite Er. destruct (Bool.eqb_spec b state); [done|]. simpl.
  specialize (Hm r eq_refl). simpl in Hm. apply orb_false_iff in Hm as [Hm1 Hm].
  rewrite Bool.eqb_reflx, Hm1, dwell_run by done. rewrite Hm.
  apply ordered_cons in Ho as [Ho Hlt]. apply Forall_cons in Hs as [Hsr Hs].
  apply IH; [done..|]. intros r' Hr'. apply existsb_elem_false. intros x Hx.
  rewrite existsb_elem_false in Hm. unfold sane_readings in Hs. rewrite Forall_forall in Hs.
  assert (r' ∈ g) by (destruct g; simplify_eq/=; by left).
  apply (met_onset_mono d r r'); auto.
Qed.

Lemma loop_run d g rest state obs r l : int64 d -> one_sided (r_inside r) g -> starts_other (r_inside r) rest ->
  ordered g -> sane_readings g -> head g = Some r -> last g = Some l ->
  confirm_loop d (g ++ rest) state obs =
    if Bool.eqb (r_inside r) state then confirm_loop d rest state true
    else if obs && met d (r_ts r) l
         then mkTransition (r_ts r) (r_inside r) :: confirm_loop d rest (r_inside r) true
         else confirm_loop d rest state obs.
Proof.
  intros Hd Hg Hrest Ho Hs Hh Hl. destruct (Bool.eqb_spec (r_inside r) state) as [<-|Hne].
  { apply loop_same; [done|]. by intros ->. }
  destruct obs; [|by eapply loop_unobserved]. rewrite <- (existsb_met_last d (r_ts r) g l Ho Hl).
  simpl. destruct (existsb (met d (r_ts r)) g) eqn:E.
  - destruct g as [|r0 g]; simplify_eq/=. destruct (Bool.eqb_spec (r_inside r) state); [done|].
    apply Forall_cons in Hg as [_ Hg]. rewrite Bool.eqb_reflx, dwell_run by done.
    replace (if met d (r_ts r) r then true else existsb (met d (r_ts r)) g) with true
      by (by destruct (met d (r_ts r) r)). f_equal.
    destruct g as [|r1 g]; [done|]. by apply loop_same.
  - eapply loop_unmet; try done. intros r0 Hr0. by simplify_eq.
Qed.

(* ------------------------------------------------------------------ *)
(** ** Runs *)

(** Non-empty one-sided runs, adjacent ones on different sides. *)
Fixpoint alternating (gs : list (list reading)) : Prop :=
  match gs with
  | [] => True
  | g :: gs' => (exists r, head g = Some r /\ one_sided (r_inside r) g /\ starts_other (r_inside r) (concat gs')) /\
                alternating gs'
  end.

Lemma concat_runs rs : concat (runs rs) = rs.
Proof.
  induction rs as [|r rs IH]; simpl; [done|].
  destruct (runs rs) as [|[|r' g] gs] eqn:E; simpl in *; [by rewrite <- IH| |].
  - exfalso. clear IH. destruct rs as [|x rs]; [done|]. simpl in E.
    destruct (runs rs) as [|[|y g] gs']; try done. by destruct (Bool.eqb _ _).
  - destruct (Bool.eqb _ _); simpl; by rewrite IH.
Qed.

Lemma runs_alternating rs : alternating (runs rs).
Proof.
  induction rs as [|r rs IH]; simpl; [done|].
  destruct (runs rs) as [|[|r' g] gs] eqn:E.
  - simpl. split; [|done]. exists r. repeat constructor.
  - simpl in IH. destruct IH as [(x & Hx & _) _]. done.
  - destruct IH as [(x & Hx & Hg & Hs) Ha]. simpl in Hx. injection Hx as <-.
    destruct (Bool.eqb_spec (r_inside r) (r_inside r')) as [Eq|Ne]; simpl.
    + split; [|done]. exists r. split; [done|]. rewrite Eq. split; [by constructor|done].
    + split; [exists r; split; [done|]; split; [repeat constructor|]|].
      * simpl. by intros H.
      * split; [|done]. by exists r'.
Qed.

Lemma ordered_app g rest : ordered (g ++ rest) -> ordered g /\ ordered rest.
Proof.
  induction g as [|r g IH]; simpl; [split; [constructor|done]|].
  intros H. inversion_clear H. destruct (IH H0) as [Hg Hr]. split; [|done]. constructor; [done|].
  by apply Forall_app in H1 as [? _].
Qed.

Lemma confirm_settle d gs state obs : int64 d -> alternating gs ->
  ordered (concat gs) -> sane_readings (concat gs) ->
  confirm_loop d (concat gs) state obs = settle d gs state obs.
Proof.
  intros Hd. revert state obs. induction gs as [|g gs IH]; intros state obs Ha Ho Hs; [done|].
  simpl in *. destruct Ha as [(r & Hh & Hg & Hst) Ha].
  apply ordered_app in Ho as [Ho Ho']. apply Forall_app in Hs as [Hs Hs'].
  destruct (last g) as [l|] eqn:El; [|by apply last_None in El as ->].
  rewrite (loop_run d g (concat gs) state obs r l) by done.
  destruct g as [|r0 g]; [done|]. simpl in Hh. injection Hh as <-. cbn [settle]. rewrite El.
  rewrite !IH by done. done.
Qed.

(** C15: the evaluator's index loops compute the specification: on readings in
    time order, a crossing is confirmed exactly at the first reading of a maximal
    run of one containment that differs from the confirmed state, whose opposite
    side was observed before, and which spans the debounce. *)
Theorem confirmTransitions_settle (readings : list reading) (seedInside haveSeedEvidence : bool) (debounce : Z) :
  int64 debounce -> ordered readings -> sane_readings readings ->
  confirmTransitions readings seedInside haveSeedEvidence debounce =
    settle debounce (runs readings) seedInside haveSeedEvidence.
Proof.
  intros Hd Ho Hs. unfold confirmTransitions. rewrite <- (concat_runs readings) at 1.
  apply confirm_settle; rewrite ?concat_runs; try done. apply runs_alternating.
Qed.

(* ------------------------------------------------------------------ *)
(** ** Later readings and resumption *)

Lemma ordered_cons_inv r rs : (forall x, x ∈ rs -> Before (r_ts r) (r_ts x) = true) -> ordered rs -> ordered (r :: rs).
Proof. intros H Ho. constructor; [done|]. by apply Forall_forall. Qed.

Lemma dwell_app d b onset g more : dwell d b onset g = true -> dwell d b onset (g ++ more) = true.
Proof.
  induction g as [|r g IH]; simpl; [done|]. destruct (Bool.eqb _ _); [|done].
  destruct (met d onset r); [done|]. apply IH.
Qed.

Lemma dwell_app_false d b onset g more : dwell d b onset g = false -> dwell d b onset (g ++ more) = true ->
  one_sided b g /\ existsb (met d onset) g = false.
Proof.
  induction g as [|r g IH]; simpl; [by repeat constructor|]. destruct (Bool.eqb_spec (r_inside r) b) as [E|]; [|done].
  destruct (met d onset r); [done|]. intros H1 H2. destruct (IH H1 H2) as [Hg He]. split; [|done]. by constructor.
Qed.

(** A reading that arrives later in time retracts nothing. *)
Lemma confirm_loop_app d rs more : forall state obs, int64 d -> ordered rs -> sane_readings rs ->
  exists extra, confirm_loop d (rs ++ more) state obs = (confirm_loop d rs state obs ++ extra)%list.
Proof.
  induction rs as [|r rs IH]; intros state obs Hd Ho Hs; [by eexists|].
  pose proof (ordered_cons _ _ Ho) as [Ho' Hlt]. apply Forall_cons in Hs as Hs2. destruct Hs2 as [Hsr Hs'].
  cbn [confirm_loop app]. destruct (Bool.eqb_spec (r_inside r) state) as [|Hne]; [by apply IH|].
  destruct obs; simpl negb; cbv iota; [|by apply IH].
  change (r :: rs ++ more) with ((r :: rs) ++ more)%list.
  destruct (dwell d (r_inside r) (r_ts r) (r :: rs)) eqn:E1.
  - rewrite (dwell_app _ _ _ _ more E1). destruct (IH (r_inside r) true Hd Ho' Hs') as [extra ->]. by exists extra.
  - destruct (dwell d (r_inside r) (r_ts r) ((r :: rs) ++ more)) eqn:E2; [|by apply IH].
    destruct (dwell_app_false _ _ _ _ _ E1 E2) as [Hg He].
    pose proof (loop_unmet d (r :: rs) [] state (r_inside r) Hd Hg I Hne Ho Hs) as Hn.
    rewrite app_nil_r in Hn. cbn [confirm_loop] in Hn. rewrite E1 in Hn.
    destruct (Bool.eqb_spec (r_inside r) state); [done|]. simpl in Hn. rewrite Hn; [by eexists|].
    intros r0 [= <-]. exact He.
Qed.

(** Every crossing is an onset: what follows it is the machine restarted there. *)
Lemma confirm_loop_split d rs : forall state obs pre t post,
  confirm_loop d rs state obs = (pre ++ t :: post)%list ->
  exists rs1 r rs2, rs = (rs1 ++ r :: rs2)%list /\ r_ts r = tr_ts t /\ r_inside r = tr_enter t /\
    post = confirm_loop d rs2 (tr_enter t) true.
Proof.
  induction rs as [|r rs IH]; intros state obs pre t post E; [by destruct pre|].
  assert (Hrec : forall s o pre, confirm_loop d rs s o = (pre ++ t :: post)%list ->
    exists rs1 r' rs2, r :: rs = (rs1 ++ r' :: rs2)%list /\ r_ts r' = tr_ts t /\ r_inside r' = tr_enter t /\
      post = confirm_loop d rs2 (tr_enter t) true).
  { intros s o p Ep. destruct (IH _ _ _ _ _ Ep) as (rs1 & r' & rs2 & -> & H). by exists (r :: rs1), r', rs2. }
  cbn [confirm_loop] in E. destruct (Bool.eqb _ _); [by eapply Hrec|]. destruct (negb obs); [by eapply Hrec|].
  destruct (dwell _ _ _ _); [|by eapply Hrec].
  destruct pre as [|t0 pre]; simplify_eq/=; [|by eapply Hrec]. by exists [], r, rs.
Qed.

(** The readings past a floor, as the neighbourhood query keeps them. *)
Definition later (floor : Time) (rs : list reading) : list reading :=
  List.filter (fun r => Before floor (r_ts r)) rs.

Lemma later_split rs1 r rs2 : ordered (rs1 ++ r :: rs2) -> later (r_ts r) (rs1 ++ r :: rs2) = rs2.
Proof.
  intros Ho. unfold later. rewrite List.filter_app. rewrite (filter_none _ rs1).
  - simpl. rewrite Before_irrefl. apply filter_all. intros x Hx.
    apply ordered_app in Ho as [_ Ho]. apply ordered_cons in Ho as [_ Ho]. by apply Ho.
  - intros x Hx. apply Before_asym. induction rs1 as [|y rs1 IH]; [by apply elem_of_nil in Hx|].
    apply ordered_cons in Ho as [Ho Hlt]. apply elem_of_cons in Hx as [->|Hx]; [|by apply IH].
    apply Hlt. apply elem_of_app. right. by left.
Qed.

(** The confirmed state a log stands for: its last crossing, or presumed outside
    with the zero time as floor. *)
Definition log_seed (log : list transition) : bool * bool * Time :=
  match last log with Some t => (tr_enter t, true, tr_ts t) | None => (false, false, zero_time) end.

(** One evaluation against a recorded log. *)
Definition extend_log (d : Z) (log : list transition) (rs : list reading) : list transition :=
  let '(inside, evidence, floor) := log_seed log in
  (log ++ confirmTransitions (later floor rs) inside evidence d)%list.

Definition after_zero (rs : list reading) : Prop := Forall (fun r => Before zero_time (r_ts r) = true) rs.

Lemma extend_log_app d rs more : int64 d -> ordered (rs ++ more) -> sane_readings (rs ++ more) ->
  after_zero (rs ++ more) ->
  extend_log d (confirmTransitions rs false false d) (rs ++ more) =
    confirmTransitions (rs ++ more) false false d.
Proof.
  intros Hd Ho Hs Hz. unfold extend_log, log_seed, confirmTransitions.
  pose proof (ordered_app _ _ Ho) as [Ho1 _]. apply Forall_app in Hs as Hs'. destruct Hs' as [Hs1 _].
  destruct (confirm_loop_app d rs more false false Hd Ho1 Hs1) as [extra E].
  destruct (last (confirm_loop d rs false false)) as [t|] eqn:El.
  - apply last_Some in El as [pre El]. rewrite El, <- app_assoc in E. simpl in E.
    destruct (confirm_loop_split _ _ _ _ _ _ _ E) as (rs1 & r & rs2 & Ers & Et & Ei & Ex).
    rewrite E, El, <- app_assoc. simpl. do 2 f_equal. rewrite Ex, Ers, <- Et.
    rewrite later_split; [done|]. by rewrite <- Ers.
  - apply last_None in El. rewrite El. simpl. f_equal. apply filter_all. intros x Hx.
    unfold after_zero in Hz. rewrite Forall_forall in Hz. by apply Hz.
Qed.

(** Evaluating after each arrival, in time order. *)
Fixpoint incremental (d : Z) (seen : list reading) (log : list transition) (arrivals : list reading) : list transition :=
  match arrivals with
  | [] => log
  | r :: rest => incremental d (seen ++ [r]) (extend_log d log (seen ++ [r])) rest
  end.

(** C16: the stored log is a deterministic projection of the fixes.  Evaluating
    after every arrival, each time only past the last recorded crossing and seeded
    by it, builds exactly the log that one evaluation of all the readings would;
    in particular evaluating again with nothing new appends nothing, and no later
    reading retracts or reorders a recorded crossing. *)
Theorem incremental_batch (debounce : Z) (readings more : list reading) :
  int64 debounce -> ordered (readings ++ more) -> sane_readings (readings ++ more) -> after_zero (readings ++ more) ->
  incremental debounce [] [] readings = confirmTransitions readings false false debounce /\
  extend_log debounce (confirmTransitions readings false false debounce) readings =
    confirmTransitions readings false false debounce /\
  exists extra, confirmTransitions (readings ++ more) false false debounce =
    (confirmTransitions readings false false debounce ++ extra)%list.
Proof.
  intros Hd Ho Hs Hz. pose proof (ordered_app _ _ Ho) as [Ho1 _].
  apply Forall_app in Hs as [Hs1 _]. apply Forall_app in Hz as [Hz1 _].
  split; [|split].
  - assert (H : forall arr seen, ordered (seen ++ arr) -> sane_readings (seen ++ arr) -> after_zero (seen ++ arr) ->
      incremental debounce seen (confirmTransitions seen false false debounce) arr =
        confirmTransitions (seen ++ arr) false false debounce).
    { induction arr as [|r arr IH]; intros seen Ho' Hs' Hz'; simpl; [by rewrite app_nil_r|].
      rewrite (cons_middle r seen arr), app_assoc in Ho', Hs', Hz' |- *.
      rewrite extend_log_app; [by apply IH|done|..].
      - by apply ordered_app in Ho' as [? _].
      - by apply Forall_app in Hs' as [? _].
      - by apply Forall_app in Hz' as [? _]. }
    exact (H readings [] Ho1 Hs1 Hz1).
  - pose proof (extend_log_app debounce readings [] Hd) as H. rewrite app_nil_r in H. by apply H.
  - by apply confirm_loop_app.
Qed.

(* ------------------------------------------------------------------ *)
(** ** Shape of the log *)

Fixpoint alternates (state : bool) (log : list transition) : Prop :=
  match log with [] => True | t :: log' => tr_enter t = negb state /\ alternates (tr_enter t) log' end.

Lemma confirm_loop_alternates d rs : forall state obs, alternates state (confirm_loop d rs state obs).
Proof.
  induction rs as [|r rs IH]; intros state obs; cbn [confirm_loop]; [done|].
  destruct (Bool.eqb_spec (r_inside r) state) as [|Hne]; [apply IH|]. destruct (negb obs); [apply IH|].
  destruct (dwell _ _ _ _); [|apply IH]. simpl. split; [|apply IH]. by destruct (r_inside r), state.
Qed.

Lemma confirm_loop_onsets d rs : forall state obs t, t ∈ confirm_loop d rs state obs ->
  exists r, r ∈ rs /\ r_ts r = tr_ts t /\ r_inside r = tr_enter t.
Proof.
  induction rs as [|r rs IH]; intros state obs t; cbn [confirm_loop]; [by intros ?%elem_of_nil|].
  assert (Hrec : forall s o, t ∈ confirm_loop d rs s o -> exists r', r' ∈ r :: rs /\ r_ts r' = tr_ts t /\ r_inside r' = tr_enter t).
  { intros s o Hin. destruct (IH s o t Hin) as (r' & Hr' & H). exists r'. split; [by right|done]. }
  destruct (Bool.eqb _ _); [apply Hrec|]. destruct (negb obs); [apply Hrec|].
  destruct (dwell _ _ _ _); [|apply Hrec]. intros [->|Hin]%elem_of_cons; [|by eapply Hrec].
  exists r. split; [by left|done].
Qed.

Definition increasing (log : list transition) : Prop :=
  StronglySorted (fun a b => Before (tr_ts a) (tr_ts b) = true) log.

Lemma confirm_loop_increasing d rs : forall state obs, ordered rs -> increasing (confirm_loop d rs state obs).
Proof.
  induction rs as [|r rs IH]; intros state obs Ho; cbn [confirm_loop]; [constructor|].
  apply ordered_cons in Ho as [Ho Hlt].
  destruct (Bool.eqb _ _); [by apply IH|]. destruct (negb obs); [by apply IH|].
  destruct (dwell _ _ _ _); [|by apply IH]. constructor; [by apply IH|]. apply Forall_forall.
  intros t (r' & Hr' & <- & _)%confirm_loop_onsets. by apply Hlt.
Qed.

(* ------------------------------------------------------------------ *)
(** ** Witnesses: out, in for two minutes, out for good *)

Definition at_ (s : Z) (b : bool) : reading := mkReading (mkTime (63000000000 + s) 0) b.
Definition visit : list reading :=
  [at_ 0 false; at_ 30 true; at_ 40 false; at_ 60 true; at_ 100 true; at_ 160 true; at_ 200 false; at_ 300 false].

Ltac readings_ok :=
  match goal with
  | |- int64 _ => split; vm_compute; [discriminate|reflexivity]
  | |- ordered _ => repeat (constructor; [|repeat (constructor; [vm_compute; reflexivity|]); constructor]); constructor
  | |- _ => repeat (constructor; [first [reflexivity | split; vm_compute; (split; [discriminate|reflexivity])]|]); constructor
  end.

Lemma confirmTransitions_settle_witness :
  confirmTransitions visit false false (90 * second) = settle (90 * second) (runs visit) false false.
Proof. apply confirmTransitions_settle; readings_ok. Defined.

Lemma visit_crossings :
  confirmTransitions visit false false (90 * second) =
    [mkTransition (mkTime 63000000060 0) true; mkTransition (mkTime 63000000200 0) false].
Proof. reflexivity. Qed.

Lemma incremental_batch_witness :
  incremental (90 * second) [] [] visit = confirmTransitions visit false false (90 * second) /\
  extend_log (90 * second) (confirmTransitions visit false false (90 * second)) visit =
    confirmTransitions visit false false (90 * second) /\
  exists extra, confirmTransitions (visit ++ []) false false (90 * second) =
    (confirmTransitions visit false false (90 * second) ++ extra)%list.
Proof. apply incremental_batch; readings_ok. Defined.
