(* ===== verification/GeofenceLog.v ===== *)
(** Proofs about the evaluator of StoreGeofence.v: the crossings of a (device,
    place) pair as a log, and what one evaluation does to every log under any
    behaviour of the database. *)

From Stdlib Require Import ZArith Lia Bool String Ascii List Sorted.
From stdpp Require Import base option list strings gmap sorting.
From S2P Require Import Prelude GoTime GoStrings Calendar Database Partitions StoreFix StoreEntities Evaluator StoreGeofence.
Local Open Scope string_scope.
Local Open Scope Z_scope.

(** An instant a [timestamptz] column can hold. *)
Definition micros (t : Time) : Prop := timestamptz t = t.

Definition crossing_of (e : event_row) : transition :=
  mkTransition (ev_fix_ts e) (String.eqb (ev_transition e) "enter").

Lemma kind_of_enter t : String.eqb (kind_of t) "enter" = tr_enter t.
Proof. unfold kind_of. by destruct (tr_enter t). Qed.

(* ------------------------------------------------------------------ *)
(** ** Sorting by time *)

Lemma ordered_NoDup l : StronglySorted (sort_le (fun a b => Before (r_ts a) (r_ts b))) l -> NoDup (map r_ts l) -> ordered l.
Proof.
  induction 1 as [|r l Hs IH Hr]; csimpl; [constructor|]. intros [Hn Hd]%NoDup_cons.
  constructor; [by apply IH|]. rewrite Forall_forall in Hr |- *. intros x Hx. specialize (Hr x Hx).
  destruct (Before (r_ts r) (r_ts x)) eqn:E; [done|]. destruct Hn.
  rewrite (Before_total _ _ E Hr). by apply list_elem_of_fmap_2.
Qed.

Lemma sort_asc_perm l : sort_asc l ≡ₚ l.
Proof. apply stable_sort_perm. Qed.
Lemma sort_desc_perm l : sort_desc l ≡ₚ l.
Proof. apply stable_sort_perm. Qed.

Lemma NoDup_map_perm {A B} (k : A -> B) l l' : l ≡ₚ l' -> NoDup (map k l) -> NoDup (map k l').
Proof. intros Hp. by rewrite (Permutation_map k Hp). Qed.

Lemma sort_asc_sorted l : StronglySorted (sort_le (fun a b => Before (r_ts a) (r_ts b))) (sort_asc l).
Proof. apply stable_sort_sorted; [intros x y; apply Before_asym | intros x y z; apply Before_negtrans]. Qed.

Lemma sort_asc_ordered l : NoDup (map r_ts l) -> ordered (sort_asc l).
Proof.
  intros Hd. apply ordered_NoDup; [apply sort_asc_sorted|].
  eapply NoDup_map_perm; [|exact Hd]. symmetry. apply sort_asc_perm.
Qed.

Lemma NoDup_filter_map {A B} (k : A -> B) (p : A -> bool) l : NoDup (map k l) -> NoDup (map k (List.filter p l)).
Proof.
  induction l as [|x l IH]; csimpl; [done|]. intros [Hx Hd]%NoDup_cons.
  destruct (p x); csimpl; [|by apply IH]. apply NoDup_cons. split; [|by apply IH].
  intros (y & E & Hy)%list_elem_of_fmap. apply elem_of_filter_b in Hy as [Hy _].
  apply Hx. rewrite E. by apply list_elem_of_fmap_2.
Qed.

Lemma NoDup_firstn {A} n (l : list A) : NoDup l -> NoDup (firstn n l).
Proof. intros H. rewrite <- (firstn_skipn n l) in H. by apply NoDup_app in H as [? _]. Qed.

Lemma elem_of_firstn {A} n (l : list A) x : x ∈ firstn n l -> x ∈ l.
Proof. intros H. rewrite <- (firstn_skipn n l). apply elem_of_app. by left. Qed.

(* ------------------------------------------------------------------ *)
(** ** Logs *)

Section Logs.
Context `{G : PostGIS}.

Definition place_log (deviceID geofenceID : string) (db : DB) : list transition :=
  map crossing_of (List.filter (of_pair deviceID geofenceID) (geofence_events db)).

Definition log_ok (log : list transition) : Prop := increasing log /\ alternates false log.

(** What the evaluator relies on and keeps: unique keys, column precision, and
    every log in order. *)
Record geo_wf (db : DB) : Prop := {
  gw_fix_keys : NoDup (map (fun f => (fr_device_id f, fr_ts f)) (fixes db));
  gw_geofence_ids : NoDup (map gf_id (geofences db));
  gw_fix_micros : Forall (fun f => micros (fr_ts f) /\ Before zero_time (fr_ts f) = true) (fixes db);
  gw_event_micros : Forall (fun e => micros (ev_fix_ts e)) (geofence_events db);
  gw_logs : forall deviceID geofenceID, log_ok (place_log deviceID geofenceID db) }.

Lemma containments_cases d g db : NoDup (map gf_id (geofences db)) ->
  containments d g db = [] \/
  exists row, row ∈ geofences db /\ gf_id row = g /\
    containments d g db =
      map (fun f => mkReading (fr_ts f) (ST_Covers (gf_area row) (fr_location f)))
        (List.filter (fun f => String.eqb (fr_device_id f) d) (fixes db)).
Proof.
  intros Hd. unfold containments.
  destruct (List.filter (fun x => String.eqb (gf_id x) g) (geofences db)) as [|row rest] eqn:E.
  - left. by induction (List.filter _ (fixes db)) as [|x l IH].
  - right. assert (row ∈ List.filter (fun x => String.eqb (gf_id x) g) (geofences db)) as Hin by (rewrite E; by left).
    apply elem_of_filter_b in Hin as [Hin Eg]. apply String.eqb_eq in Eg. exists row. split; [done|]. split; [done|].
    pose proof (filter_unique_key gf_id (fun _ => true) (geofences db) row Hd Hin) as Hu. rewrite Eg in Hu.
    assert (row :: rest = [row]) as ->.
    { rewrite <- Hu, <- E. clear. induction (geofences db) as [|x l IH]; simpl; [done|].
      rewrite andb_true_r. by destruct (String.eqb (gf_id x) g); rewrite IH. }
    induction (List.filter _ (fixes db)) as [|x l IH]; simpl; [done|]. by f_equal.
Qed.

Lemma containments_in d g db r : r ∈ containments d g db -> exists f, f ∈ fixes db /\ fr_device_id f = d /\ r_ts r = fr_ts f.
Proof.
  unfold containments. rewrite list_elem_of_In, in_flat_map. intros (f & Hf & Hr).
  apply in_map_iff in Hr as (g' & <- & _). rewrite <- list_elem_of_In in Hf.
  apply elem_of_filter_b in Hf as [Hf E]. apply String.eqb_eq in E. eauto.
Qed.

Lemma containments_NoDup d g db : geo_wf db -> NoDup (map r_ts (containments d g db)).
Proof.
  intros [Hk Hg _ _ _]. destruct (containments_cases d g db Hg) as [->|(row & _ & _ & ->)]; [constructor|].
  rewrite map_map. simpl. clear Hg. induction (fixes db) as [|f l IH]; csimpl; [constructor|].
  apply NoDup_cons in Hk as [Hf Hk]. destruct (String.eqb_spec (fr_device_id f) d) as [<-|]; csimpl; [|by apply IH].
  apply NoDup_cons. split; [|by apply IH]. intros (f' & E & Hf')%list_elem_of_fmap.
  apply elem_of_filter_b in Hf' as [Hf' E']. apply String.eqb_eq in E'. apply Hf.
  apply list_elem_of_fmap. exists f'. by rewrite E', E.
Qed.

Lemma neighbourhood_ordered d g floor around n db : geo_wf db -> ordered (sql_neighbourhood d g floor around n db).
Proof.
  intros Hwf. pose proof (containments_NoDup d g db Hwf) as Hn. apply sort_asc_ordered. rewrite map_app. apply NoDup_app.
  split; [|split].
  - rewrite <- firstn_map. apply NoDup_firstn.
    eapply NoDup_map_perm; [symmetry; apply sort_desc_perm|]. by apply NoDup_filter_map.
  - intros t (a & -> & Ha)%list_elem_of_fmap (b & E & Hb)%list_elem_of_fmap.
    apply elem_of_firstn in Ha, Hb. rewrite sort_desc_perm in Ha. rewrite sort_asc_perm in Hb.
    apply elem_of_filter_b in Ha as [_ Ha], Hb as [_ Hb]. b2p. congruence.
  - rewrite <- firstn_map. apply NoDup_firstn.
    eapply NoDup_map_perm; [symmetry; apply sort_asc_perm|]. by apply NoDup_filter_map.
Qed.

Lemma neighbourhood_in d g floor around n db r : r ∈ sql_neighbourhood d g floor around n db ->
  r ∈ containments d g db /\ Before floor (r_ts r) = true.
Proof.
  unfold sql_neighbourhood. rewrite sort_asc_perm, elem_of_app.
  intros [H|H]; apply elem_of_firstn in H; rewrite ?sort_asc_perm, ?sort_desc_perm in H;
    apply elem_of_filter_b in H as [H E]; apply andb_true_iff in E as [E _]; done.
Qed.

(** The latest event of an increasing log is its last one. *)
Lemma sort_desc_increasing (l : list event_row) : increasing (map crossing_of l) ->
  stable_sort (fun a b => Before (ev_fix_ts b) (ev_fix_ts a)) l = rev l.
Proof.
  intros Hi.
  assert (Hs : StronglySorted (fun a b => Before (ev_fix_ts a) (ev_fix_ts b) = true) l).
  { induction l as [|x l IH]; [constructor|]. apply StronglySorted_inv in Hi as [H1 H2]. constructor; [by apply IH|].
    apply Forall_forall. intros y Hy. apply Forall_forall with (x := crossing_of y) in H2; [done|]. by apply list_elem_of_fmap_2. }
  assert (Hr : StronglySorted (sort_le (fun a b => Before (ev_fix_ts b) (ev_fix_ts a))) (rev l)).
  { clear Hi. induction Hs as [|x l Hs IH Hx]; simpl; [constructor|].
    apply StronglySorted_app_2; [|done|repeat constructor].
    intros y z Hy ->%list_elem_of_singleton. unfold sort_le. apply Before_asym.
    rewrite Forall_forall in Hx. apply Hx. apply list_elem_of_In, in_rev. by apply list_elem_of_In. }
  rewrite <- (stable_sort_id _ (rev l) Hr). apply stable_sort_unique.
  - intros x y. apply Before_asym.
  - intros x y z H1 H2. by eapply Before_negtrans.
  - intros x y Hx Hy H1 H2. pose proof (Before_total _ _ H1 H2) as E. clear -Hs Hx Hy E.
    induction Hs as [|z l Hs IH Hz]; [by apply elem_of_nil in Hx|]. rewrite Forall_forall in Hz.
    apply elem_of_cons in Hx as [->|Hx], Hy as [->|Hy]; auto.
    + specialize (Hz y Hy). rewrite E, Before_irrefl in Hz. done.
    + specialize (Hz x Hx). rewrite E, Before_irrefl in Hz. done.
  - apply Permutation_rev.
Qed.

Lemma sql_lastEvent_spec d g db : increasing (place_log d g db) ->
  match sql_lastEvent d g db with
  | [] => place_log d g db = []
  | (k, ts) :: _ => last (place_log d g db) = Some (mkTransition ts (String.eqb k "enter"))
  end.
Proof.
  intros Hi. unfold sql_lastEvent, place_log in *. rewrite sort_desc_increasing by done.
  destruct (List.filter _ _) as [|e l] using rev_ind; [done|].
  rewrite rev_app_distr. simpl. rewrite map_app. simpl. by rewrite last_snoc.
Qed.

(* ------------------------------------------------------------------ *)
(** ** One append *)

(** [db'] is [db] with [new] appended to the event table. *)
Definition appended_events (new : list event_row) (db db' : DB) : Prop :=
  db' = set_events (geofence_events db ++ new)%list db.

Lemma appended_nil db : appended_events [] db db.
Proof. unfold appended_events. rewrite app_nil_r. by destruct db. Qed.

Lemma appended_trans n1 n2 a b c : appended_events n1 a b -> appended_events n2 b c -> appended_events (n1 ++ n2) a c.
Proof. unfold appended_events. intros -> ->. simpl. by rewrite app_assoc. Qed.

Lemma place_log_appended d g new db db' : appended_events new db db' ->
  place_log d g db' = (place_log d g db ++ map crossing_of (List.filter (of_pair d g) new))%list.
Proof. unfold appended_events, place_log. intros ->. simpl. by rewrite List.filter_app, map_app. Qed.

Definition event_of (d g name : string) (t : transition) : GeofenceEvent := mkGEvent d g name (kind_of t) (tr_ts t).

(** Rows of one pair, carrying exactly these crossings. *)
Definition rows_for (d g : string) (ts : list transition) (new : list event_row) : Prop :=
  map crossing_of new = ts /\ Forall (fun e => of_pair d g e = true /\ micros (ev_fix_ts e)) new.

Lemma rows_for_nil d g : rows_for d g [] [].
Proof. split; [done|constructor]. Qed.

Lemma sql_insertEvent_cases d g t env db :
  micros (tr_ts t) -> (forall x, x ∈ place_log d g db -> Before (tr_ts x) (tr_ts t) = true) ->
  (is_ok (fst (sql_insertEvent d g (kind_of t) (tr_ts t) env db)) = false /\
   snd (sql_insertEvent d g (kind_of t) (tr_ts t) env db) = db) \/
  (fst (sql_insertEvent d g (kind_of t) (tr_ts t) env db) = Ok 1 /\
   exists e, rows_for d g [t] [e] /\
     appended_events [e] db (snd (sql_insertEvent d g (kind_of t) (tr_ts t) env db))).
Proof.
  intros Hm Hlt. unfold sql_insertEvent. cbv zeta. rewrite Hm. destruct (existsb _ (geofence_events db)) eqn:E1.
  - apply existsb_elem in E1 as (e & He & [Hp Ht]%andb_true_iff). apply Equal_eq in Ht.
    assert (crossing_of e ∈ place_log d g db) as Hin.
    { apply list_elem_of_fmap_2. apply elem_of_filter_b. done. }
    specialize (Hlt _ Hin). simpl in Hlt. rewrite Ht, Before_irrefl in Hlt. done.
  - destruct (existsb (fun e => String.eqb (ev_id e) (se_uuid env)) (geofence_events db)); [by left|].
    destruct (negb (has_device d db && has_geofence g db)); [by left|]. right. split; [done|].
    eexists. split; [|done]. split; simpl; [|repeat constructor; simpl].
    + f_equal. unfold crossing_of. simpl. rewrite kind_of_enter. by destruct t.
    + unfold of_pair. simpl. by rewrite !String.eqb_refl.
    + done.
Qed.

Lemma increasing_app l1 l2 : increasing (l1 ++ l2) <->
  increasing l1 /\ increasing l2 /\ forall x y, x ∈ l1 -> y ∈ l2 -> Before (tr_ts x) (tr_ts y) = true.
Proof. unfold increasing. rewrite StronglySorted_app. naive_solver. Qed.

(** The append loop adds a prefix of the crossings, whatever fails; it reports the
    ones it knows it added, which are all of them unless a reply was lost. *)
Lemma append_loop_run d g name ts : forall acc w,
  increasing (place_log d g (w_db w) ++ ts) -> Forall (fun t => micros (tr_ts t)) ts ->
  exists j k new err w', append_loop d g name ts acc w =
      ((acc ++ map (event_of d g name) (firstn j ts))%list, err, w') /\
    appended_events new (w_db w) (w_db w') /\ rows_for d g (firstn k ts) new /\
    (j <= k <= S j)%nat /\ (err = None -> j = length ts /\ k = length ts).
Proof.
  induction ts as [|t ts IH]; intros acc w Hi Hm.
  - exists O, O, [], None, w. simpl. rewrite app_nil_r. split; [done|]. split; [apply appended_nil|].
    split; [apply rows_for_nil|]. split; [lia|done].
  - apply Forall_cons in Hm as [Hmt Hm]. apply increasing_app in Hi as Hi'. destruct Hi' as (Hl & Hts & Hlt).
    assert (Hlt' : forall x, x ∈ place_log d g (w_db w) -> Before (tr_ts x) (tr_ts t) = true)
      by (intros x Hx; apply Hlt; [done|by left]).
    cbn [append_loop]. unfold bind.
    pose proof (exec_db (sql_insertEvent d g (kind_of t) (tr_ts t)) w) as Hdb.
    pose proof (sql_insertEvent_cases d g t (env_of w) (w_db w) Hmt Hlt') as Hc.
    destruct (exec _ w) as [[tag|e] w1] eqn:Ex; simpl in Hdb.
    + apply exec_ok_inv in Ex as [Ex Ew]. destruct Hc as [[Hc _]|[Hc (e & Hrow & Happ)]]; [by rewrite Ex in Hc|].
      rewrite Hc in Ex. injection Ex as <-. change (1 =? 1) with true. cbv iota. fold (event_of d g name t).
      assert (Edb : w_db w1 = snd (sql_insertEvent d g (kind_of t) (tr_ts t) (env_of w) (w_db w))) by (by rewrite Ew).
      rewrite <- Edb in Happ.
      assert (Elog : place_log d g (w_db w1) = (place_log d g (w_db w) ++ [t])%list).
      { rewrite (place_log_appended d g [e] _ _ Happ). f_equal. destruct Hrow as [Hrow Hp].
        apply Forall_cons in Hp as [[Hp _] _]. simpl. by rewrite Hp. }
      destruct (IH (acc ++ [event_of d g name t])%list w1) as (j & k & new & err & w2 & E & Ha & Hr & Hjk & Hn).
      { rewrite Elog, <- app_assoc. done. }
      { done. }
      exists (S j), (S k), (e :: new), err, w2. rewrite E, <- app_assoc. split; [done|].
      split; [by apply (appended_trans [e] new _ (w_db w1))|]. split; [|split; [lia|]].
      * destruct Hrow as [Hrow Hp], Hr as [Hr Hp']. split; [simpl; rewrite Hr; f_equal; by injection Hrow|].
        apply Forall_cons in Hp as [Hp _]. by constructor.
      * intros Herr. destruct (Hn Herr). simpl. lia.
    + destruct Hc as [[Hc Hsame]|[Hc (row & Hrow & Happ)]].
      * exists O, O, [], (Some e), w1. simpl. rewrite app_nil_r. split; [done|]. split; [|split; [apply rows_for_nil|split; [lia|done]]].
        rewrite Hsame in Hdb. destruct Hdb as [->| ->]; apply appended_nil.
      * destruct Hdb as [Hdb|Hdb].
        -- exists O, O, [], (Some e), w1. simpl. rewrite app_nil_r, Hdb. split; [done|].
           split; [apply appended_nil|split; [apply rows_for_nil|split; [lia|done]]].
        -- exists O, 1%nat, [row], (Some e), w1. simpl. rewrite app_nil_r, Hdb. split; [done|].
           split; [done|split; [done|split; [lia|done]]].
Qed.

(* ------------------------------------------------------------------ *)
(** ** One Place *)

Lemma alternates_app s l1 l2 : alternates s l1 ->
  alternates (match last l1 with Some t => tr_enter t | None => s end) l2 -> alternates s (l1 ++ l2).
Proof.
  revert s. induction l1 as [|t l1 IH]; intros s; cbn [alternates app]; [done|]. intros [E H1] H2. split; [done|].
  apply IH; [done|]. destruct l1 as [|x l1]; [done|]. change (last (t :: x :: l1)) with (last (x :: l1)) in H2.
  destruct (last (x :: l1)) eqn:El; [done|]. by apply last_None in El.
Qed.

Lemma alternates_prefix s l1 l2 : alternates s (l1 ++ l2) -> alternates s l1.
Proof. revert s. induction l1 as [|t l1 IH]; intros s; simpl; [done|]. intros [-> H]. eauto. Qed.

Lemma increasing_last l t x : increasing l -> last l = Some t -> x ∈ l -> x = t \/ Before (tr_ts x) (tr_ts t) = true.
Proof.
  intros Hi [l' ->]%last_Some [Hx|Hx%list_elem_of_singleton]%elem_of_app; [|by left]. right.
  apply increasing_app in Hi as (_ & _ & H). apply H; [done|by left].
Qed.

(** The seed the reader builds is the one the log stands for. *)
Lemma read_seed_run d g w r w' : geo_wf (w_db w) -> read_seed d g w = (r, w') ->
  w_db w' = w_db w /\
  match r with Ok s => s = log_seed (place_log d g (w_db w)) | Err _ => True end.
Proof.
  intros Hwf. unfold read_seed, bind.
  pose proof (query_row_db (fun _ : stmt_env => sql_lastEvent d g) w) as Hdb.
  pose proof (sql_lastEvent_spec d g (w_db w) (proj1 (gw_logs _ Hwf d g))) as Hs.
  unfold query_row, bindr, bind in *. destruct (query _ w) as [[rows|e] w1] eqn:E; simpl in Hdb.
  - apply query_ok_inv in E as [-> ->]. destruct (sql_lastEvent d g (w_db w)) as [|[k ts] rest];
      unfold ret; intros [= <- <-]; (split; [done|]); unfold log_seed; by rewrite Hs.
  - destruct e; unfold ret; intros [= <- <-]; try done.
    exfalso. unfold query, exec in E. destruct (se_fault _); discriminate.
Qed.

Lemma log_seed_spec log : log_ok log ->
  (forall x t, x ∈ log -> Before (log_seed log).2 (tr_ts t) = true -> Before (tr_ts x) (tr_ts t) = true) /\
  alternates (log_seed log).1.1 [] /\
  (log_seed log).1.1 = match last log with Some t => tr_enter t | None => false end.
Proof.
  intros [Hi _]. split; [|split; [done|unfold log_seed; by destruct (last log)]].
  intros x t Hx. unfold log_seed. destruct (last log) as [l|] eqn:El; simpl.
  - intros Hb. destruct (increasing_last _ _ _ Hi El Hx) as [->|H]; [done|]. by eapply Before_trans.
  - apply last_None in El. subst. by apply elem_of_nil in Hx.
Qed.

Lemma seed_micros d g db : geo_wf db -> timestamptz (log_seed (place_log d g db)).2 = (log_seed (place_log d g db)).2.
Proof.
  intros Hwf. unfold log_seed. destruct (last (place_log d g db)) as [t|] eqn:El; [|done]. simpl.
  apply last_Some in El as [l El]. assert (t ∈ place_log d g db) as Hin by (rewrite El; apply elem_of_app; right; by left).
  unfold place_log in Hin. apply list_elem_of_fmap in Hin as (e & -> & He). apply elem_of_filter_b in He as [He _].
  pose proof (gw_event_micros _ Hwf) as Hm. rewrite Forall_forall in Hm. by apply Hm.
Qed.

(** The crossings one evaluation confirms. *)
Definition confirmed (d g : string) (around : Time) (debounce : Z) (db : DB) : list transition :=
  let '(inside, evidence, floor) := log_seed (place_log d g db) in
  confirmTransitions (sql_neighbourhood d g floor (timestamptz around) geofenceEvalNeighbours db) inside evidence debounce.

(** They continue the log: later in time, alternating, at stored instants. *)
Lemma confirmed_continues d g around debounce db : geo_wf db ->
  log_ok (place_log d g db ++ confirmed d g around debounce db) /\
  Forall (fun t => micros (tr_ts t)) (confirmed d g around debounce db).
Proof.
  intros Hwf. pose proof (gw_logs _ Hwf d g) as Hl.
  destruct (log_seed_spec _ Hl) as (Hlt & _ & Hin). destruct Hl as [Hi Ha].
  unfold confirmed. destruct (log_seed (place_log d g db)) as [[inside evidence] floor] eqn:Es. simpl in *.
  pose proof (neighbourhood_ordered d g floor (timestamptz around) geofenceEvalNeighbours db Hwf) as Ho.
  assert (Hon : forall t, t ∈ confirmTransitions (sql_neighbourhood d g floor (timestamptz around) geofenceEvalNeighbours db)
             inside evidence debounce -> Before floor (tr_ts t) = true /\ micros (tr_ts t)).
  { intros t (r & Hr & <- & _)%confirm_loop_onsets. apply neighbourhood_in in Hr as [Hr Hb].
    split; [done|]. apply containments_in in Hr as (f & Hf & _ & ->).
    pose proof (gw_fix_micros _ Hwf) as Hm. rewrite Forall_forall in Hm. by apply Hm. }
  split; [split|].
  - apply increasing_app. split; [done|]. split; [by apply confirm_loop_increasing|].
    intros x t Hx Ht. apply Hlt; [done|]. by apply Hon.
  - apply alternates_app; [done|]. rewrite <- Hin. apply confirm_loop_alternates.
  - apply Forall_forall. intros t Ht. by apply Hon.
Qed.

Lemma evaluateOne_run d g name around debounce w : geo_wf (w_db w) ->
  exists j k new err w',
    evaluateOneGeofence d g name around debounce w =
      (map (event_of d g name) (firstn j (confirmed d g around debounce (w_db w))), err, w') /\
    appended_events new (w_db w) (w_db w') /\
    rows_for d g (firstn k (confirmed d g around debounce (w_db w))) new /\ (j <= k <= S j)%nat /\
    (err = None -> j = length (confirmed d g around debounce (w_db w)) /\ k = length (confirmed d g around debounce (w_db w))).
Proof.
  intros Hwf. destruct (confirmed_continues d g around debounce _ Hwf) as [[Hi _] Hm].
  unfold evaluateOneGeofence, bind. destruct (read_seed d g w) as [r w1] eqn:E1.
  destruct (read_seed_run _ _ _ _ _ Hwf E1) as [Edb Hs]. unfold confirmed in *.
  destruct r as [[[inside evidence] floor]|e].
  - pose proof (seed_micros d g _ Hwf) as Hsm. rewrite <- Hs in *. simpl in Hsm. rewrite Hsm.
    pose proof (query_db (fun _ : stmt_env => sql_neighbourhood d g floor (timestamptz around) geofenceEvalNeighbours) w1) as Hq.
    destruct (query _ w1) as [[readings|e] w2] eqn:E2; simpl in Hq.
    + apply query_ok_inv in E2 as [-> ->]. rewrite <- Edb in Hi, Hm |- *.
      apply (append_loop_run d g name _ [] (tick w1)); done.
    + exists O, O, [], (Some e), w2. rewrite Hq, Edb. split; [done|]. split; [apply appended_nil|].
      split; [apply rows_for_nil|]. split; [lia|done].
  - exists O, O, [], (Some e), w1. rewrite Edb. split; [done|]. split; [apply appended_nil|].
    split; [apply rows_for_nil|]. split; [lia|done].
Qed.

Lemma geo_wf_appended d g around debounce k new db db' : geo_wf db -> appended_events new db db' ->
  rows_for d g (firstn k (confirmed d g around debounce db)) new -> geo_wf db'.
Proof.
  intros Hwf Ha [Hc Hp]. destruct (confirmed_continues d g around debounce db Hwf) as [Hok Hm].
  assert (Hlog : forall d' g', place_log d' g' db' = (place_log d' g' db ++ map crossing_of (List.filter (of_pair d' g') new))%list)
    by (intros; by apply place_log_appended).
  pose proof Hwf as [H1 H2 H3 H4 H5]. rewrite Ha. constructor; simpl; try done.
  - apply Forall_app. split; [done|]. eapply Forall_impl; [exact Hp|]. by intros e [_ ?].
  - intros d' g'. rewrite <- Ha, Hlog. rewrite Forall_forall in Hp.
    destruct (decide (d' = d /\ g' = g)) as [[-> ->]|Hne].
    + rewrite filter_all by (intros e He; by apply Hp). rewrite Hc.
      rewrite <- (firstn_skipn k (confirmed d g around debounce db)), app_assoc in Hok.
      destruct Hok as [Hi Hal]. split; [by apply increasing_app in Hi as [? _]|by eapply alternates_prefix].
    + rewrite filter_none; [simpl; rewrite app_nil_r; by apply H5|]. intros e He.
      destruct (Hp e He) as [Hpe _]. apply andb_true_iff in Hpe as [E1 E2].
      apply String.eqb_eq in E1, E2. unfold of_pair. rewrite E1, E2.
      destruct (String.eqb_spec d d'), (String.eqb_spec g g'); try done. destruct Hne. by subst.
Qed.

(* ------------------------------------------------------------------ *)
(** ** All Places *)

(** A reported crossing is one of the appended rows. *)
Definition recorded (new : list event_row) (ev : GeofenceEvent) : Prop :=
  exists e, e ∈ new /\ ev_device_id e = ge_DeviceID ev /\ ev_geofence_id e = ge_GeofenceID ev /\
    crossing_of e = mkTransition (ge_FixTS ev) (String.eqb (ge_Transition ev) "enter").

Lemma rows_recorded d g name j k ts new ev : (j <= k)%nat -> rows_for d g (firstn k ts) new ->
  ev ∈ map (event_of d g name) (firstn j ts) -> recorded new ev.
Proof.
  intros Hjk [Hc Hp] (t & -> & Ht)%list_elem_of_fmap.
  assert (t ∈ firstn k ts) as Htk.
  { replace j with (Nat.min j k) in Ht by lia. rewrite <- firstn_firstn in Ht. by apply elem_of_firstn in Ht. }
  rewrite <- Hc in Htk. apply list_elem_of_fmap in Htk as (e & -> & He). exists e. split; [done|].
  rewrite Forall_forall in Hp. destruct (Hp e He) as [Hpe _]. apply andb_true_iff in Hpe as [E1 E2].
  apply String.eqb_eq in E1, E2. simpl. rewrite kind_of_enter. done.
Qed.

Lemma places_loop_run d around debounce places : forall acc w, geo_wf (w_db w) ->
  exists new evs err w', places_loop d places around debounce acc w = ((acc ++ evs)%list, err, w') /\
    geo_wf (w_db w') /\ appended_events new (w_db w) (w_db w') /\
    Forall (fun e => ev_device_id e = d /\ ev_geofence_id e ∈ map fst places) new /\ Forall (recorded new) evs.
Proof.
  induction places as [|[g name] places IH]; intros acc w Hwf.
  - exists [], [], None, w. rewrite app_nil_r. split; [done|]. split; [done|].
    split; [apply appended_nil|]. split; constructor.
  - cbn [places_loop]. unfold bind.
    destruct (evaluateOne_run d g name around debounce w Hwf) as (j & k & new & err & w1 & E & Ha & Hr & Hjk & Hn).
    rewrite E. pose proof (geo_wf_appended _ _ _ _ _ _ _ _ Hwf Ha Hr) as Hwf1.
    assert (Hnew : Forall (fun e => ev_device_id e = d /\ ev_geofence_id e ∈ map fst ((g, name) :: places)) new).
    { destruct Hr as [_ Hp]. eapply Forall_impl; [exact Hp|]. intros e [Hpe _]. apply andb_true_iff in Hpe as [E1 E2].
      apply String.eqb_eq in E1, E2. rewrite E1, E2. split; [done|]. simpl. by left. }
    destruct err as [e|].
    + exists new, [], (Some e), w1. rewrite app_nil_r. done.
    + set (evs1 := map (event_of d g name) _).
      destruct (IH (acc ++ evs1)%list w1 Hwf1) as (new2 & evs2 & err2 & w2 & E2 & Hwf2 & Ha2 & Hd2 & Hr2).
      exists (new ++ new2)%list, (evs1 ++ evs2)%list, err2, w2. rewrite E2, <- app_assoc.
      split; [done|]. split; [done|]. split; [by eapply appended_trans|]. split.
      * apply Forall_app. split; [done|]. eapply Forall_impl; [exact Hd2|]. intros x [? ?]. split; [done|]. simpl. by right.
      * apply Forall_app. split; apply Forall_forall; intros ev Hev.
        -- destruct (rows_recorded d g name j k _ new ev ltac:(lia) Hr Hev) as (x & Hx & ?).
           exists x. split; [|done]. apply elem_of_app. by left.
        -- rewrite Forall_forall in Hr2. destruct (Hr2 ev Hev) as (x & Hx & ?).
           exists x. split; [|done]. apply elem_of_app. by right.
Qed.
End Logs.
