(* ===== verification/GeofenceSpec.v ===== *)
(** The properties of the geofence evaluator ([EvaluateDeviceGeofences]): its logs
    under any behaviour of the database, what it appends when nothing fails, and
    what it leaves undone when something does. *)

From Stdlib Require Import ZArith Lia Bool String Ascii List Sorted.
From stdpp Require Import base option list strings gmap sorting.
From S2P Require Import Prelude GoTime GoStrings Calendar Database Partitions StoreFix StoreEntities Evaluator StoreGeofence GeofenceLog.
Local Open Scope string_scope.
Local Open Scope Z_scope.

Section Spec.
Context `{G : PostGIS}.

(** C3: whatever the database does - requests lost, replies lost, constraint
    errors - one evaluation only appends crossings of its own device to the event
    table, and every (device, place) log of the whole table stays strictly
    increasing in event time and alternating from an enter; every crossing it
    reports for notification is one of the rows it appended. *)
Theorem EvaluateDeviceGeofences_log (deviceID : string) (around : Time) (debounce : Z) (w w' : World) evs err :
  geo_wf (w_db w) -> EvaluateDeviceGeofences deviceID around debounce w = (evs, err, w') ->
  geo_wf (w_db w') /\
  exists new, appended_events new (w_db w) (w_db w') /\ Forall (fun e => ev_device_id e = deviceID) new /\
    Forall (recorded new) evs.
Proof.
  intros Hwf. unfold EvaluateDeviceGeofences, bind.
  pose proof (query_db (fun _ : stmt_env => sql_placesOfDevice deviceID) w) as Hq.
  destruct (query _ w) as [[places|e] w1]; simpl in Hq.
  - rewrite <- Hq in Hwf |- *.
    destruct (places_loop_run deviceID around debounce places [] w1 Hwf) as (new & evs1 & err1 & w2 & E & Hwf2 & Ha & Hd & Hr).
    rewrite E. intros [= <- <- <-]. split; [done|]. exists new. split; [done|]. split; [|done].
    eapply Forall_impl; [exact Hd|]. by intros x [? _].
  - intros [= <- <- <-]. rewrite Hq. split; [done|]. exists [].
    split; [apply appended_nil|]. split; constructor.
Qed.

(* ------------------------------------------------------------------ *)
(** ** Without faults *)

(** [gen_random_uuid()] gives ids that no event has. *)
Definition fresh_ids (w : World) : Prop :=
  (forall n e, (w_next w <= n)%nat -> e ∈ geofence_events (w_db w) -> ev_id e <> se_uuid (w_env w n)) /\
  (forall n m, (w_next w <= n)%nat -> (w_next w <= m)%nat -> se_uuid (w_env w n) = se_uuid (w_env w m) -> n = m).

Lemma fresh_tick w : fresh_ids w -> fresh_ids (tick w).
Proof. intros [H1 H2]. split; simpl; intros; [apply H1; [lia|done]|apply H2; [lia|lia|done]]. Qed.

Lemma sql_insertEvent_quiet d g t env db :
  micros (tr_ts t) -> (forall x, x ∈ place_log d g db -> Before (tr_ts x) (tr_ts t) = true) ->
  has_device d db = true -> has_geofence g db = true ->
  (forall e, e ∈ geofence_events db -> ev_id e <> se_uuid env) ->
  sql_insertEvent d g (kind_of t) (tr_ts t) env db =
    (Ok 1, set_events (geofence_events db ++ [mkEvent (se_uuid env) d g (kind_of t) (tr_ts t)])%list db).
Proof.
  intros Hm Hlt Hd Hg Hu. unfold sql_insertEvent. cbv zeta. rewrite Hm.
  assert (E1 : existsb (fun e => of_pair d g e && Equal (ev_fix_ts e) (tr_ts t)) (geofence_events db) = false).
  { apply existsb_elem_false. intros e He. destruct (of_pair d g e) eqn:Hp; [|done]. simpl.
    destruct (Equal (ev_fix_ts e) (tr_ts t)) eqn:Ht; [|done]. apply Equal_eq in Ht.
    assert (crossing_of e ∈ place_log d g db) as Hin by (apply list_elem_of_fmap_2; by apply elem_of_filter_b).
    specialize (Hlt _ Hin). simpl in Hlt. by rewrite Ht, Before_irrefl in Hlt. }
  assert (E2 : existsb (fun e => String.eqb (ev_id e) (se_uuid env)) (geofence_events db) = false).
  { apply existsb_elem_false. intros e He. apply String.eqb_neq. by apply Hu. }
  by rewrite E1, E2, Hd, Hg.
Qed.

Lemma append_loop_quiet d g name ts : forall acc w, quiet w -> fresh_ids w ->
  has_device d (w_db w) = true -> has_geofence g (w_db w) = true ->
  increasing (place_log d g (w_db w) ++ ts) -> Forall (fun t => micros (tr_ts t)) ts ->
  exists evs w', append_loop d g name ts acc w = (evs, None, w') /\ quiet w' /\ fresh_ids w'.
Proof.
  induction ts as [|t ts IH]; intros acc w Hq Hf Hd Hg Hi Hm; [by exists acc, w|].
  apply Forall_cons in Hm as [Hmt Hm]. apply increasing_app in Hi as Hi'. destruct Hi' as (_ & _ & Hlt).
  cbn [append_loop]. unfold bind. rewrite exec_quiet by done.
  rewrite sql_insertEvent_quiet; [|done| |done|done|].
  - simpl fst. cbv iota. apply IH; [by apply quiet_with_db, quiet_tick| |done|done| |done].
    + destruct Hf as [Hf1 Hf2]. split; simpl; [|intros; apply Hf2; first [lia|done]].
      intros n e Hn [He| ->%list_elem_of_singleton]%elem_of_app; [apply Hf1; [lia|done]|].
      simpl. intros E. unfold env_of in E. apply Hf2 in E; lia.
    + unfold place_log. simpl. rewrite List.filter_app, map_app. simpl. unfold of_pair at 2. simpl.
      rewrite !String.eqb_refl. simpl. unfold crossing_of at 2. simpl. rewrite kind_of_enter, <- app_assoc.
      simpl. by destruct t.
  - intros x Hx. apply Hlt; [done|by left].
  - intros e He. destruct Hf as [Hf _]. apply Hf; [done|done].
Qed.

Lemma read_seed_quiet d g w : quiet w -> geo_wf (w_db w) ->
  read_seed d g w = (Ok (log_seed (place_log d g (w_db w))), tick w).
Proof.
  intros Hq Hwf. destruct (read_seed d g w) as [r w1] eqn:E.
  destruct (read_seed_run _ _ _ _ _ Hwf E) as [_ Hs].
  unfold read_seed, bind in E. rewrite query_row_quiet in E by done.
  destruct (sql_lastEvent d g (w_db w)) as [|[k ts] rest]; unfold ret in E; injection E as <- <-; by rewrite <- Hs.
Qed.

Lemma evaluateOne_quiet d g name around debounce w : quiet w -> fresh_ids w -> geo_wf (w_db w) ->
  has_device d (w_db w) = true -> has_geofence g (w_db w) = true ->
  exists new w', evaluateOneGeofence d g name around debounce w =
      (map (event_of d g name) (confirmed d g around debounce (w_db w)), None, w') /\
    quiet w' /\ fresh_ids w' /\ appended_events new (w_db w) (w_db w') /\
    rows_for d g (confirmed d g around debounce (w_db w)) new.
Proof.
  intros Hq Hf Hwf Hd Hg.
  destruct (evaluateOne_run d g name around debounce w Hwf) as (j & k & new & err & w' & E & Ha & Hr & _ & Hn).
  assert (err = None /\ quiet w' /\ fresh_ids w') as (-> & Hq' & Hf').
  { unfold evaluateOneGeofence, bind in E. rewrite read_seed_quiet in E by done.
    pose proof (confirmed_continues d g around debounce _ Hwf) as [[Hi _] Hm].
    pose proof (seed_micros d g _ Hwf) as Hsm. unfold confirmed in *.
    destruct (log_seed (place_log d g (w_db w))) as [[inside evidence] floor]. simpl in Hsm. rewrite Hsm in E.
    rewrite query_quiet in E by (by apply quiet_tick).
    destruct (append_loop_quiet d g name _ [] (tick (tick w))
      (quiet_tick _ (quiet_tick _ Hq)) (fresh_tick _ (fresh_tick _ Hf)) Hd Hg Hi Hm) as (evs & w2 & E2 & Hq2 & Hf2).
    simpl w_db in E. rewrite E2 in E. by injection E as _ <- <-. }
  destruct (Hn eq_refl) as [-> ->]. rewrite firstn_all in *. by exists new, w'.
Qed.

(** Sorting forgets the order of readings at distinct instants. *)
Lemma sort_asc_forget l l' : NoDup (map r_ts l) -> l ≡ₚ l' -> sort_asc l = sort_asc l'.
Proof.
  intros Hd Hp. apply stable_sort_unique; [| | |done].
  - intros x y. apply Before_asym.
  - intros x y z. apply Before_negtrans.
  - intros x y Hx Hy H1 H2. pose proof (Before_total _ _ H1 H2) as E. clear -Hd Hx Hy E.
    induction l as [|r l IH]; [by apply elem_of_nil in Hx|]. csimpl in Hd. apply NoDup_cons in Hd as [Hr Hd].
    apply elem_of_cons in Hx as [->|Hx], Hy as [->|Hy]; auto; destruct Hr; [rewrite E|rewrite <- E]; by apply list_elem_of_fmap_2.
Qed.

Lemma later_sorted floor l : StronglySorted (sort_le (fun a b => Before (r_ts a) (r_ts b))) l ->
  StronglySorted (sort_le (fun a b => Before (r_ts a) (r_ts b))) (later floor l).
Proof.
  unfold later. induction 1 as [|r l Hs IH Hr]; simpl; [constructor|].
  destruct (Before floor (r_ts r)); [|done]. constructor; [done|]. rewrite Forall_forall in Hr |- *.
  intros x Hx. apply elem_of_filter_b in Hx as [Hx _]. by apply Hr.
Qed.

Lemma later_sort floor rs : NoDup (map r_ts rs) -> sort_asc (later floor rs) = later floor (sort_asc rs).
Proof.
  intros Hd. rewrite (sort_asc_forget (later floor rs) (later floor (sort_asc rs))).
  - apply stable_sort_id, later_sorted, sort_asc_sorted.
  - by apply NoDup_filter_map.
  - apply filter_perm. symmetry. apply sort_asc_perm.
Qed.

(** A neighbourhood inside its bound is all the fixes past the floor. *)
Lemma neighbourhood_small d g floor around n db : geo_wf db ->
  (length (later floor (containments d g db)) <= n)%nat ->
  sql_neighbourhood d g floor around n db = later floor (sort_asc (containments d g db)).
Proof.
  intros Hwf Hn. pose proof (containments_NoDup d g db Hwf) as Hd. unfold sql_neighbourhood. cbv zeta.
  set (rs := containments d g db) in *. set (p := fun r => Before floor (r_ts r)). set (q := fun r => Before around (r_ts r)).
  pose proof (filter_split_perm p q rs) as Hs. change (later floor rs) with (List.filter p rs) in Hn.
  apply Permutation_length in Hs as Hl. rewrite length_app in Hl.
  rewrite !firstn_all2; [|rewrite (Permutation_length (sort_asc_perm _))|rewrite (Permutation_length (sort_desc_perm _))];
    [|subst p q; simpl in *; lia..].
  rewrite <- later_sort by done. apply sort_asc_forget.
  - eapply NoDup_map_perm; [|apply (NoDup_filter_map r_ts p rs Hd)].
    rewrite sort_desc_perm, sort_asc_perm. by symmetry.
  - rewrite sort_desc_perm, sort_asc_perm. exact Hs.
Qed.

(** The neighbourhoods of a device are inside the bound. *)
Definition within_bound (d : string) (db : DB) : Prop :=
  forall g, (length (later (log_seed (place_log d g db)).2 (containments d g db)) <= geofenceEvalNeighbours)%nat.

Lemma confirmed_within d g around debounce db : geo_wf db -> within_bound d db ->
  (place_log d g db ++ confirmed d g around debounce db)%list =
    extend_log debounce (place_log d g db) (sort_asc (containments d g db)).
Proof.
  intros Hwf Hb. specialize (Hb g). unfold confirmed, extend_log.
  destruct (log_seed (place_log d g db)) as [[inside evidence] floor]. simpl in Hb.
  by rewrite neighbourhood_small.
Qed.

Lemma confirmed_other d g around debounce new db db' :
  appended_events new db db' -> Forall (fun e => of_pair d g e = false) new ->
  place_log d g db' = place_log d g db /\ confirmed d g around debounce db' = confirmed d g around debounce db.
Proof.
  intros Ha Hn.
  assert (Hl : place_log d g db' = place_log d g db).
  { rewrite (place_log_appended d g new db db' Ha), filter_none; [by rewrite app_nil_r|].
    intros e He. rewrite Forall_forall in Hn. by apply Hn. }
  split; [done|]. unfold confirmed. rewrite Hl. rewrite Ha. done.
Qed.

Lemma rows_for_other d g ts new d' g' : rows_for d g ts new -> d' <> d \/ g' <> g ->
  Forall (fun e => of_pair d' g' e = false) new.
Proof.
  intros [_ Hp] Hne. eapply Forall_impl; [exact Hp|]. intros e [[E1 E2]%andb_true_iff _].
  apply String.eqb_eq in E1, E2. unfold of_pair. rewrite E1, E2.
  destruct (String.eqb_spec d d'), (String.eqb_spec g g'); try done. subst. by destruct Hne.
Qed.

Lemma places_loop_quiet d around debounce places : forall acc w,
  quiet w -> fresh_ids w -> geo_wf (w_db w) -> has_device d (w_db w) = true ->
  NoDup (map fst places) -> (forall p, p ∈ places -> has_geofence (fst p) (w_db w) = true) ->
  exists w', places_loop d places around debounce acc w =
      ((acc ++ flat_map (fun p => map (event_of d (fst p) (snd p)) (confirmed d (fst p) around debounce (w_db w))) places)%list,
       None, w') /\
    (forall g, place_log d g (w_db w') = (place_log d g (w_db w) ++
       if decide (g ∈ map fst places) then confirmed d g around debounce (w_db w) else [])%list) /\
    (forall d' g, d' <> d -> place_log d' g (w_db w') = place_log d' g (w_db w)).
Proof.
  induction places as [|[g name] places IH]; intros acc w Hq Hf Hwf Hd Hnd Hg.
  - exists w. simpl. rewrite app_nil_r. split; [done|]. split; [|done]. intros g.
    by rewrite app_nil_r.
  - cbn [places_loop]. unfold bind. simpl in Hnd. apply NoDup_cons in Hnd as [Hni Hnd].
    destruct (evaluateOne_quiet d g name around debounce w Hq Hf Hwf Hd (Hg _ ltac:(by left)))
      as (new & w1 & E & Hq1 & Hf1 & Ha & Hr).
    rewrite E. rewrite <- (firstn_all (confirmed d g around debounce (w_db w))) in Hr.
    pose proof (geo_wf_appended _ _ _ _ _ _ _ _ Hwf Ha Hr) as Hwf1. rewrite firstn_all in Hr.
    assert (Hoth : forall g', g' <> g -> place_log d g' (w_db w1) = place_log d g' (w_db w) /\
      confirmed d g' around debounce (w_db w1) = confirmed d g' around debounce (w_db w)).
    { intros g' Hne. apply (confirmed_other _ _ _ _ new); [done|]. eapply rows_for_other; [done|by right]. }
    destruct (IH (acc ++ map (event_of d g name) (confirmed d g around debounce (w_db w)))%list w1) as (w2 & E2 & Hl & Hl'); try done.
    { by rewrite Ha. }
    { intros p Hp. rewrite Ha. apply Hg. by right. }
    exists w2. split; [|split].
    + rewrite E2, <- app_assoc. simpl. do 4 f_equal. apply flat_map_ext_elem. intros [g' n'] Hin. simpl.
      destruct (Hoth g') as [_ ->]; [|done]. intros ->. apply Hni. apply list_elem_of_fmap.
      by exists (g, n').
    + intros g'. rewrite Hl. simpl. destruct (decide (g' = g)) as [->|Hne].
      * rewrite decide_False by done. rewrite decide_True by (by left). rewrite app_nil_r.
        rewrite (place_log_appended d g new _ _ Ha). destruct Hr as [Hr Hp]. f_equal. rewrite <- Hr.
        rewrite filter_all; [done|]. rewrite Forall_forall in Hp. intros e He. by apply Hp.
      * destruct (Hoth g' Hne) as [-> ->]. f_equal.
        destruct (decide (g' ∈ map fst places)) as [Hin|Hin]; [rewrite decide_True by (by right)|rewrite decide_False]; try done.
        by apply not_elem_of_cons.
    + intros d' g' Hne. rewrite Hl' by done. rewrite (place_log_appended d' g' new _ _ Ha).
      rewrite filter_none; [by rewrite app_nil_r|]. pose proof (rows_for_other _ _ _ _ d' g' Hr ltac:(by left)) as Hp.
      rewrite Forall_forall in Hp. done.
Qed.

Lemma elem_of_places d db p : p ∈ sql_placesOfDevice d db <->
  exists dev g, dev ∈ devices db /\ dev_id dev = d /\ g ∈ geofences db /\ gf_family_id g = dev_family_id dev /\
    p = (gf_id g, gf_name g).
Proof.
  unfold sql_placesOfDevice. rewrite stable_sort_perm, list_elem_of_In, in_flat_map.
  setoid_rewrite in_map_iff. setoid_rewrite <- list_elem_of_In.
  setoid_rewrite elem_of_filter_b. setoid_rewrite String.eqb_eq. naive_solver.
Qed.

Lemma places_NoDup d db : NoDup (map dev_id (devices db)) -> NoDup (map gf_id (geofences db)) ->
  NoDup (map fst (sql_placesOfDevice d db)).
Proof.
  intros Hd Hg. unfold sql_placesOfDevice. eapply NoDup_map_perm; [symmetry; apply stable_sort_perm|].
  destruct (List.filter (fun x => String.eqb (dev_id x) d) (devices db)) as [|dev rest] eqn:E; [constructor|].
  assert (dev ∈ List.filter (fun x => String.eqb (dev_id x) d) (devices db)) as Hin by (rewrite E; by left).
  apply elem_of_filter_b in Hin as [Hin Ed]. apply String.eqb_eq in Ed.
  pose proof (filter_unique_key dev_id (fun _ => true) (devices db) dev Hd Hin) as Hu. rewrite Ed in Hu.
  assert (dev :: rest = [dev]) as ->.
  { rewrite <- Hu, <- E. apply List.filter_ext. intros x. by rewrite andb_true_r. }
  simpl. rewrite app_nil_r, map_map. by apply NoDup_filter_map.
Qed.

(** C14: without faults, and while each log has at most 128 fixes past its last
    crossing, one evaluation is the specification: every log of the device becomes
    what evaluating all its fixes past that crossing confirms, no other log moves,
    and the crossings reported for notification are exactly the new ones, Place by
    Place. *)
Theorem EvaluateDeviceGeofences_exact (deviceID : string) (around : Time) (debounce : Z) (w : World) :
  quiet w -> fresh_ids w -> geo_wf (w_db w) -> NoDup (map dev_id (devices (w_db w))) ->
  has_device deviceID (w_db w) = true -> within_bound deviceID (w_db w) ->
  exists w', EvaluateDeviceGeofences deviceID around debounce w =
      (flat_map (fun p => map (event_of deviceID (fst p) (snd p)) (confirmed deviceID (fst p) around debounce (w_db w)))
         (sql_placesOfDevice deviceID (w_db w)), None, w') /\
    (forall dev g, dev ∈ devices (w_db w) -> dev_id dev = deviceID -> g ∈ geofences (w_db w) ->
       gf_family_id g = dev_family_id dev ->
       place_log deviceID (gf_id g) (w_db w') =
         extend_log debounce (place_log deviceID (gf_id g) (w_db w)) (sort_asc (containments deviceID (gf_id g) (w_db w)))) /\
    (forall d g, d <> deviceID -> place_log d g (w_db w') = place_log d g (w_db w)).
Proof.
  intros Hq Hf Hwf Hnd Hd Hb. unfold EvaluateDeviceGeofences, bind. rewrite query_quiet by done.
  destruct (places_loop_quiet deviceID around debounce (sql_placesOfDevice deviceID (w_db w)) [] (tick w))
    as (w' & E & Hl & Ho); [by apply quiet_tick|by apply fresh_tick|done|done|..].
  - apply places_NoDup; [done|exact (gw_geofence_ids _ Hwf)].
  - intros p (dev & g & _ & _ & Hg & _ & ->)%elem_of_places. simpl. apply existsb_elem.
    exists g. split; [done|]. apply String.eqb_refl.
  - exists w'. split; [exact E|]. split; [|exact Ho]. intros dev g Hdev Ed Hg Ef.
    rewrite Hl. simpl w_db. rewrite decide_True.
    + by apply confirmed_within.
    + apply list_elem_of_fmap. exists (gf_id g, gf_name g). split; [done|]. apply elem_of_places. by exists dev, g.
Qed.

Lemma places_loop_error d around debounce places : forall acc w evs e w',
  geo_wf (w_db w) -> NoDup (map fst places) ->
  places_loop d places around debounce acc w = (evs, Some e, w') ->
  exists pre g name post, places = (pre ++ (g, name) :: post)%list /\
    (forall p, p ∈ post -> place_log d (fst p) (w_db w') = place_log d (fst p) (w_db w)) /\
    (forall ev, ev ∈ evs -> ev ∈ acc \/ ge_GeofenceID ev ∈ map fst pre).
Proof.
  induction places as [|[g name] places IH]; intros acc w evs e w' Hwf Hnd; [done|].
  cbn [places_loop]. unfold bind. simpl in Hnd. apply NoDup_cons in Hnd as [Hni Hnd].
  destruct (evaluateOne_run d g name around debounce w Hwf) as (j & k & new & err & w1 & E & Ha & Hr & _ & _).
  rewrite E. pose proof (geo_wf_appended _ _ _ _ _ _ _ _ Hwf Ha Hr) as Hwf1.
  assert (Hoth : forall g', g' <> g -> place_log d g' (w_db w1) = place_log d g' (w_db w)).
  { intros g' Hne. eapply (confirmed_other d g' around debounce new); [done|]. eapply rows_for_other; [done|by right]. }
  assert (Hpost : forall p, p ∈ places -> fst p <> g).
  { intros p Hp Eg. apply Hni. rewrite <- Eg. by apply list_elem_of_fmap_2. }
  destruct err as [er|].
  - intros [= <- <- <-]. exists [], g, name, places. split; [done|]. split; [|by left].
    intros p Hp. apply Hoth. by apply Hpost.
  - intros E2. destruct (IH _ _ _ _ _ Hwf1 Hnd E2) as (pre & g' & name' & post & -> & Hlog & Hev).
    exists ((g, name) :: pre), g', name', post. split; [done|]. split.
    + intros p Hp. rewrite Hlog by done. apply Hoth, Hpost. apply elem_of_app. right. by right.
    + intros ev Hin. destruct (Hev ev Hin) as [H|H]; [|right; by right].
      apply elem_of_app in H as [H|H]; [by left|]. right.
      apply list_elem_of_fmap in H as (t & -> & _). simpl. by left.
Qed.

(** The loop over Places is all-or-nothing past a failure: when an evaluation
    reports an error after the Places were listed, one Place failed, the Places
    before it (in id order) are the only ones whose crossings are reported, and
    every Place after it was left alone - its log gains nothing, confirmed
    crossings included, until a later fix evaluates it again. *)
Theorem EvaluateDeviceGeofences_abandons (deviceID : string) (around : Time) (debounce : Z) (w w' : World) evs e :
  geo_wf (w_db w) -> NoDup (map dev_id (devices (w_db w))) ->
  EvaluateDeviceGeofences deviceID around debounce w = (evs, Some e, w') ->
  (evs = [] /\ w_db w' = w_db w) \/
  exists pre g name post, sql_placesOfDevice deviceID (w_db w) = (pre ++ (g, name) :: post)%list /\
    (forall p, p ∈ post -> place_log deviceID (fst p) (w_db w') = place_log deviceID (fst p) (w_db w)) /\
    (forall ev, ev ∈ evs -> ge_GeofenceID ev ∈ map fst pre).
Proof.
  intros Hwf Hnd. unfold EvaluateDeviceGeofences, bind.
  pose proof (query_db (fun _ : stmt_env => sql_placesOfDevice deviceID) w) as Hq.
  destruct (query _ w) as [[places|er] w1] eqn:E; simpl in Hq.
  - apply query_ok_inv in E as [-> ->]. intros E2. right.
    destruct (places_loop_error deviceID around debounce _ [] (tick w) _ _ _ Hwf
      (places_NoDup _ _ Hnd (gw_geofence_ids _ Hwf)) E2) as (pre & g & name & post & Ep & Hl & Hev).
    exists pre, g, name, post. split; [done|]. split; [done|]. intros ev Hin.
    destruct (Hev ev Hin) as [H|H]; [by apply elem_of_nil in H|done].
  - intros [= <- <- <-]. by left.
Qed.

Lemma within_bound_small d db : NoDup (map gf_id (geofences db)) ->
  (length (fixes db) <= geofenceEvalNeighbours)%nat -> within_bound d db.
Proof.
  intros Hg Hn g. unfold later. etransitivity; [apply filter_length_le|].
  destruct (containments_cases d g db Hg) as [->|(row & _ & _ & ->)]; [simpl; lia|].
  rewrite length_map. etransitivity; [apply filter_length_le|done].
Qed.
End Spec.

(* ------------------------------------------------------------------ *)
(** ** Witnesses: a phone walks into one of the family's two Places *)

Definition box : (float64 * float64) * (float64 * float64) := ((f64 0, f64 0), (f64 10, f64 10)).
Definition far : (float64 * float64) * (float64 * float64) := ((f64 50, f64 50), (f64 60, f64 60)).
Definition fix_row_at (s : Z) (x : Z) : @fix_row planar :=
  mkFixRow "d" (mkTime (63000000000 + s) 0) (f64 x, f64 5) None None None None None (mkTime (63000000000 + s) 0).

Definition walk_db : @DB planar :=
  mkDB [mkFamily "fam" "Family"] [phone] []
    [fix_row_at 0 20; fix_row_at 60 5; fix_row_at 200 6]
    [@mkGeofence planar "g1" "fam" "home" box; @mkGeofence planar "g2" "fam" "school" far] [] [] ∅.

Lemma walk_wf : geo_wf walk_db.
Proof.
  constructor.
  - by apply (bool_decide_unpack _).
  - by apply (bool_decide_unpack _).
  - repeat (constructor; [split; reflexivity|]). constructor.
  - constructor.
  - intros d g. split; constructor.
Qed.

Lemma calm_fresh db now : geofence_events db = [] -> fresh_ids (calm db now).
Proof.
  intros E. split; simpl.
  - intros n e _. rewrite E. by intros ?%elem_of_nil.
  - intros n m _ _ H. apply (f_equal String.length) in H.
    assert (Hl : forall k, String.length (string_of_list_ascii (repeat "u"%char k)) = k)
      by (induction k; simpl; congruence).
    by rewrite !Hl in H.
Qed.

Lemma walk_ids : NoDup (map dev_id (devices walk_db)).
Proof. apply NoDup_singleton. Qed.

Definition around_ : Time := mkTime 63000000200 0.

Lemma EvaluateDeviceGeofences_exact_witness :
  exists w', EvaluateDeviceGeofences "d" around_ GeofenceDebounce (calm walk_db around_) =
      (flat_map (fun p => map (event_of "d" (fst p) (snd p)) (confirmed "d" (fst p) around_ GeofenceDebounce walk_db))
         (sql_placesOfDevice "d" walk_db), None, w') /\
    (forall dev g, dev ∈ devices walk_db -> dev_id dev = "d" -> g ∈ geofences walk_db ->
       gf_family_id g = dev_family_id dev ->
       place_log "d" (gf_id g) (w_db w') =
         extend_log GeofenceDebounce (place_log "d" (gf_id g) walk_db) (sort_asc (containments "d" (gf_id g) walk_db))) /\
    (forall d g, d <> "d" -> place_log d g (w_db w') = place_log d g walk_db).
Proof.
  apply (EvaluateDeviceGeofences_exact "d" around_ GeofenceDebounce (calm walk_db around_)).
  - apply calm_quiet.
  - by apply calm_fresh.
  - exact walk_wf.
  - exact walk_ids.
  - reflexivity.
  - apply within_bound_small; [exact (gw_geofence_ids _ walk_wf)|simpl; unfold geofenceEvalNeighbours; lia].
Defined.

(** The walk confirms one crossing: into home, at the first fix inside. *)
Lemma walk_confirms : confirmed "d" "g1" around_ GeofenceDebounce walk_db = [mkTransition (mkTime 63000000060 0) true].
Proof. vm_compute. reflexivity. Qed.

Lemma EvaluateDeviceGeofences_log_witness :
  geo_wf (w_db (snd (EvaluateDeviceGeofences "d" around_ GeofenceDebounce (calm walk_db around_)))) /\
  exists new, appended_events new walk_db (w_db (snd (EvaluateDeviceGeofences "d" around_ GeofenceDebounce (calm walk_db around_)))) /\
    Forall (fun e => ev_device_id e = "d") new /\
    Forall (recorded new) [mkGEvent "d" "g1" "home" "enter" (mkTime 63000000060 0)].
Proof.
  apply (EvaluateDeviceGeofences_log "d" around_ GeofenceDebounce (calm walk_db around_)
    (snd (EvaluateDeviceGeofences "d" around_ GeofenceDebounce (calm walk_db around_)))
    [mkGEvent "d" "g1" "home" "enter" (mkTime 63000000060 0)] None).
  - exact walk_wf.
  - apply run_pair. vm_compute. reflexivity.
Defined.

(** The read of the first Place's log fails. *)
Definition broken_walk : @World planar :=
  mkWorld walk_db (fun n => mkStmtEnv (match n with 1%nat => LostRequest (mkPgError "08006" "connection failure") | _ => NoFault end)
    around_ "u") 0.

Lemma EvaluateDeviceGeofences_abandons_witness :
  (@nil GeofenceEvent = [] /\ w_db (snd (EvaluateDeviceGeofences "d" around_ GeofenceDebounce broken_walk)) = walk_db) \/
  exists pre g name post, sql_placesOfDevice "d" walk_db = (pre ++ (g, name) :: post)%list /\
    (forall p, p ∈ post ->
       place_log "d" (fst p) (w_db (snd (EvaluateDeviceGeofences "d" around_ GeofenceDebounce broken_walk))) =
       place_log "d" (fst p) walk_db) /\
    (forall ev, ev ∈ @nil GeofenceEvent -> ge_GeofenceID ev ∈ map fst pre).
Proof.
  apply (EvaluateDeviceGeofences_abandons "d" around_ GeofenceDebounce broken_walk
    (snd (EvaluateDeviceGeofences "d" around_ GeofenceDebounce broken_walk)) []
    (EPg (mkPgError "08006" "connection failure"))).
  - exact walk_wf.
  - exact walk_ids.
  - apply run_pair. vm_compute. reflexivity.
Defined.

(* ------------------------------------------------------------------ *)
(** ** Overlapping evaluations *)

Section Overlap.
Context `{G : PostGIS}.

(** What [evaluateOneGeofence] reads and decides before it appends anything. *)
Definition decide_crossings (deviceID geofenceID : string) (around : Time) (debounce : Z) : M (result error (list transition)) :=
  let? s := read_seed deviceID geofenceID in
  let '(seedInside, haveEvent, lastTS) := s in
  let? readings := query (fun _ => sql_neighbourhood deviceID geofenceID (timestamptz lastTS) (timestamptz around) geofenceEvalNeighbours) in
  ret (Ok (confirmTransitions readings seedInside haveEvent debounce)).

Lemma evaluateOne_phases deviceID geofenceID name around debounce w :
  evaluateOneGeofence deviceID geofenceID name around debounce w =
  bind (decide_crossings deviceID geofenceID around debounce)
    (fun r => match r with Ok ts => append_loop deviceID geofenceID name ts [] | Err e => ret ([], Some e) end) w.
Proof.
  unfold evaluateOneGeofence, decide_crossings, bindr, bind. destruct (read_seed _ _ w) as [[[[si he] lt]|e] w1]; [|done].
  by destruct (query _ w1) as [[rs|e] w2].
Qed.
End Overlap.

(** Nothing locks a device between the two phases.  A first evaluation decides that
    the phone entered at its third fix; before it appends that, a late fix from
    before is stored and evaluated, and an earlier enter is recorded; then the first
    one appends.  The log holds two enters in a row. *)
Definition late_phone (fs : list (@fix_row planar)) : @DB planar := set_fixes fs walk_db.
Definition first_fixes : list (@fix_row planar) := [fix_row_at 0 20; fix_row_at 120 5; fix_row_at 300 6].
Definition first_decides : list transition :=
  match fst (decide_crossings "d" "g1" (mkTime 63000000300 0) GeofenceDebounce (calm (late_phone first_fixes) around_)) with
  | Ok ts => ts
  | Err _ => []
  end.
Definition second_done : @World planar :=
  snd (EvaluateDeviceGeofences "d" (mkTime 63000000060 0) GeofenceDebounce (calm (late_phone (first_fixes ++ [fix_row_at 60 5])) around_)).
Definition both_done : @World planar := snd (append_loop "d" "g1" "home" first_decides [] second_done).

Lemma overlapping_evaluations_corrupt :
  place_log "d" "g1" (w_db both_done) = [mkTransition (mkTime 63000000060 0) true; mkTransition (mkTime 63000000120 0) true] /\
  ~ alternates false (place_log "d" "g1" (w_db both_done)).
Proof.
  assert (E : place_log "d" "g1" (w_db both_done) =
    [mkTransition (mkTime 63000000060 0) true; mkTransition (mkTime 63000000120 0) true]) by (vm_compute; reflexivity).
  rewrite E. split; [done|]. simpl. naive_solver.
Qed.
