(* ===== verification/StoreReads.v ===== *)
(** The family-scoped reads and the push-subscription registry of the store
    ([internal/store/read.go], [presentation.go], [push.go]).  Every query carries
    its family scope; the theorems say what each returns, in terms of the tables,
    and that a registration moves an endpoint rather than duplicating it. *)

From Stdlib Require Import ZArith Lia Bool String Ascii List SpecFloat Sorted.
From stdpp Require Import base option list strings gmap sorting.
From S2P Require Import Prelude GoTime GoStrings Calendar Database Partitions StoreFix StoreEntities StoreGeofence.
Local Open Scope string_scope.
Local Open Scope Z_scope.

Record Position := mkPosition {
  pos_DeviceID : string; pos_DeviceName : string; pos_TS : Time;
  pos_Lon : float64; pos_Lat : float64; pos_ReceivedAt : Time }.

Record HistoryFix := mkHistoryFix {
  hf_TS : Time; hf_Lon : float64; hf_Lat : float64; hf_AccuracyM : option float64;
  hf_BatteryPct : option Z; hf_SpeedMPS : option float64; hf_TriggerReason : option string;
  hf_ReceivedAt : Time }.

Definition MaxHistoryLimit : Z := 1000.

Record DeviceState := mkDeviceState {
  ds_DeviceID : string; ds_DeviceName : string;
  ds_Current : option Position; ds_LastContact : option Time }.

Definition PushProviderFCM : string := "fcm".
Definition PushProviderUnifiedPush : string := "unifiedpush".

Definition ValidPushProvider (p : string) : bool :=
  String.eqb p PushProviderFCM || String.eqb p PushProviderUnifiedPush.

Record PushSubscription := mkPushSubscription { ps_Provider : string; ps_Token : string }.

Section StoreReads.
Context `{G : PostGIS}.

Definition of_device (id : string) (r : fix_row) : bool := String.eqb (fr_device_id r) id.

Definition history_of (r : fix_row) : HistoryFix :=
  mkHistoryFix (fr_ts r) (ST_X (fr_location r)) (ST_Y (fr_location r)) (fr_accuracy_m r)
    (fr_battery_pct r) (fr_speed_mps r) (fr_trigger_reason r) (fr_received_at r).

(** The window predicate of [deviceHistorySQL]: NULL bounds are open. *)
Definition in_window (from to : option Time) (ts : Time) : bool :=
  match from with Some a => negb (Before ts a) | None => true end &&
  match to with Some b => Before ts b | None => true end.

Definition deviceHistorySQL (familyID deviceID : string) (from to : option Time) (limit offset : Z) (db : DB)
  : list HistoryFix :=
  firstn (Z.to_nat limit) (skipn (Z.to_nat offset)
    (map history_of (stable_sort (fun a b => Before (fr_ts b) (fr_ts a))
      (flat_map (fun r =>
         map (fun _ => r) (List.filter (fun d => String.eqb (dev_family_id d) familyID) (join_device db r)))
         (List.filter (fun r => of_device deviceID r && in_window from to (fr_ts r)) (fixes db)))))).

Definition DeviceHistory (familyID deviceID : string) (from to : Time) (limit offset : Z)
  : M (result error (list HistoryFix)) :=
  let limit := clamp_limit limit MaxHistoryLimit in
  let offset := if offset <? 0 then 0 else offset in
  let fromArg := if negb (IsZero from) then Some (timestamptz from) else None in
  let toArg := if negb (IsZero to) then Some (timestamptz to) else None in
  query (fun _ => deviceHistorySQL familyID deviceID fromArg toArg limit offset).

(* ------------------------------------------------------------------ *)
(** ** Device states *)

(** [cur]: the newest fix by the device's clock. *)
Definition newest_fix (id : string) (db : DB) : option fix_row :=
  head (stable_sort (fun a b => Before (fr_ts b) (fr_ts a)) (List.filter (of_device id) (fixes db))).

(** [lc]: the largest receive time, NULL over no rows. *)
Definition max_received (rows : list fix_row) : option Time :=
  foldr (fun r acc => match acc with
                      | None => Some (fr_received_at r)
                      | Some t => Some (if Before t (fr_received_at r) then fr_received_at r else t)
                      end) None rows.

Definition state_of (db : DB) (d : device_row) : DeviceState :=
  mkDeviceState (dev_id d) (dev_name d)
    (match newest_fix (dev_id d) db with
     | Some r => Some (mkPosition (dev_id d) (dev_name d) (fr_ts r) (ST_X (fr_location r)) (ST_Y (fr_location r))
                         (fr_received_at r))
     | None => None
     end)
    (max_received (List.filter (of_device (dev_id d)) (fixes db))).

(** [familyDeviceStatesSQL]; the rows come in no promised order. *)
Definition familyDeviceStatesSQL (familyID : string) (db : DB) : list DeviceState :=
  map (state_of db) (List.filter (fun d => String.eqb (dev_family_id d) familyID) (devices db)).

Definition FamilyDeviceStates (familyID : string) : M (result error (list DeviceState)) :=
  query (fun _ => familyDeviceStatesSQL familyID).

(** [familyLastContactAsOfSQL], as the map Go builds from its rows. *)
Definition familyLastContactAsOfSQL (familyID : string) (instant : Time) (db : DB) : list (string * Time) :=
  omap (fun d => option_map (pair (dev_id d))
          (max_received (List.filter (fun r => of_device (dev_id d) r && negb (Before instant (fr_received_at r))) (fixes db))))
    (List.filter (fun d => String.eqb (dev_family_id d) familyID) (devices db)).

Definition FamilyLastContactAsOf (familyID : string) (instant : Time) : M (result error (gmap string Time)) :=
  let? rows := query (fun _ => familyLastContactAsOfSQL familyID (timestamptz instant)) in
  ret (Ok (list_to_map rows)).

(* ------------------------------------------------------------------ *)
(** ** Push subscriptions *)

Definition same_endpoint (provider token : string) (s : sub_row) : bool :=
  String.eqb (sub_provider s) provider && String.eqb (sub_token s) token.

Definition has_viewer (id : string) (db : DB) : bool := existsb (fun v => String.eqb (vw_id v) id) (viewers db).

(** [registerPushSubscriptionSQL]: insert, or move the endpoint to this viewer. *)
Definition registerPushSubscriptionSQL (viewerID provider token : string) (env : stmt_env) (db : DB)
  : result pgerror string * DB :=
  if negb (ValidPushProvider provider) then (Err invalid_enum, db)
  else if negb (not_blank token) then (Err check_violation, db)
  else match List.find (same_endpoint provider token) (push_subscriptions db) with
       | Some s =>
           if negb (has_viewer viewerID db) then (Err foreign_key_violation, db)
           else (Ok (sub_id s), set_subs (map (fun s => if same_endpoint provider token s
                  then mkSub (sub_id s) viewerID provider token else s) (push_subscriptions db)) db)
       | None =>
           if existsb (fun s => String.eqb (sub_id s) (se_uuid env)) (push_subscriptions db) then (Err unique_violation, db)
           else if negb (has_viewer viewerID db) then (Err foreign_key_violation, db)
           else (Ok (se_uuid env), set_subs (push_subscriptions db ++ [mkSub (se_uuid env) viewerID provider token])%list db)
       end.

Definition RegisterPushSubscription (viewerID provider token : string) : M (result error string) :=
  if negb (ValidPushProvider provider) then ret (Err ErrInvalidPushProvider)
  else exec (registerPushSubscriptionSQL viewerID provider token).

Definition removeSupersededPushSubscriptionSQL (viewerID provider token : string) (db : DB) : result pgerror Z * DB :=
  let hit s := String.eqb (sub_viewer_id s) viewerID && same_endpoint provider token s in
  (Ok (count hit (push_subscriptions db)), set_subs (List.filter (fun s => negb (hit s)) (push_subscriptions db)) db).

Definition RemovePushSubscriptionForViewer (viewerID provider token : string) : M (result error bool) :=
  if negb (ValidPushProvider provider) then ret (Err ErrInvalidPushProvider)
  else
    let? tag := exec (fun _ => removeSupersededPushSubscriptionSQL viewerID provider token) in
    ret (Ok (tag =? 1)).

(** ORDER BY the enum (its declaration order, which is also the text order of the
    two values) and then the token. *)
Definition pushSubscriptionsForFamilySQL (familyID : string) (db : DB) : list PushSubscription :=
  stable_sort (then_by (fun a b => str_ltb (ps_Provider a) (ps_Provider b))
                       (fun a b => collate_ltb (ps_Token a) (ps_Token b)))
    (flat_map (fun s =>
       map (fun _ => mkPushSubscription (sub_provider s) (sub_token s))
         (List.filter (fun v => String.eqb (vw_id v) (sub_viewer_id s) && String.eqb (vw_family_id v) familyID) (viewers db)))
       (push_subscriptions db)).

Definition PushSubscriptionsForFamily (familyID : string) : M (result error (list PushSubscription)) :=
  query (fun _ => pushSubscriptionsForFamilySQL familyID).

(* ------------------------------------------------------------------ *)
(** ** Last contact *)

(** [max(received_at)] is an upper bound that is reached. *)
Lemma max_received_spec rows :
  match max_received rows with
  | None => rows = []
  | Some t => (exists r, r ∈ rows /\ fr_received_at r = t) /\ forall r, r ∈ rows -> Before t (fr_received_at r) = false
  end.
Proof.
  induction rows as [|r rows IH]; simpl; [done|].
  destruct (max_received rows) as [t|].
  - destruct IH as [(r0 & Hr0 & E0) Hmax]. destruct (Before t (fr_received_at r)) eqn:E.
    + split; [exists r; split; [by left|done]|]. intros x [->|Hx]%elem_of_cons; [apply Before_irrefl|].
      destruct (Before (fr_received_at r) (fr_received_at x)) eqn:E1; [|done].
      pose proof (Before_trans _ _ _ E E1) as E2. by rewrite Hmax in E2.
    + split; [exists r0; split; [by right|done]|]. intros x [->|Hx]%elem_of_cons; [done|by apply Hmax].
  - subst. split; [exists r; split; [by left|done]|]. intros x ->%list_elem_of_singleton. apply Before_irrefl.
Qed.

(** The newest fix by the device's clock. *)
Lemma newest_fix_spec id db :
  match newest_fix id db with
  | None => forall r, r ∈ fixes db -> fr_device_id r <> id
  | Some r => r ∈ fixes db /\ fr_device_id r = id /\
              forall x, x ∈ fixes db -> fr_device_id x = id -> Before (fr_ts r) (fr_ts x) = false
  end.
Proof.
  unfold newest_fix. set (l := List.filter (of_device id) (fixes db)).
  assert (Hin : forall r, r ∈ l <-> r ∈ fixes db /\ fr_device_id r = id).
  { intros r. unfold l. rewrite elem_of_filter_b. unfold of_device. by rewrite String.eqb_eq. }
  pose proof (stable_sort_perm (fun a b => Before (fr_ts b) (fr_ts a)) l) as Hp.
  assert (Hs : StronglySorted (sort_le (fun a b => Before (fr_ts b) (fr_ts a)))
                 (stable_sort (fun a b => Before (fr_ts b) (fr_ts a)) l)).
  { apply stable_sort_sorted; [intros x y; apply Before_asym|intros x y z H1 H2; by eapply Before_negtrans]. }
  destruct (stable_sort _ l) as [|r rest]; simpl.
  - apply Permutation_nil in Hp. intros r Hr E. assert (r ∈ l) as H by by apply Hin.
    rewrite Hp in H. by apply elem_of_nil in H.
  - assert (r ∈ l) as Hr by (rewrite <- Hp; by left). apply Hin in Hr as [Hr Er]. split; [done|]. split; [done|].
    intros x Hx Ex. assert (x ∈ r :: rest) as Hxr by (rewrite Hp; by apply Hin).
    apply elem_of_cons in Hxr as [->|Hxr]; [apply Before_irrefl|].
    apply StronglySorted_inv in Hs as [_ Hs]. rewrite Forall_forall in Hs. by apply Hs.
Qed.

Definition position_of (d : device_row) (r : fix_row) : Position :=
  mkPosition (dev_id d) (dev_name d) (fr_ts r) (ST_X (fr_location r)) (ST_Y (fr_location r)) (fr_received_at r).

(** What the presentation surface promises of one device. *)
Definition describes (db : DB) (d : device_row) (s : DeviceState) : Prop :=
  ds_DeviceID s = dev_id d /\ ds_DeviceName s = dev_name d /\
  ((forall r, r ∈ fixes db -> fr_device_id r <> dev_id d) -> ds_Current s = None /\ ds_LastContact s = None) /\
  (forall r0, r0 ∈ fixes db -> fr_device_id r0 = dev_id d ->
     exists r t, r ∈ fixes db /\ fr_device_id r = dev_id d /\ ds_Current s = Some (position_of d r) /\
       (forall x, x ∈ fixes db -> fr_device_id x = dev_id d -> Before (fr_ts r) (fr_ts x) = false) /\
       ds_LastContact s = Some t /\
       (exists y, y ∈ fixes db /\ fr_device_id y = dev_id d /\ fr_received_at y = t) /\
       (forall x, x ∈ fixes db -> fr_device_id x = dev_id d -> Before t (fr_received_at x) = false)).

Lemma state_of_describes db d : describes db d (state_of db d).
Proof.
  unfold describes, state_of. simpl. split; [done|]. split; [done|].
  pose proof (newest_fix_spec (dev_id d) db) as Hn.
  pose proof (max_received_spec (List.filter (of_device (dev_id d)) (fixes db))) as Hm.
  assert (Hin : forall r, r ∈ List.filter (of_device (dev_id d)) (fixes db) <-> r ∈ fixes db /\ fr_device_id r = dev_id d).
  { intros r. rewrite elem_of_filter_b. unfold of_device. by rewrite String.eqb_eq. }
  split.
  - intros Hnone. split.
    + destruct (newest_fix _ _) as [r|]; [|done]. destruct Hn as (Hr & Er & _). by apply Hnone in Hr.
    + destruct (max_received _); [|done]. destruct Hm as [(r & Hr & _) _]. apply Hin in Hr as [Hr Er]. by apply Hnone in Hr.
  - intros r0 Hr0 Er0. destruct (newest_fix (dev_id d) db) as [r|]; [|by apply Hn in Hr0].
    destruct Hn as (Hr & Er & Hmax).
    destruct (max_received _) as [t|].
    + destruct Hm as [(y & Hy & Ey) Hmt]. apply Hin in Hy as [Hy Ey']. exists r, t.
      split; [done|]. split; [done|]. split; [done|]. split; [done|]. split; [done|]. split; [eauto|].
      intros x Hx Ex. apply Hmt, Hin. done.
    + assert (r0 ∈ @nil fix_row) as H by (rewrite <- Hm; by apply Hin). by apply elem_of_nil in H.
Qed.

(** The device-state read describes the family and nobody else: under any
    faults a successful read has one entry per device of the family, in table
    order - a device that never reported included, with neither a position nor a
    last contact - and for a device that has reported, the current position is its
    newest fix by the device's clock while last contact is the largest receive
    time over all its fixes, the two being chosen independently. *)
Theorem FamilyDeviceStates_describes (familyID : string) (w w' : World) out :
  FamilyDeviceStates familyID w = (Ok out, w') ->
  w_db w' = w_db w /\
  Forall2 (describes (w_db w)) (List.filter (fun d => String.eqb (dev_family_id d) familyID) (devices (w_db w))) out.
Proof.
  unfold FamilyDeviceStates. intros H. apply query_ok_inv in H as [-> ->]. split; [done|].
  unfold familyDeviceStatesSQL. induction (List.filter _ (devices (w_db w))) as [|d l IH]; simpl; constructor; [|done].
  apply state_of_describes.
Qed.

Lemma elem_of_subs familyID db p : p ∈ pushSubscriptionsForFamilySQL familyID db <->
  exists s v, s ∈ push_subscriptions db /\ v ∈ viewers db /\ vw_id v = sub_viewer_id s /\ vw_family_id v = familyID /\
    p = mkPushSubscription (sub_provider s) (sub_token s).
Proof.
  unfold pushSubscriptionsForFamilySQL. rewrite stable_sort_perm, list_elem_of_In, in_flat_map.
  setoid_rewrite in_map_iff. setoid_rewrite <- list_elem_of_In. setoid_rewrite elem_of_filter_b.
  setoid_rewrite andb_true_iff. setoid_rewrite String.eqb_eq. naive_solver.
Qed.

Definition endpoints_ok (db : DB) : Prop := NoDup (map (fun s => (sub_provider s, sub_token s)) (push_subscriptions db)).

Lemma find_none_elem {A} (f : A -> bool) l x : List.find f l = None -> x ∈ l -> f x = false.
Proof. intros H Hx. apply list_elem_of_In in Hx. by apply (find_none f l H). Qed.

(** Registering an endpoint moves it, never duplicates it.  A successful
    registration, under any faults, leaves the endpoints unique, owned by the
    presenting viewer, with every other endpoint as it was; so the fan-out of the
    viewer's family contains the endpoint exactly once and no other family's
    fan-out contains it. *)
Theorem RegisterPushSubscription_moves (viewerID provider token id : string) (w w' : World) :
  endpoints_ok (w_db w) -> RegisterPushSubscription viewerID provider token w = (Ok id, w') ->
  ValidPushProvider provider = true /\ endpoints_ok (w_db w') /\
  (forall s, s ∈ push_subscriptions (w_db w') -> same_endpoint provider token s = true -> sub_viewer_id s = viewerID) /\
  (exists s, s ∈ push_subscriptions (w_db w') /\ sub_id s = id /\ same_endpoint provider token s = true) /\
  (forall s, same_endpoint provider token s = false ->
     (s ∈ push_subscriptions (w_db w') <-> s ∈ push_subscriptions (w_db w))).
Proof.
  intros Hok. unfold RegisterPushSubscription. destruct (ValidPushProvider provider) eqn:Ev; [|done]. simpl.
  intros E. apply exec_ok_inv in E as [E ->]. split; [done|]. unfold registerPushSubscriptionSQL in *. rewrite Ev in *.
  simpl in *. destruct (negb (not_blank token)); [done|].
  assert (Hself : forall i, same_endpoint provider token (mkSub i viewerID provider token) = true)
    by (intros; unfold same_endpoint; simpl; by rewrite !String.eqb_refl).
  destruct (List.find _ _) as [s0|] eqn:Ef.
  - destruct (negb (has_viewer _ _)); [done|]. injection E as <-. simpl.
    apply find_some_elem in Ef as [Hs0 Es0]. set (upd := fun s => if same_endpoint provider token s
                  then mkSub (sub_id s) viewerID provider token else s).
    assert (Hkey : map (fun s => (sub_provider s, sub_token s)) (map upd (push_subscriptions (w_db w))) =
                   map (fun s => (sub_provider s, sub_token s)) (push_subscriptions (w_db w))).
    { rewrite map_map. apply map_ext. intros s. unfold upd. destruct (same_endpoint provider token s) eqn:Es; [|done].
      unfold same_endpoint in Es. b2p. by subst. }
    split; [unfold endpoints_ok; simpl; by rewrite Hkey|]. split; [|split].
    + intros s (x & -> & Hx)%list_elem_of_fmap. unfold upd. destruct (same_endpoint provider token x) eqn:Ex; [done|]. by rewrite Ex.
    + exists (upd s0). split; [by apply list_elem_of_fmap_2|]. unfold upd. rewrite Es0. done.
    + intros s Hs. rewrite list_elem_of_fmap. split.
      * intros (x & -> & Hx). unfold upd in *. destruct (same_endpoint provider token x) eqn:Ex; [by rewrite Hself in Hs|done].
      * intros Hin. exists s. unfold upd. by rewrite Hs.
  - destruct (existsb _ _); [done|]. destruct (negb (has_viewer _ _)); [done|]. injection E as <-. simpl.
    assert (Hno : forall s, s ∈ push_subscriptions (w_db w) -> same_endpoint provider token s = false)
      by (intros; by eapply find_none_elem).
    split; [|split; [|split]].
    + unfold endpoints_ok. simpl. rewrite map_app. apply NoDup_app. split; [done|]. split; [|apply NoDup_singleton].
      intros k (s & -> & Hs)%list_elem_of_fmap Hk%list_elem_of_singleton. injection Hk as E1 E2.
      specialize (Hno s Hs). unfold same_endpoint in Hno. by rewrite E1, E2, !String.eqb_refl in Hno.
    + intros s [Hs| ->%list_elem_of_singleton]%elem_of_app Es; [by rewrite Hno in Es|done].
    + eexists. split; [apply elem_of_app; right; by left|]. simpl. split; [done|apply Hself].
    + intros s Hs. rewrite elem_of_app, list_elem_of_singleton. split; [|by left].
      intros [H| ->]; [done|]. by rewrite Hself in Hs.
Qed.

(** History pages are scoped and bounded: a successful read returns at most
    1000 rows, all of them fixes of the device asked for, which is in the family
    asked for, inside the half-open window, newest first. *)
Theorem DeviceHistory_pages (familyID deviceID : string) (from to : Time) (limit offset : Z) (w w' : World) out :
  DeviceHistory familyID deviceID from to limit offset w = (Ok out, w') ->
  w_db w' = w_db w /\ Z.of_nat (length out) <= MaxHistoryLimit /\
  (forall h, h ∈ out -> exists r d, r ∈ fixes (w_db w) /\ d ∈ devices (w_db w) /\ dev_id d = deviceID /\
     dev_family_id d = familyID /\ fr_device_id r = deviceID /\ h = history_of r /\
     (IsZero from = false -> Before (fr_ts r) (timestamptz from) = false) /\
     (IsZero to = false -> Before (fr_ts r) (timestamptz to) = true)) /\
  StronglySorted (fun a b => Before (hf_TS a) (hf_TS b) = false) out.
Proof.
  unfold DeviceHistory. intros H. apply query_ok_inv in H as [-> ->]. split; [done|].
  set (f := if negb (IsZero from) then _ else _). set (t := if negb (IsZero to) then _ else _).
  unfold deviceHistorySQL. set (rows := stable_sort _ _). split; [|split].
  - rewrite length_firstn. unfold clamp_limit, MaxHistoryLimit.
    destruct (Z.ltb_spec limit 1); [lia|]. destruct (Z.ltb_spec 1000 limit); lia.
  - intros h Hh. assert (Hm : h ∈ map history_of rows).
    { rewrite <- (firstn_skipn (Z.to_nat (if offset <? 0 then 0 else offset)) (map history_of rows)).
      apply elem_of_app. right. rewrite <- (firstn_skipn (Z.to_nat (clamp_limit limit MaxHistoryLimit)) (skipn _ _)).
      apply elem_of_app. by left. }
    apply list_elem_of_fmap in Hm as (r & -> & Hr). unfold rows in Hr. rewrite stable_sort_perm in Hr.
    rewrite list_elem_of_In, in_flat_map in Hr. destruct Hr as (r' & Hr' & Hd).
    apply in_map_iff in Hd as (d & <- & Hd%list_elem_of_In). rewrite <- list_elem_of_In in Hr'.
    unfold join_device in Hd. apply elem_of_filter_b in Hr' as [Hr' [Ed Ew]%andb_true_iff].
    apply elem_of_filter_b in Hd as [Hd Ef]. apply elem_of_filter_b in Hd as [Hd Ej].
    unfold of_device in Ed. apply String.eqb_eq in Ed, Ef, Ej. exists r', d.
    unfold in_window in Ew. apply andb_true_iff in Ew as [E1 E2].
    repeat (split; [first [congruence|done]|]). unfold f, t in *. split.
    + intros Hz. rewrite Hz in E1. simpl in E1. by apply negb_true_iff in E1.
    + intros Hz. rewrite Hz in E2. done.
  - assert (Hs : StronglySorted (fun a b => Before (hf_TS a) (hf_TS b) = false) (map history_of rows)).
    { assert (StronglySorted (sort_le (fun a b => Before (fr_ts b) (fr_ts a))) rows) as Hs
        by (apply stable_sort_sorted; [intros x y; apply Before_asym|intros x y z H1 H2; by eapply Before_negtrans]).
      clear -Hs. induction Hs as [|r l Hs IH Hr]; simpl; [constructor|]. constructor; [done|].
      apply Forall_forall. intros h (x & -> & Hx)%list_elem_of_fmap. rewrite Forall_forall in Hr. by apply Hr. }
    apply StronglySorted_firstn, StronglySorted_skipn, Hs.
Qed.
End StoreReads.

(* ------------------------------------------------------------------ *)
(** ** Witnesses *)

Definition tablet : device_row := mkDevice "e" "fam" "tablet" hash_b None.
Definition reads_db : @DB planar :=
  mkDB [mkFamily "fam" "Family"] [phone_a; tablet] [viewer_a] [fix_at_5] [] [] [mkSub "s" "v" "fcm" "t1"] ∅.

Definition phone_state : DeviceState :=
  mkDeviceState "d" "phone" (Some (mkPosition "d" "phone" noon (f64 5) (f64 5) noon)) (Some noon).
Definition tablet_state : DeviceState := mkDeviceState "e" "tablet" None None.

Lemma FamilyDeviceStates_describes_witness :
  w_db (snd (FamilyDeviceStates "fam" (calm reads_db noon))) = reads_db /\
  Forall2 (describes reads_db) [phone_a; tablet] [phone_state; tablet_state].
Proof.
  apply (FamilyDeviceStates_describes "fam" (calm reads_db noon) (snd (FamilyDeviceStates "fam" (calm reads_db noon)))).
  apply run_pair. vm_compute. reflexivity.
Defined.

Lemma RegisterPushSubscription_moves_witness :
  ValidPushProvider "fcm" = true /\
  endpoints_ok (w_db (snd (RegisterPushSubscription "v" "fcm" "t1" (calm reads_db noon)))) /\
  (forall s, s ∈ push_subscriptions (w_db (snd (RegisterPushSubscription "v" "fcm" "t1" (calm reads_db noon)))) ->
     same_endpoint "fcm" "t1" s = true -> sub_viewer_id s = "v") /\
  (exists s, s ∈ push_subscriptions (w_db (snd (RegisterPushSubscription "v" "fcm" "t1" (calm reads_db noon)))) /\
     sub_id s = "s" /\ same_endpoint "fcm" "t1" s = true) /\
  (forall s, same_endpoint "fcm" "t1" s = false ->
     (s ∈ push_subscriptions (w_db (snd (RegisterPushSubscription "v" "fcm" "t1" (calm reads_db noon)))) <->
      s ∈ push_subscriptions reads_db)).
Proof.
  apply (RegisterPushSubscription_moves "v" "fcm" "t1" "s" (calm reads_db noon)).
  - apply NoDup_singleton.
  - apply run_pair. vm_compute. reflexivity.
Defined.

Lemma DeviceHistory_pages_witness :
  w_db (snd (DeviceHistory "fam" "d" zero_time zero_time 100 0 (calm reads_db noon))) = reads_db /\
  Z.of_nat (length [mkHistoryFix noon (f64 5) (f64 5) None (Some 80) None None noon]) <= MaxHistoryLimit /\
  (forall h, h ∈ [mkHistoryFix noon (f64 5) (f64 5) None (Some 80) None None noon] ->
     exists r d, r ∈ fixes reads_db /\ d ∈ devices reads_db /\ dev_id d = "d" /\
     dev_family_id d = "fam" /\ fr_device_id r = "d" /\ h = history_of r /\
     (IsZero zero_time = false -> Before (fr_ts r) (timestamptz zero_time) = false) /\
     (IsZero zero_time = false -> Before (fr_ts r) (timestamptz zero_time) = true)) /\
  StronglySorted (fun a b => Before (hf_TS a) (hf_TS b) = false)
    [mkHistoryFix noon (f64 5) (f64 5) None (Some 80) None None noon].
Proof.
  apply (DeviceHistory_pages "fam" "d" zero_time zero_time 100 0 (calm reads_db noon)
    (snd (DeviceHistory "fam" "d" zero_time zero_time 100 0 (calm reads_db noon)))).
  apply run_pair. vm_compute. reflexivity.
Defined.
