(* ===== verification/Auth.v ===== *)
(** Bearer credentials ([internal/auth/auth.go]).  Tokens are minted from 32
    random bytes by unpadded base64url, hashed by SHA-256 (the class [SHA256]: the
    code relies only on the digest being 32 bytes), and read from a request's
    Authorization header as Bearer or, for stock clients, as the password of Basic
    authentication, whose parsing is the library's [parseBasicAuth] and
    [base64.StdEncoding].  The theorems: a minted token is 43 printable
    characters, injective in the random bytes; sending it under any spelling of
    the scheme presents exactly it; no request ever presents an empty token. *)

From Stdlib Require Import ZArith Lia Bool String Ascii List.
From stdpp Require Import base option list strings.
From S2P Require Import Prelude GoStrings.
Local Open Scope string_scope.
Local Open Scope Z_scope.

Definition TokenBytes : Z := 32.

Definition Token : Type := string.

(** [crypto/sha256]. *)
Class SHA256 := {
  Sum256 : string -> string;
  Sum256_len : forall s, len (Sum256 s) = 32 }.

Definition Hash `{SHA256} (t : Token) : string := Sum256 t.

(* ------------------------------------------------------------------ *)
(** ** base64 *)

(** The character of a 6-bit value in the URL alphabet. *)
Definition url_char (v : Z) : ascii :=
  if v <? 26 then byte_of (65 + v)
  else if v <? 52 then byte_of (97 + (v - 26))
  else if v <? 62 then byte_of (48 + (v - 52))
  else if v =? 62 then "-"%char else "_"%char.

(** [base64.RawURLEncoding.EncodeToString]. *)
Fixpoint raw_url_encode (l : list ascii) : list ascii :=
  match l with
  | a :: b :: c :: rest =>
      let n := Z.lor (Z.shiftl (code a) 16) (Z.lor (Z.shiftl (code b) 8) (code c)) in
      url_char (Z.shiftr n 18) :: url_char (Z.land (Z.shiftr n 12) 63) ::
      url_char (Z.land (Z.shiftr n 6) 63) :: url_char (Z.land n 63) :: raw_url_encode rest
  | [a; b] =>
      let n := Z.lor (Z.shiftl (code a) 16) (Z.shiftl (code b) 8) in
      [url_char (Z.shiftr n 18); url_char (Z.land (Z.shiftr n 12) 63); url_char (Z.land (Z.shiftr n 6) 63)]
  | [a] =>
      let n := Z.shiftl (code a) 16 in
      [url_char (Z.shiftr n 18); url_char (Z.land (Z.shiftr n 12) 63)]
  | [] => []
  end.

(** The standard alphabet's value of a character. *)
Definition std_value (c : ascii) : option Z :=
  if is_upper c then Some (code c - 65)
  else if is_lower c then Some (code c - 71)
  else if is_digit c then Some (code c + 4)
  else if Ascii.eqb c "+"%char then Some 62
  else if Ascii.eqb c "/"%char then Some 63
  else None.

(** [base64.StdEncoding.DecodeString] past the line breaks it skips; the padding
    ends the input. *)
Fixpoint std_decode (fuel : nat) (l : list ascii) : option (list ascii) :=
  match fuel, l with
  | _, [] => Some []
  | S f, a :: b :: c :: d :: rest =>
      match std_value a, std_value b with
      | Some va, Some vb =>
          if Ascii.eqb c "="%char then
            if Ascii.eqb d "="%char && match rest with [] => true | _ => false end
            then Some [byte_of (va * 4 + vb / 16)] else None
          else match std_value c with
               | None => None
               | Some vc =>
                   if Ascii.eqb d "="%char then
                     match rest with
                     | [] => Some [byte_of (va * 4 + vb / 16); byte_of (vb mod 16 * 16 + vc / 4)]
                     | _ => None
                     end
                   else match std_value d, std_decode f rest with
                        | Some vd, Some r =>
                            Some (byte_of (va * 4 + vb / 16) :: byte_of (vb mod 16 * 16 + vc / 4) ::
                                  byte_of (vc mod 4 * 64 + vd) :: r)
                        | _, _ => None
                        end
               end
      | _, _ => None
      end
  | _, _ => None
  end.

Definition is_newline (c : ascii) : bool := (code c =? 10) || (code c =? 13).

Definition DecodeString (s : string) : option string :=
  let l := List.filter (fun c => negb (is_newline c)) (to_list s) in
  option_map of_list (std_decode (List.length l) l).

(* ------------------------------------------------------------------ *)
(** ** Operations *)

(** [rand.Read] fills the buffer or fails. *)
Definition Generate (random : option (list ascii)) : option Token :=
  option_map (fun b => of_list (raw_url_encode b)) random.

Section Auth.
Context `{U : Unicode}.

Definition cutPrefixFold (s prefix : string) : option string :=
  if (len s <? len prefix) || negb (EqualFold (of_list (firstn (String.length prefix) (to_list s))) prefix)
  then None
  else Some (of_list (skipn (String.length prefix) (to_list s))).

(** [http.Request.BasicAuth] on the header's value. *)
Definition BasicAuth (auth : string) : option (string * string) :=
  let prefix := "Basic " in
  if len auth <? len prefix then None
  else if negb (String.eqb (ascii_lower (of_list (firstn (String.length prefix) (to_list auth)))) (ascii_lower prefix))
  then None
  else match DecodeString (of_list (skipn (String.length prefix) (to_list auth))) with
       | None => None
       | Some cs => let '(user, pass, ok) := Cut cs ":" in if ok then Some (user, pass) else None
       end.

Definition FromRequest (authorization : string) : option Token :=
  let h := TrimSpace authorization in
  if String.eqb h "" then None
  else match cutPrefixFold h "Bearer " with
       | Some rest =>
           let t := TrimSpace rest in
           if String.eqb t "" then None else Some t
       | None =>
           match BasicAuth authorization with
           | Some (_, pass) => if String.eqb pass "" then None else Some pass
           | None => None
           end
       end.
End Auth.

(* ------------------------------------------------------------------ *)
(** ** Minted tokens *)

(** Printable ASCII other than the space. *)
Definition plain (c : ascii) : bool := (33 <=? code c) && (code c <? 127).

Lemma url_char_plain v : 0 <= v -> plain (url_char v) = true.
Proof.
  intros Hv. unfold url_char, plain.
  destruct (Z.ltb_spec v 26); [rewrite code_byte_of by lia; apply andb_true_iff; rewrite Z.leb_le, Z.ltb_lt; lia|].
  destruct (Z.ltb_spec v 52); [rewrite code_byte_of by lia; apply andb_true_iff; rewrite Z.leb_le, Z.ltb_lt; lia|].
  destruct (Z.ltb_spec v 62); [rewrite code_byte_of by lia; apply andb_true_iff; rewrite Z.leb_le, Z.ltb_lt; lia|].
  by destruct (v =? 62).
Qed.

Lemma url_char_inj v v' : 0 <= v < 64 -> 0 <= v' < 64 -> url_char v = url_char v' -> v = v'.
Proof.
  intros Hv Hv' E. apply (f_equal code) in E. unfold url_char in E.
  repeat match type of E with
  | context [if ?x <? ?k then _ else _] => destruct (Z.ltb_spec x k)
  | context [if ?x =? ?k then _ else _] => destruct (Z.eqb_spec x k)
  end; rewrite ?code_byte_of in E by lia;
  change (code "-"%char) with 45 in *; change (code "_"%char) with 95 in *; lia.
Qed.


(** Joining bit fields is addition. *)
Lemma lor_add a b k : 0 <= k -> 0 <= b < 2 ^ k -> Z.lor (Z.shiftl a k) b = a * 2 ^ k + b.
Proof.
  intros Hk Hb. rewrite <- Z.shiftl_mul_pow2 by done.
  assert (Hl : Z.land (Z.shiftl a k) b = 0).
  { apply Z.bits_inj'. intros i Hi. rewrite Z.land_spec, Z.bits_0, Z.shiftl_spec by done.
    destruct (Z.ltb_spec i k); [by rewrite Z.testbit_neg_r by lia|].
    rewrite <- (Z.mod_small b (2 ^ k)) by done. by rewrite Z.mod_pow2_bits_high, andb_false_r by lia. }
  by rewrite Z.add_nocarry_lxor, Z.lxor_lor by done.
Qed.

Lemma land63 x : Z.land x 63 = x mod 64.
Proof. change 63 with (Z.ones 6). by rewrite Z.land_ones by lia. Qed.

Lemma sextet_inj n m k : Z.land (Z.shiftr n k) 63 = Z.land (Z.shiftr m k) 63 -> 0 <= k ->
  (n / 2 ^ k) mod 64 = (m / 2 ^ k) mod 64.
Proof. intros E Hk. by rewrite !land63, !Z.shiftr_div_pow2 in E by done. Qed.

Lemma sextet_range n k : 0 <= Z.land (Z.shiftr n k) 63 < 64.
Proof. rewrite land63. apply Z.mod_pos_bound. lia. Qed.

Lemma top_range n : 0 <= n < 2 ^ 24 -> 0 <= Z.shiftr n 18 < 64.
Proof. intros H. rewrite Z.shiftr_div_pow2 by lia. Z.to_euclidean_division_equations; lia. Qed.

Definition pack (a b c : Z) : Z := Z.lor (Z.shiftl a 16) (Z.lor (Z.shiftl b 8) c).

Lemma pack_sum a b c : 0 <= a < 256 -> 0 <= b < 256 -> 0 <= c < 256 ->
  pack a b c = a * 65536 + b * 256 + c /\ 0 <= pack a b c < 2 ^ 24.
Proof.
  intros Ha Hb Hc. unfold pack. rewrite (lor_add b c 8) by lia. rewrite lor_add by lia. lia.
Qed.

(** The four sextets of three bytes determine them. *)
Lemma pack_sextets_inj a b c a' b' c' :
  0 <= a < 256 -> 0 <= b < 256 -> 0 <= c < 256 -> 0 <= a' < 256 -> 0 <= b' < 256 -> 0 <= c' < 256 ->
  url_char (Z.shiftr (pack a b c) 18) = url_char (Z.shiftr (pack a' b' c') 18) ->
  url_char (Z.land (Z.shiftr (pack a b c) 12) 63) = url_char (Z.land (Z.shiftr (pack a' b' c') 12) 63) ->
  url_char (Z.land (Z.shiftr (pack a b c) 6) 63) = url_char (Z.land (Z.shiftr (pack a' b' c') 6) 63) ->
  (pack a b c) / 64 = (pack a' b' c') / 64.
Proof.
  intros Ha Hb Hc Ha' Hb' Hc' E1 E2 E3.
  destruct (pack_sum a b c Ha Hb Hc) as [_ Hn]. destruct (pack_sum a' b' c' Ha' Hb' Hc') as [_ Hn'].
  apply url_char_inj in E1; [|by apply top_range..]. apply url_char_inj in E2, E3; [|apply sextet_range..].
  apply sextet_inj in E2, E3; [|lia..]. rewrite !Z.shiftr_div_pow2 in E1 by lia.
  change (2 ^ 18) with 262144 in *. change (2 ^ 12) with 4096 in *. change (2 ^ 6) with 64 in *.
  Z.to_euclidean_division_equations; lia.
Qed.

(** Byte lists in steps of three. *)
Lemma list_ind3 {A} (P : list A -> Prop) : P [] -> (forall a, P [a]) -> (forall a b, P [a; b]) ->
  (forall a b c l, P l -> P (a :: b :: c :: l)) -> forall l, P l.
Proof.
  intros H0 H1 H2 H3 l. assert (P l /\ (forall a, P (a :: l)) /\ (forall a b, P (a :: b :: l))) as [? _]; [|done].
  induction l as [|x l (IH1 & IH2 & IH3)]; [auto|]. split; [done|]. split; [intros; apply IH3|]. intros; by apply H3.
Qed.

Lemma raw_url_encode_length l : Z.of_nat (length (raw_url_encode l)) = (4 * Z.of_nat (length l) + 2) / 3.
Proof.
  induction l as [|a|a b|a b c l IH] using list_ind3; try done. cbn [raw_url_encode length].
  rewrite !Nat2Z.inj_succ, IH. Z.to_euclidean_division_equations; lia.
Qed.

Lemma raw_url_encode_inj l : forall l', length l = length l' -> raw_url_encode l = raw_url_encode l' -> l = l'.
Proof.
  assert (Hz : 0 <= 0 < 256) by lia.
  induction l as [|a|a b|a b c l IH] using list_ind3; intros l' Hl; (destruct l' as [|a' [|b' [|c' l']]]; try done);
    simpl in Hl; try lia; cbn [raw_url_encode].
  - intros [= E1 E2]. pose proof (code_range a). pose proof (code_range a').
    assert (P : forall x, Z.shiftl (code x) 16 = pack (code x) 0 0).
    { intros x. unfold pack. by rewrite !Z.lor_0_r. }
    f_equal. apply code_inj.
    assert (pack (code a) 0 0 / 64 = pack (code a') 0 0 / 64) as E.
    { apply (pack_sextets_inj (code a) 0 0 (code a') 0 0); try done; rewrite <- ?P; try done.
      f_equal. rewrite !Z.shiftl_mul_pow2 by lia. rewrite !land63, !Z.shiftr_div_pow2 by lia.
      change (2^16) with 65536. change (2^6) with 64.
      Z.to_euclidean_division_equations; lia. }
    destruct (pack_sum (code a) 0 0) as [E3 _]; [done..|]. destruct (pack_sum (code a') 0 0) as [E4 _]; [done..|].
    rewrite E3, E4 in E. Z.to_euclidean_division_equations; lia.
  - intros [= E1 E2 E3]. pose proof (code_range a). pose proof (code_range a').
    pose proof (code_range b). pose proof (code_range b').
    assert (P : forall x y, Z.lor (Z.shiftl (code x) 16) (Z.shiftl (code y) 8) = pack (code x) (code y) 0).
    { intros x y. unfold pack. by rewrite Z.lor_0_r. }
    rewrite !P in *. pose proof (pack_sextets_inj (code a) (code b) 0 (code a') (code b') 0) as E.
    specialize (E ltac:(done) ltac:(done) ltac:(done) ltac:(done) ltac:(done) ltac:(done) E1 E2 E3).
    destruct (pack_sum (code a) (code b) 0) as [E4 _]; [done..|]. destruct (pack_sum (code a') (code b') 0) as [E5 _]; [done..|].
    rewrite E4, E5 in E. f_equal; [apply code_inj|f_equal; apply code_inj]; Z.to_euclidean_division_equations; lia.
  - intros [= E1 E2 E3 E4 E]. apply IH in E as ->; [|lia].
    pose proof (code_range a). pose proof (code_range a'). pose proof (code_range b). pose proof (code_range b').
    pose proof (code_range c). pose proof (code_range c').
    fold (pack (code a) (code b) (code c)) in *. fold (pack (code a') (code b') (code c')) in *.
    pose proof (pack_sextets_inj (code a) (code b) (code c) (code a') (code b') (code c')) as Hp.
    specialize (Hp ltac:(done) ltac:(done) ltac:(done) ltac:(done) ltac:(done) ltac:(done) E1 E2 E3).
    destruct (pack_sum (code a) (code b) (code c)) as [Es _]; [done..|].
    destruct (pack_sum (code a') (code b') (code c')) as [Es' _]; [done..|].
    apply url_char_inj in E4; [|rewrite land63; apply Z.mod_pos_bound; lia..]. rewrite !land63 in E4.
    rewrite Es, Es' in *.
    f_equal; [apply code_inj|f_equal; [apply code_inj|f_equal; apply code_inj]]; Z.to_euclidean_division_equations; lia.
Qed.

(* ------------------------------------------------------------------ *)
(** ** Trimming *)

Definition starts_unprintable (r : list ascii) : bool :=
  match r with c :: _ => negb (plain c) | [] => false end.

Lemma strip_one_plain rs c l : forallb starts_unprintable rs = true -> plain c = true -> strip_one rs (c :: l) = None.
Proof.
  intros Hrs Hc. induction rs as [|[|d r] rs IH]; simpl in *; [done|done|].
  apply andb_true_iff in Hrs as [Hd Hrs]. apply negb_true_iff in Hd.
  destruct (Ascii.eqb_spec d c) as [->|]; [congruence|by apply IH].
Qed.

Lemma plain_not_space c l : plain c = true ->
  strip_one space_runes (c :: l) = None /\ strip_one (map (@rev ascii) space_runes) (c :: l) = None.
Proof. intros Hc. split; apply strip_one_plain; [|done| |done]; vm_compute; reflexivity. Qed.

Lemma strip_all_plain rs c l : strip_one rs (c :: l) = None -> strip_all rs (c :: l) = c :: l.
Proof. intros H. unfold strip_all. cbn [List.length strip]. by rewrite H. Qed.

(** A string that starts and ends with a printable character is left alone. *)
Lemma TrimSpace_id s c d l : to_list s = c :: l -> last (to_list s) = Some d ->
  plain c = true -> plain d = true -> TrimSpace s = s.
Proof.
  intros Es Hd Hc Hpd. unfold TrimSpace, TrimLeftSpace. rewrite Es.
  rewrite (strip_all_plain space_runes c l (proj1 (plain_not_space c l Hc))), <- Es.
  apply last_Some in Hd as [l' Hd]. unfold TrimRightSpace.
  assert (Er : rev (to_list s) = d :: rev l') by (by rewrite Hd, rev_app_distr).
  rewrite Er, (strip_all_plain _ d (rev l') (proj2 (plain_not_space d (rev l') Hpd))), <- Er, rev_involutive.
  apply of_to_list.
Qed.

Lemma lower_plain c : lower_byte c = "b"%char -> plain c = true.
Proof.
  unfold lower_byte. destruct (is_upper c) eqn:E; [|by intros ->]. intros _.
  unfold is_upper in E. unfold plain. b2p. apply andb_true_iff. rewrite Z.leb_le, Z.ltb_lt. lia.
Qed.

Lemma plain_list_head_last l : l <> [] -> Forall (fun c => plain c = true) l ->
  exists c l' d, l = c :: l' /\ last l = Some d /\ plain c = true /\ plain d = true.
Proof.
  intros Hne Hl. destruct l as [|c l']; [done|]. destruct (last (c :: l')) as [d|] eqn:E; [|by apply last_None in E].
  exists c, l', d. split; [done|]. split; [done|]. rewrite Forall_forall in Hl. split; [apply Hl; by left|].
  apply Hl. apply last_Some in E as [l2 ->]. apply elem_of_app. right. by left.
Qed.

Lemma raw_url_encode_plain l : Forall (fun c => plain c = true) (raw_url_encode l).
Proof.
  assert (Hsh : forall n k, 0 <= Z.land (Z.shiftr n k) 63) by (intros; apply sextet_range).
  assert (Hc : forall c, 0 <= code c) by (intros; apply code_range).
  induction l as [|a|a b|a b c l IH] using list_ind3; cbn [raw_url_encode];
    repeat (constructor; [apply url_char_plain|]); try done;
    try (apply Z.shiftr_nonneg; rewrite ?Z.lor_nonneg, ?Z.shiftl_nonneg; auto).
  rewrite land63. apply Z.mod_pos_bound. lia.
Qed.

(* ------------------------------------------------------------------ *)
(** ** Properties *)

Section AuthTheorems.
Context `{U : Unicode}.

(** A generated token comes back from the header that carries it. *)
Lemma bearer_presented (scheme : string) (random : list ascii) : let tl := raw_url_encode random in
  tl <> [] -> is_ascii scheme = true -> ascii_lower scheme = "bearer" -> FromRequest (scheme ++ " " ++ of_list tl) = Some (of_list tl).
Proof.
  intros tl Hne Ha Hb.
  destruct (plain_list_head_last tl Hne (raw_url_encode_plain random)) as (c & l' & d & Et & Hd & Hc & Hpd).
  assert (Htrim : TrimSpace (of_list tl) = of_list tl).
  { apply (TrimSpace_id _ c d l'); rewrite ?to_of_list; done. }
  assert (Hs6 : length (to_list scheme) = 6%nat).
  { unfold ascii_lower in Hb. apply (f_equal (fun s => length (to_list s))) in Hb.
    by rewrite to_of_list, length_map in Hb. }
  unfold FromRequest. set (h := scheme ++ " " ++ of_list tl).
  assert (Hh : to_list h = (to_list scheme ++ " "%char :: tl)%list).
  { unfold h. rewrite !to_list_app, to_of_list. done. }
  assert (Hth : TrimSpace h = h).
  { destruct (to_list scheme) as [|c0 s'] eqn:Es; [done|]. apply (TrimSpace_id h c0 d (s' ++ " "%char :: tl)).
    - by rewrite Hh.
    - rewrite Hh. apply last_Some in Hd as [l2 Hd]. rewrite Hd.
      change (c0 :: s') with ([c0] ++ s')%list.
      rewrite (app_comm_cons l2 [d] " "%char), !app_assoc. apply last_snoc.
    - unfold ascii_lower in Hb. apply (f_equal to_list) in Hb. rewrite to_of_list, Es in Hb. simpl in Hb.
      injection Hb as Hb _. by apply lower_plain.
    - done. }
  rewrite Hth. destruct (String.eqb_spec h "") as [E|_]; [by rewrite E in Hh; destruct (to_list scheme)|].
  assert (Hpre : firstn 7 (to_list h) = (to_list scheme ++ [" "%char])%list).
  { rewrite Hh. rewrite firstn_app, Hs6, firstn_all2 by lia. done. }
  assert (Hpost : skipn 7 (to_list h) = tl).
  { rewrite Hh, skipn_app, Hs6, skipn_all2 by lia. done. }
  unfold cutPrefixFold. change (String.length "Bearer ") with 7%nat. rewrite Hpre, Hpost.
  assert (Hl : (len h <? len "Bearer ") = false).
  { apply Z.ltb_ge. unfold len. rewrite <- (length_to_list h), Hh, length_app, Hs6. simpl. lia. }
  rewrite Hl. simpl orb.
  assert (He : EqualFold (of_list (to_list scheme ++ [" "%char])) "Bearer " = true).
  { unfold EqualFold. assert (Ha2 : is_ascii (of_list (to_list scheme ++ [" "%char])) = true).
    { unfold is_ascii in *. rewrite to_of_list, forallb_app, Ha. done. }
    rewrite Ha2. simpl. apply String.eqb_eq. unfold ascii_lower in *.
    rewrite to_of_list, map_app. apply (f_equal to_list) in Hb. rewrite to_of_list in Hb. by rewrite Hb. }
  rewrite He. simpl negb. cbv iota. rewrite Htrim. rewrite Et. done.
Qed.

(** C34: whoever holds a minted token can present it, and nobody else by accident:
    32 random bytes give a 43-character token that determines them, and a request
    carrying it as "Bearer", in any case, presents exactly that token. *)
Theorem FromRequest_presents (random : list ascii) (scheme : string) :
  Z.of_nat (length random) = TokenBytes -> is_ascii scheme = true -> ascii_lower scheme = "bearer" ->
  exists t, Generate (Some random) = Some t /\ len t = 43 /\
    FromRequest (scheme ++ " " ++ t) = Some t /\
    forall random', Z.of_nat (length random') = TokenBytes -> Generate (Some random') = Some t -> random' = random.
Proof.
  intros Hr Ha Hb. set (tl := raw_url_encode random). exists (of_list tl). split; [done|].
  assert (Hlen : Z.of_nat (length tl) = 43) by (unfold tl; by rewrite raw_url_encode_length, Hr).
  split; [|split].
  - unfold len. by rewrite <- length_to_list, to_of_list.
  - apply bearer_presented; [by intros E; unfold tl in Hlen; rewrite E in Hlen|done|done].
  - intros random' Hr' E. unfold Generate in E. simpl in E. injection E as E. apply of_list_inj in E.
    apply raw_url_encode_inj; [lia|done].
Qed.

(** No request presents an empty credential, so an empty token never reaches
    the digest lookup; a presented token is the trimmed rest of a Bearer header or
    the Basic password, and a header that is neither presents nothing. *)
Theorem FromRequest_credential (authorization : string) :
  match FromRequest authorization with
  | Some t =>
      t <> "" /\
      ((exists rest, cutPrefixFold (TrimSpace authorization) "Bearer " = Some rest /\ t = TrimSpace rest) \/
       (cutPrefixFold (TrimSpace authorization) "Bearer " = None /\ exists user, BasicAuth authorization = Some (user, t)))
  | None =>
      TrimSpace authorization = "" \/
      (exists rest, cutPrefixFold (TrimSpace authorization) "Bearer " = Some rest /\ TrimSpace rest = "") \/
      (cutPrefixFold (TrimSpace authorization) "Bearer " = None /\
       (BasicAuth authorization = None \/ exists user, BasicAuth authorization = Some (user, "")))
  end.
Proof.
  unfold FromRequest. destruct (String.eqb_spec (TrimSpace authorization) ""); [by left|].
  destruct (cutPrefixFold _ _) as [rest|].
  - destruct (String.eqb_spec (TrimSpace rest) ""); [right; left; eauto|]. split; [done|]. left. eauto.
  - destruct (BasicAuth authorization) as [[user pass]|]; [|right; right; auto].
    destruct (String.eqb_spec pass "") as [->|]; [right; right; split; [done|]; right; eauto|].
    split; [done|]. right. split; [done|]. eauto.
Qed.
End AuthTheorems.

Definition zeros : list ascii := repeat (byte_of 0) 32.

Lemma FromRequest_presents_witness :
  exists t, Generate (Some zeros) = Some t /\ len t = 43 /\
    @FromRequest ascii_unicode ("BeArEr" ++ " " ++ t) = Some t /\
    forall random', Z.of_nat (length random') = TokenBytes -> Generate (Some random') = Some t -> random' = zeros.
Proof. apply (@FromRequest_presents ascii_unicode zeros "BeArEr"); reflexivity. Defined.

(** The stock client: user "u", password "secret". *)
Lemma basic_password : @FromRequest ascii_unicode "Basic dTpzZWNyZXQ=" = Some "secret".
Proof. vm_compute. reflexivity. Qed.
