(* ===== verification/Config.v ===== *)
(** The server's configuration ([internal/config/config.go]): the environment as
    a function from names to values, the typed readers, the validation order of
    [Load], the serving fail-safe and the production lint.  [net/url] is the class
    [NetURL]; nothing is assumed of it.  The theorems characterise the
    configurations that exist: [Load] succeeds exactly on the environments its
    documentation describes, and a loaded configuration satisfies what the
    presentation and retention components assume of it. *)

From Stdlib Require Import ZArith Lia Bool String Ascii List.
From stdpp Require Import base option list strings.
From S2P Require Import Prelude GoTime GoStrings Presentation.
Local Open Scope string_scope.
Local Open Scope Z_scope.

Record URL := mkURL { Scheme : string; Host : string; RedactedText : string }.
Class NetURL := { url_Parse : string -> option URL }.

Definition EnvPrefix : string := "TRACKER_".

Record Config := mkConfig {
  DatabaseURL : string; Addr : string; LogLevel : string;
  PushProvider : string; FCMProjectID : string; FCMCredentialsFile : string;
  TLSCertFile : string; TLSKeyFile : string; AllowPlaintext : bool;
  RetentionDays : Z; LiveWindowSeconds : Z; StaleWindowSeconds : Z }.

Definition EnvLiveWindowSeconds : string := EnvPrefix ++ "LIVE_WINDOW_SECONDS".
Definition EnvStaleWindowSeconds : string := EnvPrefix ++ "STALE_WINDOW_SECONDS".
Definition DefaultLiveWindowSeconds : Z := 120.
Definition DefaultStaleWindowSeconds : Z := 900.

Definition PushProviderNone : string := "".
Definition PushProviderFCM : string := "fcm".
Definition PushProviderUnifiedPush : string := "unifiedpush".

Definition ShutdownTimeout : Z := 15 * second.

(** The refusals, one constructor per error value or message of the code. *)
Inductive config_error :=
| ErrMissingDatabaseURL
| ErrTLSRequired
| ENotInteger (key : string)
| EWindowRange (key : string)
| EWindowSyntax (key : string)
| EWindowNotPositive (key : string)
| EBadURL
| EBadScheme
| ENoHost
| EBadLogLevel
| EEmptyAddr
| ENeedsProject
| ENeedsCredentials
| EBadProvider
| ECertWithoutKey
| EKeyWithoutCert
| ENegativeRetention
| EWindowOrder
| EPlaintext.

Section Config.
Context `{U : Unicode} `{N : NetURL}.

(** [os.Getenv]: the empty string for an unset variable. *)
Variable Getenv : string -> string.

Definition envOr (key def : string) : string :=
  let v := TrimSpace (Getenv key) in if negb (String.eqb v "") then v else def.

Definition envBool (key : string) : bool :=
  let v := ToLower (TrimSpace (Getenv key)) in
  String.eqb v "1" || String.eqb v "true" || String.eqb v "yes" || String.eqb v "on".

Definition envWindowSeconds (key : string) (def : Z) : result config_error Z :=
  let raw := TrimSpace (Getenv key) in
  if String.eqb raw "" then Ok def
  else match ParseInt raw with
       | Err ErrRange => Err (EWindowRange key)
       | Err ErrSyntax => Err (EWindowSyntax key)
       | Ok n => if n <? 1 then Err (EWindowNotPositive key) else Ok n
       end.

Definition envInt (key : string) (def : Z) : result config_error Z :=
  let v := TrimSpace (Getenv key) in
  if String.eqb v "" then Ok def
  else match Atoi v with Err _ => Err (ENotInteger key) | Ok n => Ok n end.

Definition ServesTLS (c : Config) : bool := negb (String.eqb (TLSCertFile c) "") && negb (String.eqb (TLSKeyFile c) "").

Definition validateTLSPair (certFile keyFile : string) : option config_error :=
  if negb (String.eqb certFile "") && String.eqb keyFile "" then Some ECertWithoutKey
  else if negb (String.eqb keyFile "") && String.eqb certFile "" then Some EKeyWithoutCert
  else None.

Definition validate_push (c : Config) : option config_error :=
  if String.eqb (PushProvider c) PushProviderNone || String.eqb (PushProvider c) PushProviderUnifiedPush then None
  else if String.eqb (PushProvider c) PushProviderFCM then
    if String.eqb (FCMProjectID c) "" then Some ENeedsProject
    else if String.eqb (FCMCredentialsFile c) "" then Some ENeedsCredentials
    else None
  else Some EBadProvider.

Definition log_levels : list string := ["debug"; "info"; "warn"; "error"].

Definition validate (c : Config) : option config_error :=
  match url_Parse (DatabaseURL c) with
  | None => Some EBadURL
  | Some u =>
      if negb (String.eqb (Scheme u) "postgres") && negb (String.eqb (Scheme u) "postgresql") then Some EBadScheme
      else if String.eqb (Host u) "" then Some ENoHost
      else if negb (existsb (String.eqb (LogLevel c)) log_levels) then Some EBadLogLevel
      else if String.eqb (Addr c) "" then Some EEmptyAddr
      else match validate_push c with
           | Some e => Some e
           | None =>
               match validateTLSPair (TLSCertFile c) (TLSKeyFile c) with
               | Some e => Some e
               | None =>
                   if RetentionDays c <? 0 then Some ENegativeRetention
                   else if StaleWindowSeconds c <=? LiveWindowSeconds c then Some EWindowOrder
                   else None
               end
           end
  end.

Definition Load : result config_error Config :=
  let dsn := TrimSpace (Getenv (EnvPrefix ++ "DATABASE_URL")) in
  if String.eqb dsn "" then Err ErrMissingDatabaseURL
  else
    try retentionDays := envInt (EnvPrefix ++ "RETENTION_DAYS") 0 in
    try liveWindow := envWindowSeconds EnvLiveWindowSeconds DefaultLiveWindowSeconds in
    try staleWindow := envWindowSeconds EnvStaleWindowSeconds DefaultStaleWindowSeconds in
    let c := mkConfig dsn
      (envOr (EnvPrefix ++ "ADDR") ":8080")
      (envOr (EnvPrefix ++ "LOG_LEVEL") "info")
      (TrimSpace (Getenv (EnvPrefix ++ "PUSH_PROVIDER")))
      (TrimSpace (Getenv (EnvPrefix ++ "FCM_PROJECT_ID")))
      (TrimSpace (Getenv (EnvPrefix ++ "FCM_CREDENTIALS_FILE")))
      (TrimSpace (Getenv (EnvPrefix ++ "TLS_CERT_FILE")))
      (TrimSpace (Getenv (EnvPrefix ++ "TLS_KEY_FILE")))
      (envBool (EnvPrefix ++ "ALLOW_PLAINTEXT"))
      retentionDays liveWindow staleWindow in
    match validate c with Some e => Err e | None => Ok c end.

Definition RequireServable (c : Config) : option config_error :=
  if negb (ServesTLS c) && negb (AllowPlaintext c) then Some ErrTLSRequired else None.

Definition LintTLS (certFile keyFile : string) : option config_error :=
  let certFile := TrimSpace certFile in
  let keyFile := TrimSpace keyFile in
  match validateTLSPair certFile keyFile with
  | Some e => Some e
  | None => if String.eqb certFile "" && String.eqb keyFile "" then Some EPlaintext else None
  end.

Definition Redacted (c : Config) : string :=
  match url_Parse (DatabaseURL c) with
  | None => "(unparseable DSN)"
  | Some u => RedactedText u
  end.

(** The attributes of the start-up log line. *)
Definition LogEffectiveWindows (c : Config) : list (string * Z) :=
  [(EnvLiveWindowSeconds, LiveWindowSeconds c); (EnvStaleWindowSeconds, StaleWindowSeconds c)].

(* ------------------------------------------------------------------ *)
(** ** What a loaded configuration is *)

(** One window variable, as the documentation describes it. *)
Definition window_setting (key : string) (def n : Z) : Prop :=
  (TrimSpace (Getenv key) = "" /\ n = def) \/
  (TrimSpace (Getenv key) <> "" /\ ParseInt (TrimSpace (Getenv key)) = Ok n /\ 1 <= n).

Lemma envWindowSeconds_ok key def n : envWindowSeconds key def = Ok n <-> window_setting key def n.
Proof.
  unfold envWindowSeconds, window_setting. destruct (String.eqb_spec (TrimSpace (Getenv key)) "") as [->|Hne].
  - split; [intros [= <-]; by left|]. intros [[_ ->]|[Hz _]]; [done|by destruct Hz].
  - destruct (ParseInt _) as [m|[]]; [destruct (Z.ltb_spec m 1)| |].
    + split; [done|]. intros [[? _]|(_ & [= ->] & ?)]; [done|lia].
    + split; [intros [= <-]; by right|]. intros [[? _]|(_ & [= ->] & ?)]; done.
    + split; [done|]. intros [[? _]|(_ & ? & ?)]; done.
    + split; [done|]. intros [[? _]|(_ & ? & ?)]; done.
Qed.

(** [strconv.ParseInt] never answers outside int64. *)
Lemma parse_uint_range s n m : 0 <= n -> parse_uint s n = Ok m -> n < 2^64 -> 0 <= m < 2^64.
Proof.
  revert n. induction s as [|c s IH]; intros n Hn; simpl; [intros [= <-]; lia|].
  unfold digit. destruct (is_digit c) eqn:Ed; [|done].
  destruct (1844674407370955162 <=? n); [done|]. destruct (Z.leb_spec (2^64) (n * 10 + (code c - 48))); [done|].
  intros Hx _. unfold is_digit in Ed. b2p. apply (IH (n * 10 + (code c - 48))); [lia|done|lia].
Qed.

Lemma ParseInt_int64 s n : ParseInt s = Ok n -> int64 n.
Proof.
  unfold ParseInt, int64. destruct (to_list s) as [|c s']; [done|]. cbv zeta.
  generalize (if Ascii.eqb c "-"%char || Ascii.eqb c "+"%char then s' else c :: s').
  intros [|d rest]; [done|].
  destruct (parse_uint (d :: rest) 0) as [m|] eqn:E; [|done]. apply parse_uint_range in E; [|lia|lia].
  destruct (Ascii.eqb c "-"%char); simpl.
  - destruct (Z.ltb_spec (2^63) m); [done|]. intros [= <-]. lia.
  - destruct (Z.leb_spec (2^63) m); [done|]. intros [= <-]. lia.
Qed.

(** The configuration an environment describes, before its checks. *)
Definition described (c : Config) : Prop :=
  DatabaseURL c = TrimSpace (Getenv (EnvPrefix ++ "DATABASE_URL")) /\ DatabaseURL c <> "" /\
  envInt (EnvPrefix ++ "RETENTION_DAYS") 0 = Ok (RetentionDays c) /\
  window_setting EnvLiveWindowSeconds DefaultLiveWindowSeconds (LiveWindowSeconds c) /\
  window_setting EnvStaleWindowSeconds DefaultStaleWindowSeconds (StaleWindowSeconds c) /\
  Addr c = envOr (EnvPrefix ++ "ADDR") ":8080" /\ LogLevel c = envOr (EnvPrefix ++ "LOG_LEVEL") "info" /\
  PushProvider c = TrimSpace (Getenv (EnvPrefix ++ "PUSH_PROVIDER")) /\
  FCMProjectID c = TrimSpace (Getenv (EnvPrefix ++ "FCM_PROJECT_ID")) /\
  FCMCredentialsFile c = TrimSpace (Getenv (EnvPrefix ++ "FCM_CREDENTIALS_FILE")) /\
  TLSCertFile c = TrimSpace (Getenv (EnvPrefix ++ "TLS_CERT_FILE")) /\
  TLSKeyFile c = TrimSpace (Getenv (EnvPrefix ++ "TLS_KEY_FILE")) /\
  AllowPlaintext c = envBool (EnvPrefix ++ "ALLOW_PLAINTEXT").

(** What validation lets through. *)
Definition acceptable (c : Config) : Prop :=
  (exists u, url_Parse (DatabaseURL c) = Some u /\ (Scheme u = "postgres" \/ Scheme u = "postgresql") /\ Host u <> "") /\
  LogLevel c ∈ log_levels /\ Addr c <> "" /\
  (PushProvider c = PushProviderNone \/ PushProvider c = PushProviderUnifiedPush \/
   (PushProvider c = PushProviderFCM /\ FCMProjectID c <> "" /\ FCMCredentialsFile c <> "")) /\
  (TLSCertFile c = "" <-> TLSKeyFile c = "") /\
  0 <= RetentionDays c /\ LiveWindowSeconds c < StaleWindowSeconds c.

Lemma validateTLSPair_none cert key : validateTLSPair cert key = None <-> (cert = "" <-> key = "").
Proof.
  unfold validateTLSPair. destruct (String.eqb_spec cert ""), (String.eqb_spec key ""); simpl; naive_solver.
Qed.

Lemma validate_push_none c : validate_push c = None <->
  (PushProvider c = PushProviderNone \/ PushProvider c = PushProviderUnifiedPush \/
   (PushProvider c = PushProviderFCM /\ FCMProjectID c <> "" /\ FCMCredentialsFile c <> "")).
Proof.
  unfold validate_push. destruct (String.eqb_spec (PushProvider c) PushProviderNone); simpl; [naive_solver|].
  destruct (String.eqb_spec (PushProvider c) PushProviderUnifiedPush); simpl; [naive_solver|].
  destruct (String.eqb_spec (PushProvider c) PushProviderFCM); [|naive_solver].
  destruct (String.eqb_spec (FCMProjectID c) ""); [naive_solver|].
  destruct (String.eqb_spec (FCMCredentialsFile c) ""); naive_solver.
Qed.

Lemma elem_of_log_levels s : existsb (String.eqb s) log_levels = true <-> s ∈ log_levels.
Proof.
  rewrite existsb_elem. setoid_rewrite String.eqb_eq. split; [intros (x & Hx & ->); done|]. eauto.
Qed.

Lemma scheme_ok s : negb (String.eqb s "postgres") && negb (String.eqb s "postgresql") = false <->
  s = "postgres" \/ s = "postgresql".
Proof.
  destruct (String.eqb_spec s "postgres") as [->|]; simpl; [by intuition|].
  destruct (String.eqb_spec s "postgresql") as [->|]; simpl; [by intuition|]. by intuition.
Qed.

Lemma validate_none c : validate c = None <-> acceptable c.
Proof.
  unfold validate, acceptable. split.
  - intros Hv. destruct (url_Parse (DatabaseURL c)) as [u|]; [|done].
    destruct (negb (String.eqb (Scheme u) _) && _) eqn:E1; [done|]. apply scheme_ok in E1.
    destruct (String.eqb_spec (Host u) ""); [done|].
    destruct (existsb (String.eqb (LogLevel c)) log_levels) eqn:E2; [|done]. apply elem_of_log_levels in E2.
    destruct (String.eqb_spec (Addr c) ""); [done|].
    destruct (validate_push c) eqn:E3; [done|]. apply validate_push_none in E3.
    destruct (validateTLSPair _ _) eqn:E4; [done|]. apply validateTLSPair_none in E4.
    destruct (Z.ltb_spec (RetentionDays c) 0); [done|].
    destruct (Z.leb_spec (StaleWindowSeconds c) (LiveWindowSeconds c)); [done|].
    split; [by exists u|]. done.
  - intros ((u & -> & Hs & Hh) & Hl & Ha & Hp & Ht & Hr & Hw).
    apply scheme_ok in Hs as ->. apply elem_of_log_levels in Hl as ->. apply validate_push_none in Hp as ->.
    apply validateTLSPair_none in Ht as ->.
    destruct (String.eqb_spec (Host u) ""); [done|]. simpl. destruct (String.eqb_spec (Addr c) ""); [done|].
    destruct (Z.ltb_spec (RetentionDays c) 0); [lia|].
    destruct (Z.leb_spec (StaleWindowSeconds c) (LiveWindowSeconds c)); [lia|done].
Qed.

Lemma Load_inv (c : Config) : Load = Ok c -> described c /\ acceptable c.
Proof.
  unfold Load, described. rewrite <- !envWindowSeconds_ok, <- validate_none.
  destruct (String.eqb_spec (TrimSpace (Getenv (EnvPrefix ++ "DATABASE_URL"))) "") as [E|E]; [done|].
  destruct (envInt _ 0) as [rd|]; simpl; [|done].
  destruct (envWindowSeconds EnvLiveWindowSeconds _) as [lw|]; simpl; [|done].
  destruct (envWindowSeconds EnvStaleWindowSeconds _) as [sw|]; simpl; [|done].
  set (c0 := mkConfig _ _ _ _ _ _ _ _ _ _ _ _). destruct (validate c0) eqn:Ev; [done|].
  intros [= <-]. split; [|done]. unfold c0. simpl. naive_solver.
Qed.

Lemma Load_accepts (c : Config) : described c -> acceptable c -> Load = Ok c.
Proof.
  unfold Load, described. rewrite <- !envWindowSeconds_ok, <- validate_none.
  destruct (String.eqb_spec (TrimSpace (Getenv (EnvPrefix ++ "DATABASE_URL"))) "") as [E|E]; [rewrite E; naive_solver|].
  destruct (envInt _ 0) as [rd|]; simpl; [|naive_solver].
  destruct (envWindowSeconds EnvLiveWindowSeconds _) as [lw|]; simpl; [|naive_solver].
  destruct (envWindowSeconds EnvStaleWindowSeconds _) as [sw|]; simpl; [|naive_solver].
  set (c0 := mkConfig _ _ _ _ _ _ _ _ _ _ _ _).
  intros (H1 & H2 & H3 & H4 & H5 & H6 & H7 & H8 & H9 & H10 & H11 & H12 & H13) Hv.
  assert (c = c0) as ->.
  { unfold c0. destruct c; simpl in *. simplify_eq. done. }
  by rewrite Hv.
Qed.

(** A configuration exists exactly when the environment describes an
    acceptable one: [Load] succeeds with [c] iff every variable reads as documented
    and the whole validates, and it never returns one otherwise. *)
Theorem Load_exact (c : Config) : Load = Ok c <-> described c /\ acceptable c.
Proof. split; [apply Load_inv|]. intros [Hd Ha]. by apply Load_accepts. Qed.

Lemma Load_windows (c : Config) : Load = Ok c ->
  valid_windows (mkWindows (LiveWindowSeconds c) (StaleWindowSeconds c)) /\ 0 <= RetentionDays c.
Proof.
  intros [Hd Ha]%Load_inv. destruct Hd as (_ & _ & _ & Hl & Hs & _).
  destruct Ha as (_ & _ & _ & _ & _ & Hr & Hlt). split; [|done]. unfold valid_windows. simpl.
  assert (1 <= LiveWindowSeconds c) by (destruct Hl as [[_ ->]|(_ & _ & ?)]; [done|done]).
  split; [done|]. split; [done|]. destruct Hs as [[_ ->]|(_ & Hp & _)]; [done|].
  apply ParseInt_int64 in Hp. unfold int64, max_int64 in *. lia.
Qed.

(** A loaded configuration is safe to run on: its windows are a valid pair for
    the presentation component, its TLS files come as a pair, serving is refused
    unless TLS is configured or plaintext was allowed, and a configuration the lint
    passes always serves TLS. *)
Theorem Load_safe (c : Config) : Load = Ok c ->
  valid_windows (mkWindows (LiveWindowSeconds c) (StaleWindowSeconds c)) /\
  0 <= RetentionDays c /\
  (TLSCertFile c = "" <-> TLSKeyFile c = "") /\
  (RequireServable c = None <-> ServesTLS c = true \/ AllowPlaintext c = true) /\
  (LintTLS (Getenv (EnvPrefix ++ "TLS_CERT_FILE")) (Getenv (EnvPrefix ++ "TLS_KEY_FILE")) = None <-> ServesTLS c = true).
Proof.
  intros HL. destruct (Load_windows c HL) as [Hw Hr]. destruct (Load_inv c HL) as [Hd Ha].
  destruct Hd as (_ & _ & _ & _ & _ & _ & _ & _ & _ & _ & Hc & Hk & _). destruct Ha as (_ & _ & _ & _ & Htls & _).
  split; [done|split; [done|split; [done|split]]].
  - unfold RequireServable. destruct (ServesTLS c), (AllowPlaintext c); simpl; naive_solver.
  - unfold LintTLS, ServesTLS. rewrite <- Hc, <- Hk. apply validateTLSPair_none in Htls as Hv. rewrite Hv.
    destruct (String.eqb_spec (TLSCertFile c) ""), (String.eqb_spec (TLSKeyFile c) ""); simpl; naive_solver.
Qed.
End Config.

(* ------------------------------------------------------------------ *)
(** ** Witness: a DSN and a narrow stale window *)

Definition any_postgres : NetURL := {| url_Parse := fun s => Some (mkURL "postgres" "db" "redacted") |}.
Definition sample_env (key : string) : string :=
  if String.eqb key "TRACKER_DATABASE_URL" then "postgres://db/tracker"
  else if String.eqb key "TRACKER_STALE_WINDOW_SECONDS" then " 300 "
  else if String.eqb key "TRACKER_ALLOW_PLAINTEXT" then "Yes" else "".

Definition sample_config : Config :=
  mkConfig "postgres://db/tracker" ":8080" "info" "" "" "" "" "" true 0 120 300.

Lemma Load_safe_witness :
  valid_windows (mkWindows 120 300) /\ 0 <= 0 /\ ("" = "" <-> "" = "") /\
  (RequireServable sample_config = None <-> ServesTLS sample_config = true \/ AllowPlaintext sample_config = true) /\
  (LintTLS (sample_env (EnvPrefix ++ "TLS_CERT_FILE")) (sample_env (EnvPrefix ++ "TLS_KEY_FILE")) = None <->
   ServesTLS sample_config = true).
Proof. apply (@Load_safe ascii_unicode any_postgres sample_env sample_config). vm_compute. reflexivity. Defined.
