(* ===== verification/Ledger.v ===== *)
(** The delivery ledger ([internal/push/ledger.go]): which collapse keys are
    pending at which endpoint, the collapse-bound classification, and the outcome
    records.  [ledger_ok] is its representation invariant: the insertion order
    lists exactly the tracked endpoints, once each, at most 4096 of them, and no
    endpoint counts more than four distinct keys, each at least once.  Every
    operation keeps it; the classification depends only on the number of distinct
    pending keys; and taking back a hand-over restores the accounting. *)

From Stdlib Require Import ZArith Lia Bool String Ascii List.
From stdpp Require Import base option list strings gmap.
From S2P Require Import Prelude GoTime GoStrings Auth.
Local Open Scope string_scope.
Local Open Scope Z_scope.

Inductive DeliveryOutcome := OutcomeHandedOver | OutcomeBeyondCollapseBound | OutcomeDropped.

#[export] Instance DeliveryOutcome_eq_dec : EqDecision DeliveryOutcome.
Proof. solve_decision. Defined.

Definition outcome_text (o : DeliveryOutcome) : string :=
  match o with
  | OutcomeHandedOver => "handed-over"
  | OutcomeBeyondCollapseBound => "beyond-collapse-bound"
  | OutcomeDropped => "dropped"
  end.

Definition CollapseKeyBound : nat := 4.
Definition maxTrackedEndpoints : nat := 4096.
Definition endpointDigestBytes : nat := 8.

(** [endpointKey]: provider, routing address. *)
Definition endpointKey : Type := string * string.

Definition hex_digit (v : Z) : ascii := if v <? 10 then byte_of (48 + v) else byte_of (87 + v).
Definition hex_encode (l : list ascii) : list ascii :=
  flat_map (fun c => [hex_digit (code c / 16); hex_digit (code c mod 16)]) l.

Definition EndpointDigest `{SHA256} (provider token : string) : string :=
  if String.eqb token "" then ""
  else of_list (hex_encode (firstn endpointDigestBytes (to_list (Sum256 (provider ++ ":" ++ token))))).

Record DeliveryLedger := mkLedger {
  pending : gmap endpointKey (gmap string nat);
  order : list endpointKey }.

Definition NewDeliveryLedger : DeliveryLedger := mkLedger ∅ [].

(** [evictLocked]: drops from the front until the bound holds. *)
Fixpoint evict_loop (fuel : nat) (l : DeliveryLedger) : DeliveryLedger :=
  match fuel with
  | O => l
  | S f =>
      if (maxTrackedEndpoints <? length (order l))%nat then
        match order l with
        | oldest :: rest => evict_loop f (mkLedger (delete oldest (pending l)) rest)
        | [] => l
        end
      else l
  end.
Definition evictLocked (l : DeliveryLedger) : DeliveryLedger := evict_loop (length (order l)) l.

Definition Classify (e : endpointKey) (collapseKey : string) (l : DeliveryLedger) : DeliveryOutcome * DeliveryLedger :=
  let '(keys, l) :=
    match pending l !! e with
    | Some keys => (keys, l)
    | None => (∅, evictLocked (mkLedger (<[e := ∅]> (pending l)) (order l ++ [e])))
    end in
  if (CollapseKeyBound <=? size keys)%nat then (OutcomeBeyondCollapseBound, l)
  else (OutcomeHandedOver,
        mkLedger (<[e := <[collapseKey := S (default O (keys !! collapseKey))]> keys]> (pending l)) (order l)).

Definition NotHandedOver (e : endpointKey) (collapseKey : string) (l : DeliveryLedger) : DeliveryLedger :=
  match pending l !! e with
  | None => l
  | Some keys =>
      match keys !! collapseKey with
      | None => l
      | Some n =>
          if (n <=? 1)%nat then mkLedger (<[e := delete collapseKey keys]> (pending l)) (order l)
          else mkLedger (<[e := <[collapseKey := (n - 1)%nat]> keys]> (pending l)) (order l)
      end
  end.

(** Removes the first occurrence. *)
Fixpoint remove_first (e : endpointKey) (l : list endpointKey) : list endpointKey :=
  match l with
  | [] => []
  | k :: l' => if decide (k = e) then l' else k :: remove_first e l'
  end.

Definition forget (e : endpointKey) (l : DeliveryLedger) : DeliveryLedger :=
  match pending l !! e with
  | None => l
  | Some _ => mkLedger (delete e (pending l)) (remove_first e (order l))
  end.

Definition EndpointRegistered (provider token : string) (l : DeliveryLedger) : DeliveryLedger := forget (provider, token) l.
Definition EndpointRemoved (provider token : string) (l : DeliveryLedger) : DeliveryLedger := forget (provider, token) l.

Definition PendingKeys (provider token : string) (l : DeliveryLedger) : nat :=
  size (default ∅ (pending l !! (provider, token))).

Definition Reset (_ : DeliveryLedger) : DeliveryLedger := mkLedger ∅ [].

(* ------------------------------------------------------------------ *)
(** ** Invariant *)

Record ledger_ok (l : DeliveryLedger) : Prop := {
  lo_order : forall e, e ∈ order l <-> is_Some (pending l !! e);
  lo_nodup : NoDup (order l);
  lo_bound : (length (order l) <= maxTrackedEndpoints)%nat;
  lo_keys : forall e keys, pending l !! e = Some keys ->
    (size keys <= CollapseKeyBound)%nat /\ forall k n, keys !! k = Some n -> (1 <= n)%nat }.

Lemma elem_of_remove_first e l x : NoDup l -> x ∈ remove_first e l <-> x ∈ l /\ x <> e.
Proof.
  induction l as [|k l IH]; simpl; [by intros _; rewrite elem_of_nil; naive_solver|].
  intros [Hk Hd]%NoDup_cons. case_decide as E; subst.
  - rewrite elem_of_cons. split; [intros Hx; split; [by right|]; by intros ->|]. intros [[->|?] ?]; done.
  - rewrite !elem_of_cons, IH by done. naive_solver.
Qed.

Lemma remove_first_NoDup e l : NoDup l -> NoDup (remove_first e l).
Proof.
  induction l as [|k l IH]; simpl; [done|]. intros [Hk Hd]%NoDup_cons. case_decide; [done|].
  apply NoDup_cons. split; [|by apply IH]. rewrite elem_of_remove_first by done. by intros [? _].
Qed.

Lemma remove_first_length e l : (length (remove_first e l) <= length l)%nat.
Proof. induction l as [|k l IH]; simpl; [done|]. case_decide; simpl; lia. Qed.

(** The order and map part of the invariant, before the bound is restored. *)
Lemma evict_one (e : endpointKey) (rest : list endpointKey) (p : gmap endpointKey (gmap string nat)) :
  (forall x, x ∈ e :: rest <-> is_Some (p !! x)) -> NoDup (e :: rest) ->
  (forall x, x ∈ rest <-> is_Some (delete e p !! x)).
Proof.
  intros Ho [Hn _]%NoDup_cons x. split.
  - intros Hx. assert (is_Some (p !! x)) as [k Hk] by (apply Ho; by right). exists k.
    apply lookup_delete_Some. split; [|done]. by intros ->.
  - intros [k [Hne Hk]%lookup_delete_Some]. assert (x ∈ e :: rest) as Hx by (apply Ho; eauto).
    apply elem_of_cons in Hx as [->|Hx]; done.
Qed.

Lemma evict_loop_spec fuel : forall l, (length (order l) <= fuel + maxTrackedEndpoints)%nat ->
  (forall e, e ∈ order l <-> is_Some (pending l !! e)) -> NoDup (order l) ->
  exists n, order (evict_loop fuel l) = skipn n (order l) /\ (length (order (evict_loop fuel l)) <= maxTrackedEndpoints)%nat /\
    (n = length (order l) - maxTrackedEndpoints)%nat /\
    (forall e, e ∈ order (evict_loop fuel l) <-> is_Some (pending (evict_loop fuel l) !! e)) /\
    (forall e keys, pending (evict_loop fuel l) !! e = Some keys -> pending l !! e = Some keys) /\
    (forall e, e ∈ order (evict_loop fuel l) -> pending (evict_loop fuel l) !! e = pending l !! e).
Proof.
  induction fuel as [|f IH]; intros l Hlen Ho Hn; simpl.
  - exists O. split; [done|]. split; [lia|]. split; [lia|done].
  - destruct (Nat.ltb_spec maxTrackedEndpoints (length (order l))) as [Hlt|Hge].
    + destruct (order l) as [|oldest rest] eqn:E; [simpl in Hlt; lia|].
      destruct (IH (mkLedger (delete oldest (pending l)) rest)) as (n & E1 & E2 & E3 & E4 & E5 & E6).
      * simpl in *. lia.
      * by apply evict_one.
      * by apply NoDup_cons in Hn as [_ ?].
      * exists (S n). cbn [order pending length] in *. split; [done|]. split; [done|]. split; [lia|]. split; [done|].
        split; [intros e keys H; apply E5 in H; by apply lookup_delete_Some in H as [_ ?]|].
        intros e He. rewrite E6 by done. apply lookup_delete_ne. intros ->.
        apply NoDup_cons in Hn as [Hn _]. apply Hn. rewrite E1 in He.
        rewrite <- (firstn_skipn n rest). apply elem_of_app. by right.
    + exists O. split; [done|]. split; [lia|]. split; [lia|]. done.
Qed.

Lemma NoDup_skipn {A} n (l : list A) : NoDup l -> NoDup (skipn n l).
Proof. intros H. rewrite <- (firstn_skipn n l) in H. by apply NoDup_app in H as (_ & _ & ?). Qed.

(** Tracking one more endpoint: the new one is never the one evicted. *)
Lemma track_ok e l : ledger_ok l -> pending l !! e = None ->
  let l' := evictLocked (mkLedger (<[e := ∅]> (pending l)) (order l ++ [e])) in
  ledger_ok l' /\ pending l' !! e = Some ∅.
Proof.
  intros [Ho Hn Hb Hk] He. simpl. unfold evictLocked. set (l0 := mkLedger _ _).
  assert (He' : e ∉ order l) by (rewrite Ho, He; by intros [? ?]).
  assert (Ho0 : forall x, x ∈ order l0 <-> is_Some (pending l0 !! x)).
  { intros x. simpl. rewrite elem_of_app, list_elem_of_singleton, lookup_insert. case_decide; subst.
    - split; [eauto|by right].
    - rewrite Ho. split; [intros [?|?]; [done|congruence]|by left]. }
  assert (Hn0 : NoDup (order l0)).
  { simpl. apply NoDup_app. split; [done|]. split; [|apply NoDup_singleton]. by intros x Hx ->%list_elem_of_singleton. }
  destruct (evict_loop_spec (length (order l0)) l0) as (n & E1 & E2 & E3 & E4 & E5 & E6); [lia|done|done|].
  assert (Hin : e ∈ order (evict_loop (length (order l0)) l0)).
  { rewrite E1. simpl. assert (Hlen : length (order l0) = S (length (order l))) by (simpl; rewrite length_app; simpl; lia).
    rewrite skipn_app. apply elem_of_app. right. replace (n - length (order l))%nat with O by (unfold maxTrackedEndpoints in *; lia).
    by left. }
  split; [|rewrite E6 by done; simpl; apply lookup_insert_eq]. constructor; [done| |done|].
  - rewrite E1. by apply NoDup_skipn.
  - intros x keys Hx. apply E5 in Hx. simpl in Hx. rewrite lookup_insert in Hx. case_decide.
    + injection Hx as <-. rewrite map_size_empty. split; [unfold CollapseKeyBound; lia|]. intros k m. by rewrite lookup_empty.
    + by apply (Hk x).
Qed.

(** Eviction only forgets. *)
Lemma evict_loop_pending fuel : forall l e, pending (evict_loop fuel l) !! e = pending l !! e \/ pending (evict_loop fuel l) !! e = None.
Proof.
  induction fuel as [|f IH]; intros l e; simpl; [by left|].
  destruct (maxTrackedEndpoints <? length (order l))%nat; [|by left]. destruct (order l) as [|oldest rest]; [by left|].
  destruct (IH (mkLedger (delete oldest (pending l)) rest) e) as [->| ->]; [|by right].
  simpl. rewrite lookup_delete. case_decide; [by right|by left].
Qed.

Lemma ledger_set e keys l : ledger_ok l -> is_Some (pending l !! e) ->
  (size keys <= CollapseKeyBound)%nat -> (forall k n, keys !! k = Some n -> (1 <= n)%nat) ->
  ledger_ok (mkLedger (<[e := keys]> (pending l)) (order l)).
Proof.
  intros [Ho Hn Hb Hk] He Hs Hc. constructor; simpl; try done.
  - intros x. rewrite Ho, lookup_insert. case_decide; subst; [split; eauto|done].
  - intros x ks. rewrite lookup_insert. case_decide; [by intros [= <-]|apply Hk].
Qed.

Lemma insert_size_le {A} (m : gmap string A) k a : (size m < CollapseKeyBound)%nat ->
  (size (<[k := a]> m) <= CollapseKeyBound)%nat.
Proof.
  intros Hs. destruct (m !! k) as [b|] eqn:E.
  - rewrite map_size_insert_Some by eauto. lia.
  - rewrite map_size_insert_None by done. lia.
Qed.

(** The two ways into the classification. *)
Lemma Classify_tracked e k l keys : pending l !! e = Some keys ->
  Classify e k l =
    if (CollapseKeyBound <=? size keys)%nat then (OutcomeBeyondCollapseBound, l)
    else (OutcomeHandedOver,
          mkLedger (<[e := <[k := S (default O (keys !! k))]> keys]> (pending l)) (order l)).
Proof. intros E. unfold Classify. by rewrite E. Qed.

Lemma Classify_new e k l : pending l !! e = None ->
  exists l', Classify e k l = (OutcomeHandedOver, mkLedger (<[e := {[k := 1%nat]}]> (pending l')) (order l')).
Proof. intros E. unfold Classify. rewrite E. eexists. rewrite map_size_empty. reflexivity. Qed.

Lemma Classify_outcome e k l : fst (Classify e k l) <> OutcomeDropped.
Proof.
  destruct (pending l !! e) as [keys|] eqn:E; [rewrite (Classify_tracked _ _ _ _ E)|by destruct (Classify_new e k l E) as [? ->]].
  by destruct (CollapseKeyBound <=? size keys)%nat.
Qed.

Lemma Classify_ok e k l : ledger_ok l -> ledger_ok (snd (Classify e k l)).
Proof.
  intros Hl. unfold Classify. destruct (pending l !! e) as [keys|] eqn:E.
  - destruct (Nat.leb_spec CollapseKeyBound (size keys)); simpl; [done|].
    destruct (lo_keys _ Hl _ _ E) as [Hs Hc]. apply ledger_set; [done|eauto|by apply insert_size_le|].
    intros k' n. rewrite lookup_insert. case_decide; [intros [= <-]; lia|apply Hc].
  - destruct (track_ok e l Hl E) as [Hl' He']. rewrite map_size_empty. simpl.
    apply ledger_set; [done|eauto|apply insert_size_le; rewrite map_size_empty; unfold CollapseKeyBound; lia|].
    intros k' n. rewrite lookup_insert. case_decide; [intros [= <-]; lia|by rewrite lookup_empty].
Qed.

Lemma NotHandedOver_ok e k l : ledger_ok l -> ledger_ok (NotHandedOver e k l).
Proof.
  intros Hl. unfold NotHandedOver. destruct (pending l !! e) as [keys|] eqn:E; [|done].
  destruct (keys !! k) as [n|] eqn:Ek; [|done]. destruct (lo_keys _ Hl _ _ E) as [Hs Hc].
  destruct (Nat.leb_spec n 1); apply ledger_set; try done; eauto.
  - rewrite map_size_delete, Ek. lia.
  - intros k' m [_ Hm]%lookup_delete_Some. by apply (Hc k').
  - rewrite map_size_insert_Some by eauto. done.
  - intros k' m. rewrite lookup_insert. case_decide; [intros [= <-]; lia|apply Hc].
Qed.

(** A classification beyond the bound has four counted keys behind it. *)
Lemma beyond_keys e k l : ledger_ok l -> fst (Classify e k l) = OutcomeBeyondCollapseBound ->
  exists keys : list string, NoDup keys /\ length keys = CollapseKeyBound /\
    forall k', k' ∈ keys -> (1 <= default O (default ∅ (pending l !! e) !! k'))%nat.
Proof.
  intros Hl Hb. destruct (pending l !! e) as [ks|] eqn:E; [|by destruct (Classify_new e k l E) as [l' E']; rewrite E' in Hb].
  rewrite (Classify_tracked _ _ _ _ E) in Hb. destruct (lo_keys _ Hl _ _ E) as [Hs Hc].
  destruct (Nat.leb_spec CollapseKeyBound (size ks)); [|done]. exists (map fst (map_to_list ks)).
  split; [apply NoDup_fst_map_to_list|]. split.
  - rewrite length_map, length_map_to_list. lia.
  - intros k' ([k0 n] & -> & Hk%elem_of_map_to_list)%list_elem_of_fmap. simpl. rewrite Hk. simpl. by apply (Hc k0).
Qed.

Lemma forget_ok e l : ledger_ok l -> ledger_ok (forget e l).
Proof.
  intros [Ho Hn Hb Hk]. unfold forget. destruct (pending l !! e) as [keys|] eqn:E; [|done].
  constructor; simpl.
  - intros x. rewrite elem_of_remove_first, Ho by done. split.
    + intros [[ks Hx] Hne]. exists ks. apply lookup_delete_Some. done.
    + intros [ks [Hne Hx]%lookup_delete_Some]. split; [eauto|done].
  - by apply remove_first_NoDup.
  - etransitivity; [apply remove_first_length|done].
  - intros x ks [_ Hx]%lookup_delete_Some. by apply (Hk x).
Qed.

Lemma Reset_ok l : ledger_ok (Reset l).
Proof.
  constructor; simpl; [|constructor|lia|by intros ??; rewrite lookup_empty].
  intros e. rewrite lookup_empty, elem_of_nil. split; [done|by intros [? ?]].
Qed.

(** The ledger under concurrent callers: its mutex makes any run a sequence. *)
Inductive ledger_step : DeliveryLedger -> DeliveryLedger -> Prop :=
| step_classify e k l : ledger_step l (snd (Classify e k l))
| step_not_handed_over e k l : ledger_step l (NotHandedOver e k l)
| step_registered p t l : ledger_step l (EndpointRegistered p t l)
| step_removed p t l : ledger_step l (EndpointRemoved p t l)
| step_reset l : ledger_step l (Reset l).

Inductive ledger_reachable : DeliveryLedger -> Prop :=
| reach_new : ledger_reachable NewDeliveryLedger
| reach_step l l' : ledger_reachable l -> ledger_step l l' -> ledger_reachable l'.

Lemma reachable_ok (l : DeliveryLedger) : ledger_reachable l -> ledger_ok l.
Proof.
  induction 1 as [|l l' _ IH Hs]; [apply (Reset_ok NewDeliveryLedger)|].
  destruct Hs; [by apply Classify_ok|by apply NotHandedOver_ok|by apply forget_ok|by apply forget_ok|apply Reset_ok].
Qed.

Lemma forget_clears (e : endpointKey) (l : DeliveryLedger) : pending (forget e l) !! e = None.
Proof. unfold forget. destruct (pending l !! e) as [keys|] eqn:E; [apply lookup_delete_eq|done]. Qed.

(** A crossing handed over is pending; taking it back restores the accounting. *)
Lemma Classify_handed_over (e : endpointKey) (k : string) (l : DeliveryLedger) :
  ledger_ok l -> fst (Classify e k l) = OutcomeHandedOver ->
  is_Some (default ∅ (pending (snd (Classify e k l)) !! e) !! k) /\
  (is_Some (pending l !! e) -> pending (NotHandedOver e k (snd (Classify e k l))) = pending l).
Proof.
  intros Hl. destruct (pending l !! e) as [keys|] eqn:E.
  - rewrite (Classify_tracked _ _ _ _ E). destruct (Nat.leb_spec CollapseKeyBound (size keys)); [discriminate|]. intros _.
    cbn [snd pending]. rewrite lookup_insert_eq. cbn [default from_option id]. rewrite lookup_insert_eq. split; [eauto|]. intros _.
    unfold NotHandedOver. cbn [pending order]. rewrite !lookup_insert_eq.
    destruct (keys !! k) as [n|] eqn:Ek; cbn [default from_option id Nat.leb].
    + destruct (lo_keys _ Hl _ _ E) as [_ Hc]. specialize (Hc k n Ek). destruct n as [|n]; [lia|]. cbn [Nat.leb pending].
      replace (S (S n) - 1)%nat with (S n) by lia.
      rewrite insert_insert_eq, insert_insert_eq, (insert_id keys) by done. by apply insert_id.
    + rewrite insert_insert_eq, delete_insert_id by done. by apply insert_id.
  - destruct (Classify_new _ k _ E) as [l' ->]. intros _. cbn [snd pending]. rewrite lookup_insert_eq. cbn [default from_option id].
    rewrite lookup_singleton_eq. split; [eauto|by intros [? ?]].
Qed.

(** C37: whatever the dispatcher's worker and the registration handler interleave,
    the ledger tracks at most 4096 endpoints, once each, and counts at most four
    distinct collapse keys at each, every one of them at least once. *)
Theorem ledger_invariant (l : DeliveryLedger) : ledger_reachable l -> ledger_ok l.
Proof. apply reachable_ok. Qed.

(** The collapse-bound claim is exact and only ever under-claims.  A crossing
    is classified beyond the bound exactly when four distinct keys were already
    pending at its endpoint; then nothing changes; otherwise its key is pending
    afterwards; a hand-over that did not happen, taken back, leaves every
    endpoint's accounting as it was; and a registration clears its endpoint. *)
Theorem Classify_bound (e : endpointKey) (k : string) (l : DeliveryLedger) :
  ledger_ok l ->
  (fst (Classify e k l) = OutcomeBeyondCollapseBound <-> PendingKeys (fst e) (snd e) l = CollapseKeyBound) /\
  (fst (Classify e k l) = OutcomeBeyondCollapseBound -> snd (Classify e k l) = l) /\
  (fst (Classify e k l) = OutcomeHandedOver ->
     is_Some (default ∅ (pending (snd (Classify e k l)) !! e) !! k) /\
     (is_Some (pending l !! e) -> pending (NotHandedOver e k (snd (Classify e k l))) = pending l)) /\
  PendingKeys (fst e) (snd e) (EndpointRegistered (fst e) (snd e) l) = O.
Proof.
  intros Hl. destruct e as [p t]. unfold PendingKeys, EndpointRegistered. cbn [fst snd].
  split; [|split; [|split]].
  - destruct (pending l !! (p, t)) as [keys|] eqn:E; [|by destruct (Classify_new _ k _ E) as [l' ->]].
    rewrite (Classify_tracked _ _ _ _ E). destruct (lo_keys _ Hl _ _ E) as [Hs _].
    destruct (Nat.leb_spec CollapseKeyBound (size keys)); cbn [fst default from_option id].
    + split; [intros _; lia|done].
    + split; [discriminate|lia].
  - destruct (pending l !! (p, t)) as [keys|] eqn:E; [|by destruct (Classify_new _ k _ E) as [l' ->]].
    rewrite (Classify_tracked _ _ _ _ E). by destruct (CollapseKeyBound <=? size keys)%nat.
  - by apply Classify_handed_over.
  - rewrite forget_clears. apply map_size_empty.
Qed.

(** The ledger with four crossings pending at one endpoint. *)
Definition full_ledger : DeliveryLedger :=
  fold_left (fun l k => snd (Classify ("fcm", "tok") k l)) ["a"; "b"; "c"; "d"] NewDeliveryLedger.

Lemma full_ledger_reachable : ledger_reachable full_ledger.
Proof. unfold full_ledger. simpl. do 4 (eapply reach_step; [|apply step_classify]). apply reach_new. Qed.

Lemma ledger_invariant_witness : ledger_ok full_ledger.
Proof. apply ledger_invariant, full_ledger_reachable. Defined.

Lemma Classify_bound_witness :
  PendingKeys "fcm" "tok" full_ledger = 4%nat /\
  fst (Classify ("fcm", "tok") "e" full_ledger) = OutcomeBeyondCollapseBound.
Proof.
  assert (E : PendingKeys "fcm" "tok" full_ledger = CollapseKeyBound) by (vm_compute; reflexivity).
  split; [exact E|].
  apply (proj1 (Classify_bound ("fcm", "tok") "e" full_ledger (reachable_ok _ full_ledger_reachable))). exact E.
Defined.
