(* ===== verification/Dispatcher.v ===== *)
(** The push dispatcher ([internal/push/push.go]): a bounded queue drained by one
    worker that retries, over the senders of the deployment.  A sender is the
    interface [Senders]: what a send does to the outside is a state of type [S],
    and the result says whether the backend took the delivery.  [Run] is the
    dispatcher with what it has done - the outcome records of the ledger's log, the
    sends, the time slept; [Enqueue] and [deliver] are the code's two loops over it.
    [sys_step] interleaves the goroutines that share it: notifiers classifying and
    enqueueing, the worker one attempt at a time, registrations clearing an
    endpoint.  The theorems: no delivery is lost or recorded twice, every record
    says what happened, the ledger never counts a key that nothing handed over, and
    closing drains. *)

From Stdlib Require Import ZArith Lia Bool String Ascii List.
From stdpp Require Import base option list strings gmap relations.
From S2P Require Import Prelude GoTime GoStrings Auth Ledger.
Local Open Scope string_scope.
Local Open Scope Z_scope.

Record Subscription := mkSubscription { s_Provider : string; s_Token : string }.

Record Notification := mkNotification {
  n_Title : string; n_Body : string; n_CollapseKey : string; n_Data : gmap string string }.

(** [Bound = ""] is [None]. *)
Record Delivery := mkDelivery { dl_Sub : Subscription; dl_Note : Notification; dl_Bound : option DeliveryOutcome }.

Definition boundOrDefault (d : Delivery) : DeliveryOutcome := default OutcomeHandedOver (dl_Bound d).

Definition endpoint_of (d : Delivery) : endpointKey := (s_Provider (dl_Sub d), s_Token (dl_Sub d)).

(** [map[string]Sender]: the sender of a provider, if the deployment has one. *)
Class Senders (S : Type) := { sender : string -> option (Delivery -> S -> bool * S) }.

Definition DefaultMaxPending : Z := 100.
Definition defaultMaxAttempts : Z := 3.
Definition defaultRetryBackoff : Z := 200 * millisecond.

Record Dispatcher := mkDispatcher {
  maxPending : Z; maxAttempts : Z; backoff : Z;
  queue : list Delivery; ledger : DeliveryLedger; dropped : Z; closed : bool }.

Definition WithMaxPending (n : Z) (d : Dispatcher) : Dispatcher :=
  mkDispatcher (if n <? 1 then 1 else n) (maxAttempts d) (backoff d) [] (ledger d) (dropped d) (closed d).
Definition WithMaxAttempts (n : Z) (d : Dispatcher) : Dispatcher :=
  mkDispatcher (maxPending d) (if n <? 1 then 1 else n) (backoff d) (queue d) (ledger d) (dropped d) (closed d).
Definition WithRetryBackoff (b : Z) (d : Dispatcher) : Dispatcher :=
  mkDispatcher (maxPending d) (maxAttempts d) b (queue d) (ledger d) (dropped d) (closed d).

(** The options there are. *)
Inductive DispatcherOption : (Dispatcher -> Dispatcher) -> Prop :=
| opt_pending n : DispatcherOption (WithMaxPending n)
| opt_attempts n : DispatcherOption (WithMaxAttempts n)
| opt_backoff b : DispatcherOption (WithRetryBackoff b).

Definition NewDispatcher (opts : list (Dispatcher -> Dispatcher)) : Dispatcher :=
  fold_left (fun d opt => opt d) opts
    (mkDispatcher DefaultMaxPending defaultMaxAttempts defaultRetryBackoff [] NewDeliveryLedger 0 false).

Definition set_queue q (d : Dispatcher) := mkDispatcher (maxPending d) (maxAttempts d) (backoff d) q (ledger d) (dropped d) (closed d).
Definition set_ledger l (d : Dispatcher) := mkDispatcher (maxPending d) (maxAttempts d) (backoff d) (queue d) l (dropped d) (closed d).
Definition set_dropped n (d : Dispatcher) := mkDispatcher (maxPending d) (maxAttempts d) (backoff d) (queue d) (ledger d) n (closed d).
Definition set_closed (d : Dispatcher) := mkDispatcher (maxPending d) (maxAttempts d) (backoff d) (queue d) (ledger d) (dropped d) true.

Definition notHandedOver (del : Delivery) (d : Dispatcher) : Dispatcher :=
  if negb (bool_decide (boundOrDefault del = OutcomeHandedOver)) then d
  else set_ledger (NotHandedOver (endpoint_of del) (n_CollapseKey (dl_Note del)) (ledger d)) d.

(** One line of the outcome log ([DeliveryLedger.Record]); the attributes are the
    delivery's, with the routing address digested. *)
Record outcome_record := mkRecord { or_delivery : Delivery; or_outcome : DeliveryOutcome; or_reason : string }.

Definition Record_attrs `{SHA256} (r : outcome_record) : list (string * string) :=
  let d := or_delivery r in
  let data k := default "" (n_Data (dl_Note d) !! k) in
  ([("outcome", outcome_text (or_outcome r));
    ("provider", s_Provider (dl_Sub d));
    ("endpoint", EndpointDigest (s_Provider (dl_Sub d)) (s_Token (dl_Sub d)));
    ("collapse_key", n_CollapseKey (dl_Note d));
    ("device_id", data "device_id"); ("place_id", data "place_id");
    ("transition", data "transition"); ("ts", data "ts")] ++
   (if String.eqb (or_reason r) "" then [] else [("reason", or_reason r)]))%list.

Definition queue_full : string := "queue full (pending cap reached)".
Definition no_sender : string := "no sender configured for provider".
Definition exhausted : string := "retries exhausted".

Section Dispatcher.
Context {S : Type} `{Snd : Senders S}.

Record Run := mkRun {
  disp : Dispatcher; world : S; records : list outcome_record;
  sends : list (Delivery * bool); slept : Z }.

Definition on_disp (f : Dispatcher -> Dispatcher) (r : Run) : Run :=
  mkRun (f (disp r)) (world r) (records r) (sends r) (slept r).
Definition record (del : Delivery) (o : DeliveryOutcome) (reason : string) (r : Run) : Run :=
  mkRun (disp r) (world r) (records r ++ [mkRecord del o reason]) (sends r) (slept r).
Definition sleep (d : Z) (r : Run) : Run :=
  mkRun (disp r) (world r) (records r) (sends r) (slept r + d).

(** What every path that ends in [dropped] does. *)
Definition drop (del : Delivery) (reason : string) (r : Run) : Run :=
  record del OutcomeDropped reason (on_disp (notHandedOver del) r).

(** One turn of [Enqueue]'s loop.  (Sending on a closed channel panics; the server
    closes the dispatcher after it has drained.) *)
Definition enqueue_one (r : Run) (del : Delivery) : Run :=
  let d := disp r in
  if Z.of_nat (length (queue d)) <? maxPending d
  then on_disp (set_queue (queue d ++ [del])) r
  else drop del queue_full (on_disp (set_dropped (wrap64 (dropped d + 1))) r).

Definition Enqueue (deliveries : list Delivery) (r : Run) : Run := fold_left enqueue_one deliveries r.

(** One turn of [deliver]'s loop: whether it returned, and the state after it. *)
Definition attempt_once (send : Delivery -> S -> bool * S) (del : Delivery) (attempt : Z) (r : Run) : bool * Run :=
  let '(ok, s') := send del (world r) in
  let r := mkRun (disp r) s' (records r) (sends r ++ [(del, ok)]) (slept r) in
  if ok then (true, record del (boundOrDefault del) "" r)
  else if attempt =? maxAttempts (disp r) then (true, drop del exhausted r)
  else (false, if 0 <? backoff (disp r) then sleep (backoff (disp r)) r else r).

Fixpoint deliver_loop (fuel : nat) (send : Delivery -> S -> bool * S) (del : Delivery) (attempt : Z) (r : Run) : Run :=
  match fuel with
  | O => r
  | Datatypes.S f =>
      if attempt <=? maxAttempts (disp r) then
        let '(returned, r') := attempt_once send del attempt r in
        if returned then r' else deliver_loop f send del (attempt + 1) r'
      else r
  end.

(** [deliver] from a given attempt on; it starts at the first. *)
Definition deliver_from (attempt : Z) (del : Delivery) (r : Run) : Run :=
  match sender (s_Provider (dl_Sub del)) with
  | None => drop del no_sender r
  | Some send => deliver_loop (Z.to_nat (maxAttempts (disp r))) send del attempt r
  end.

Definition deliver (del : Delivery) (r : Run) : Run := deliver_from 1 del r.

(** [run]: the worker's range over the queue, until [n] deliveries were taken or
    the queue is empty. *)
Fixpoint run (n : nat) (r : Run) : Run :=
  match n, queue (disp r) with
  | Datatypes.S n', del :: q => run n' (deliver del (on_disp (set_queue q) r))
  | _, _ => r
  end.

(** [Close]: no more sends, then wait for the worker to finish what it holds and
    drain the queue. *)
Definition Close (busy : option (Delivery * Z)) (r : Run) : Run :=
  let r := on_disp set_closed r in
  let r := match busy with Some (del, attempt) => deliver_from attempt del r | None => r end in
  run (length (queue (disp r))) r.
End Dispatcher.
Arguments Run : clear implicits.

(* ------------------------------------------------------------------ *)
(** ** The goroutines *)

Section Sys.
Context {S : Type} `{Snd : Senders S}.

(** [waiting]: classified by a notifier and not yet offered to the queue.  [busy]:
    the delivery the worker holds and the attempt it is about to make.  [submitted]
    is history. *)
Record Sys := mkSys {
  run_of : Run S; waiting : list Delivery; busy : option (Delivery * Z); submitted : list Delivery }.

(** The worker's next step on the delivery it holds. *)
Definition serve (del : Delivery) (attempt : Z) (r : Run S) : option (Delivery * Z) * Run S :=
  match sender (s_Provider (dl_Sub del)) with
  | None => (None, drop del no_sender r)
  | Some send =>
      let '(returned, r') := attempt_once send del attempt r in
      (if returned then None else Some (del, attempt + 1), r')
  end.

Definition classified (sub : Subscription) (note : Notification) (d : Dispatcher) : Delivery * Dispatcher :=
  let '(b, l) := Classify (s_Provider sub, s_Token sub) (n_CollapseKey note) (ledger d) in
  (mkDelivery sub note (Some b), set_ledger l d).

Inductive sys_step : Sys -> Sys -> Prop :=
| step_classify sub note r ws b sm del d :
    classified sub note (disp r) = (del, d) ->
    sys_step (mkSys r ws b sm) (mkSys (on_disp (fun _ => d) r) (ws ++ [del]) b (sm ++ [del]))
| step_enqueue r ws ws' del b sm :
    closed (disp r) = false ->
    sys_step (mkSys r (ws ++ del :: ws') b sm) (mkSys (enqueue_one r del) (ws ++ ws') b sm)
| step_take r ws del q sm :
    queue (disp r) = del :: q ->
    sys_step (mkSys r ws None sm) (mkSys (on_disp (set_queue q) r) ws (Some (del, 1)) sm)
| step_serve r ws del n b' r' sm :
    serve del n r = (b', r') ->
    sys_step (mkSys r ws (Some (del, n)) sm) (mkSys r' ws b' sm)
| step_registered p t r ws b sm :
    sys_step (mkSys r ws b sm) (mkSys (on_disp (fun d => set_ledger (EndpointRegistered p t (ledger d)) d) r) ws b sm)
| step_removed p t r ws b sm :
    sys_step (mkSys r ws b sm) (mkSys (on_disp (fun d => set_ledger (EndpointRemoved p t (ledger d)) d) r) ws b sm)
| step_close r ws b sm :
    sys_step (mkSys r ws b sm) (mkSys (on_disp set_closed r) ws b sm).

Definition start (opts : list (Dispatcher -> Dispatcher)) (s : S) : Sys :=
  mkSys (mkRun (NewDispatcher opts) s [] [] 0) [] None [].

Definition reachable (opts : list (Dispatcher -> Dispatcher)) (s : S) (y : Sys) : Prop :=
  rtc sys_step (start opts s) y.

Definition busy_list (y : Sys) : list Delivery := match busy y with Some (del, _) => [del] | None => [] end.

Definition handed (r : outcome_record) : bool := negb (bool_decide (or_outcome r = OutcomeDropped)).

(** Counted by the ledger under endpoint [e] and key [k]. *)
Definition counts (e : endpointKey) (k : string) (d : Delivery) : bool :=
  bool_decide (boundOrDefault d = OutcomeHandedOver) && bool_decide (endpoint_of d = e) &&
  String.eqb (n_CollapseKey (dl_Note d)) k.

Definition pending_count (l : DeliveryLedger) (e : endpointKey) (k : string) : nat :=
  default O (default ∅ (pending l !! e) !! k).

Definition number {A} (p : A -> bool) (l : list A) : nat := length (List.filter p l).

(** Every record says what happened to its delivery. *)
Definition record_ok (r : outcome_record) : Prop :=
  (or_outcome r = boundOrDefault (or_delivery r) /\ or_reason r = "") \/
  (or_outcome r = OutcomeDropped /\ or_reason r ∈ [queue_full; no_sender; exhausted]).

(** The accounting of a run: [sm] were submitted, [pend] of them have no outcome
    yet, and the delivery in hand has been attempted [x] times. *)
Record run_ok (sm pend : list Delivery) (x : Z) (r : Run S) : Prop := {
  ro_conserved : sm ≡ₚ pend ++ map or_delivery (records r);
  ro_sent : map fst (List.filter snd (sends r)) = map or_delivery (List.filter handed (records r));
  ro_attempts : Z.of_nat (length (sends r)) <= maxAttempts (disp r) * Z.of_nat (length (records r)) + x;
  ro_records : Forall record_ok (records r);
  ro_bound : Forall (fun d => boundOrDefault d <> OutcomeDropped) sm;
  ro_ledger : ledger_ok (ledger (disp r));
  ro_count : forall e k, (pending_count (ledger (disp r)) e k <=
    number (counts e k) (pend ++ map or_delivery (List.filter handed (records r))))%nat }.

Definition config_ok (d : Dispatcher) : Prop :=
  1 <= maxPending d /\ 1 <= maxAttempts d /\ Z.of_nat (length (queue d)) <= maxPending d.

Definition dropped_ok (r : Run S) : Prop :=
  dropped (disp r) = wrap64 (Z.of_nat (number (fun x => String.eqb (or_reason x) queue_full) (records r))).

Record sys_ok (y : Sys) : Prop := {
  so_run : run_ok (submitted y) (waiting y ++ queue (disp (run_of y)) ++ busy_list y)
             (match busy y with Some (_, n) => n - 1 | None => 0 end) (run_of y);
  so_config : config_ok (disp (run_of y));
  so_busy : match busy y with Some (_, n) => 1 <= n <= maxAttempts (disp (run_of y)) | None => True end;
  so_dropped : dropped_ok (run_of y) }.
End Sys.
Arguments Sys : clear implicits.

(* ------------------------------------------------------------------ *)
(** ** The ledger's counts *)

Lemma number_app {A} (p : A -> bool) l l' : number p (l ++ l') = (number p l + number p l')%nat.
Proof. unfold number. by rewrite List.filter_app, length_app. Qed.

Lemma number_perm {A} (p : A -> bool) l l' : l ≡ₚ l' -> number p l = number p l'.
Proof. intros H. unfold number. by rewrite (filter_perm p l l' H). Qed.

Lemma number_cons {A} (p : A -> bool) x l : number p (x :: l) = ((if p x then 1 else 0) + number p l)%nat.
Proof. unfold number. simpl. by destruct (p x). Qed.

Definition hit (e e' : endpointKey) (k k' : string) : nat :=
  if bool_decide (e = e') && String.eqb k k' then 1 else 0.

Lemma pending_count_insert l e keys o e' k' :
  pending_count (mkLedger (<[e := keys]> (pending l)) o) e' k' =
  if bool_decide (e = e') then default O (keys !! k') else pending_count l e' k'.
Proof.
  unfold pending_count. simpl. case_bool_decide as E; [subst; by rewrite lookup_insert_eq|by rewrite lookup_insert_ne].
Qed.

Lemma evicted_count l e k : (pending_count (evictLocked l) e k <= pending_count l e k)%nat.
Proof.
  unfold pending_count, evictLocked.
  destruct (evict_loop_pending (length (order l)) l e) as [->| ->]; [lia|simpl; rewrite lookup_empty; simpl; lia].
Qed.

Lemma NotHandedOver_count e k l e' k' :
  pending_count (NotHandedOver e k l) e' k' = (pending_count l e' k' - hit e e' k k')%nat.
Proof.
  assert (Hz : forall n, (n - 0)%nat = n) by lia. unfold NotHandedOver, hit.
  destruct (pending l !! e) as [keys|] eqn:E; [destruct (keys !! k) as [n|] eqn:Ek; [destruct (Nat.leb_spec n 1)|]|].
  - rewrite pending_count_insert. case_bool_decide as Ee; simpl; [|by rewrite Hz]. subst e'.
    unfold pending_count. rewrite E. simpl. rewrite lookup_delete. case_decide as Hk.
    + subst. rewrite String.eqb_refl, Ek. simpl. lia.
    + destruct (String.eqb_spec k k'); [done|by rewrite Hz].
  - rewrite pending_count_insert. case_bool_decide as Ee; simpl; [|by rewrite Hz]. subst e'.
    unfold pending_count. rewrite E. simpl. rewrite lookup_insert. case_decide as Hk.
    + subst. by rewrite String.eqb_refl, Ek.
    + destruct (String.eqb_spec k k'); [done|by rewrite Hz].
  - case_bool_decide; simpl; [|by rewrite Hz]. subst e'. destruct (String.eqb_spec k k') as [->|]; [|by rewrite Hz].
    unfold pending_count. rewrite E. simpl. by rewrite Ek.
  - case_bool_decide; simpl; [|by rewrite Hz]. subst e'. unfold pending_count. rewrite E. simpl. rewrite lookup_empty. simpl. lia.
Qed.

Lemma forget_count e l e' k' : (pending_count (forget e l) e' k' <= pending_count l e' k')%nat.
Proof.
  unfold forget. destruct (pending l !! e) as [keys|] eqn:E; [|lia]. unfold pending_count. simpl.
  rewrite lookup_delete. case_decide; simpl; [rewrite lookup_empty; simpl; lia|lia].
Qed.

Lemma Classify_count e k l e' k' : ledger_ok l ->
  (pending_count (snd (Classify e k l)) e' k' <=
   pending_count l e' k' + if bool_decide (fst (Classify e k l) = OutcomeHandedOver) then hit e e' k k' else 0)%nat.
Proof.
  intros Hl. destruct (pending l !! e) as [keys|] eqn:E.
  - rewrite (Classify_tracked _ _ _ _ E). destruct (CollapseKeyBound <=? size keys)%nat; simpl; [lia|].
    rewrite pending_count_insert. unfold hit. case_bool_decide as Ee; simpl; [|lia]. subst e'.
    unfold pending_count. rewrite E. simpl. rewrite lookup_insert. case_decide as Ek.
    + subst. rewrite String.eqb_refl. simpl. lia.
    + lia.
  - destruct (track_ok e l Hl E) as [Hl' He']. unfold Classify. rewrite E, map_size_empty. cbn [Nat.leb CollapseKeyBound fst snd].
    rewrite pending_count_insert, (bool_decide_true (OutcomeHandedOver = OutcomeHandedOver)) by done. unfold hit. case_bool_decide as Ee; simpl.
    + subst e'. rewrite lookup_empty. simpl. rewrite lookup_insert. case_decide as Ek; cbn [default from_option id]; [|rewrite lookup_empty; simpl; lia].
      subst. rewrite String.eqb_refl. lia.
    + etransitivity; [apply evicted_count|]. unfold pending_count. simpl. rewrite lookup_insert_ne by done. lia.
Qed.

(* ------------------------------------------------------------------ *)
(** ** Every step keeps the accounting *)

Section Invariant.
Context {S : Type} `{Snd : Senders S}.
Implicit Types (r : Run S) (sm pend : list Delivery).

Lemma run_ok_perm sm pend pend' x r : pend ≡ₚ pend' -> run_ok sm pend x r -> run_ok sm pend' x r.
Proof.
  intros Hp [H1 H2 H3 H4 H5 H6 H7]. constructor; try done; [by rewrite <- Hp|].
  intros e k. rewrite (number_perm _ _ (pend ++ map or_delivery (List.filter handed (records r)))); [apply H7|by rewrite Hp].
Qed.

(** Only the ledger, the queue and the flags of the dispatcher changed. *)
Lemma run_ok_disp sm pend x r d :
  run_ok sm pend x r -> maxAttempts d = maxAttempts (disp r) -> ledger_ok (ledger d) ->
  (forall e k, (pending_count (ledger d) e k <= pending_count (ledger (disp r)) e k)%nat) ->
  run_ok sm pend x (on_disp (fun _ => d) r).
Proof.
  intros [H1 H2 H3 H4 H5 H6 H7] Hm Hl Hc. constructor; simpl; try done; [by rewrite Hm|].
  intros e k. etransitivity; [apply Hc|apply H7].
Qed.

(** The delivery in hand counts for what taking it back removes. *)
Lemma counts_hit d e k : counts e k d =
  bool_decide (boundOrDefault d = OutcomeHandedOver) && bool_decide (endpoint_of d = e) && String.eqb (n_CollapseKey (dl_Note d)) k.
Proof. done. Qed.

Lemma notHandedOver_count del d e k :
  (pending_count (ledger (notHandedOver del d)) e k <=
   pending_count (ledger d) e k - if counts e k del then 1 else 0)%nat.
Proof.
  unfold notHandedOver, counts. destruct (bool_decide (boundOrDefault del = OutcomeHandedOver)); simpl; [|lia].
  rewrite NotHandedOver_count. unfold hit. done.
Qed.

Lemma notHandedOver_fields del d :
  maxPending (notHandedOver del d) = maxPending d /\ maxAttempts (notHandedOver del d) = maxAttempts d /\
  queue (notHandedOver del d) = queue d /\ dropped (notHandedOver del d) = dropped d /\
  closed (notHandedOver del d) = closed d /\
  (ledger_ok (ledger d) -> ledger_ok (ledger (notHandedOver del d))).
Proof. unfold notHandedOver. destruct (negb _); simpl; repeat (split; [done|]); [done|apply NotHandedOver_ok]. Qed.

Lemma drop_ok sm pend x x' del reason r :
  run_ok sm (del :: pend) x r -> x <= x' + maxAttempts (disp r) ->
  reason ∈ [queue_full; no_sender; exhausted] -> run_ok sm pend x' (drop del reason r).
Proof.
  intros [H1 H2 H3 H4 H5 H6 H7] Hx Hr. destruct (notHandedOver_fields del (disp r)) as (_ & Em & _ & _ & _ & Hl).
  constructor; simpl.
  - rewrite map_app. simpl. rewrite H1. simpl. rewrite app_assoc, (Permutation_app_comm _ [del]). done.
  - rewrite List.filter_app. simpl. by rewrite app_nil_r.
  - rewrite Em, length_app. simpl. lia.
  - apply Forall_app. split; [done|]. constructor; [by right|constructor].
  - done.
  - by apply Hl.
  - intros e k. rewrite List.filter_app. simpl. rewrite app_nil_r.
    pose proof (notHandedOver_count del (disp r) e k) as Hn. specialize (H7 e k).
    rewrite number_app, number_cons in H7. rewrite number_app. lia.
Qed.

Lemma bound_not_dropped sm pend x del r : run_ok sm (del :: pend) x r -> boundOrDefault del <> OutcomeDropped.
Proof.
  intros H. pose proof (ro_bound _ _ _ _ H) as Hb. rewrite Forall_forall in Hb. apply Hb.
  rewrite (ro_conserved _ _ _ _ H). by left.
Qed.

(** One attempt of the delivery in hand. *)
Lemma attempt_once_ok sm pend n send del r returned r' :
  run_ok sm (del :: pend) (n - 1) r -> 1 <= n <= maxAttempts (disp r) ->
  attempt_once send del n r = (returned, r') ->
  (if returned then run_ok sm pend 0 r' else run_ok sm (del :: pend) n r' /\ n + 1 <= maxAttempts (disp r')) /\
  maxPending (disp r') = maxPending (disp r) /\ maxAttempts (disp r') = maxAttempts (disp r) /\
  queue (disp r') = queue (disp r) /\ closed (disp r') = closed (disp r) /\ (dropped_ok r -> dropped_ok r').
Proof.
  intros Hok Hn. unfold attempt_once. destruct (send del (world r)) as [ok s'].
  pose proof (bound_not_dropped _ _ _ _ _ Hok) as Hb. destruct Hok as [H1 H2 H3 H4 H5 H6 H7].
  set (r1 := mkRun (disp r) s' (records r) (sends r ++ [(del, ok)]) (slept r)).
  destruct ok.
  - intros [= <- <-]. split; [|unfold dropped_ok, number; simpl; rewrite List.filter_app, app_nil_r; done].
    assert (Hh : handed (mkRecord del (boundOrDefault del) "") = true) by (unfold handed; by rewrite bool_decide_false).
    constructor; simpl.
    + rewrite map_app. simpl. rewrite H1. simpl. rewrite app_assoc, (Permutation_app_comm _ [del]). done.
    + rewrite !List.filter_app, !map_app, H2. simpl. by rewrite Hh.
    + rewrite !length_app. simpl. lia.
    + apply Forall_app. split; [done|]. constructor; [by left|constructor].
    + done.
    + done.
    + intros e k. rewrite List.filter_app, map_app. simpl. rewrite Hh. simpl. specialize (H7 e k).
      rewrite !number_app, number_cons in *. simpl. unfold number at 3. simpl. lia.
  - assert (Hr1 : run_ok sm (del :: pend) n r1).
    { constructor; simpl; try done; [rewrite List.filter_app, map_app; simpl; by rewrite app_nil_r|].
      rewrite length_app. simpl. lia. }
    destruct (notHandedOver_fields del (disp r)) as (E1 & E2 & E3 & E4 & E5 & _).
    change (maxAttempts (disp r1)) with (maxAttempts (disp r)). destruct (Z.eqb_spec n (maxAttempts (disp r))) as [En|En].
    + intros [= <- <-]. split; [|simpl; rewrite E1, E2, E3, E5; repeat (split; [done|])].
      * apply (drop_ok _ _ n); [done|simpl; lia|]. set_solver.
      * unfold dropped_ok, number. simpl. rewrite List.filter_app, E4. simpl. by rewrite app_nil_r.
    + intros [= <- <-]. destruct (0 <? backoff _).
      * split; [|done]. split; [|simpl; lia]. destruct Hr1. by constructor.
      * split; [|done]. split; [done|simpl; lia].
Qed.

Lemma enqueue_one_ok sm pend x del r :
  run_ok sm (del :: pend ++ queue (disp r)) x r -> config_ok (disp r) -> dropped_ok r ->
  run_ok sm (pend ++ queue (disp (enqueue_one r del))) x (enqueue_one r del) /\
  config_ok (disp (enqueue_one r del)) /\ dropped_ok (enqueue_one r del) /\
  maxAttempts (disp (enqueue_one r del)) = maxAttempts (disp r).
Proof.
  intros Hok (Hp & Ha & Hq) Hd. unfold enqueue_one. destruct (Z.ltb_spec (Z.of_nat (length (queue (disp r)))) (maxPending (disp r))) as [Hlt|Hge].
  - split; [|split; [unfold config_ok; simpl; rewrite length_app; simpl; lia|done]].
    apply (run_ok_disp _ _ _ r); [|done|apply (ro_ledger _ _ _ _ Hok)|intros; simpl; lia].
    eapply run_ok_perm; [|exact Hok]. simpl. rewrite app_assoc, (Permutation_app_comm _ [del]). done.
  - set (r1 := on_disp _ r). destruct (notHandedOver_fields del (disp r1)) as (E1 & E2 & E3 & E4 & E5 & _).
    unfold drop, record. cbn [disp on_disp records]. change (disp (on_disp (notHandedOver del) r1)) with (notHandedOver del (disp r1)). rewrite E3. split; [|split; [unfold config_ok; rewrite E1, E2, E3; done|split; [|exact E2]]].
    + assert (run_ok sm (del :: pend ++ queue (disp r)) x r1) as Hr1.
      { apply (run_ok_disp _ _ _ r); [done|done|apply (ro_ledger _ _ _ _ Hok)|intros; simpl; lia]. }
      apply (drop_ok _ _ x); [done|simpl; lia|by left].
    + unfold dropped_ok in *. cbn [disp records]. rewrite E4. unfold r1. cbn [disp on_disp set_dropped dropped records]. rewrite Hd, number_app, wrap64_wrap64_add, Nat2Z.inj_add. done.

Qed.

Lemma drop_no_sender_fields del r :
  maxPending (disp (drop del no_sender r)) = maxPending (disp r) /\
  maxAttempts (disp (drop del no_sender r)) = maxAttempts (disp r) /\
  queue (disp (drop del no_sender r)) = queue (disp r) /\ closed (disp (drop del no_sender r)) = closed (disp r) /\
  (dropped_ok r -> dropped_ok (drop del no_sender r)).
Proof.
  destruct (notHandedOver_fields del (disp r)) as (E1 & E2 & E3 & E4 & E5 & _). unfold drop. simpl.
  rewrite E1, E2, E3, E5. repeat (split; [done|]). unfold dropped_ok, number. simpl. rewrite List.filter_app, E4. simpl.
  by rewrite app_nil_r.
Qed.

Lemma serve_ok sm pend n del r b' r' :
  run_ok sm (del :: pend) (n - 1) r -> 1 <= n <= maxAttempts (disp r) -> serve del n r = (b', r') ->
  run_ok sm (match b' with Some (d, _) => [d] | None => [] end ++ pend)
    (match b' with Some (_, m) => m - 1 | None => 0 end) r' /\
  match b' with Some (d, m) => d = del /\ 1 <= m <= maxAttempts (disp r') | None => True end /\
  maxPending (disp r') = maxPending (disp r) /\ maxAttempts (disp r') = maxAttempts (disp r) /\
  queue (disp r') = queue (disp r) /\ closed (disp r') = closed (disp r) /\ (dropped_ok r -> dropped_ok r').
Proof.
  intros Hok Hn. unfold serve. destruct (sender _) as [send|].
  - destruct (attempt_once send del n r) as [returned r1] eqn:E. intros [= <- <-].
    destruct (attempt_once_ok _ _ _ _ _ _ _ _ Hok Hn E) as (Ho & Hrest). destruct returned.
    + split; [done|]. split; [done|]. exact Hrest.
    + destruct Ho as [Ho Hle]. split; [|split; [split; [done|lia]|exact Hrest]].
      simpl. by replace (n + 1 - 1) with n by lia.
  - intros [= <- <-]. split; [|split; [done|apply drop_no_sender_fields]].
    apply (drop_ok _ _ (n - 1)); [done|simpl; lia|]. set_solver.
Qed.

Lemma classify_ok sm pend x r sub note del d :
  run_ok sm pend x r -> classified sub note (disp r) = (del, d) ->
  run_ok (sm ++ [del]) (del :: pend) x (on_disp (fun _ => d) r) /\
  maxPending d = maxPending (disp r) /\ maxAttempts d = maxAttempts (disp r) /\ queue d = queue (disp r) /\
  dropped d = dropped (disp r).
Proof.
  intros [H1 H2 H3 H4 H5 H6 H7]. unfold classified.
  pose proof (Classify_ok (s_Provider sub, s_Token sub) (n_CollapseKey note) (ledger (disp r)) H6) as Hl.
  pose proof (fun e k => Classify_count (s_Provider sub, s_Token sub) (n_CollapseKey note) (ledger (disp r)) e k H6) as Hc.
  pose proof (Classify_outcome (s_Provider sub, s_Token sub) (n_CollapseKey note) (ledger (disp r))) as Ho.
  destruct (Classify _ _ _) as [b l]. simpl in *. intros [= <- <-]. split; [|done]. constructor; simpl.
  - rewrite H1. by rewrite (Permutation_app_comm _ [_]).
  - done.
  - lia.
  - done.
  - apply Forall_app. split; [done|]. constructor; [|constructor]. unfold boundOrDefault. simpl. done.
  - done.
  - intros e k. rewrite number_cons. etransitivity; [apply Hc|]. specialize (H7 e k).
    unfold counts at 1, boundOrDefault, endpoint_of. simpl. unfold hit in *.
    destruct (bool_decide (b = OutcomeHandedOver)); simpl; lia.
Qed.
End Invariant.

Section Reach.
Context {S : Type} `{Snd : Senders S}.

Lemma sys_step_ok (y y' : Sys S) : sys_ok y -> sys_step y y' -> sys_ok y'.
Proof.
  intros [Hr (Hp & Ha & Hq) Hb Hd] Hs.
  destruct Hs as [sub note r ws b sm del d Hc|r ws ws' del b sm Hcl|r ws del q sm Eq|r ws del n b' r' sm Ev|p t r ws b sm|p t r ws b sm|r ws b sm];
    cbn [run_of waiting busy submitted] in *; unfold busy_list in *; cbn [busy] in *.
  - destruct (classify_ok _ _ _ _ _ _ _ _ Hr Hc) as (Ho & E1 & E2 & E3 & E4). simpl in Ho.
    constructor; unfold config_ok, dropped_ok, busy_list; cbn [disp on_disp run_of waiting busy submitted records];
      rewrite ?E1, ?E2, ?E3, ?E4; try done.
    eapply run_ok_perm; [|exact Ho]. rewrite <- app_assoc. simpl. apply Permutation_middle.
  - destruct (enqueue_one_ok sm (ws ++ ws' ++ match b with Some (d, _) => [d] | None => [] end)
      (match b with Some (_, n) => n - 1 | None => 0 end) del r) as (Ho & Hc & Hd' & Em); [|done|done|].
    { eapply run_ok_perm; [|exact Hr]. solve_Permutation. }
    constructor; unfold busy_list; cbn [run_of waiting busy submitted]; try done; [|by rewrite Em].
    eapply run_ok_perm; [|exact Ho]. solve_Permutation.
  - constructor; unfold busy_list, config_ok; cbn [run_of waiting busy submitted disp on_disp set_queue queue maxPending maxAttempts]; try done.
    + apply (run_ok_disp _ _ _ r); [|done|apply (ro_ledger _ _ _ _ Hr)|intros; simpl; lia].
      eapply run_ok_perm; [|exact Hr]. rewrite Eq. solve_Permutation.
    + rewrite Eq in Hq. simpl in Hq. lia.
  - destruct (serve_ok sm (ws ++ queue (disp r)) n del r b' r') as (Ho & Hm & E1 & E2 & E3 & E4 & Hd'); [|done|done|].
    { eapply run_ok_perm; [|exact Hr]. solve_Permutation. }
    constructor; unfold busy_list, config_ok; cbn [run_of waiting busy submitted]; rewrite ?E1, ?E2, ?E3; auto.
    + eapply run_ok_perm; [|exact Ho]. rewrite ?E3. solve_Permutation.
    + destruct b' as [[d m]|]; [|done]. rewrite <- E2. apply Hm.
  - constructor; try done. apply (run_ok_disp _ _ _ r); [done|done|apply forget_ok, (ro_ledger _ _ _ _ Hr)|intros; apply forget_count].
  - constructor; try done. apply (run_ok_disp _ _ _ r); [done|done|apply forget_ok, (ro_ledger _ _ _ _ Hr)|intros; apply forget_count].
  - constructor; try done. apply (run_ok_disp _ _ _ r); [done|done|apply (ro_ledger _ _ _ _ Hr)|intros; simpl; lia].
Qed.

(** What the options leave of the defaults. *)
Lemma NewDispatcher_spec opts : Forall DispatcherOption opts ->
  let d := NewDispatcher opts in
  1 <= maxPending d /\ 1 <= maxAttempts d /\ queue d = [] /\ ledger d = NewDeliveryLedger /\ dropped d = 0 /\ closed d = false.
Proof.
  unfold NewDispatcher. set (d0 := mkDispatcher _ _ _ _ _ _ _).
  assert (H0 : 1 <= maxPending d0 /\ 1 <= maxAttempts d0 /\ queue d0 = [] /\ ledger d0 = NewDeliveryLedger /\ dropped d0 = 0 /\ closed d0 = false)
    by (repeat split; simpl; unfold DefaultMaxPending, defaultMaxAttempts; lia).
  clearbody d0. revert d0 H0. induction opts as [|o opts IH]; intros d (H1 & H2 & H3 & H4 & H5 & H6); [done|].
  intros [Ho Hopts]%Forall_cons. cbn [fold_left]. apply IH; [|done]. destruct Ho as [n|n|b]; simpl; repeat split; try done.
  - destruct (Z.ltb_spec n 1); lia.
  - destruct (Z.ltb_spec n 1); lia.
Qed.

Lemma start_ok opts (s : S) : Forall DispatcherOption opts -> sys_ok (start opts s).
Proof.
  intros Hopts. destruct (NewDispatcher_spec opts Hopts) as (H1 & H2 & H3 & H4 & H5 & H6).
  constructor; unfold start, busy_list, config_ok; cbn [run_of waiting busy submitted disp]; rewrite ?H3; try done.
  - constructor; simpl; rewrite ?H4; [done|done|lia|done|done|apply (Reset_ok NewDeliveryLedger)|].
    intros e k. unfold pending_count. simpl. rewrite !lookup_empty. simpl. rewrite lookup_empty. simpl. lia.
  - simpl. lia.
Qed.

Lemma reachable_sys_ok opts (s : S) y : Forall DispatcherOption opts -> reachable opts s y -> sys_ok y.
Proof.
  intros Hopts Hr. assert (H0 := start_ok opts s Hopts). unfold reachable in Hr. revert H0.
  induction Hr as [|x y z Hxy _ IH]; [done|]. intros Hx. apply IH. by apply (sys_step_ok x).
Qed.

(** C18: no delivery is lost, recorded twice or claimed.  Whatever the notifiers, the
    worker, the registrations and the backends do, in any interleaving and for any
    options: every submitted delivery is waiting for the queue, in the queue, in the
    worker's hand or has exactly one outcome record; the queue never exceeds its cap;
    the deliveries some backend accepted are, in order and once each, exactly the
    ones whose record is not [dropped], and their record is the classification made
    at enqueue; the worker attempts a delivery at most [maxAttempts] times; and the
    drop counter is the number of queue-full records. *)
Theorem deliveries_conserved (opts : list (Dispatcher -> Dispatcher)) (s : S) (y : Sys S) :
  Forall DispatcherOption opts -> reachable opts s y ->
  submitted y ≡ₚ (waiting y ++ queue (disp (run_of y)) ++ busy_list y) ++ map or_delivery (records (run_of y)) /\
  Z.of_nat (length (queue (disp (run_of y)))) <= maxPending (disp (run_of y)) /\
  map fst (List.filter snd (sends (run_of y))) = map or_delivery (List.filter handed (records (run_of y))) /\
  Forall record_ok (records (run_of y)) /\
  Z.of_nat (length (sends (run_of y))) <=
    maxAttempts (disp (run_of y)) * Z.of_nat (length (records (run_of y)) + length (busy_list y)) /\
  dropped (disp (run_of y)) =
    wrap64 (Z.of_nat (number (fun x => String.eqb (or_reason x) queue_full) (records (run_of y)))).
Proof.
  intros Hopts Hr. destruct (reachable_sys_ok _ _ _ Hopts Hr) as [Ho (Hp & Ha & Hq) Hb Hd]. destruct Ho as [H1 H2 H3 H4 H5 H6 H7].
  split; [done|]. split; [done|]. split; [done|]. split; [done|]. split; [|done].
  unfold busy_list in *. destruct (busy y) as [[d n]|]; simpl; lia.
Qed.

(** Deliveries with no [dropped] record. *)
Definition live (y : Sys S) : list Delivery :=
  (waiting y ++ queue (disp (run_of y)) ++ busy_list y ++ map or_delivery (List.filter handed (records (run_of y))))%list.

(** The ledger only ever under-claims.  In every reachable state the count
    pending under an endpoint and a collapse key is at most the number of deliveries
    to that endpoint under that key that were classified as handed over and have not
    been dropped; so whenever a crossing is classified beyond the collapse bound,
    there are four distinct keys under each of which such a delivery exists. *)
Theorem ledger_never_overclaims (opts : list (Dispatcher -> Dispatcher)) (s : S) (y : Sys S) :
  Forall DispatcherOption opts -> reachable opts s y ->
  (forall e k, (pending_count (ledger (disp (run_of y))) e k <= number (counts e k) (live y))%nat) /\
  (forall e k, fst (Classify e k (ledger (disp (run_of y)))) = OutcomeBeyondCollapseBound ->
     exists keys : list string, NoDup keys /\ length keys = CollapseKeyBound /\
       forall k', k' ∈ keys -> exists d, d ∈ live y /\ counts e k' d = true).
Proof.
  intros Hopts Hr. pose proof (so_run _ (reachable_sys_ok _ _ _ Hopts Hr)) as Ho.
  assert (Hc : forall e k, (pending_count (ledger (disp (run_of y))) e k <= number (counts e k) (live y))%nat).
  { intros e k. etransitivity; [apply (ro_count _ _ _ _ Ho)|]. unfold live. by rewrite <- !app_assoc. }
  split; [done|]. intros e k Hb. destruct (beyond_keys e k _ (ro_ledger _ _ _ _ Ho) Hb) as (keys & Hn & Hl & Hk).
  exists keys. split; [done|]. split; [done|]. intros k' Hin. specialize (Hk k' Hin). specialize (Hc e k').
  unfold pending_count in Hc. destruct (List.filter (counts e k') (live y)) as [|d l] eqn:E.
  - unfold number in Hc. rewrite E in Hc. simpl in Hc. lia.
  - exists d. apply elem_of_filter_b. rewrite E. by left.
Qed.

(* ---- the code's loops are runs of the step relation ---- *)

Lemma attempt_once_fields send del n (r r' : Run S) returned : attempt_once send del n r = (returned, r') ->
  maxAttempts (disp r') = maxAttempts (disp r) /\ queue (disp r') = queue (disp r) /\ closed (disp r') = closed (disp r) /\
  (returned = false -> n <> maxAttempts (disp r)).
Proof.
  unfold attempt_once. destruct (send del (world r)) as [ok s'].
  destruct (notHandedOver_fields del (disp r)) as (E1 & E2 & E3 & E4 & E5 & _).
  destruct ok; [by intros [= <- <-]|]. simpl. destruct (Z.eqb_spec n (maxAttempts (disp r))) as [En|En].
  - intros [= <- <-]. simpl. by rewrite E2, E3, E5.
  - intros [= <- <-]. by destruct (0 <? backoff (disp r)).
Qed.

Lemma deliver_loop_steps fuel send del ws sm : sender (s_Provider (dl_Sub del)) = Some send ->
  forall n (r : Run S), 1 <= n <= maxAttempts (disp r) -> maxAttempts (disp r) - n < Z.of_nat fuel ->
  rtc sys_step (mkSys r ws (Some (del, n)) sm) (mkSys (deliver_loop fuel send del n r) ws None sm) /\
  maxAttempts (disp (deliver_loop fuel send del n r)) = maxAttempts (disp r) /\
  queue (disp (deliver_loop fuel send del n r)) = queue (disp r) /\
  closed (disp (deliver_loop fuel send del n r)) = closed (disp r).
Proof.
  intros Hs. induction fuel as [|f IH]; intros n r Hn Hf; [lia|]. cbn [deliver_loop].
  destruct (Z.leb_spec n (maxAttempts (disp r))); [|lia].
  destruct (attempt_once send del n r) as [returned r'] eqn:E.
  destruct (attempt_once_fields _ _ _ _ _ _ E) as (Em & Eq & Ec & Hret).
  assert (Hstep : sys_step (mkSys r ws (Some (del, n)) sm) (mkSys r' ws (if returned then None else Some (del, n + 1)) sm)).
  { apply step_serve. unfold serve. by rewrite Hs, E. }
  destruct returned; [split; [by apply rtc_once|done]|].
  destruct (IH (n + 1) r') as (Hr & Hm & Hq & Hc); [specialize (Hret eq_refl); lia|lia|].
  split; [by eapply rtc_l|]. rewrite Hm, Hq, Hc. done.
Qed.

Lemma deliver_from_steps n del ws sm (r : Run S) : 1 <= n <= maxAttempts (disp r) ->
  rtc sys_step (mkSys r ws (Some (del, n)) sm) (mkSys (deliver_from n del r) ws None sm) /\
  maxAttempts (disp (deliver_from n del r)) = maxAttempts (disp r) /\
  queue (disp (deliver_from n del r)) = queue (disp r) /\ closed (disp (deliver_from n del r)) = closed (disp r).
Proof.
  intros Hn. unfold deliver_from. destruct (sender (s_Provider (dl_Sub del))) as [send|] eqn:E.
  - apply deliver_loop_steps; [done|done|lia].
  - split; [apply rtc_once, step_serve; unfold serve; by rewrite E|].
    destruct (drop_no_sender_fields del r) as (_ & E2 & E3 & E4 & _). done.
Qed.

Lemma run_steps n ws sm : forall r : Run S, 1 <= maxAttempts (disp r) -> (length (queue (disp r)) <= n)%nat ->
  rtc sys_step (mkSys r ws None sm) (mkSys (run n r) ws None sm) /\
  queue (disp (run n r)) = [] /\ closed (disp (run n r)) = closed (disp r).
Proof.
  induction n as [|n IH]; intros r Hm Hl; cbn [run].
  - split; [done|]. destruct (queue (disp r)); [done|simpl in Hl; lia].
  - destruct (queue (disp r)) as [|del q] eqn:Eq; [done|]. simpl in Hl.
    set (r1 := on_disp (set_queue q) r). destruct (deliver_from_steps 1 del ws sm r1) as (Hr & E1 & E2 & E3); [simpl; lia|].
    destruct (IH (deliver del r1)) as (Hr' & Hq & Hc); [unfold deliver; rewrite E1; done|unfold deliver; rewrite E2; simpl; lia|].
    split; [|split; [done|rewrite Hc; exact E3]].
    eapply rtc_l; [by apply step_take|]. etransitivity; [exact Hr|exact Hr'].
Qed.

Lemma enqueue_one_closed del (r : Run S) : closed (disp (enqueue_one r del)) = closed (disp r).
Proof.
  unfold enqueue_one. destruct (_ <? _); [done|]. set (r1 := on_disp _ r).
  by destruct (notHandedOver_fields del (disp r1)) as (_ & _ & _ & _ & E5 & _).
Qed.

Lemma Enqueue_steps dels ws0 ws b sm : forall r : Run S, closed (disp r) = false ->
  rtc sys_step (mkSys r (ws0 ++ dels ++ ws) b sm) (mkSys (Enqueue dels r) (ws0 ++ ws) b sm).
Proof.
  induction dels as [|del dels IH]; intros r Hc; [done|].
  eapply rtc_l; [apply (step_enqueue r ws0 (dels ++ ws) del b sm Hc)|]. apply IH. by rewrite enqueue_one_closed.
Qed.

(** C38: a clean shutdown discards nothing.  Once every classified delivery has been
    offered to the queue, [Close] - which lets the worker finish the delivery it
    holds and drain the rest - comes to an end with the queue empty, in a state the
    interleaving relation reaches, where every delivery ever submitted has exactly
    one outcome record, after at most [maxAttempts] sends for each. *)
Theorem Close_drains (opts : list (Dispatcher -> Dispatcher)) (s : S) (y : Sys S) :
  Forall DispatcherOption opts -> reachable opts s y -> waiting y = [] ->
  let r := Close (busy y) (run_of y) in
  queue (disp r) = [] /\ closed (disp r) = true /\
  submitted y ≡ₚ map or_delivery (records r) /\
  map fst (List.filter snd (sends r)) = map or_delivery (List.filter handed (records r)) /\
  Z.of_nat (length (sends r)) <= maxAttempts (disp r) * Z.of_nat (length (records r)) /\
  reachable opts s (mkSys r [] None (submitted y)).
Proof.
  intros Hopts Hr Hw. cbv zeta. destruct (reachable_sys_ok _ _ _ Hopts Hr) as [_ (_ & Ha & _) Hb _].
  destruct y as [r ws b sm]. simpl in Hw. subst ws. cbn [run_of busy submitted] in *. unfold Close.
  set (r0 := on_disp set_closed r).
  assert (Hr0 : reachable opts s (mkSys r0 [] b sm)) by (eapply rtc_r; [exact Hr|apply step_close]).
  set (r1 := match b with Some (del, n) => deliver_from n del r0 | None => r0 end).
  assert (H1 : reachable opts s (mkSys r1 [] None sm) /\ maxAttempts (disp r1) = maxAttempts (disp r) /\ closed (disp r1) = true).
  { unfold r1. destruct b as [[del n]|]; [|done].
    destruct (deliver_from_steps n del [] sm r0) as (Hs & E1 & _ & E3); [simpl; lia|].
    split; [unfold reachable in *; by etransitivity|]. by rewrite E1, E3. }
  destruct H1 as (H1 & Em & Ec). destruct (run_steps (length (queue (disp r1))) [] sm r1) as (Hs & Hq & Hc); [lia|lia|].
  set (r2 := run _ r1) in *. assert (H2 : reachable opts s (mkSys r2 [] None sm)) by (unfold reachable in *; by etransitivity).
  destruct (so_run _ (reachable_sys_ok _ _ _ Hopts H2)) as [G1 G2 G3 _ _ _ _].
  unfold busy_list in *. cbn [run_of waiting busy submitted] in *. rewrite Hq in *. simpl in *.
  split; [done|]. split; [by rewrite Hc|]. split; [done|]. split; [done|]. split; [lia|done].
Qed.
End Reach.

(* ------------------------------------------------------------------ *)
(** ** A deployment with one flaky backend *)

(** Every third send of the fcm sender is accepted; there is no other sender. *)
#[export] Instance flaky : Senders nat := {|
  sender := fun p => if String.eqb p "fcm" then Some (fun _ n => (Nat.eqb (n mod 3) 2, Datatypes.S n)) else None |}.

Definition sub_fcm : Subscription := mkSubscription "fcm" "tok".
Definition sub_other : Subscription := mkSubscription "unifiedpush" "https://u".
Definition note (key : string) : Notification := mkNotification "t" "b" key ∅.

(** Classify and enqueue one delivery, nothing else running. *)
Definition submit (y : Sys nat) (sk : Subscription * string) : Sys nat :=
  let '(del, d) := classified (fst sk) (note (snd sk)) (disp (run_of y)) in
  mkSys (enqueue_one (on_disp (fun _ => d) (run_of y)) del) (waiting y) (busy y) (submitted y ++ [del]).

Lemma submit_steps sk y : closed (disp (run_of y)) = false -> waiting y = [] ->
  rtc sys_step y (submit y sk) /\ closed (disp (run_of (submit y sk))) = false /\ waiting (submit y sk) = [].
Proof.
  destruct y as [r ws b sm], sk as [sub key]. simpl. intros Hc ->. unfold submit. simpl.
  destruct (classified sub (note key) (disp r)) as [del d] eqn:E. simpl.
  assert (Hd : closed d = false) by (unfold classified in E; destruct (Classify _ _ _); injection E as _ <-; done).
  split; [|rewrite enqueue_one_closed; done].
  eapply rtc_l; [by apply (step_classify sub (note key))|]. apply rtc_once, (step_enqueue _ [] []). done.
Qed.

Lemma submit_all_steps sks : forall y, closed (disp (run_of y)) = false -> waiting y = [] ->
  rtc sys_step y (fold_left submit sks y) /\ waiting (fold_left submit sks y) = [].
Proof.
  induction sks as [|sk sks IH]; intros y Hc Hw; [done|]. simpl.
  destruct (submit_steps sk y Hc Hw) as (Hs & Hc' & Hw'). destruct (IH _ Hc' Hw') as [Hr Hq].
  split; [by etransitivity|done].
Qed.

Definition demo_opts : list (Dispatcher -> Dispatcher) := [WithMaxPending 6; WithMaxAttempts 2].

(** Five crossings at the phone, one at an endpoint without a sender, one too many. *)
Definition demo : Sys nat :=
  fold_left submit [(sub_fcm, "a"); (sub_fcm, "b"); (sub_fcm, "c"); (sub_other, "a"); (sub_fcm, "d"); (sub_fcm, "e"); (sub_fcm, "f")]
    (start demo_opts 0%nat).

Lemma demo_options : Forall DispatcherOption demo_opts.
Proof. repeat constructor. Qed.

Lemma demo_reachable : reachable demo_opts 0%nat demo.
Proof. apply submit_all_steps; reflexivity. Qed.

Lemma demo_waiting : waiting demo = [].
Proof. apply submit_all_steps; reflexivity. Qed.

Definition demo_end : Run nat := Close (busy demo) (run_of demo).

Lemma demo_outcomes :
  map (fun r => (n_CollapseKey (dl_Note (or_delivery r)), or_outcome r, or_reason r)) (records demo_end) =
  [("f", OutcomeDropped, queue_full); ("a", OutcomeDropped, exhausted); ("b", OutcomeHandedOver, "");
   ("c", OutcomeDropped, exhausted); ("a", OutcomeDropped, no_sender); ("d", OutcomeHandedOver, "");
   ("e", OutcomeDropped, exhausted)].
Proof. vm_compute. reflexivity. Qed.

Lemma deliveries_conserved_witness :
  submitted demo ≡ₚ (waiting demo ++ queue (disp (run_of demo)) ++ busy_list demo) ++ map or_delivery (records (run_of demo)) /\
  length (queue (disp (run_of demo))) = 6%nat /\ dropped (disp (run_of demo)) = 1.
Proof.
  split; [apply (deliveries_conserved demo_opts 0%nat demo demo_options demo_reachable)|].
  split; vm_compute; reflexivity.
Defined.

Lemma ledger_never_overclaims_witness :
  exists keys : list string, NoDup keys /\ length keys = CollapseKeyBound /\
    forall k', k' ∈ keys -> exists d, d ∈ live demo /\ counts ("fcm", "tok") k' d = true.
Proof.
  apply (proj2 (ledger_never_overclaims demo_opts 0%nat demo demo_options demo_reachable) ("fcm", "tok") "g").
  vm_compute. reflexivity.
Defined.

Lemma Close_drains_witness :
  submitted demo ≡ₚ map or_delivery (records demo_end) /\ length (sends demo_end) = 8%nat.
Proof.
  split; [apply (Close_drains demo_opts 0%nat demo demo_options demo_reachable demo_waiting)|].
  vm_compute. reflexivity.
Defined.
