(* ===== verification/Json.v ===== *)
(** [encoding/json] as the source uses it: the values handlers and senders write,
    the encoder's text for them (HTML-escaped strings, object keys as given, maps
    sorted by key), and the decoder: a scanner for one value at the front of the
    input, and the decoding of an object into a struct of optional fields, with
    Go's matching of names (exactly, or else up to ASCII case) and its rule that
    the last occurrence wins.  The shortest-decimal formatting of floats and the
    reading of decimal floats are the library's strconv algorithms, fields of the
    class [FloatJson].  [ms_json] renders Go's [map[string]string]. *)

From Stdlib Require Import ZArith Lia Bool String Ascii List SpecFloat.
From stdpp Require Import base option list strings gmap.
From S2P Require Import Prelude GoStrings.
Local Open Scope string_scope.
Local Open Scope Z_scope.

Inductive json :=
| JNull
| JBool (b : bool)
| JInt (z : Z)
| JFloat (f : float64)
| JNumber (literal : string)          (* a decoded number, still text *)
| JStr (s : string)
| JRaw (text : string)                (* json.RawMessage *)
| JArr (l : list json)
| JObj (fields : list (string * json)).

Class FloatJson := {
  float_json : float64 -> string;     (* a finite value's JSON text *)
  ParseFloat : string -> option float64 }.

(* ------------------------------------------------------------------ *)
(** ** UTF-8 *)

Definition cont (lo hi : Z) (c : ascii) : bool := (lo <=? code c) && (code c <=? hi).
Definition tail_bits (c : ascii) : Z := code c - 128.

(** [utf8.DecodeRune]: the rune and its width, or RuneError and 1. *)
Definition decode_rune (l : list ascii) : Z * nat :=
  let bad := (65533, 1%nat) in
  match l with
  | [] => (65533, O)
  | a :: r =>
      let b0 := code a in
      if b0 <? 128 then (b0, 1%nat)
      else if (194 <=? b0) && (b0 <=? 223) then
        match r with b :: _ => if cont 128 191 b then ((b0 - 192) * 64 + tail_bits b, 2%nat) else bad | _ => bad end
      else if (224 <=? b0) && (b0 <=? 239) then
        match r with
        | b :: c :: _ =>
            if cont (if b0 =? 224 then 160 else 128) (if b0 =? 237 then 159 else 191) b && cont 128 191 c
            then ((b0 - 224) * 4096 + tail_bits b * 64 + tail_bits c, 3%nat) else bad
        | _ => bad
        end
      else if (240 <=? b0) && (b0 <=? 244) then
        match r with
        | b :: c :: d :: _ =>
            if cont (if b0 =? 240 then 144 else 128) (if b0 =? 244 then 143 else 191) b && cont 128 191 c && cont 128 191 d
            then ((b0 - 240) * 262144 + tail_bits b * 4096 + tail_bits c * 64 + tail_bits d, 4%nat) else bad
        | _ => bad
        end
      else bad
  end.

(** [utf8.EncodeRune], surrogates and out-of-range runes as RuneError. *)
Definition encode_rune (r : Z) : list ascii :=
  let r := if (r <? 0) || (1114111 <? r) || ((55296 <=? r) && (r <=? 57343)) then 65533 else r in
  if r <? 128 then [byte_of r]
  else if r <? 2048 then [byte_of (192 + r / 64); byte_of (128 + r mod 64)]
  else if r <? 65536 then [byte_of (224 + r / 4096); byte_of (128 + r / 64 mod 64); byte_of (128 + r mod 64)]
  else [byte_of (240 + r / 262144); byte_of (128 + r / 4096 mod 64); byte_of (128 + r / 64 mod 64); byte_of (128 + r mod 64)].

(* ------------------------------------------------------------------ *)
(** ** Encoding *)

Definition quote : ascii := ascii_of_nat 34.
Definition backslash : ascii := ascii_of_nat 92.

Definition hex1 (v : Z) : ascii := if v <? 10 then byte_of (48 + v) else byte_of (87 + v).
Definition u_escape (v : Z) : list ascii :=
  [backslash; "u"%char; hex1 (v / 4096); hex1 (v / 256 mod 16); hex1 (v / 16 mod 16); hex1 (v mod 16)].

Definition escape_byte (c : ascii) : list ascii :=
  let v := code c in
  if (v =? 34) || (v =? 92) then [backslash; c]
  else if v =? 8 then [backslash; "b"%char] else if v =? 12 then [backslash; "f"%char]
  else if v =? 10 then [backslash; "n"%char] else if v =? 13 then [backslash; "r"%char]
  else if v =? 9 then [backslash; "t"%char]
  else if (v <? 32) || (v =? 60) || (v =? 62) || (v =? 38) then u_escape v
  else [c].

Fixpoint escape (fuel : nat) (l : list ascii) : list ascii :=
  match fuel, l with
  | S f, c :: r =>
      if code c <? 128 then escape_byte c ++ escape f r
      else let '(rune, n) := decode_rune l in
           if (n =? 1)%nat then u_escape 65533 ++ escape f r
           else if (rune =? 8232) || (rune =? 8233) then u_escape rune ++ escape f (skipn n l)
           else firstn n l ++ escape f (skipn n l)
  | _, _ => []
  end.

Definition encode_string (s : string) : list ascii :=
  let l := to_list s in quote :: escape (List.length l) l ++ [quote].

Fixpoint commas (ls : list (list ascii)) : list ascii :=
  match ls with
  | [] => []
  | [l] => l
  | l :: rest => l ++ ","%char :: commas rest
  end.

Section Encode.
Context `{F : FloatJson}.

(** [json.Marshal]; a NaN or an infinity is an error. *)
Fixpoint encode (j : json) : option (list ascii) :=
  match j with
  | JNull => Some (to_list "null")
  | JBool b => Some (to_list (if b then "true" else "false"))
  | JInt z => Some (to_list (Itoa z))
  | JFloat f => if f_isNaN f || f_isInf f then None else Some (to_list (float_json f))
  | JNumber t | JRaw t => Some (to_list t)
  | JStr s => Some (encode_string s)
  | JArr l =>
      match (fix go (l : list json) : option (list (list ascii)) :=
               match l with
               | [] => Some []
               | x :: r => match encode x, go r with Some t, Some ts => Some (t :: ts) | _, _ => None end
               end) l with
      | Some ts => Some ("["%char :: commas ts ++ ["]"%char])
      | None => None
      end
  | JObj fs =>
      match (fix go (l : list (string * json)) : option (list (list ascii)) :=
               match l with
               | [] => Some []
               | (k, x) :: r =>
                   match encode x, go r with
                   | Some t, Some ts => Some ((encode_string k ++ ":"%char :: t)%list :: ts)
                   | _, _ => None
                   end
               end) fs with
      | Some ts => Some ("{"%char :: commas ts ++ ["}"%char])
      | None => None
      end
  end.

Definition Marshal (j : json) : option string := option_map of_list (encode j).
End Encode.

(** A Go map's keys are written in byte order. *)
Definition ms_json (m : gmap string string) : json :=
  JObj (map (fun kv => (fst kv, JStr (snd kv))) (stable_sort (fun a b => str_ltb (fst a) (fst b)) (map_to_list m))).

(* ------------------------------------------------------------------ *)
(** ** Scanning *)

Definition json_ws (c : ascii) : bool := let v := code c in (v =? 32) || (v =? 9) || (v =? 10) || (v =? 13).
Fixpoint skip_ws (l : list ascii) : list ascii :=
  match l with c :: r => if json_ws c then skip_ws r else l | [] => [] end.

Definition hex_value (c : ascii) : option Z :=
  if is_digit c then Some (code c - 48)
  else if (97 <=? code c) && (code c <=? 102) then Some (code c - 87)
  else if (65 <=? code c) && (code c <=? 70) then Some (code c - 55)
  else None.

Definition hex4 (l : list ascii) : option (Z * list ascii) :=
  match l with
  | a :: b :: c :: d :: r =>
      match hex_value a, hex_value b, hex_value c, hex_value d with
      | Some a, Some b, Some c, Some d => Some (a * 4096 + b * 256 + c * 16 + d, r)
      | _, _, _, _ => None
      end
  | _ => None
  end.

(** A low surrogate escape right after a high one completes the rune. *)
Definition unescape_u (v : Z) (r : list ascii) : list ascii * list ascii :=
  if (55296 <=? v) && (v <=? 56319) then
    match r with
    | b :: u :: r' =>
        if Ascii.eqb b backslash && Ascii.eqb u "u"%char then
          match hex4 r' with
          | Some (w, r'') =>
              if (56320 <=? w) && (w <=? 57343)
              then (encode_rune ((v - 55296) * 1024 + (w - 56320) + 65536), r'')
              else (encode_rune 65533, r)
          | None => (encode_rune 65533, r)
          end
        else (encode_rune 65533, r)
    | _ => (encode_rune 65533, r)
    end
  else (encode_rune v, r).

(** The rest of a string literal after its opening quote: its value, what follows. *)
Fixpoint scan_string (fuel : nat) (l : list ascii) : option (list ascii * list ascii) :=
  match fuel, l with
  | S f, c :: r =>
      if Ascii.eqb c quote then Some ([], r)
      else if code c <? 32 then None
      else if Ascii.eqb c backslash then
        match r with
        | e :: r' =>
            let simple v := option_map (fun p => (byte_of v :: fst p, snd p)) (scan_string f r') in
            if Ascii.eqb e quote || Ascii.eqb e backslash || Ascii.eqb e "/"%char then simple (code e)
            else if Ascii.eqb e "b"%char then simple 8 else if Ascii.eqb e "f"%char then simple 12
            else if Ascii.eqb e "n"%char then simple 10 else if Ascii.eqb e "r"%char then simple 13
            else if Ascii.eqb e "t"%char then simple 9
            else if Ascii.eqb e "u"%char then
              match hex4 r' with
              | Some (v, r'') =>
                  let '(bytes, r3) := unescape_u v r'' in
                  option_map (fun p => ((bytes ++ fst p)%list, snd p)) (scan_string f r3)
              | None => None
              end
            else None
        | [] => None
        end
      else if code c <? 128 then option_map (fun p => (c :: fst p, snd p)) (scan_string f r)
      else let '(rune, n) := decode_rune l in
           option_map (fun p => ((encode_rune rune ++ fst p)%list, snd p)) (scan_string f (skipn n l))
  | _, _ => None
  end.

Fixpoint take_digits (l : list ascii) : list ascii * list ascii :=
  match l with
  | c :: r => if is_digit c then let '(d, r') := take_digits r in (c :: d, r') else ([], l)
  | [] => ([], [])
  end.

(** JSON's number grammar: no leading zero, at least one digit in each part. *)
Definition scan_number (l : list ascii) : option (list ascii * list ascii) :=
  let '(sign, l1) := match l with c :: r => if Ascii.eqb c "-"%char then ([c], r) else ([], l) | [] => ([], []) end in
  let '(int, l2) := take_digits l1 in
  match int with
  | [] => None
  | z :: more =>
      if Ascii.eqb z "0"%char && negb (match more with [] => true | _ => false end) then
        Some ((sign ++ [z])%list, (more ++ l2)%list)
      else
        let '(frac, l3) :=
          match l2 with
          | c :: r => if Ascii.eqb c "."%char then let '(d, r') := take_digits r in (Some (c :: d), r') else (Some [], l2)
          | [] => (Some [], [])
          end in
        let '(exp, l4) :=
          match l3 with
          | c :: r =>
              if Ascii.eqb c "e"%char || Ascii.eqb c "E"%char then
                let '(sg, r1) := match r with
                                 | s :: r0 => if Ascii.eqb s "+"%char || Ascii.eqb s "-"%char then ([s], r0) else ([], r)
                                 | [] => ([], [])
                                 end in
                let '(d, r') := take_digits r1 in ((c :: sg ++ d)%list, r')
              else ([], l3)
          | [] => ([], [])
          end in
        match frac with
        | Some [_] => None                                    (* a point and no digit *)
        | Some frac =>
            match exp with
            | [] => Some ((sign ++ int ++ frac)%list, l4)
            | _ => if is_digit (List.last exp "e"%char) then Some ((sign ++ int ++ frac ++ exp)%list, l4) else None
            end
        | None => None
        end
  end.

Definition literal (word : string) (j : json) (l : list ascii) : option (json * list ascii) :=
  match drop_prefix (to_list word) l with Some r => Some (j, r) | None => None end.

(** The nesting the library allows. *)
Definition maxNestingDepth : Z := 10000.

(** One value at the front of the input, inside [depth] open brackets. *)
Fixpoint scan (fuel : nat) (depth : Z) (l : list ascii) : option (json * list ascii) :=
  match fuel with
  | O => None
  | S f =>
      match skip_ws l with
      | [] => None
      | c :: r =>
          if (Ascii.eqb c "{"%char || Ascii.eqb c "["%char) && (maxNestingDepth <? depth + 1) then None
          else if Ascii.eqb c "{"%char then
            match skip_ws r with
            | d :: r' => if Ascii.eqb d "}"%char then Some (JObj [], r') else scan_fields f (depth + 1) (d :: r') []
            | [] => None
            end
          else if Ascii.eqb c "["%char then
            match skip_ws r with
            | d :: r' => if Ascii.eqb d "]"%char then Some (JArr [], r') else scan_items f (depth + 1) (d :: r') []
            | [] => None
            end
          else if Ascii.eqb c quote then
            match scan_string (List.length r) r with Some (s, r') => Some (JStr (of_list s), r') | None => None end
          else if Ascii.eqb c "t"%char then literal "true" (JBool true) (c :: r)
          else if Ascii.eqb c "f"%char then literal "false" (JBool false) (c :: r)
          else if Ascii.eqb c "n"%char then literal "null" JNull (c :: r)
          else match scan_number (c :: r) with Some (t, r') => Some (JNumber (of_list t), r') | None => None end
      end
  end
with scan_items (fuel : nat) (depth : Z) (l : list ascii) (acc : list json) : option (json * list ascii) :=
  match fuel with
  | O => None
  | S f =>
      match scan f depth l with
      | Some (v, r) =>
          match skip_ws r with
          | c :: r' => if Ascii.eqb c ","%char then scan_items f depth r' (acc ++ [v])
                       else if Ascii.eqb c "]"%char then Some (JArr (acc ++ [v]), r') else None
          | [] => None
          end
      | None => None
      end
  end
with scan_fields (fuel : nat) (depth : Z) (l : list ascii) (acc : list (string * json)) : option (json * list ascii) :=
  match fuel with
  | O => None
  | S f =>
      match skip_ws l with
      | q :: r =>
          if negb (Ascii.eqb q quote) then None
          else match scan_string (List.length r) r with
               | Some (k, r1) =>
                   match skip_ws r1 with
                   | c :: r2 =>
                       if negb (Ascii.eqb c ":"%char) then None
                       else match scan f depth r2 with
                            | Some (v, r3) =>
                                match skip_ws r3 with
                                | d :: r4 => if Ascii.eqb d ","%char then scan_fields f depth r4 (acc ++ [(of_list k, v)])
                                             else if Ascii.eqb d "}"%char then Some (JObj (acc ++ [(of_list k, v)]), r4)
                                             else None
                                | [] => None
                                end
                            | None => None
                            end
                   | [] => None
                   end
               | None => None
               end
      | [] => None
      end
  end.

(** Every value takes at least half as many bytes as it takes steps. *)
Definition scan_value (l : list ascii) : option (json * list ascii) := scan (2 * List.length l + 2) 0 l.

(* ------------------------------------------------------------------ *)
(** ** Decoding *)

(** What [Decoder.Decode] reads from a body of which at most [limit] bytes can be
    read: a value, and what follows it.  A value that needs the next byte to end
    fails when that byte is past the limit. *)
Definition decode_value (limit : nat) (body : string) : option (json * list ascii) :=
  let window := firstn limit (to_list body) in
  match scan_value window with
  | None => None
  | Some (v, rest) =>
      let cut := (limit <? String.length body)%nat in
      match v, rest with
      | JObj _, _ | JArr _, _ | _, _ :: _ => Some (v, rest)
      | _, [] => if cut then None else Some (v, rest)
      end
  end.

(** [Decoder.More] after the top-level value. *)
Definition More (rest : list ascii) : bool :=
  match skip_ws rest with
  | c :: _ => negb (Ascii.eqb c "]"%char) && negb (Ascii.eqb c "}"%char)
  | [] => false
  end.

Section Decode.
Context `{U : Unicode} `{F : FloatJson}.

(** The struct field a key names. *)
Definition field_name (names : list string) (key : string) : option string :=
  match List.find (String.eqb key) names with
  | Some n => Some n
  | None => List.find (fun n => EqualFold n key) names
  end.

(** Decoding into a pointer field: null clears it. *)
Definition as_float (j : json) : option (option float64) :=
  match j with
  | JNull => Some None
  | JNumber t => match ParseFloat t with Some f => Some (Some f) | None => None end
  | _ => None
  end.

Definition as_int (lo hi : Z) (j : json) : option (option Z) :=
  match j with
  | JNull => Some None
  | JNumber t => match ParseInt t with
                 | Ok n => if (lo <=? n) && (n <=? hi) then Some (Some n) else None
                 | Err _ => None
                 end
  | _ => None
  end.

Definition as_string (j : json) : option (option string) :=
  match j with JNull => Some None | JStr s => Some (Some s) | _ => None end.

(** Every occurrence of the field is decoded; the last one stays. *)
Definition decode_field {A} (conv : json -> option (option A)) (names : list string) (name : string)
    (fields : list (string * json)) : option (option A) :=
  fold_left (fun acc kv =>
      if bool_decide (field_name names (fst kv) = Some name)
      then match acc, conv (snd kv) with Some _, Some v => Some v | _, _ => None end
      else acc) fields (Some None).

Definition known_fields (names : list string) (fields : list (string * json)) : bool :=
  forallb (fun kv => bool_decide (is_Some (field_name names (fst kv)))) fields.

(** The object a struct is decoded from; a top-level null decodes nothing. *)
Definition object_of (j : json) : option (list (string * json)) :=
  match j with JNull => Some [] | JObj fs => Some fs | _ => None end.
End Decode.

Definition int16_min : Z := - 2^15.
Definition int16_max : Z := 2^15 - 1.

(** [json.Unmarshal]: one value and nothing after it. *)
Definition Unmarshal (text : string) : option json :=
  match scan_value (to_list text) with
  | Some (v, rest) => match skip_ws rest with [] => Some v | _ => None end
  | None => None
  end.

(** Decoding into a plain (non-pointer) field: null leaves it as it was. *)
Definition decode_plain {A} `{Unicode} (conv : json -> option (option A)) (names : list string) (name : string) (zero : A)
    (fields : list (string * json)) : option A :=
  fold_left (fun acc kv =>
      if bool_decide (field_name names (fst kv) = Some name)
      then match acc, conv (snd kv) with
           | Some a, Some None => Some a
           | Some _, Some (Some v) => Some v
           | _, _ => None
           end
      else acc) fields (Some zero).

(* ------------------------------------------------------------------ *)
(** ** Decoding into a struct *)

Section Into.
Context `{U : Unicode}.

(** Decoding a JSON value into what a destination already holds. *)
Definition into (A : Type) : Type := json -> A -> option A.

Definition into_struct {A} (names : list string) (set : string -> into A) : into A := fun j a =>
  match j with
  | JNull => Some a
  | JObj fields =>
      fold_left (fun acc kv =>
        match acc, field_name names (fst kv) with
        | Some a, Some n => set n (snd kv) a
        | acc, _ => acc
        end) fields (Some a)
  | _ => None
  end.
Definition into_plain {A} (conv : json -> option (option A)) : into A := fun j old =>
  option_map (fun v => match v with Some x => x | None => old end) (conv j).
Definition into_string : into string := into_plain as_string.
Definition into_int : into Z := into_plain (as_int min_int64 max_int64).
Definition into_pointer {A} (zero : A) (elem : into A) : into (option A) := fun j old =>
  match j with JNull => Some None | _ => option_map Some (elem j (default zero old)) end.
(** The elements of an array are decoded over those the slice held. *)
Fixpoint into_items {A} (zero : A) (elem : into A) (l : list json) (old : list A) : option (list A) :=
  match l with
  | [] => Some []
  | j :: l =>
      match elem j (default zero (head old)), into_items zero elem l (tail old) with
      | Some a, Some rest => Some (a :: rest)
      | _, _ => None
      end
  end.
Definition into_slice {A} (zero : A) (elem : into A) : into (list A) := fun j old =>
  match j with JNull => Some [] | JArr l => into_items zero elem l old | _ => None end.
(** Decoding into a map of strings adds to its entries; null empties it. *)
Definition into_map : into (gmap string string) := fun j m =>
  match j with
  | JNull => Some ∅
  | JObj fields =>
      fold_left (fun acc kv => match acc, into_string (snd kv) "" with Some m, Some v => Some (<[fst kv := v]> m) | _, _ => None end) fields (Some m)
  | _ => None
  end.
End Into.

(* ------------------------------------------------------------------ *)
(** ** Progress: a scanned value takes at least a byte *)

Lemma skip_ws_length l : (length (skip_ws l) <= length l)%nat.
Proof. induction l as [|c l IH]; simpl; [lia|]. destruct (json_ws c); simpl; lia. Qed.

Lemma drop_prefix_length p : forall s r, drop_prefix p s = Some r -> (length r + length p = length s)%nat.
Proof.
  induction p as [|c p IH]; intros s r; simpl; [by intros [= ->]|]. destruct s as [|d s]; [done|].
  destruct (Ascii.eqb c d); [|done]. intros E%IH. simpl. lia.
Qed.

Lemma take_digits_length l d r : take_digits l = (d, r) -> (length d + length r = length l)%nat.
Proof.
  revert d r. induction l as [|c l IH]; intros d r; simpl; [by intros [= <- <-]|].
  destruct (is_digit c); [|by intros [= <- <-]]. destruct (take_digits l) as [d' r'] eqn:E. intros [= <- <-].
  specialize (IH _ _ eq_refl). simpl. lia.
Qed.

Lemma scan_number_shorter l d r : scan_number l = Some (d, r) -> (length r < length l)%nat.
Proof.
  unfold scan_number.
  destruct (match l with c :: r => if Ascii.eqb c "-"%char then ([c], r) else ([], l) | [] => ([], []) end) as [sign l1] eqn:E1.
  assert (H1 : (length l1 <= length l)%nat).
  { destruct l as [|c l]; [by injection E1 as <- <-|]. destruct (Ascii.eqb c "-"%char); injection E1 as <- <-; simpl; lia. }
  clear E1. destruct (take_digits l1) as [int l2] eqn:E2. apply take_digits_length in E2. destruct int as [|z more]; [done|]. simpl in E2.
  destruct (_ && _); [intros [= _ <-]; rewrite length_app; lia|].
  match goal with |- context [let '(_, _) := ?x in _] => destruct x as [frac l3] eqn:E3 end.
  assert (H3 : (length l3 <= length l2)%nat).
  { destruct l2 as [|c l2]; [by injection E3 as <- <-|]. destruct (Ascii.eqb c "."%char); [|by injection E3 as <- <-].
    destruct (take_digits l2) as [d' r'] eqn:E. apply take_digits_length in E. injection E3 as <- <-. simpl. lia. }
  clear E3. match goal with |- context [let '(_, _) := ?x in _] => destruct x as [exp l4] eqn:E4 end.
  assert (H4 : (length l4 <= length l3)%nat).
  { destruct l3 as [|c l3]; [by injection E4 as <- <-|]. destruct (_ || _); [|by injection E4 as <- <-].
    destruct l3 as [|s l3]; [by injection E4 as <- <-; simpl; lia|].
    destruct (_ || _).
    - destruct (take_digits l3) as [d' r'] eqn:E. apply take_digits_length in E. injection E4 as <- <-. simpl. lia.
    - destruct (take_digits (s :: l3)) as [d' r'] eqn:E. apply take_digits_length in E. injection E4 as <- <-. simpl in *. lia. }
  clear E4. intros H. assert (r = l4) as -> by (repeat case_match; congruence). lia.
Qed.

Lemma hex4_length l v r : hex4 l = Some (v, r) -> (length r + 4 = length l)%nat.
Proof. unfold hex4. intros H. repeat (case_match; simplify_eq/=). lia. Qed.

Lemma unescape_u_length v r bytes r' : unescape_u v r = (bytes, r') -> (length r' <= length r)%nat.
Proof.
  unfold unescape_u. intros H. repeat (case_match; simplify_eq/=); try lia.
  match goal with H : hex4 _ = Some _ |- _ => apply hex4_length in H end. lia.
Qed.

Lemma scan_string_shorter fuel : forall l s r, scan_string fuel l = Some (s, r) -> (length r < length l)%nat.
Proof.
  induction fuel as [|f IH]; intros l s r; cbn [scan_string]; [done|]. destruct l as [|c l]; [done|].
  assert (Hmap : forall (g : list ascii -> list ascii) t, option_map (fun p => (g (fst p), snd p)) (scan_string f t) = Some (s, r) ->
            (length r < length t)%nat).
  { intros g t. destruct (scan_string f t) as [[s' r']|] eqn:E; [|done]. intros [= _ <-]. by eapply IH. }
  destruct (Ascii.eqb c quote); [intros [= _ <-]; simpl; lia|]. destruct (code c <? 32); [done|].
  destruct (Ascii.eqb c backslash).
  - destruct l as [|e l]; [done|]. cbv zeta.
    assert (Hs : forall v, option_map (fun p => (byte_of v :: fst p, snd p)) (scan_string f l) = Some (s, r) -> (length r < length (c :: e :: l))%nat).
    { intros v Hv. apply (Hmap (cons (byte_of v))) in Hv. simpl. lia. }
    repeat case_match; try (by apply Hs); try done. intros Hv. apply (Hmap (app _)) in Hv.
    match goal with H : hex4 _ = _, H' : unescape_u _ _ = _ |- _ => apply hex4_length in H; apply unescape_u_length in H' end. simpl. lia.
  - destruct (code c <? 128); [intros Hv; apply (Hmap (cons c)) in Hv; simpl; lia|].
    destruct (decode_rune (c :: l)) as [rune n]. intros Hv. apply (Hmap (app _)) in Hv. rewrite length_skipn in Hv. lia.
Qed.

Lemma scan_shorter fuel :
  (forall d l v r, scan fuel d l = Some (v, r) -> (length r < length l)%nat) /\
  (forall d l acc v r, scan_items fuel d l acc = Some (v, r) -> (length r < length l)%nat) /\
  (forall d l acc v r, scan_fields fuel d l acc = Some (v, r) -> (length r < length l)%nat).
Proof.
  induction fuel as [|f (IHs & IHi & IHf)]; [done|]. split; [|split].
  - intros d l v r. cbn [scan]. pose proof (skip_ws_length l) as Hl. destruct (skip_ws l) as [|c r0]; [done|]. simpl in Hl.
    pose proof (skip_ws_length r0) as Hr. destruct (_ && _); [done|].
    destruct (Ascii.eqb c "{"%char); [|destruct (Ascii.eqb c "["%char)].
    + destruct (skip_ws r0) as [|e r1]; [done|]. simpl in Hr. destruct (Ascii.eqb e "}"%char); [intros [= _ <-]; lia|]. intros H%IHf. simpl in H. lia.
    + destruct (skip_ws r0) as [|e r1]; [done|]. simpl in Hr. destruct (Ascii.eqb e "]"%char); [intros [= _ <-]; lia|]. intros H%IHi. simpl in H. lia.
    + destruct (Ascii.eqb c quote).
      { destruct (scan_string _ _) as [[s r1]|] eqn:E; [|done]. intros [= _ <-]. apply scan_string_shorter in E. lia. }
      assert (Hlit : forall w j, w <> "" -> literal w j (c :: r0) = Some (v, r) -> (length r < length l)%nat).
      { intros w j Hw. unfold literal. destruct (drop_prefix _ _) as [r1|] eqn:E; [|done]. intros [= _ <-].
        apply drop_prefix_length in E. destruct w; [done|]. simpl in *. lia. }
      repeat (case_match; try (by apply Hlit)); try done.
      match goal with H : scan_number _ = _ |- _ => apply scan_number_shorter in H; simpl in H end. intros [= _ <-]. lia.
  - intros d l acc v r. cbn [scan_items]. destruct (scan f d l) as [[x r0]|] eqn:E; [|done]. apply IHs in E.
    pose proof (skip_ws_length r0) as Hr. destruct (skip_ws r0) as [|c r1]; [done|]. simpl in Hr.
    destruct (Ascii.eqb c ","%char); [intros H%IHi; lia|]. destruct (Ascii.eqb c "]"%char); [intros [= _ <-]; lia|done].
  - intros d l acc v r. cbn [scan_fields]. pose proof (skip_ws_length l) as Hl. destruct (skip_ws l) as [|q r0]; [done|]. simpl in Hl.
    destruct (negb _); [done|]. destruct (scan_string _ _) as [[k r1]|] eqn:E1; [|done]. apply scan_string_shorter in E1.
    pose proof (skip_ws_length r1) as Hr1. destruct (skip_ws r1) as [|c r2]; [done|]. simpl in Hr1. destruct (negb _); [done|].
    destruct (scan f d r2) as [[x r3]|] eqn:E2; [|done]. apply IHs in E2. pose proof (skip_ws_length r3) as Hr3.
    destruct (skip_ws r3) as [|e r4]; [done|]. simpl in Hr3.
    destruct (Ascii.eqb e ","%char); [intros H%IHf; lia|]. destruct (Ascii.eqb e "}"%char); [intros [= _ <-]; lia|done].
Qed.

Lemma scan_value_shorter l v r : scan_value l = Some (v, r) -> (length r < length l)%nat.
Proof. apply scan_shorter. Qed.
