(* ===== verification/Notify.v ===== *)
(** Turning recorded crossings into pushes ([internal/push/notify.go]) and the
    interface the server sees of it ([Notifier], [internal/server/server.go]): the
    class states what the server relies on - a notification changes nothing in the
    database - and both implementations, the no-op one and [EventNotifier] over a
    dispatcher, are instances.  The theorems: a notification is a run of the
    dispatcher's interleaving relation that submits exactly one delivery per crossing
    and endpoint of the family, in order; and two alerts share a collapse key exactly
    when they are about the same device and Place. *)

From Stdlib Require Import ZArith Lia Bool String Ascii List SpecFloat.
From stdpp Require Import base option list strings gmap relations.
From S2P Require Import Prelude GoTime GoStrings Calendar Database StoreEntities StoreGeofence StoreReads Auth Ledger Dispatcher.
Local Open Scope string_scope.
Local Open Scope Z_scope.

(** [Format("2006-01-02T15:04:05Z")] of a UTC instant. *)
Definition format_year (y : Z) : string := if y <? 0 then "-" ++ Itoa_pad 4 (- y) else Itoa_pad 4 y.
Definition FormatUTC (t : Time) : string :=
  let s := t_sec t mod seconds_per_day in
  format_year (Year t) ++ "-" ++ Itoa_pad 2 (Month t) ++ "-" ++ Itoa_pad 2 (Day t) ++ "T" ++
  Itoa_pad 2 (s / 3600) ++ ":" ++ Itoa_pad 2 (s / 60 mod 60) ++ ":" ++ Itoa_pad 2 (s mod 60) ++ "Z".

Definition collapse_key (deviceID placeID : string) : string := "gf:" ++ deviceID ++ ":" ++ placeID.

Definition buildNotification (dev : Device) (e : GeofenceEvent) : Notification :=
  let verb := if String.eqb (ge_Transition e) "enter" then "arrived at" else "left" in
  mkNotification (d_Name dev)
    (d_Name dev ++ " " ++ verb ++ " " ++ ge_GeofenceName e)
    (collapse_key (d_ID dev) (ge_GeofenceID e))
    (list_to_map
       [("type", "geofence"); ("device_id", d_ID dev); ("place_id", ge_GeofenceID e);
        ("place_name", ge_GeofenceName e); ("transition", ge_Transition e); ("ts", FormatUTC (ge_FixTS e))]).

(** What the server sees of push delivery. *)
Class Notifier `{G : PostGIS} (N : Type) := {
  NotifyGeofenceEvents : Device -> list GeofenceEvent -> N -> M N;
  notify_registered : string -> string -> N -> N;
  notify_removed : string -> string -> N -> N;
  notify_preserves : forall I dev events n, preserves I (NotifyGeofenceEvents dev events n) }.

(** [noopNotifier]. *)
#[export] Instance noopNotifier `{G : PostGIS} : Notifier unit := {|
  NotifyGeofenceEvents := fun _ _ n => ret n;
  notify_registered := fun _ _ n => n;
  notify_removed := fun _ _ n => n;
  notify_preserves := fun I _ _ n => preserves_ret I n |}.

Definition subscription_of (s : PushSubscription) : Subscription := mkSubscription (ps_Provider s) (ps_Token s).

(** The two nested loops: every pair of a crossing and an endpoint. *)
Definition pairs (dev : Device) (events : list GeofenceEvent) (subs : list PushSubscription) : list (Subscription * Notification) :=
  flat_map (fun e => let note := buildNotification dev e in map (fun s => (subscription_of s, note)) subs) events.

(** Classify each pair before any of them is handed over. *)
Fixpoint classify_all (l : list (Subscription * Notification)) (d : Dispatcher) : list Delivery * Dispatcher :=
  match l with
  | [] => ([], d)
  | (s, note) :: rest =>
      let '(del, d1) := classified s note d in
      let '(dels, d2) := classify_all rest d1 in
      (del :: dels, d2)
  end.

Section EventNotifier.
Context `{G : PostGIS} {S : Type} `{Snd : Senders S}.

Definition event_notify (dev : Device) (events : list GeofenceEvent) (r : Run S) : M (Run S) :=
  match events with
  | [] => ret r
  | _ =>
      let* subs := PushSubscriptionsForFamily (d_FamilyID dev) in
      match subs with
      | Err _ => ret r
      | Ok [] => ret r
      | Ok subs =>
          let '(deliveries, d) := classify_all (pairs dev events subs) (disp r) in
          ret (Enqueue deliveries (on_disp (fun _ => d) r))
      end
  end.

Lemma event_notify_preserves I dev events (r : Run S) : preserves I (event_notify dev events r).
Proof.
  unfold event_notify. destruct events; [apply preserves_ret|]. apply preserves_bind; [apply preserves_query|].
  intros [[|s subs]|e]; try apply preserves_ret. destruct (classify_all _ _). apply preserves_ret.
Qed.

#[export] Instance EventNotifier : Notifier (Run S) := {|
  NotifyGeofenceEvents := event_notify;
  notify_registered := fun p t r => on_disp (fun d => set_ledger (EndpointRegistered p t (ledger d)) d) r;
  notify_removed := fun p t r => on_disp (fun d => set_ledger (EndpointRemoved p t (ledger d)) d) r;
  notify_preserves := event_notify_preserves |}.

(* ------------------------------------------------------------------ *)
(** ** The fan-out is a run of the dispatcher's relation *)

Lemma classified_pair sub note d : dl_Sub (fst (classified sub note d)) = sub /\ dl_Note (fst (classified sub note d)) = note /\
  closed (snd (classified sub note d)) = closed d.
Proof. unfold classified. by destruct (Classify _ _ _). Qed.

Lemma classify_all_spec l : forall (d : Dispatcher) dels d', classify_all l d = (dels, d') ->
  map (fun x => (dl_Sub x, dl_Note x)) dels = l /\ closed d' = closed d /\
  forall (r : Run S) ws b sm, disp r = d ->
    rtc sys_step (mkSys r ws b sm) (mkSys (on_disp (fun _ => d') r) (ws ++ dels) b (sm ++ dels)).
Proof.
  induction l as [|[s note] l IH]; intros d dels d'; cbn [classify_all].
  - intros [= <- <-]. split; [done|]. split; [done|]. intros r ws b sm <-. rewrite !app_nil_r. by destruct r.
  - pose proof (classified_pair s note d) as (E1 & E2 & E3).
    destruct (classified s note d) as [del d1] eqn:Ec. destruct (classify_all l d1) as [dels1 d2] eqn:Ea.
    intros [= <- <-]. destruct (IH d1 dels1 d2 Ea) as (H1 & H2 & H3). simpl in *.
    split; [by rewrite E1, E2, H1|]. split; [congruence|]. intros r ws b sm Hr.
    eapply rtc_l; [apply (step_classify s note _ _ _ _ del d1); by rewrite Hr|].
    specialize (H3 (on_disp (fun _ => d1) r) (ws ++ [del])%list b (sm ++ [del])%list eq_refl).
    rewrite <- !app_assoc in H3. exact H3.
Qed.

(** A notification hands over exactly what it should.  Whatever the database
    does, the call changes no table; if the subscription read fails or the family has
    no endpoint, nothing is submitted; otherwise the call is a run of the
    dispatcher's interleaving relation that submits one delivery for every crossing
    and every endpoint of the crossing device's family, crossings in order and
    endpoints in order within each, each addressed to its endpoint and carrying the
    alert of its crossing. *)
Theorem event_notify_fans_out (dev : Device) (events : list GeofenceEvent) (r r' : Run S) (w w' : World) ws b sm :
  closed (disp r) = false -> event_notify dev events r w = (r', w') ->
  w_db w' = w_db w /\
  exists dels,
    (dels = [] \/ map (fun x => (dl_Sub x, dl_Note x)) dels =
       flat_map (fun e => map (fun s => (subscription_of s, buildNotification dev e))
         (pushSubscriptionsForFamilySQL (d_FamilyID dev) (w_db w))) events) /\
    (quiet w -> length dels = (length events * length (pushSubscriptionsForFamilySQL (d_FamilyID dev) (w_db w)))%nat) /\
    rtc sys_step (mkSys r ws b sm) (mkSys r' ws b (sm ++ dels)).
Proof.
  intros Hc E. split.
  { pose proof (event_notify_preserves (fun db => db = w_db w) dev events r w eq_refl) as H. by rewrite E in H. }
  unfold event_notify in E. destruct events as [|e0 events0] eqn:Eev.
  { injection E as <- <-. exists []. split; [by left|]. split; [done|]. by rewrite app_nil_r. }
  rewrite <- Eev in *. assert (Hlen : forall subs, length (pairs dev events subs) = (length events * length subs)%nat).
  { intros subs. unfold pairs. clear. induction events as [|e l IH]; simpl; [done|]. by rewrite length_app, length_map, IH. }
  unfold bind, PushSubscriptionsForFamily in E.
  destruct (query _ w) as [res w1] eqn:Eq. destruct res as [subs|er].
  - apply query_ok_inv in Eq as [Es _]. destruct subs as [|s subs].
    + injection E as <- _. exists []. split; [by left|]. split; [rewrite <- Es; simpl; lia|]. by rewrite app_nil_r.
    + destruct (classify_all (pairs dev events (s :: subs)) (disp r)) as [dels d] eqn:Ec.
      injection E as <- _. destruct (classify_all_spec _ _ _ _ Ec) as (H1 & H2 & H3). exists dels.
      split; [right; rewrite H1, <- Es; done|]. split.
      { intros _. rewrite <- Es, <- Hlen, <- H1. by rewrite length_map. }
      etransitivity; [apply (H3 r ws b sm eq_refl)|].
      pose proof (Enqueue_steps dels ws [] b (sm ++ dels)%list (on_disp (fun _ => d) r)) as Hq.
      rewrite !app_nil_r in Hq. apply Hq. simpl. congruence.
  - injection E as <- _. exists []. split; [by left|]. split; [|by rewrite app_nil_r].
    intros Hq. rewrite query_quiet in Eq by done. discriminate.
Qed.
End EventNotifier.

(* ------------------------------------------------------------------ *)
(** ** Collapse keys *)

Definition no_colon (s : string) : Prop := ~ ":"%char ∈ to_list s.

Lemma split_at_colon (l l' r r' : list ascii) : ~ ":"%char ∈ l -> ~ ":"%char ∈ l' ->
  (l ++ ":"%char :: r)%list = (l' ++ ":"%char :: r')%list -> l = l' /\ r = r'.
Proof.
  revert l'. induction l as [|c l IH]; intros [|c' l'] Hl Hl'; simpl.
  - by intros [= ->].
  - intros [= <- _]. by destruct Hl'; left.
  - intros [= -> _]. by destruct Hl; left.
  - intros [= <- E]. destruct (IH l') as [-> ->]; [|by intros ?; apply Hl'; right|done|done].
    intros ?; apply Hl; by right.
Qed.

(** Alerts supersede each other exactly per device and Place: two alerts have
    the same collapse key if and only if they are about the same device and the same
    Place, whatever the direction, the time and the names (identifiers are uuids and
    hold no colon). *)
Theorem alerts_collapse (dev dev' : Device) (e e' : GeofenceEvent) :
  no_colon (d_ID dev) -> no_colon (d_ID dev') ->
  (n_CollapseKey (buildNotification dev e) = n_CollapseKey (buildNotification dev' e') <->
   d_ID dev = d_ID dev' /\ ge_GeofenceID e = ge_GeofenceID e').
Proof.
  intros Hd Hd'. simpl. unfold collapse_key. split; [|by intros [-> ->]].
  intros E. apply (f_equal to_list) in E. rewrite !to_list_app in E. simpl in E. injection E as E.
  apply split_at_colon in E as [E1 E2]; [|done|done]. split; by apply to_list_inj.
Qed.

(* ------------------------------------------------------------------ *)
(** ** Witnesses *)

Definition crossing_home : GeofenceEvent := mkGEvent "d1" "p1" "Home" "enter" (mkTime 63871286400 0).
Definition phone_d1 : Device := mkDev "d1" "fam" "Phone".

Lemma alert_text : n_Body (buildNotification phone_d1 crossing_home) = "Phone arrived at Home" /\
  n_Data (buildNotification phone_d1 crossing_home) !! "ts" = Some "2025-01-01T00:00:00Z".
Proof. split; vm_compute; reflexivity. Qed.

Lemma alerts_collapse_witness :
  n_CollapseKey (buildNotification phone_d1 crossing_home) =
    n_CollapseKey (buildNotification phone_d1 (mkGEvent "d1" "p1" "House" "exit" (mkTime 0 0))) <->
  "d1" = "d1" /\ "p1" = "p1".
Proof.
  apply (alerts_collapse phone_d1 phone_d1 crossing_home (mkGEvent "d1" "p1" "House" "exit" (mkTime 0 0)));
    unfold no_colon; simpl; rewrite !elem_of_cons, elem_of_nil; intros [H|[H|H]]; try discriminate H; exact H.
Defined.

Definition notify_db : @DB planar :=
  mkDB [mkFamily "fam" "Family"] [] [mkViewer "v" "fam" "v@x" "V" "h" None] [] [] []
    [mkSub "s1" "v" "fcm" "t1"; mkSub "s2" "v" "fcm" "t2"] ∅.
Definition notify_world : @World planar := calm notify_db (mkTime 63871286400 0).
Definition idle_run : Run nat := run_of (start demo_opts 0%nat).

Lemma event_notify_fans_out_witness :
  exists dels, rtc sys_step (mkSys idle_run [] None [])
      (mkSys (fst (event_notify phone_d1 [crossing_home] idle_run notify_world)) [] None dels) /\
    length dels = 2%nat.
Proof.
  destruct (event_notify_fans_out phone_d1 [crossing_home] idle_run
    (fst (event_notify phone_d1 [crossing_home] idle_run notify_world)) notify_world
    (snd (event_notify phone_d1 [crossing_home] idle_run notify_world)) [] None [])
    as (_ & dels & _ & Hlen & Hr); [reflexivity|apply surjective_pairing|].
  exists dels. split; [exact Hr|]. rewrite (Hlen (calm_quiet _ _)). reflexivity.
Defined.
