(* ===== verification/Senders.v ===== *)
(** The push backends ([internal/push/fcm.go], [unifiedpush.go],
    [serviceaccount.go]): the requests they send and what they make of the answers,
    the OAuth token cache in front of FCM, and the sender table of a deployment as an
    instance of the dispatcher's interface.  The network and the clock are [Net]:
    functions of the number of calls made so far.  RSA and PEM are the class [RSA].
    The theorems: which requests a delivery sends and when it counts as handed over,
    the parity of the two backends' messages, and the life of a cached token. *)

From Stdlib Require Import ZArith Lia Bool String Ascii List SpecFloat.
From stdpp Require Import base option list strings gmap.
From S2P Require Import Prelude GoTime GoStrings Auth Config Json Ledger Dispatcher.
Local Open Scope string_scope.
Local Open Scope Z_scope.

(* ------------------------------------------------------------------ *)
(** ** The outside *)

Record http_request := mkRequest { rq_Method : string; rq_URL : string; rq_Header : list (string * string); rq_Body : string }.
Record http_response := mkResponse { rs_StatusCode : Z; rs_Body : string }.

Record Net := mkNet {
  net_do : nat -> http_request -> option http_response;    (* None: a transport error *)
  net_now : nat -> Time;
  net_calls : nat;
  net_sent : list http_request }.

(** [client.Do]. *)
Definition Do (rq : http_request) (n : Net) : option http_response * Net :=
  (net_do n (net_calls n) rq, mkNet (net_do n) (net_now n) (S (net_calls n)) (net_sent n ++ [rq])).
(** [s.now()]. *)
Definition now (n : Net) : Time * Net :=
  (net_now n (net_calls n), mkNet (net_do n) (net_now n) (S (net_calls n)) (net_sent n)).

Class RSA := {
  rsa_key : Type;
  pem_Decode : string -> option string;
  ParsePKCS1PrivateKey : string -> option rsa_key;
  ParsePKCS8PrivateKey : string -> option (option rsa_key);   (* Some None: a key that is not RSA *)
  SignPKCS1v15 : rsa_key -> string -> option string }.

Definition success (code : Z) : bool := negb ((code <? 200) || (300 <=? code)).

Section Senders.
Context `{U : Unicode} `{F : FloatJson} `{H : SHA256} `{N : NetURL} `{R : RSA}.

(** [http.NewRequestWithContext]: a URL that does not parse is an error. *)
Definition NewRequest (method url : string) (header : list (string * string)) (body : string) : option http_request :=
  match url_Parse url with Some _ => Some (mkRequest method url header body) | None => None end.

(** [omitempty] on a string or a map field. *)
Definition omit_empty (name : string) (j : json) : list (string * json) :=
  match j with JStr "" => [] | JObj [] => [] | _ => [(name, j)] end.

(* ------------------------------------------------------------------ *)
(** ** UnifiedPush *)

Definition unifiedPushMessage (d : Delivery) : json :=
  JObj ([("title", JStr (n_Title (dl_Note d))); ("body", JStr (n_Body (dl_Note d))); ("priority", JStr "high")] ++
        omit_empty "collapse_key" (JStr (n_CollapseKey (dl_Note d))) ++
        omit_empty "data" (ms_json (n_Data (dl_Note d))))%list.

Definition unified_request (d : Delivery) : option http_request :=
  match Marshal (unifiedPushMessage d) with
  | None => None
  | Some body => NewRequest "POST" (s_Token (dl_Sub d)) [("Content-Type", "application/json"); ("Urgency", "high")] body
  end.

(** Whether the backend took it. *)
Definition answered (rq : option http_request) (n : Net) : bool * Net :=
  match rq with
  | None => (false, n)
  | Some rq =>
      match Do rq n with
      | (None, n') => (false, n')
      | (Some resp, n') => (success (rs_StatusCode resp), n')
      end
  end.

Definition UnifiedPush_Send (d : Delivery) (n : Net) : bool * Net := answered (unified_request d) n.

(* ------------------------------------------------------------------ *)
(** ** The service account *)

Definition tokenExpiryGrace : Z := 60 * second.
Definition jwtAssertionTTL : Z := hour.
Definition fcmMessagingScope : string := "https://www.googleapis.com/auth/firebase.messaging".

Record ServiceAccount := mkServiceAccount {
  sa_email : string; sa_privateKey : rsa_key; sa_tokenURI : string; sa_scope : string;
  sa_cached : string; sa_expiry : Time }.

Definition parseRSAPrivateKey (pem : string) : option rsa_key :=
  match pem_Decode pem with
  | None => None
  | Some bytes =>
      match ParsePKCS1PrivateKey bytes with
      | Some key => Some key
      | None => match ParsePKCS8PrivateKey bytes with Some (Some key) => Some key | _ => None end
      end
  end.

Definition key_fields : list string := ["client_email"; "private_key"; "token_uri"].

Definition newServiceAccountTokenSource (raw : string) : option ServiceAccount :=
  match Unmarshal raw with
  | None => None
  | Some j =>
      match object_of j with
      | None => None
      | Some fs =>
          let get name := decode_plain as_string key_fields name "" fs in
          match get "client_email", get "private_key", get "token_uri" with
          | Some email, Some key, Some uri =>
              if String.eqb email "" || String.eqb key "" || String.eqb uri "" then None
              else match parseRSAPrivateKey key with
                   | Some pk => Some (mkServiceAccount email pk uri fcmMessagingScope "" zero_time)
                   | None => None
                   end
          | _, _, _ => None
          end
      end
  end.

Definition b64 (s : string) : string := of_list (raw_url_encode (to_list s)).

Definition jwtHeader : json := JObj [("alg", JStr "RS256"); ("typ", JStr "JWT")].
Definition jwtClaims (s : ServiceAccount) (at_ : Time) : json :=
  JObj [("iss", JStr (sa_email s)); ("scope", JStr (sa_scope s)); ("aud", JStr (sa_tokenURI s));
        ("iat", JInt (Unix_secs at_)); ("exp", JInt (Unix_secs (GoTime.Add at_ jwtAssertionTTL)))].

Definition signAssertion (s : ServiceAccount) (at_ : Time) : option string :=
  match Marshal jwtHeader, Marshal (jwtClaims s at_) with
  | Some header, Some claims =>
      let signingInput := b64 header ++ "." ++ b64 claims in
      match SignPKCS1v15 (sa_privateKey s) (Sum256 signingInput) with
      | Some sig => Some (signingInput ++ "." ++ b64 sig)
      | None => None
      end
  | _, _ => None
  end.

(** [url.QueryEscape], byte by byte. *)
Definition unreserved (c : ascii) : bool :=
  is_upper c || is_lower c || is_digit c || existsb (Ascii.eqb c) ["-"; "_"; "."; "~"]%char.
Definition upper_hex (v : Z) : ascii := if v <? 10 then byte_of (48 + v) else byte_of (55 + v).
Definition QueryEscape (s : string) : string :=
  of_list (flat_map (fun c => if unreserved c then [c]
                              else if Ascii.eqb c " "%char then ["+"%char]
                              else ["%"%char; upper_hex (code c / 16); upper_hex (code c mod 16)]) (to_list s)).

Definition token_form (assertion : string) : string :=
  "assertion=" ++ QueryEscape assertion ++ "&grant_type=" ++ QueryEscape "urn:ietf:params:oauth:grant-type:jwt-bearer".

Definition token_fields : list string := ["access_token"; "expires_in"].

(** The access token and its lifetime, out of the token endpoint's answer. *)
Definition read_token (body : string) : option (string * Z) :=
  match scan_value (to_list body) with
  | None => None
  | Some (j, _) =>
      match object_of j with
      | None => None
      | Some fs =>
          match decode_plain as_string token_fields "access_token" "" fs,
                decode_plain (as_int min_int64 max_int64) token_fields "expires_in" 0 fs with
          | Some tok, Some ttl => if String.eqb tok "" then None else Some (tok, wrap64 (ttl * second))
          | _, _ => None
          end
      end
  end.

Definition exchange (s : ServiceAccount) (assertion : string) (n : Net) : option (string * Z) * Net :=
  match NewRequest "POST" (sa_tokenURI s) [("Content-Type", "application/x-www-form-urlencoded")] (token_form assertion) with
  | None => (None, n)
  | Some rq =>
      match Do rq n with
      | (None, n') => (None, n')
      | (Some resp, n') => if success (rs_StatusCode resp) then (read_token (rs_Body resp), n') else (None, n')
      end
  end.

(** [Token]. The clock is read only when there is a cached token to judge. *)
Definition mint (s : ServiceAccount) (n : Net) : option string * (ServiceAccount * Net) :=
  let '(t1, n) := now n in
  match signAssertion s t1 with
  | None => (None, (s, n))
  | Some assertion =>
      match exchange s assertion n with
      | (None, n) => (None, (s, n))
      | (Some (tok, ttl), n) =>
          let '(t2, n) := now n in
          (Some tok, (mkServiceAccount (sa_email s) (sa_privateKey s) (sa_tokenURI s) (sa_scope s) tok (GoTime.Add t2 ttl), n))
      end
  end.

Definition SA_Token (s : ServiceAccount) (n : Net) : option string * (ServiceAccount * Net) :=
  if negb (String.eqb (sa_cached s) "") then
    let '(t0, n) := now n in
    if Before t0 (GoTime.Add (sa_expiry s) (- tokenExpiryGrace)) then (Some (sa_cached s), (s, n)) else mint s n
  else mint s n.

(** [TokenSource]: a fixed token, or a service account. *)
Inductive TokenSource := StaticTokenSource (token : string) | ServiceAccountTokenSource (s : ServiceAccount).

Definition TokenSource_Token (ts : TokenSource) (n : Net) : option string * (TokenSource * Net) :=
  match ts with
  | StaticTokenSource t => (Some t, (ts, n))
  | ServiceAccountTokenSource s => let '(r, (s', n')) := SA_Token s n in (r, (ServiceAccountTokenSource s', n'))
  end.

(* ------------------------------------------------------------------ *)
(** ** FCM *)

Definition fcmDefaultBaseURL : string := "https://fcm.googleapis.com".

Definition fcmMessage (d : Delivery) : json :=
  JObj [("message",
    JObj ([("token", JStr (s_Token (dl_Sub d)));
           ("notification", JObj [("title", JStr (n_Title (dl_Note d))); ("body", JStr (n_Body (dl_Note d)))])] ++
          omit_empty "data" (ms_json (n_Data (dl_Note d))) ++
          [("android", JObj (("priority", JStr "high") :: omit_empty "collapse_key" (JStr (n_CollapseKey (dl_Note d)))))])%list)].

Definition fcm_request (projectID token : string) (d : Delivery) : option http_request :=
  match Marshal (fcmMessage d) with
  | None => None
  | Some body =>
      NewRequest "POST" (fcmDefaultBaseURL ++ "/v1/projects/" ++ projectID ++ "/messages:send")
        [("Authorization", "Bearer " ++ token); ("Content-Type", "application/json")] body
  end.

Definition FCM_Send (projectID : string) (d : Delivery) (w : TokenSource * Net) : bool * (TokenSource * Net) :=
  match TokenSource_Token (fst w) (snd w) with
  | (None, w') => (false, w')
  | (Some token, (ts, n)) => let '(ok, n') := answered (fcm_request projectID token d) n in (ok, (ts, n'))
  end.
End Senders.

(* ------------------------------------------------------------------ *)
(** ** Theorems *)

Section Theorems.
Context `{U : Unicode} `{F : FloatJson} `{H : SHA256} `{N : NetURL} `{R : RSA}.

Definition set_token (s : ServiceAccount) (tok : string) (expiry : Time) : ServiceAccount :=
  mkServiceAccount (sa_email s) (sa_privateKey s) (sa_tokenURI s) (sa_scope s) tok expiry.

Definition token_request (s : ServiceAccount) (assertion : string) : http_request :=
  mkRequest "POST" (sa_tokenURI s) [("Content-Type", "application/x-www-form-urlencoded")] (token_form assertion).

Lemma read_token_some body tok ttl : read_token body = Some (tok, ttl) -> tok <> "".
Proof.
  unfold read_token. destruct (scan_value _) as [[j rest]|]; [|done]. destruct (object_of j) as [fs|]; [|done].
  destruct (decode_plain as_string _ _ _ _) as [t|]; [|done]. destruct (decode_plain _ _ _ _ _) as [z|]; [|done].
  destruct (String.eqb_spec t ""); [done|]. by intros [= <- _].
Qed.

(** A minted token comes from one exchange of an assertion signed at the first
    reading of the clock; its expiry counts from the second. *)
Lemma mint_spec s n r s' n' : mint s n = (r, (s', n')) ->
  match r with
  | Some tok => tok <> "" /\ exists assertion ttl resp t,
      signAssertion s (net_now n (net_calls n)) = Some assertion /\
      success (rs_StatusCode resp) = true /\ read_token (rs_Body resp) = Some (tok, ttl) /\
      net_sent n' = (net_sent n ++ [token_request s assertion])%list /\ s' = set_token s tok (GoTime.Add t ttl)
  | None => s' = s
  end.
Proof.
  unfold mint, now. cbn [net_calls net_now net_do net_sent]. destruct (signAssertion s _) as [assertion|] eqn:Es; [|by intros [= <- <- _]].
  unfold exchange, NewRequest. destruct (url_Parse _); [|by intros [= <- <- _]].
  unfold Do. cbn [net_calls net_now net_do net_sent].
  destruct (net_do n _ _) as [resp|]; [|by intros [= <- <- _]].
  destruct (success (rs_StatusCode resp)) eqn:Eok; [|by intros [= <- <- _]].
  destruct (read_token (rs_Body resp)) as [[tok ttl]|] eqn:Et; [|by intros [= <- <- _]].
  intros [= <- <- <-]. split; [by eapply read_token_some|]. do 4 eexists. split; [reflexivity|]. split; [exact Eok|].
  split; [exact Et|]. split; [reflexivity|]. unfold set_token. reflexivity.
Qed.

(** A stale access token is never used.  A token handed to the FCM sender is
    either the cached one, at an instant at least a minute before its expiry, with
    nothing sent and the cache unchanged; or freshly minted - one request, the signed
    assertion to the account's token endpoint, answered 2xx with a non-empty token -
    and cached with the lifetime the endpoint gave.  A failure of any step hands out
    nothing and leaves the cache as it was. *)
Theorem SA_Token_fresh (s s' : ServiceAccount) (n n' : Net) (r : option string) :
  SA_Token s n = (r, (s', n')) ->
  match r with
  | Some tok => tok <> "" /\
      ((tok = sa_cached s /\ s' = s /\ net_sent n' = net_sent n /\
        (sane_time (net_now n (net_calls n)) -> sane_time (sa_expiry s) ->
         nanos (net_now n (net_calls n)) + 60 * second < nanos (sa_expiry s))) \/
       (exists assertion ttl resp t t1,
          signAssertion s t1 = Some assertion /\ success (rs_StatusCode resp) = true /\
          read_token (rs_Body resp) = Some (tok, ttl) /\
          net_sent n' = (net_sent n ++ [token_request s assertion])%list /\ s' = set_token s tok (GoTime.Add t ttl)))
  | None => s' = s
  end.
Proof.
  intros E. assert (Hm : forall n0, net_sent n0 = net_sent n -> mint s n0 = (r, (s', n')) ->
    match r with
    | Some tok => tok <> "" /\ exists assertion ttl resp t t1,
        signAssertion s t1 = Some assertion /\ success (rs_StatusCode resp) = true /\
        read_token (rs_Body resp) = Some (tok, ttl) /\
        net_sent n' = (net_sent n ++ [token_request s assertion])%list /\ s' = set_token s tok (GoTime.Add t ttl)
    | None => s' = s
    end).
  { intros n0 Hn0 Em. apply mint_spec in Em. destruct r as [tok|]; [|done]. rewrite Hn0 in Em. naive_solver. }
  unfold SA_Token in E. destruct (String.eqb_spec (sa_cached s) "") as [Ec|Ec]; simpl in E.
  - specialize (Hm n eq_refl E). destruct r; [|done]. split; [apply Hm|]. right. apply Hm.
  - destruct (Before _ _) eqn:Eb.
    + injection E as <- <- <-. split; [done|]. left. split; [done|]. split; [done|]. split; [done|].
      intros Ht He. assert (Hadd := Add_nanos (sa_expiry s) (- tokenExpiryGrace) He).
      destruct Hadd as [Hadd Hwf]; [unfold int64, tokenExpiryGrace, second; lia|].
      rewrite Before_nanos in Eb; [|by apply sane_wf|done].
      apply Z.ltb_lt in Eb. rewrite Hadd in Eb. unfold tokenExpiryGrace in Eb. lia.
    + specialize (Hm (mkNet (net_do n) (net_now n) (S (net_calls n)) (net_sent n)) eq_refl E).
      destruct r; [|done]. split; [apply Hm|]. right. apply Hm.
Qed.

Lemma answered_spec rq n ok n' : answered rq n = (ok, n') ->
  match rq with
  | None => ok = false /\ n' = n
  | Some rq => net_sent n' = (net_sent n ++ [rq])%list /\
      (ok = true <-> exists resp, net_do n (net_calls n) rq = Some resp /\ 200 <= rs_StatusCode resp < 300)
  end.
Proof.
  unfold answered, Do. destruct rq as [rq|]; [|by intros [= <- <-]].
  destruct (net_do n (net_calls n) rq) as [resp|] eqn:E; intros [= <- <-]; (split; [done|]).
  - assert (Hs : success (rs_StatusCode resp) = true <-> 200 <= rs_StatusCode resp < 300).
    { unfold success. rewrite negb_true_iff, orb_false_iff, Z.ltb_ge, Z.leb_gt. done. }
    rewrite Hs. split; [eauto|]. by intros (resp' & [= <-] & ?).
  - split; [done|]. by intros (resp & ? & _).
Qed.

(** Handed over means a 2xx answer to the delivery's own message.  A UnifiedPush
    send posts the message to the endpoint and nothing else, and counts as handed
    over exactly when the answer is 2xx; an FCM send first obtains a token, then posts
    the message for the delivery's registration token under that token, and counts as
    handed over exactly when that answer is 2xx - never on the token exchange. *)
Theorem Send_hands_over (projectID : string) (d : Delivery) (ts ts' : TokenSource) (n n' : Net) (ok : bool) :
  (UnifiedPush_Send d n = (ok, n') ->
     match unified_request d with
     | None => ok = false /\ net_sent n' = net_sent n
     | Some rq => rq_URL rq = s_Token (dl_Sub d) /\ Marshal (unifiedPushMessage d) = Some (rq_Body rq) /\
         net_sent n' = (net_sent n ++ [rq])%list /\
         (ok = true <-> exists resp, net_do n (net_calls n) rq = Some resp /\ 200 <= rs_StatusCode resp < 300)
     end) /\
  (FCM_Send projectID d (ts, n) = (ok, (ts', n')) ->
     let '(token, (ts1, n1)) := TokenSource_Token ts n in
     ts' = ts1 /\
     match token with
     | None => ok = false /\ n' = n1
     | Some token =>
         match fcm_request projectID token d with
         | None => ok = false /\ net_sent n' = net_sent n1
         | Some rq => ("Authorization", "Bearer " ++ token) ∈ rq_Header rq /\ Marshal (fcmMessage d) = Some (rq_Body rq) /\
             net_sent n' = (net_sent n1 ++ [rq])%list /\
             (ok = true <-> exists resp, net_do n1 (net_calls n1) rq = Some resp /\ 200 <= rs_StatusCode resp < 300)
         end
     end).
Proof.
  split.
  - intros E. apply answered_spec in E. destruct (unified_request d) as [rq|] eqn:Er; [|by destruct E as [-> ->]].
    unfold unified_request in Er. destruct (Marshal _) as [body|]; [|done]. unfold NewRequest in Er.
    destruct (url_Parse _); [|done]. injection Er as <-. simpl in *. split; [done|]. split; [done|]. exact E.
  - unfold FCM_Send. cbn [fst snd]. destruct (TokenSource_Token ts n) as [[token|] [ts1 n1]]; [|by intros [= <- <- <-]].
    destruct (answered _ n1) as [ok1 n2] eqn:E. intros [= <- <- <-]. split; [done|].
    apply answered_spec in E. destruct (fcm_request projectID token d) as [rq|] eqn:Er; [|by destruct E as [-> ->]].
    unfold fcm_request in Er. destruct (Marshal _) as [body|]; [|done]. unfold NewRequest in Er.
    destruct (url_Parse _); [|done]. injection Er as <-. split; [by left|]. split; [done|]. exact E.
Qed.
End Theorems.

(* ------------------------------------------------------------------ *)
(** ** Witnesses *)

#[export] Instance no_floats : FloatJson := {| float_json := fun _ => "0"; ParseFloat := fun _ => None |}.
Lemma zero_digest_len (s : string) : len (of_list (repeat "0"%char 32)) = 32.
Proof. reflexivity. Qed.
#[export] Instance zero_digest : SHA256 := {| Sum256 := fun _ => of_list (repeat "0"%char 32); Sum256_len := zero_digest_len |}.
#[export] Instance any_rsa : RSA := {|
  rsa_key := unit; pem_Decode := Some; ParsePKCS1PrivateKey := fun _ => Some tt;
  ParsePKCS8PrivateKey := fun _ => None; SignPKCS1v15 := fun _ _ => Some "sig" |}.

Definition qt (s : string) : string := of_list (encode_string s).
(** The token endpoint answers 200 with a one-hour token; FCM answers 200. *)
Definition google : Net := mkNet
  (fun _ rq => if String.eqb (rq_URL rq) "https://token"
               then Some (mkResponse 200 ("{" ++ qt "access_token" ++ ":" ++ qt "tok" ++ "," ++ qt "expires_in" ++ ":3600}"))
               else Some (mkResponse 200 "{}"))
  (fun n => mkTime (63871286400 + Z.of_nat n) 0) 0 [].
Definition account : ServiceAccount := mkServiceAccount "svc@x" tt "https://token" fcmMessagingScope "" zero_time.
Definition warm : ServiceAccount * Net := snd (@SA_Token ascii_unicode _ _ any_postgres _ account google).

(** The second use, an hour minus three seconds before expiry, takes the cached token. *)
Definition reused : option string * (ServiceAccount * Net) :=
  @SA_Token ascii_unicode _ _ any_postgres _ (fst warm) (snd warm).

Lemma SA_Token_fresh_witness : fst reused = Some "tok" /\ net_sent (snd (snd reused)) = net_sent (snd warm) /\ "tok" <> "".
Proof.
  split; [vm_compute; reflexivity|]. split; [vm_compute; reflexivity|].
  apply (@SA_Token_fresh ascii_unicode no_floats zero_digest any_postgres any_rsa (fst warm) (fst (snd reused)) (snd warm)
    (snd (snd reused)) (Some "tok")).
  transitivity (fst reused, snd reused); [apply surjective_pairing|].
  rewrite (surjective_pairing (snd reused)). f_equal.
Defined.

Definition crossing_delivery : Delivery :=
  mkDelivery (mkSubscription "fcm" "phone") (mkNotification "Phone" "Phone arrived at Home" "gf:d:p" {["type" := "geofence"]}) None.

Definition fcm_try : bool * (TokenSource * Net) :=
  @FCM_Send ascii_unicode _ _ any_postgres _ "proj" crossing_delivery (StaticTokenSource "tok", google).

Lemma fcm_try_run :
  @FCM_Send ascii_unicode _ _ any_postgres _ "proj" crossing_delivery (StaticTokenSource "tok", google) =
  (fst fcm_try, (fst (snd fcm_try), snd (snd fcm_try))).
Proof. unfold fcm_try. by destruct (FCM_Send _ _ _) as [? [? ?]]. Qed.

Lemma Send_hands_over_witness : fst (snd fcm_try) = StaticTokenSource "tok".
Proof.
  pose proof (proj2 (@Send_hands_over ascii_unicode no_floats zero_digest any_postgres any_rsa "proj" crossing_delivery
    (StaticTokenSource "tok") (fst (snd fcm_try)) google (snd (snd fcm_try)) (fst fcm_try)) fcm_try_run) as Hs.
  cbn [TokenSource_Token] in Hs. exact (proj1 Hs).
Defined.

Lemma fcm_try_accepted : fst fcm_try = true.
Proof. vm_compute. reflexivity. Qed.
