(* ===== verification/Server.v ===== *)
(** The HTTP surface ([internal/server]): the two credential gates, strict and
    lenient body decoding, the ingestion handlers with the shared [ingest], the
    family-scoped reads, push registration, and the route table of [New].  A handler
    is a computation over the database that returns the response and the notifier's
    new state; the notifier is any instance of [Notifier].  Error message texts are
    not modelled, the machine-readable code is.  uuid syntax ([google/uuid]) is the
    class [UUID].  [r_now] is the process clock read once per request.  The live
    stream is in Stream.v; the map page and its assets are routes left to [other]. *)

From Stdlib Require Import ZArith Lia Bool String Ascii List SpecFloat.
From stdpp Require Import base option list strings gmap.
From S2P Require Import Prelude GoTime Presentation GoStrings Database StoreFix StoreEntities StoreGeofence.
From S2P Require Import StoreReads Auth Json Dispatcher Notify.
Local Open Scope string_scope.
Local Open Scope Z_scope.

Class UUID := { uuid_Parse : string -> bool }.

(** What the handlers read of a request; [r_Query] is the first value of a query
    parameter, empty when there is none. *)
Record Request := mkHttp {
  r_Method : string; r_Path : string; r_Authorization : string; r_Body : string;
  r_Query : string -> string; r_LastEventID : string; r_now : Time }.

Inductive rbody :=
| BJson (j : json)
| BError (errCode : string)
| BAck                                  (* OwnTracks' empty array *)
| BText (text : string).

Record Response := mkResp { rp_Code : Z; rp_Header : list (string * string); rp_Body : rbody }.

Definition StatusOK : Z := 200.
Definition StatusCreated : Z := 201.
Definition StatusBadRequest : Z := 400.
Definition StatusUnauthorized : Z := 401.
Definition StatusForbidden : Z := 403.
Definition StatusNotFound : Z := 404.
Definition StatusMethodNotAllowed : Z := 405.
Definition StatusInternalServerError : Z := 500.
Definition StatusServiceUnavailable : Z := 503.

Definition content_json : string * string := ("Content-Type", "application/json").
Definition writeJSON (code : Z) (j : json) : Response := mkResp code [content_json] (BJson j).
Definition writeError (code : Z) (errCode : string) : Response := mkResp code [content_json] (BError errCode).
Definition unauthorized : Response :=
  mkResp StatusUnauthorized [("WWW-Authenticate", "Bearer"); content_json] (BError "unauthorized").
Definition writeOwnTracksAck : Response := mkResp StatusOK [content_json] BAck.

Definition maxBodyBytes : nat := 65536.
Definition defaultHistoryLimit : Z := 100.
Definition defaultGeofenceEventsLimit : Z := 100.

Definition isNotFinite (f : float64) : bool := f_isNaN f || f_isInf f.

(** [accuracy], [battery] and [speed], when present. *)
Definition metric_ok (m : option float64) : bool :=
  match m with Some f => negb (f_ltb f (f64 0) || isNotFinite f) | None => true end.
Definition validateOptionalMetrics (accuracy : option float64) (battery : option Z) (speed : option float64) : bool :=
  metric_ok accuracy && metric_ok speed &&
  match battery with Some b => negb ((b <? 0) || (100 <? b)) | None => true end.

(* ------------------------------------------------------------------ *)
(** ** Presentation on the wire *)

Section Wire.
Context `{U : Unicode}.

Definition unlocatedEntry (s : DeviceState) : json :=
  JObj [("device_id", JStr (ds_DeviceID s)); ("device_name", JStr (ds_DeviceName s));
        ("presentation", JStr (token NoPosition))].

Definition positionResponse (s : DeviceState) (p : Position) (value : Value) (last : Time) : json :=
  JObj [("device_id", JStr (ds_DeviceID s)); ("device_name", JStr (ds_DeviceName s));
        ("lat", JFloat (pos_Lat p)); ("lon", JFloat (pos_Lon p));
        ("ts", JInt (Unix_secs (pos_TS p))); ("received_at", JInt (Unix_secs (pos_ReceivedAt p)));
        ("presentation", JStr (token value)); ("last_contact_at", JInt (Unix_secs last))].

Definition presentationUpdate (s : DeviceState) (value : Value) (last : Time) : json :=
  JObj [("device_id", JStr (ds_DeviceID s)); ("device_name", JStr (ds_DeviceName s));
        ("presentation", JStr (token value)); ("last_contact_at", JInt (Unix_secs last))].

(** [NoPosition] is the value exactly when there is no last contact, so the
    dereference of the last contact is never of nil. *)
Definition entryFor (s : DeviceState) (at_ : Time) (w : Windows) : json :=
  let value := Evaluate at_ (ds_LastContact s) w in
  match ds_Current s, ds_LastContact s with
  | Some p, Some last => if bool_decide (value = NoPosition) then unlocatedEntry s else positionResponse s p value last
  | _, _ => unlocatedEntry s
  end.

Definition presentationPayloadFor (s : DeviceState) (at_ : Time) (w : Windows) : json :=
  let value := Evaluate at_ (ds_LastContact s) w in
  match ds_Current s, ds_LastContact s with
  | Some _, Some last => if bool_decide (value = NoPosition) then unlocatedEntry s else presentationUpdate s value last
  | _, _ => unlocatedEntry s
  end.

Definition device_less (a b : DeviceState) : bool :=
  let fa := ToLower (ds_DeviceName a) in
  let fb := ToLower (ds_DeviceName b) in
  if negb (String.eqb fa fb) then str_ltb fa fb
  else if negb (String.eqb (ds_DeviceName a) (ds_DeviceName b)) then str_ltb (ds_DeviceName a) (ds_DeviceName b)
  else str_ltb (ds_DeviceID a) (ds_DeviceID b).

Definition sortDeviceStates (states : list DeviceState) : list DeviceState := stable_sort device_less states.

Definition arrival_less (a b : DeviceState) : bool :=
  match ds_Current a, ds_Current b with
  | None, None => str_ltb (ds_DeviceID a) (ds_DeviceID b)
  | None, Some _ => true
  | Some _, None => false
  | Some p, Some q =>
      if negb (Equal (pos_ReceivedAt p) (pos_ReceivedAt q)) then Before (pos_ReceivedAt p) (pos_ReceivedAt q)
      else str_ltb (ds_DeviceID a) (ds_DeviceID b)
  end.

Definition sortByArrival (states : list DeviceState) : list DeviceState := stable_sort arrival_less states.

(** [omitempty] on a pointer. *)
Definition omit_nil {A} (name : string) (f : A -> json) (o : option A) : list (string * json) :=
  match o with Some a => [(name, f a)] | None => [] end.

Definition historyResponse (f : HistoryFix) : json :=
  JObj ([("ts", JInt (Unix_secs (hf_TS f))); ("lat", JFloat (hf_Lat f)); ("lon", JFloat (hf_Lon f))] ++
        omit_nil "accuracy" JFloat (hf_AccuracyM f) ++ omit_nil "battery" JInt (hf_BatteryPct f) ++
        omit_nil "speed" JFloat (hf_SpeedMPS f) ++ omit_nil "trigger" JStr (hf_TriggerReason f) ++
        [("received_at", JInt (Unix_secs (hf_ReceivedAt f)))])%list.

Definition nearbyResponse (n : NearbyFix) : json :=
  JObj [("device_id", JStr (nf_DeviceID n)); ("device_name", JStr (nf_DeviceName n));
        ("lat", JFloat (nf_Lat n)); ("lon", JFloat (nf_Lon n)); ("ts", JInt (Unix_secs (nf_TS n)));
        ("distance_m", JFloat (nf_DistanceM n))].

Definition placeResponse (p : GeofenceDetail) : json :=
  JObj [("id", JStr (gd_ID p)); ("name", JStr (gd_Name p)); ("area", JRaw (gd_AreaGeoJSON p))].

Definition geofenceEventResponse (e : GeofenceEventRow) : json :=
  let g := ger_Event e in
  JObj [("device_id", JStr (ge_DeviceID g)); ("device_name", JStr (ger_DeviceName e));
        ("place_id", JStr (ge_GeofenceID g)); ("place_name", JStr (ge_GeofenceName g));
        ("transition", JStr (ge_Transition g)); ("ts", JInt (Unix_secs (ge_FixTS g)))].

Definition healthResponse (status database : string) : json :=
  JObj [("status", JStr status); ("database", JStr database)].
End Wire.

(* ------------------------------------------------------------------ *)
(** ** Bodies *)

Section Bodies.
Context `{U : Unicode} `{F : FloatJson}.

(** [decodeStrict]: the fields of the object, all of them known. *)
Definition decodeStrict (names : list string) (body : string) : option (list (string * json)) :=
  match decode_value maxBodyBytes body with
  | None => None
  | Some (v, rest) =>
      match object_of v with
      | None => None
      | Some fs => if known_fields names fs && negb (More rest) then Some fs else None
      end
  end.

(** The lenient decode of the OwnTracks adapter. *)
Definition decodeLenient (body : string) : option (list (string * json)) :=
  match decode_value maxBodyBytes body with
  | None => None
  | Some (v, _) => object_of v
  end.

Record fixRequest := mkFixRequest {
  fq_Lat : option float64; fq_Lon : option float64; fq_TS : option Z; fq_Accuracy : option float64;
  fq_Battery : option Z; fq_Speed : option float64; fq_Trigger : option string; fq_MsgID : option string }.

Definition fix_fields : list string := ["lat"; "lon"; "ts"; "accuracy"; "battery"; "speed"; "trigger"; "msg_id"].

Definition as_int64 : json -> option (option Z) := as_int min_int64 max_int64.
Definition as_int16 : json -> option (option Z) := as_int int16_min int16_max.

Definition decode_fixRequest (fs : list (string * json)) : option fixRequest :=
  let fl name := decode_field as_float fix_fields name fs in
  let st name := decode_field as_string fix_fields name fs in
  match fl "lat", fl "lon", decode_field as_int64 fix_fields "ts" fs, fl "accuracy",
        decode_field as_int16 fix_fields "battery" fs, fl "speed", st "trigger", st "msg_id" with
  | Some lat, Some lon, Some ts, Some acc, Some bat, Some speed, Some trig, Some mid =>
      Some (mkFixRequest lat lon ts acc bat speed trig mid)
  | _, _, _, _, _, _, _, _ => None
  end.

Record owntracksRequest := mkOwnTracks {
  ot_Type : option string; ot_Lat : option float64; ot_Lon : option float64; ot_Tst : option Z;
  ot_Acc : option float64; ot_Batt : option Z; ot_Vel : option float64; ot_T : option string }.

Definition owntracks_fields : list string := ["_type"; "lat"; "lon"; "tst"; "acc"; "batt"; "vel"; "t"].

Definition decode_owntracks (fs : list (string * json)) : option owntracksRequest :=
  let fl name := decode_field as_float owntracks_fields name fs in
  let st name := decode_field as_string owntracks_fields name fs in
  match st "_type", fl "lat", fl "lon", decode_field as_int64 owntracks_fields "tst" fs, fl "acc",
        decode_field as_int16 owntracks_fields "batt" fs, fl "vel", st "t" with
  | Some ty, Some lat, Some lon, Some tst, Some acc, Some batt, Some vel, Some t =>
      Some (mkOwnTracks ty lat lon tst acc batt vel t)
  | _, _, _, _, _, _, _, _ => None
  end.

Record pushSubscriptionRequest := mkPushRequest {
  pq_Provider : option string; pq_Token : option string; pq_ReplacesToken : option string }.

Definition push_fields : list string := ["provider"; "token"; "replaces_token"].

Definition decode_pushRequest (fs : list (string * json)) : option pushSubscriptionRequest :=
  let st name := decode_field as_string push_fields name fs in
  match st "provider", st "token", st "replaces_token" with
  | Some p, Some t, Some r => Some (mkPushRequest p t r)
  | _, _, _ => None
  end.
End Bodies.

(* ------------------------------------------------------------------ *)
(** ** Handlers *)

Section Handlers.
Context `{G : PostGIS} `{U : Unicode} `{F : FloatJson} `{H : SHA256} `{I : UUID}.
Context {N : Type} `{Nt : !Notifier N}.

(** A handler: the response, and the notifier after it. *)
Definition Handler : Type := Request -> N -> M (Response * N).

Definition respond (resp : Response) (n : N) : M (Response * N) := ret (resp, n).

Definition requireDevice (next : Device -> Handler) : Handler := fun r n =>
  match FromRequest (r_Authorization r) with
  | None => respond unauthorized n
  | Some tok =>
      let* dev := AuthenticateDevice (Auth.Hash tok) in
      match dev with
      | Err ErrUnknownToken => respond unauthorized n
      | Err _ => respond (writeError StatusInternalServerError "internal") n
      | Ok dev => next dev r n
      end
  end.

Definition requireViewer (next : Viewer -> Handler) : Handler := fun r n =>
  match FromRequest (r_Authorization r) with
  | None => respond unauthorized n
  | Some tok =>
      let* v := AuthenticateViewer (Auth.Hash tok) in
      match v with
      | Err ErrUnknownToken => respond unauthorized n
      | Err _ => respond (writeError StatusInternalServerError "internal") n
      | Ok v => next v r n
      end
  end.

Definition healthz : Handler := fun r n =>
  let* pong := exec (fun _ db => (Ok tt, db)) in
  match pong with
  | Ok _ => respond (writeJSON StatusOK (healthResponse "ok" "up")) n
  | Err _ => respond (writeJSON StatusServiceUnavailable (healthResponse "unavailable" "down")) n
  end.

(** The shared store write: the error response, or whether the fix was new.  The
    notifier is handed the crossings the evaluation reports, none if it reports none. *)
Definition ingest (dev : Device) (f : Fix) (now : Time) (n : N) : M (result Response bool * N) :=
  let* r := IngestFix f now in
  match r with
  | Err (ErrCoordinateOutOfRange | ErrTimestampOutOfWindow) => ret (Err (writeError StatusBadRequest "invalid_fix"), n)
  | Err _ => ret (Err (writeError StatusInternalServerError "internal"), n)
  | Ok inserted =>
      if inserted then
        let* ev := EvaluateDeviceGeofences (DeviceID f) (TS f) GeofenceDebounce in
        let '(events, _) := ev in
        match events with
        | [] => ret (Ok inserted, n)
        | _ => let* n' := NotifyGeofenceEvents dev events n in ret (Ok inserted, n')
        end
      else ret (Ok inserted, n)
  end.

Definition fix_of_request (dev : Device) (lat lon : float64) (ts : Z) (q : fixRequest) : Fix :=
  mkFix (d_ID dev) (Unix ts 0) lon lat (fq_Accuracy q) (fq_Battery q) (fq_Speed q) (fq_Trigger q) (fq_MsgID q).

Definition postFix (dev : Device) : Handler := fun r n =>
  match decodeStrict fix_fields (r_Body r) with
  | None => respond (writeError StatusBadRequest "malformed") n
  | Some fs =>
      match decode_fixRequest fs with
      | None => respond (writeError StatusBadRequest "malformed") n
      | Some q =>
          match fq_Lat q, fq_Lon q, fq_TS q with
          | Some lat, Some lon, Some ts =>
              if negb (validateOptionalMetrics (fq_Accuracy q) (fq_Battery q) (fq_Speed q))
              then respond (writeError StatusBadRequest "malformed") n
              else
                let* out := ingest dev (fix_of_request dev lat lon ts q) (r_now r) n in
                let '(res, n') := out in
                match res with
                | Err resp => respond resp n'
                | Ok inserted =>
                    respond (writeJSON (if inserted then StatusCreated else StatusOK)
                      (JObj [("deduped", JBool (negb inserted));
                             ("status", JStr (if inserted then "stored" else "duplicate"))])) n'
                end
          | _, _, _ => respond (writeError StatusBadRequest "malformed") n
          end
      end
  end.

(** The float64 nearest to 3.6. *)
Definition kmh : float64 := S754_finite false 8106479329266893 (-51).

(** km/h to m/s: [None] is a refused velocity. *)
Definition speed_of_vel (vel : option float64) : option (option float64) :=
  match vel with
  | None => Some None
  | Some v => if f_ltb v (f64 0) || isNotFinite v then None else Some (Some (f_div v kmh))
  end.

Definition postOwnTracks (dev : Device) : Handler := fun r n =>
  match decodeLenient (r_Body r) with
  | None => respond (writeError StatusBadRequest "malformed") n
  | Some fs =>
      match decode_owntracks fs with
      | None => respond (writeError StatusBadRequest "malformed") n
      | Some q =>
          if negb (bool_decide (ot_Type q = Some "location")) then respond writeOwnTracksAck n
          else
            match ot_Lat q, ot_Lon q, ot_Tst q with
            | Some lat, Some lon, Some tst =>
                if negb (validateOptionalMetrics (ot_Acc q) (ot_Batt q) None)
                then respond (writeError StatusBadRequest "malformed") n
                else
                  match speed_of_vel (ot_Vel q) with
                  | None => respond (writeError StatusBadRequest "malformed") n
                  | Some speed =>
                      let f := mkFix (d_ID dev) (Unix tst 0) lon lat (ot_Acc q) (ot_Batt q) speed (ot_T q) None in
                      let* out := ingest dev f (r_now r) n in
                      let '(res, n') := out in
                      match res with
                      | Err resp => respond resp n'
                      | Ok _ => respond writeOwnTracksAck n'
                      end
                  end
            | _, _, _ => respond (writeError StatusBadRequest "malformed") n
            end
      end
  end.

(* ---- reads ---- *)

Definition getPositions (w : Windows) (v : Viewer) : Handler := fun r n =>
  let* states := FamilyDeviceStates (v_FamilyID v) in
  match states with
  | Err _ => respond (writeError StatusInternalServerError "internal") n
  | Ok states =>
      respond (writeJSON StatusOK (JArr (map (fun s => entryFor s (r_now r) w) (sortDeviceStates states)))) n
  end.

(** Optional epoch seconds; [Err tt] for a value that is not an integer. *)
Definition epochParam (r : Request) (name : string) : result unit Time :=
  let s := r_Query r name in
  if String.eqb s "" then Ok zero_time
  else match ParseInt s with Ok secs => Ok (Unix secs 0) | Err _ => Err tt end.

Definition parseWindow (r : Request) : result unit (Time * Time) :=
  try from := epochParam r "from" in
  try to := epochParam r "to" in
  Ok (from, to).

Definition intParam (r : Request) (name : string) (def : Z) : result unit Z :=
  let s := r_Query r name in
  if String.eqb s "" then Ok def else match Atoi s with Ok n => Ok n | Err _ => Err tt end.

Definition parsePage (r : Request) : result unit (Z * Z) :=
  try limit := intParam r "limit" defaultHistoryLimit in
  try offset := intParam r "offset" 0 in
  Ok (limit, offset).

Definition floatParam (r : Request) (name : string) : result unit float64 :=
  let s := r_Query r name in
  if String.eqb s "" then Err tt else match ParseFloat s with Some f => Ok f | None => Err tt end.

Definition getDeviceHistory (deviceID : string) (v : Viewer) : Handler := fun r n =>
  if negb (uuid_Parse deviceID) then respond (writeError StatusBadRequest "malformed") n
  else
    let* dev := DeviceByID deviceID in
    match dev with
    | Err ErrUnknownDevice => respond (writeError StatusNotFound "not_found") n
    | Err _ => respond (writeError StatusInternalServerError "internal") n
    | Ok dev =>
        if negb (String.eqb (d_FamilyID dev) (v_FamilyID v)) then respond (writeError StatusForbidden "forbidden") n
        else match parseWindow r, parsePage r with
             | Ok (from, to), Ok (limit, offset) =>
                 let* fixes := DeviceHistory (v_FamilyID v) deviceID from to limit offset in
                 match fixes with
                 | Err _ => respond (writeError StatusInternalServerError "internal") n
                 | Ok fixes => respond (writeJSON StatusOK (JArr (map historyResponse fixes))) n
                 end
             | _, _ => respond (writeError StatusBadRequest "malformed") n
             end
    end.

Definition getNear (v : Viewer) : Handler := fun r n =>
  match floatParam r "lat", floatParam r "lon", floatParam r "m" with
  | Ok lat, Ok lon, Ok radiusM =>
      if f_ltb radiusM (f64 0) || isNotFinite radiusM then respond (writeError StatusBadRequest "malformed") n
      else
        let* near := FixesNear (v_FamilyID v) lon lat radiusM in
        match near with
        | Err ErrCoordinateOutOfRange => respond (writeError StatusBadRequest "malformed") n
        | Err _ => respond (writeError StatusInternalServerError "internal") n
        | Ok near => respond (writeJSON StatusOK (JArr (map nearbyResponse near))) n
        end
  | _, _, _ => respond (writeError StatusBadRequest "malformed") n
  end.

Definition getPlaces (v : Viewer) : Handler := fun r n =>
  let* places := ListGeofences (v_FamilyID v) in
  match places with
  | Err _ => respond (writeError StatusInternalServerError "internal") n
  | Ok places => respond (writeJSON StatusOK (JArr (map placeResponse places))) n
  end.

Definition getGeofenceEvents (v : Viewer) : Handler := fun r n =>
  match intParam r "limit" defaultGeofenceEventsLimit with
  | Err _ => respond (writeError StatusBadRequest "malformed") n
  | Ok limit =>
      let* events := ListGeofenceEvents (v_FamilyID v) limit in
      match events with
      | Err _ => respond (writeError StatusInternalServerError "internal") n
      | Ok events => respond (writeJSON StatusOK (JArr (map geofenceEventResponse events))) n
      end
  end.

(* ---- push registration ---- *)

(** The superseded address, if the registration names another one. *)
Definition superseded (token : string) (replaces : option string) : option string :=
  match replaces with
  | None => None
  | Some t => let replaced := TrimSpace t in
              if negb (String.eqb replaced "") && negb (String.eqb replaced token) then Some replaced else None
  end.

Definition remove_superseded (viewerID provider : string) (replaced : option string) (n : N) : M N :=
  match replaced with
  | None => ret n
  | Some replaced =>
      let* removed := RemovePushSubscriptionForViewer viewerID provider replaced in
      match removed with
      | Ok true => ret (notify_removed provider replaced n)
      | _ => ret n
      end
  end.

Definition pushSubscriptionResponse (id provider configured : string) : json :=
  JObj [("id", JStr id); ("provider", JStr provider); ("configured_provider", JStr configured)].

Definition registerPushSubscription (configuredProvider : string) (v : Viewer) : Handler := fun r n =>
  match decodeStrict push_fields (r_Body r) with
  | None => respond (writeError StatusBadRequest "malformed") n
  | Some fs =>
      match decode_pushRequest fs with
      | Some (mkPushRequest (Some provider) (Some tok) replaces) =>
          let token := TrimSpace tok in
          if String.eqb token "" then respond (writeError StatusBadRequest "malformed") n
          else if negb (ValidPushProvider provider) then respond (writeError StatusBadRequest "malformed") n
          else
            let* id := RegisterPushSubscription (v_ID v) provider token in
            match id with
            | Err ErrInvalidPushProvider => respond (writeError StatusBadRequest "malformed") n
            | Err _ => respond (writeError StatusInternalServerError "internal") n
            | Ok id =>
                let n := notify_registered provider token n in
                let* n := remove_superseded (v_ID v) provider (superseded token replaces) n in
                respond (writeJSON StatusCreated (pushSubscriptionResponse id provider configuredProvider)) n
            end
      | _ => respond (writeError StatusBadRequest "malformed") n
      end
  end.

(* ---- the route table ---- *)

Inductive Route :=
| RHealthz | RFixes | ROwnTracks | RPositions | RHistory (id : string) | RNear | RPlaces | REvents | RPush
| RStream | RMap | RStatic.

Definition path_segments (p : string) : list string := Split p "/"%char.

(** The patterns of [New], and the method each is registered for. *)
Definition match_route (p : string) : option (string * Route) :=
  match path_segments p with
  | [""; "healthz"] => Some ("GET", RHealthz)
  | [""; "v1"; "fixes"] => Some ("POST", RFixes)
  | [""; "owntracks"] => Some ("POST", ROwnTracks)
  | [""; "v1"; "positions"] => Some ("GET", RPositions)
  | [""; "v1"; "devices"; id; "history"] => Some ("GET", RHistory id)
  | [""; "v1"; "near"] => Some ("GET", RNear)
  | [""; "v1"; "places"] => Some ("GET", RPlaces)
  | [""; "v1"; "geofence-events"] => Some ("GET", REvents)
  | [""; "v1"; "push-subscriptions"] => Some ("POST", RPush)
  | [""; "v1"; "stream"] => Some ("GET", RStream)
  | [""; "map"] => Some ("GET", RMap)
  | "" :: "static" :: _ :: _ => Some ("*", RStatic)
  | _ => None
  end.

(** [New]: the JSON API.  The stream and the page routes are served by [other]. *)
Definition New (w : Windows) (configuredProvider : string) (other : Route -> Handler) : Handler := fun r n =>
  match match_route (r_Path r) with
  | None => respond (mkResp StatusNotFound [] (BText "404 page not found")) n
  | Some (method, route) =>
      if negb (String.eqb method "*") && negb (String.eqb (r_Method r) method)
      then respond (mkResp StatusMethodNotAllowed [("Allow", method)] (BText "")) n
      else match route with
           | RHealthz => healthz r n
           | RFixes => requireDevice postFix r n
           | ROwnTracks => requireDevice postOwnTracks r n
           | RPositions => requireViewer (getPositions w) r n
           | RHistory id => requireViewer (getDeviceHistory id) r n
           | RNear => requireViewer getNear r n
           | RPlaces => requireViewer getPlaces r n
           | REvents => requireViewer getGeofenceEvents r n
           | RPush => requireViewer (registerPushSubscription configuredProvider) r n
           | RStream | RMap | RStatic => other route r n
           end
  end.
End Handlers.
