(* ===== verification/ServerSpec.v ===== *)
(** What the HTTP surface guarantees, for every request, every notifier and
    whatever the database does to the statements: the credential gates, writes
    confined to the authenticated device, reads determined by the caller's family
    alone, replays absorbed, and registrations that reveal nothing. *)

From Stdlib Require Import ZArith Lia Bool String Ascii List SpecFloat Sorted.
From stdpp Require Import base option list strings gmap sorting.
From S2P Require Import Prelude GoTime Presentation GoStrings Calendar Database Partitions StoreFix.
From S2P Require Import StoreEntities StoreGeofence StoreReads Auth Json Dispatcher Notify Server.
Local Open Scope string_scope.
Local Open Scope Z_scope.

(* ------------------------------------------------------------------ *)
(** ** What an ingestion may change *)

Section Frame.
Context `{G : PostGIS}.

Definition adds {A} (key : A -> string) (id : string) (l l' : list A) : Prop :=
  exists added, l' = (l ++ added)%list /\ Forall (fun x => key x = id) added.

Lemma adds_refl {A} (key : A -> string) id l : adds key id l l.
Proof. exists []. by rewrite app_nil_r. Qed.

Lemma adds_snoc {A} (key : A -> string) id l l' x : adds key id l l' -> key x = id -> adds key id l (l' ++ [x]).
Proof.
  intros (a & -> & Ha) Hx. exists (a ++ [x])%list. rewrite app_assoc. split; [done|]. apply Forall_app. by repeat constructor.
Qed.

(** Only fixes and crossings of the device were added; partitions may have been. *)
Record ingested (id : string) (db0 db : DB) : Prop := {
  in_families : families db = families db0;
  in_devices : devices db = devices db0;
  in_viewers : viewers db = viewers db0;
  in_geofences : geofences db = geofences db0;
  in_subs : push_subscriptions db = push_subscriptions db0;
  in_fixes : adds fr_device_id id (fixes db0) (fixes db);
  in_events : adds ev_device_id id (geofence_events db0) (geofence_events db) }.

Lemma ingested_refl id db : ingested id db db.
Proof. constructor; try done; apply adds_refl. Qed.

Lemma upsertFixSQL_ingested f env db0 db : ingested (DeviceID f) db0 db ->
  ingested (DeviceID f) db0 (snd (upsertFixSQL f env db)).
Proof.
  intros Hi. unfold upsertFixSQL. cbv zeta. repeat case_match; try done. destruct Hi. constructor; try done. by apply adds_snoc.
Qed.

Lemma createPartition_ingested id name lo hi db0 db : ingested id db0 db ->
  ingested id db0 (snd (sql_createPartition name lo hi db)).
Proof. intros Hi. unfold sql_createPartition. repeat case_match; try done; destruct Hi; by constructor. Qed.

Lemma insertEvent_ingested id geofenceID kind ts env db0 db : ingested id db0 db ->
  ingested id db0 (snd (sql_insertEvent id geofenceID kind ts env db)).
Proof.
  intros Hi. unfold sql_insertEvent. cbv zeta. repeat case_match; try done. destruct Hi. constructor; try done. by apply adds_snoc.
Qed.

Lemma Ensure_ingested id db0 month : preserves (ingested id db0) (EnsureMonthlyPartition month).
Proof.
  unfold EnsureMonthlyPartition. preserves_steps. apply preserves_exec. intros. by apply createPartition_ingested.
Qed.

Lemma IngestFix_ingested db0 f now : preserves (ingested (DeviceID f) db0) (IngestFix f now).
Proof.
  assert (Hu : preserves (ingested (DeviceID f) db0) (UpsertFix f)).
  { unfold UpsertFix. preserves_steps. apply preserves_exec. intros. by apply upsertFixSQL_ingested. }
  unfold IngestFix. destruct (validateFixTimestamp _ _); [apply preserves_ret|]. apply preserves_bind; [done|].
  intros [b|e]; [apply preserves_ret|]. destruct (isMissingPartitionErr e); [|apply preserves_ret].
  apply preserves_bind; [apply Ensure_ingested|]. intros [name|e']; preserves_steps; done.
Qed.

Lemma append_loop_ingested id db0 g name ts : forall acc, preserves (ingested id db0) (append_loop id g name ts acc).
Proof.
  induction ts as [|tr ts IH]; intros acc; simpl; [apply preserves_ret|].
  apply preserves_bind; [apply preserves_exec; intros; by apply insertEvent_ingested|]. intros [tag|e]; [apply IH|apply preserves_ret].
Qed.

Lemma Evaluate_ingested id db0 around debounce : preserves (ingested id db0) (EvaluateDeviceGeofences id around debounce).
Proof.
  assert (Hone : forall g name, preserves (ingested id db0) (evaluateOneGeofence id g name around debounce)).
  { intros g name. unfold evaluateOneGeofence, read_seed. preserves_steps. apply append_loop_ingested. }
  unfold EvaluateDeviceGeofences. apply preserves_bind; [apply preserves_query|]. intros [places|e]; [|apply preserves_ret].
  generalize (@nil GeofenceEvent). induction places as [|[g name] places IH]; intros acc; simpl; [apply preserves_ret|].
  apply preserves_bind; [apply Hone|]. intros [evs [e|]]; [apply preserves_ret|apply IH].
Qed.
End Frame.

(** Case analysis down to the next call. *)
Ltac preserves_cases :=
  repeat match goal with |- preserves _ (match ?x with _ => _ end) => destruct x end.

(* ------------------------------------------------------------------ *)
(** ** Writes *)

Section Writes.
Context `{G : PostGIS} `{U : Unicode} `{F : FloatJson} `{H : SHA256} `{I : UUID}.
Context {N : Type} `{Nt : !Notifier N}.

Lemma ingest_preserves P dev f now (n : N) :
  preserves P (IngestFix f now) -> preserves P (EvaluateDeviceGeofences (DeviceID f) (TS f) GeofenceDebounce) ->
  preserves P (ingest dev f now n).
Proof.
  intros H1 H2. unfold ingest. apply preserves_bind; [done|]. intros [[|]|[]]; try apply preserves_ret.
  apply preserves_bind; [done|]. intros [[|e evs] err]; [apply preserves_ret|].
  apply preserves_bind; [apply notify_preserves|]. intros n'. apply preserves_ret.
Qed.

Lemma ingest_ingested db0 dev f now (n : N) : DeviceID f = d_ID dev -> preserves (ingested (d_ID dev) db0) (ingest dev f now n).
Proof. intros <-. apply ingest_preserves; [apply IngestFix_ingested|apply Evaluate_ingested]. Qed.

Lemma postFix_ingested db0 dev r (n : N) : preserves (ingested (d_ID dev) db0) (postFix dev r n).
Proof.
  unfold postFix, respond. preserves_cases; try apply preserves_ret.
  apply preserves_bind; [by apply ingest_ingested|]. intros [[b|resp] n']; apply preserves_ret.
Qed.

Lemma postOwnTracks_ingested db0 dev r (n : N) : preserves (ingested (d_ID dev) db0) (postOwnTracks dev r n).
Proof.
  unfold postOwnTracks, respond. cbv zeta. preserves_cases; try apply preserves_ret.
  apply preserves_bind; [by apply ingest_ingested|]. intros [[b|resp] n']; apply preserves_ret.
Qed.

(** The credential a route demands. *)
Inductive Gate := GDevice | GViewer | GOpen.
Definition gate_of (route : Route) : Gate :=
  match route with
  | RFixes | ROwnTracks => GDevice
  | RPositions | RHistory _ | RNear | RPlaces | REvents | RPush => GViewer
  | RHealthz | RStream | RMap | RStatic => GOpen
  end.

Lemma requireDevice_inv (next : Device -> Handler) r (n : N) w :
  (exists tok d w1, FromRequest (r_Authorization r) = Some tok /\ AuthenticateDevice (Auth.Hash tok) w = (Ok d, w1) /\
     requireDevice next r n w = next d r n w1) \/
  (exists resp, fst (requireDevice next r n w) = (resp, n) /\ w_db (snd (requireDevice next r n w)) = w_db w /\
     (resp = unauthorized \/ resp = writeError StatusInternalServerError "internal")).
Proof.
  unfold requireDevice, respond. destruct (FromRequest (r_Authorization r)) as [tok|]; [|right; simpl; eauto].
  unfold bind. assert (Hp : w_db (snd (AuthenticateDevice (Auth.Hash tok) w)) = w_db w).
  { assert (preserves (fun db => db = w_db w) (AuthenticateDevice (Auth.Hash tok))) as Hp; [|by apply Hp].
    unfold AuthenticateDevice, or_unknown. preserves_steps. }
  destruct (AuthenticateDevice (Auth.Hash tok) w) as [[d|e] w1] eqn:E; [left; eauto 6|]. right. simpl in Hp.
  destruct e; simpl; eauto.
Qed.

Lemma requireViewer_inv (next : Viewer -> Handler) r (n : N) w :
  (exists tok v w1, FromRequest (r_Authorization r) = Some tok /\ AuthenticateViewer (Auth.Hash tok) w = (Ok v, w1) /\
     requireViewer next r n w = next v r n w1) \/
  (exists resp, fst (requireViewer next r n w) = (resp, n) /\ w_db (snd (requireViewer next r n w)) = w_db w /\
     (resp = unauthorized \/ resp = writeError StatusInternalServerError "internal")).
Proof.
  unfold requireViewer, respond. destruct (FromRequest (r_Authorization r)) as [tok|]; [|right; simpl; eauto].
  unfold bind. assert (Hp : w_db (snd (AuthenticateViewer (Auth.Hash tok) w)) = w_db w).
  { assert (preserves (fun db => db = w_db w) (AuthenticateViewer (Auth.Hash tok))) as Hp; [|by apply Hp].
    unfold AuthenticateViewer, or_unknown. preserves_steps. }
  destruct (AuthenticateViewer (Auth.Hash tok) w) as [[d|e] w1] eqn:E; [left; eauto 6|]. right. simpl in Hp.
  destruct e; simpl; eauto.
Qed.

(** An authentication that succeeded named a live row of its table. *)
Lemma AuthenticateDevice_row h w d w1 : AuthenticateDevice h w = (Ok d, w1) ->
  w_db w1 = w_db w /\ exists row, row ∈ devices (w_db w) /\ dev_token_hash row = h /\
    unexpired (dev_expires_at row) (se_now (env_of w)) = true /\ d = device_of row.
Proof.
  unfold AuthenticateDevice. destruct (negb _); [done|]. unfold or_unknown, bind.
  destruct (query_row (sql_deviceByHash h) w) as [[a|e] w'] eqn:E; [|by destruct e].
  unfold ret. intros Er. injection Er as -> ->. apply query_row_ok_inv in E as [(rest & E) ->]. split; [done|].
  unfold sql_deviceByHash in E. assert (d ∈ map device_of (List.filter (fun r => String.eqb (dev_token_hash r) h &&
    unexpired (dev_expires_at r) (se_now (env_of w))) (devices (w_db w)))) as Hd.
  { unfold device_of. rewrite E. by left. }
  apply list_elem_of_fmap in Hd as (row & -> & Hr). apply elem_of_filter_b in Hr as [Hr [E1 E2]%andb_true_iff].
  exists row. by rewrite <- (proj1 (String.eqb_eq _ _) E1).
Qed.

(** C10: a device writes only its own data.  Whatever the request, the notifier and the
    database do, a POST to either ingestion route changes nothing but this: fixes and
    crossings of one device are added - the device whose unexpired credential row the
    presented token hashes to - and month partitions may be created; without such a
    row no table changes at all. *)
Theorem writes_own_device (r : Request) (n : N) (w : World) (wd : Windows) (cfg : string) (other : Route -> Handler) route meth :
  match_route (r_Path r) = Some (meth, route) -> gate_of route = GDevice ->
  let db' := w_db (snd (New wd cfg other r n w)) in
  db' = w_db w \/
  exists tok row, FromRequest (r_Authorization r) = Some tok /\ row ∈ devices (w_db w) /\
    dev_token_hash row = Auth.Hash tok /\ unexpired (dev_expires_at row) (se_now (env_of w)) = true /\
    ingested (dev_id row) (w_db w) db'.
Proof.
  intros Hr Hg. cbv zeta. unfold New. rewrite Hr. destruct (negb (String.eqb meth "*") && _); [by left|].
  destruct route; try discriminate Hg; simpl.
  - destruct (requireDevice_inv postFix r n w) as [(tok & d & w1 & Et & Ea & Er)|(resp & _ & Er & _)]; rewrite Er; [right|by left].
    apply AuthenticateDevice_row in Ea as (Ew & row & Hrow & Eh & Ex & ->). exists tok, row. repeat (split; [done|]).
    apply (postFix_ingested (w_db w) (device_of row)). rewrite Ew. apply ingested_refl.
  - destruct (requireDevice_inv postOwnTracks r n w) as [(tok & d & w1 & Et & Ea & Er)|(resp & _ & Er & _)]; rewrite Er; [right|by left].
    apply AuthenticateDevice_row in Ea as (Ew & row & Hrow & Eh & Ex & ->). exists tok, row. repeat (split; [done|]).
    apply (postOwnTracks_ingested (w_db w) (device_of row)). rewrite Ew. apply ingested_refl.
Qed.

(** Whether the request carries the credential its gate demands. *)
Definition credentialed (g : Gate) (r : Request) (w : World) : Prop :=
  match g with
  | GDevice => exists tok, FromRequest (r_Authorization r) = Some tok /\
      live_row dev_token_hash dev_expires_at (se_now (env_of w)) (Auth.Hash tok) (devices (w_db w)) <> []
  | GViewer => exists tok, FromRequest (r_Authorization r) = Some tok /\
      live_row vw_token_hash vw_expires_at (se_now (env_of w)) (Auth.Hash tok) (viewers (w_db w)) <> []
  | GOpen => True
  end.

(** C12: without the right credential nothing happens.  On every gated route a request
    with the right method that presents no token, or a token that is not the digest of
    an unexpired row of the route's own table - so a device's token on a read route
    and a viewer's token on an ingestion route - is answered 401 with a
    WWW-Authenticate header; no table changes and nothing is notified. *)
Theorem gates_refuse (r : Request) (n : N) (w : World) (wd : Windows) (cfg : string) (other : Route -> Handler) route :
  quiet w -> match_route (r_Path r) = Some (r_Method r, route) -> gate_of route <> GOpen ->
  ~ credentialed (gate_of route) r w ->
  fst (New wd cfg other r n w) = (unauthorized, n) /\ w_db (snd (New wd cfg other r n w)) = w_db w.
Proof.
  intros Hq Hr Hg Hc. unfold New. rewrite Hr, String.eqb_refl, andb_false_r.
  assert (Hlen : forall tok : Token, len (Auth.Hash tok) = TokenHashLen) by (intros; apply Sum256_len).
  assert (HD : gate_of route = GDevice -> forall next : Device -> Handler, fst (requireDevice next r n w) = (unauthorized, n) /\
    w_db (snd (requireDevice next r n w)) = w_db w).
  { intros Eg next. rewrite Eg in Hc. unfold requireDevice, respond.
    destruct (FromRequest (r_Authorization r)) as [tok|] eqn:Et; [|done]. unfold bind. rewrite AuthenticateDevice_quiet by auto.
    destruct (live_row _ _ _ _ _) as [|row rest] eqn:El; [done|]. destruct Hc. exists tok. by rewrite El. }
  assert (HV : gate_of route = GViewer -> forall next : Viewer -> Handler, fst (requireViewer next r n w) = (unauthorized, n) /\
    w_db (snd (requireViewer next r n w)) = w_db w).
  { intros Eg next. rewrite Eg in Hc. unfold requireViewer, respond.
    destruct (FromRequest (r_Authorization r)) as [tok|] eqn:Et; [|done]. unfold bind. rewrite AuthenticateViewer_quiet by auto.
    destruct (live_row _ _ _ _ _) as [|row rest] eqn:El; [done|]. destruct Hc. exists tok. by rewrite El. }
  destruct route; simpl in *; try (by apply HD); try (by apply HV); done.
Qed.
End Writes.

(* ------------------------------------------------------------------ *)
(** ** Reads *)

Section Reads.
Context `{G : PostGIS}.

Definition family_device (fam : string) (d : device_row) : bool := String.eqb (dev_family_id d) fam.
Definition in_family (fam : string) (db : DB) (id : string) : bool :=
  existsb (fun d => String.eqb (dev_id d) id && family_device fam d) (devices db).

(** Two databases hold the same of one family, whatever else they hold. *)
Record same_family (fam : string) (db db' : DB) : Prop := {
  sf_devices : List.filter (family_device fam) (devices db) = List.filter (family_device fam) (devices db');
  sf_fixes : List.filter (fun f => in_family fam db (fr_device_id f)) (fixes db) =
             List.filter (fun f => in_family fam db' (fr_device_id f)) (fixes db');
  sf_geofences : List.filter (fun g => String.eqb (gf_family_id g) fam) (geofences db) =
                 List.filter (fun g => String.eqb (gf_family_id g) fam) (geofences db');
  sf_events : List.filter (fun e => in_family fam db (ev_device_id e)) (geofence_events db) =
              List.filter (fun e => in_family fam db' (ev_device_id e)) (geofence_events db');
  sf_places : forall e, e ∈ geofence_events db -> in_family fam db (ev_device_id e) = true ->
    List.filter (fun g => String.eqb (gf_id g) (ev_geofence_id e)) (geofences db) =
    List.filter (fun g => String.eqb (gf_id g) (ev_geofence_id e)) (geofences db') }.

Lemma filter_sub {A} (p q : A -> bool) l : (forall x, p x = true -> q x = true) ->
  List.filter p (List.filter q l) = List.filter p l.
Proof.
  intros H. induction l as [|x l IH]; simpl; [done|]. destruct (q x) eqn:Eq; simpl; [by rewrite IH|].
  destruct (p x) eqn:Ep; [by rewrite (H x Ep) in Eq|done].
Qed.

(** A join over rows the filter drops contributes nothing. *)
Lemma flat_map_filter {A B} (p : A -> bool) (g : A -> list B) l : (forall x, p x = false -> g x = []) ->
  flat_map g (List.filter p l) = flat_map g l.
Proof.
  intros H. induction l as [|x l IH]; simpl; [done|]. destruct (p x) eqn:E; simpl; rewrite IH; [done|]. by rewrite H.
Qed.

(** The family's devices under one id. *)
Lemma family_join fam db db' id : same_family fam db db' ->
  List.filter (fun d => String.eqb (dev_id d) id && family_device fam d) (devices db) =
  List.filter (fun d => String.eqb (dev_id d) id && family_device fam d) (devices db').
Proof.
  intros Hs. rewrite <- (filter_sub _ (family_device fam) (devices db)), <- (filter_sub _ (family_device fam) (devices db')).
  - by rewrite (sf_devices _ _ _ Hs).
  - by intros x [_ ?]%andb_true_iff.
  - by intros x [_ ?]%andb_true_iff.
Qed.

Lemma in_family_eq fam db db' id : same_family fam db db' -> in_family fam db id = in_family fam db' id.
Proof.
  intros Hs. assert (E : forall db0, in_family fam db0 id = match List.filter (fun d => String.eqb (dev_id d) id && family_device fam d)
    (devices db0) with [] => false | _ => true end).
  { intros db0. unfold in_family. induction (devices db0) as [|d l IH]; simpl; [done|]. by destruct (_ && _). }
  by rewrite !E, (family_join _ _ _ _ Hs).
Qed.

Lemma join_empty fam (db : DB) id : in_family fam db id = false ->
  List.filter (fun d => String.eqb (dev_id d) id && family_device fam d) (devices db) = [].
Proof. intros H. apply filter_none. intros d Hd. by apply (proj1 (existsb_elem_false _ _) H). Qed.

(** Joining through the family's devices sees only the family's rows. *)
Lemma family_flat_map {A B} fam db db' (id_of : A -> string) (l l' : list A) (g : A -> device_row -> list B) :
  same_family fam db db' ->
  List.filter (fun x => in_family fam db (id_of x)) l = List.filter (fun x => in_family fam db' (id_of x)) l' ->
  flat_map (fun x => flat_map (g x) (List.filter (fun d => String.eqb (dev_id d) (id_of x) && family_device fam d) (devices db))) l =
  flat_map (fun x => flat_map (g x) (List.filter (fun d => String.eqb (dev_id d) (id_of x) && family_device fam d) (devices db'))) l'.
Proof.
  intros Hs Hl.
  rewrite <- (flat_map_filter (fun x => in_family fam db (id_of x)) _ l) by (intros x Hx; by rewrite join_empty).
  rewrite <- (flat_map_filter (fun x => in_family fam db' (id_of x)) _ l') by (intros x Hx; by rewrite join_empty).
  rewrite <- Hl. apply flat_map_ext_elem. intros x _. by rewrite (family_join _ _ _ _ Hs).
Qed.

Lemma device_fixes fam db db' id : same_family fam db db' -> in_family fam db id = true ->
  List.filter (of_device id) (fixes db) = List.filter (of_device id) (fixes db').
Proof.
  intros Hs Hi. assert (Hsub : forall db0, in_family fam db0 id = true -> List.filter (of_device id) (fixes db0) =
    List.filter (of_device id) (List.filter (fun f => in_family fam db0 (fr_device_id f)) (fixes db0))).
  { intros db0 H0. symmetry. apply filter_sub. unfold of_device. by intros f ->%String.eqb_eq. }
  rewrite (Hsub db Hi), (Hsub db'), (sf_fixes _ _ _ Hs); [done|]. by rewrite <- (in_family_eq _ _ _ _ Hs).
Qed.

Lemma map_flat_map {A B} (f : A -> B) (l : list A) : map f l = flat_map (fun x => [f x]) l.
Proof. by induction l as [|x l IH]; simpl; [|rewrite IH]. Qed.

Lemma family_states fam db db' : same_family fam db db' -> familyDeviceStatesSQL fam db = familyDeviceStatesSQL fam db'.
Proof.
  intros Hs. unfold familyDeviceStatesSQL.
  change (fun d => String.eqb (dev_family_id d) fam) with (family_device fam). rewrite (sf_devices _ _ _ Hs).
  apply map_ext_in. intros d [Hd Hf]%filter_In. unfold state_of, newest_fix.
  assert (Hi : in_family fam db (dev_id d) = true).
  { rewrite (in_family_eq _ _ _ _ Hs). unfold in_family. apply existsb_exists. exists d. rewrite String.eqb_refl. by rewrite Hf. }
  by rewrite (device_fixes _ _ _ _ Hs Hi).
Qed.

Lemma family_near fam db db' lon lat m : same_family fam db db' -> fixesNearSQL fam lon lat m db = fixesNearSQL fam lon lat m db'.
Proof.
  intros Hs. unfold fixesNearSQL. f_equal. unfold join_device.
  assert (E : forall db0, flat_map (fun r => map (fun d => mkNearbyFix (fr_device_id r) (dev_name d) (fr_ts r)
       (ST_X (fr_location r)) (ST_Y (fr_location r)) (ST_Distance (fr_location r) (ST_Point lon lat)))
       (List.filter (fun d => String.eqb (dev_family_id d) fam && ST_DWithin (fr_location r) (ST_Point lon lat) m)
          (List.filter (fun d => String.eqb (dev_id d) (fr_device_id r)) (devices db0)))) (fixes db0) =
    flat_map (fun r => flat_map (fun d => if ST_DWithin (fr_location r) (ST_Point lon lat) m then
       [mkNearbyFix (fr_device_id r) (dev_name d) (fr_ts r)
         (ST_X (fr_location r)) (ST_Y (fr_location r)) (ST_Distance (fr_location r) (ST_Point lon lat))] else [])
       (List.filter (fun d => String.eqb (dev_id d) (fr_device_id r) && family_device fam d) (devices db0))) (fixes db0)).
  { intros db0. apply flat_map_ext. intros r. rewrite filter_filter_andb. unfold family_device.
    induction (devices db0) as [|d l IH]; simpl; [done|].
    destruct (String.eqb (dev_id d) (fr_device_id r)), (String.eqb (dev_family_id d) fam); simpl; try done.
    destruct (ST_DWithin _ _ _); simpl; by rewrite IH. }
  rewrite !E. by apply (family_flat_map fam db db' fr_device_id), (sf_fixes _ _ _ Hs).
Qed.

Lemma family_history fam db db' id from to limit offset : same_family fam db db' ->
  deviceHistorySQL fam id from to limit offset db = deviceHistorySQL fam id from to limit offset db'.
Proof.
  intros Hs. unfold deviceHistorySQL, join_device. do 4 f_equal.
  assert (E : forall db0, flat_map (fun r => map (fun _ => r) (List.filter (fun d => String.eqb (dev_family_id d) fam)
       (List.filter (fun d => String.eqb (dev_id d) (fr_device_id r)) (devices db0))))
      (List.filter (fun r => of_device id r && in_window from to (fr_ts r)) (fixes db0)) =
    flat_map (fun r => flat_map (fun _ => if of_device id r && in_window from to (fr_ts r) then [r] else [])
       (List.filter (fun d => String.eqb (dev_id d) (fr_device_id r) && family_device fam d) (devices db0))) (fixes db0)).
  { intros db0. rewrite <- (flat_map_filter (fun r => of_device id r && in_window from to (fr_ts r)) _ (fixes db0)).
    - apply flat_map_ext_elem. intros r Hr. apply elem_of_filter_b in Hr as [_ ->]. rewrite filter_filter_andb. apply map_flat_map.
    - intros r ->. by induction (List.filter _ (devices db0)). }
  rewrite !E. by apply (family_flat_map fam db db' fr_device_id), (sf_fixes _ _ _ Hs).
Qed.

Lemma family_events fam db db' limit : same_family fam db db' ->
  listGeofenceEventsSQL fam limit db = listGeofenceEventsSQL fam limit db'.
Proof.
  intros Hs. unfold listGeofenceEventsSQL. do 3 f_equal.
  rewrite <- (flat_map_filter (fun e => in_family fam db (ev_device_id e)) _ (geofence_events db))
    by (intros e He; pose proof (join_empty fam db (ev_device_id e) He) as Hj; unfold family_device in Hj; by rewrite Hj).
  rewrite <- (flat_map_filter (fun e => in_family fam db' (ev_device_id e)) _ (geofence_events db'))
    by (intros e He; pose proof (join_empty fam db' (ev_device_id e) He) as Hj; unfold family_device in Hj; by rewrite Hj).
  rewrite <- (sf_events _ _ _ Hs). apply flat_map_ext_elem. intros e He. apply elem_of_filter_b in He as [He Hi].
  pose proof (family_join fam db db' (ev_device_id e) Hs) as Hj. unfold family_device in Hj. rewrite Hj.
  apply flat_map_ext. intros d.
  by rewrite (sf_places _ _ _ Hs e He Hi).
Qed.

Lemma family_places fam db db' : same_family fam db db' -> listGeofencesSQL fam db = listGeofencesSQL fam db'.
Proof. intros Hs. unfold listGeofencesSQL. by rewrite (sf_geofences _ _ _ Hs). Qed.
End Reads.

Section Isolation.
Context `{G : PostGIS} `{U : Unicode} `{F : FloatJson} `{H : SHA256} `{I : UUID}.
Context {N : Type} `{Nt : !Notifier N}.

(** Two worlds that agree on a family and on how statements run. *)
Definition agree (fam : string) (w w' : World) : Prop :=
  w_env w = w_env w' /\ w_next w = w_next w' /\ same_family fam (w_db w) (w_db w').

Lemma query_agree {A} fam (q : DB -> A) w w' : agree fam w w' -> (forall db db', same_family fam db db' -> q db = q db') ->
  fst (query (fun _ => q) w) = fst (query (fun _ => q) w') /\ agree fam (snd (query (fun _ => q) w)) (snd (query (fun _ => q) w')).
Proof.
  intros (E1 & E2 & Hs) Hq. unfold query, exec. rewrite <- E1, <- E2.
  destruct (se_fault _); simpl; (split; [|split; [done|split; [by rewrite E2|done]]]); try done. by rewrite (Hq _ _ Hs).
Qed.

(** What follows a query sees only its answer. *)
Lemma bind_query_agree {A B} fam (q : DB -> A) (k : result error A -> M B) w w' :
  agree fam w w' -> (forall db db', same_family fam db db' -> q db = q db') ->
  (forall a v v', agree fam v v' -> fst (k a v) = fst (k a v')) ->
  fst (bind (query (fun _ => q)) k w) = fst (bind (query (fun _ => q)) k w').
Proof.
  intros Ha Hq Hk. destruct (query_agree fam q w w' Ha Hq) as [E1 E2]. unfold bind.
  destruct (query _ w) as [a v], (query _ w') as [a' v']. simpl in *. subst a'. by apply Hk.
Qed.

(** C13: a viewer's reads depend on its own family alone.  Positions, Places, crossings,
    proximity and history answer the same in any two databases that hold the same
    devices, fixes, Places and crossings of the viewer's family - whatever other
    families' rows they hold, and whatever the database does to the statements, so long
    as it does the same; a history request for a device that is not in the family is
    answered with an error code and no rows. *)
Theorem reads_family_only (v : Viewer) (r : Request) (n : N) (w w' : World) (wd : Windows) (id : string) :
  agree (v_FamilyID v) w w' ->
  fst (getPositions wd v r n w) = fst (getPositions wd v r n w') /\
  fst (getPlaces v r n w) = fst (getPlaces v r n w') /\
  fst (getGeofenceEvents v r n w) = fst (getGeofenceEvents v r n w') /\
  fst (getNear v r n w) = fst (getNear v r n w') /\
  (forall d : Device, d_FamilyID d = v_FamilyID v ->
     fst (DeviceByID id w) = Ok d -> fst (DeviceByID id w') = Ok d ->
     fst (getDeviceHistory id v r n w) = fst (getDeviceHistory id v r n w')) /\
  ((forall d : Device, fst (DeviceByID id w) = Ok d -> d_FamilyID d <> v_FamilyID v) ->
     exists code errCode, fst (getDeviceHistory id v r n w) = (writeError code errCode, n)).
Proof.
  intros Ha. repeat split.
  - unfold getPositions, FamilyDeviceStates, respond. apply (bind_query_agree _ _ _ _ _ Ha); [apply family_states|]. by intros [].
  - unfold getPlaces, ListGeofences, respond. apply (bind_query_agree _ _ _ _ _ Ha); [apply family_places|]. by intros [].
  - unfold getGeofenceEvents, ListGeofenceEvents, respond. destruct (intParam _ _ _); [|done].
    apply (bind_query_agree _ _ _ _ _ Ha); [intros; by apply family_events|]. by intros [].
  - unfold getNear, FixesNear, respond. destruct (floatParam r "lat"); [|done]. destruct (floatParam r "lon"); [|done].
    destruct (floatParam r "m"); [|done]. destruct (_ || _); [done|]. destruct (ValidateLonLat _ _) as [[]|]; try done.
    destruct (_ || _); [done|]. apply (bind_query_agree _ _ _ _ _ Ha); [intros; by apply family_near|]. by intros [|[]].
  - intros d Hd E E'. unfold getDeviceHistory, respond. destruct (negb (uuid_Parse id)); [done|].
    unfold bind at 1 3. assert (Ha' : agree (v_FamilyID v) (snd (DeviceByID id w)) (snd (DeviceByID id w'))).
    { unfold DeviceByID, or_unknown, query_row, bindr, bind. destruct Ha as (E1 & E2 & Hs). unfold query, exec. rewrite <- E1, <- E2.
      destruct (se_fault _); simpl; [|done|done].
      destruct (sql_deviceByID id (w_db w)), (sql_deviceByID id (w_db w')); simpl; split; by rewrite ?E1, ?E2. }
    destruct (DeviceByID id w) as [a v1], (DeviceByID id w') as [a' v1']. simpl in *. subst a a'.
    destruct (negb _); [done|]. destruct (parseWindow r) as [[from to]|]; [|done]. destruct (parsePage r) as [[limit offset]|]; [|done].
    unfold DeviceHistory. apply (bind_query_agree _ _ _ _ _ Ha'); [intros; by apply family_history|]. by intros [].
  - intros Hno. unfold getDeviceHistory, respond. destruct (negb (uuid_Parse id)); [by do 2 eexists|]. unfold bind at 1.
    destruct (DeviceByID id w) as [[d|e] v1]; simpl in *.
    + destruct (String.eqb_spec (d_FamilyID d) (v_FamilyID v)) as [Ed|Ed]; [by destruct (Hno d)|]. by do 2 eexists.
    + destruct e; by do 2 eexists.
Qed.
End Isolation.

(* ------------------------------------------------------------------ *)
(** ** Replays *)

Section Replay.
Context `{G : PostGIS} `{U : Unicode} `{F : FloatJson} `{H : SHA256} `{I : UUID}.
Context {N : Type} `{Nt : !Notifier N}.

(** The row a fix maps to is there, and its month is. *)
Definition stored (f : Fix) (db : DB) : Prop :=
  routed (relations db) (timestamptz (TS f)) = true /\ rows_at (DeviceID f) (timestamptz (TS f)) db <> [].

Lemma UpsertFix_stored f w b w' : UpsertFix f w = (Ok b, w') ->
  ValidateLonLat (Lon f) (Lat f) = None /\ fix_checks f = true /\ stored f (w_db w').
Proof.
  intros E. pose proof (UpsertFix_ok f w b w' E) as Hrow. unfold UpsertFix in E.
  destruct (ValidateLonLat _ _); [discriminate E|]. unfold bindr, bind in E.
  destruct (exec _ w) as [[n|e] w1] eqn:Ex; [|discriminate E]. apply exec_ok_inv in Ex as [Ex ->].
  unfold ret in E. injection E as _ <-. split; [done|]. unfold stored.
  pose proof (upsertFixSQL_fixes f (env_of w) (w_db w)) as [Hrel _]. simpl in *. rewrite Hrel.
  unfold upsertFixSQL in Ex. cbv zeta in Ex. destruct (routed (relations (w_db w)) _) eqn:Er; [|discriminate Ex].
  simpl in Ex. destruct (fix_checks f); [|discriminate Ex]. simpl in Er. done.
Qed.

Lemma IngestFix_stored f now w b w' : IngestFix f now w = (Ok b, w') ->
  ValidateLonLat (Lon f) (Lat f) = None /\ fix_checks f = true /\ stored f (w_db w').
Proof.
  unfold IngestFix. destruct (validateFixTimestamp _ _); [done|]. unfold bind at 1.
  destruct (UpsertFix f w) as [[b1|e] w1] eqn:E1.
  - unfold ret. intros E. injection E as _ <-. by apply UpsertFix_stored in E1.
  - destruct (isMissingPartitionErr e); [|done]. unfold bind. destruct (EnsureMonthlyPartition _ w1) as [[name|e'] w2].
    + intros E. by apply UpsertFix_stored in E.
    + destruct (negb _); [done|]. intros E. by apply UpsertFix_stored in E.
Qed.

(** A stored fix is known to the next upsert, which changes nothing. *)
Lemma IngestFix_known f now w : quiet w -> validateFixTimestamp (TS f) now = None -> ValidateLonLat (Lon f) (Lat f) = None ->
  fix_checks f = true -> stored f (w_db w) -> IngestFix f now w = (Ok false, tick w).
Proof.
  intros Hq Ht Hv Hc [Hr Hrow]. unfold IngestFix. rewrite Ht. unfold UpsertFix. rewrite Hv. unfold bind at 1, bindr, bind.
  rewrite exec_quiet by done. unfold upsertFixSQL. simpl. rewrite Hr, Hc. simpl.
  destruct (existsb (same_key (DeviceID f) (timestamptz (TS f))) (fixes (w_db w))) eqn:Ek; [by destruct w|].
  destruct Hrow. unfold rows_at. apply filter_none. intros x Hx. by apply (proj1 (existsb_elem_false _ _) Ek).
Qed.

Lemma stored_events f db es : stored f (set_events es db) <-> stored f db.
Proof. done. Qed.

Lemma Evaluate_stored f id around debounce : preserves (stored f) (EvaluateDeviceGeofences id around debounce).
Proof.
  assert (Hloop : forall g name ts acc, preserves (stored f) (append_loop id g name ts acc)).
  { intros g name ts. induction ts as [|tr ts IH]; intros acc; simpl; [apply preserves_ret|].
    apply preserves_bind; [apply preserves_exec|intros [tag|e]; [apply IH|apply preserves_ret]].
    intros env db Hs. unfold sql_insertEvent. cbv zeta. by repeat case_match. }
  assert (Hone : forall g name, preserves (stored f) (evaluateOneGeofence id g name around debounce)).
  { intros g name. unfold evaluateOneGeofence, read_seed. preserves_steps. apply Hloop. }
  unfold EvaluateDeviceGeofences. apply preserves_bind; [apply preserves_query|]. intros [places|e]; [|apply preserves_ret].
  generalize (@nil GeofenceEvent). induction places as [|[g name] places IH]; intros acc; simpl; [apply preserves_ret|].
  apply preserves_bind; [apply Hone|]. intros [evs [e|]]; [apply preserves_ret|apply IH].
Qed.

Lemma ingest_stored dev f now (n : N) w b n' w' : ingest dev f now n w = ((Ok b, n'), w') ->
  ValidateLonLat (Lon f) (Lat f) = None /\ fix_checks f = true /\ stored f (w_db w').
Proof.
  unfold ingest. unfold bind at 1. destruct (IngestFix f now w) as [[ins|e] w1] eqn:E; [|by destruct e].
  apply IngestFix_stored in E as (Hv & Hc & Hs). intros E. split; [done|]. split; [done|].
  set (m := if ins then _ else _) in E. assert (Hp : preserves (stored f) m).
  { unfold m. destruct ins; [|apply preserves_ret]. apply preserves_bind; [apply Evaluate_stored|].
    intros [[|ev evs] err]; [apply preserves_ret|]. apply preserves_bind; [apply notify_preserves|]. intros; apply preserves_ret. }
  specialize (Hp w1 Hs). by rewrite E in Hp.
Qed.

Definition duplicate : Response := writeJSON StatusOK (JObj [("deduped", JBool true); ("status", JStr "duplicate")]).

(** A replay is absorbed.  Once a report has been answered 200 or 201 - whatever
    failed on the way - the same body posted again by the same device, against the
    tables that answer left and with no statement failing, is answered 200 "duplicate"
    (or refused as out of the ingest window, if that much time has passed), stores
    nothing, evaluates nothing and notifies nobody. *)
Theorem replay_absorbed (dev : Device) (r r' : Request) (n n1 n2 : N) (w w1 wq : World) (resp : Response) :
  postFix dev r n w = ((resp, n1), w1) -> rp_Code resp = StatusOK \/ rp_Code resp = StatusCreated ->
  r_Body r' = r_Body r -> quiet wq -> w_db wq = w_db w1 ->
  (fst (postFix dev r' n2 wq) = (duplicate, n2) \/
   fst (postFix dev r' n2 wq) = (writeError StatusBadRequest "invalid_fix", n2)) /\
  w_db (snd (postFix dev r' n2 wq)) = w_db wq.
Proof.
  intros E Hcode Hbody Hq Hdb. unfold postFix, respond in *. rewrite Hbody.
  assert (Hbad : forall e m v, ((writeError StatusBadRequest e, m), v) = ((resp, n1), w1) -> False).
  { intros e m v [= <- _ _]. by destruct Hcode. }
  destruct (decodeStrict _ _) as [fs|]; [|by apply Hbad in E]. destruct (decode_fixRequest fs) as [q|]; [|by apply Hbad in E].
  destruct (fq_Lat q) as [lat|]; [|by apply Hbad in E]. destruct (fq_Lon q) as [lon|]; [|by apply Hbad in E].
  destruct (fq_TS q) as [ts|]; [|by apply Hbad in E]. destruct (negb _); [by apply Hbad in E|].
  set (f := fix_of_request dev lat lon ts q) in *. unfold bind at 1 in E.
  destruct (ingest dev f (r_now r) n w) as [[[b|er] n'] w'] eqn:Ei; unfold ret in E.
  - injection E as _ _ <-. apply ingest_stored in Ei as (Hv & Hc & Hs). rewrite <- Hdb in Hs.
    unfold bind at 1 3, ingest. destruct (validateFixTimestamp (TS f) (r_now r')) as [et|] eqn:Et.
    + assert (Er : IngestFix f (r_now r') wq = (Err et, wq)) by (unfold IngestFix; by rewrite Et).
      unfold bind. rewrite Er. assert (et = ErrTimestampOutOfWindow) as ->.
      { unfold validateFixTimestamp in Et. repeat case_match; by simplify_eq. }
      simpl. auto.
    + unfold bind. rewrite (IngestFix_known f (r_now r') wq Hq Et Hv Hc Hs). simpl. auto.
  - exfalso. injection E as <- <- <-. unfold ingest in Ei. unfold bind at 1 in Ei.
    destruct (IngestFix f (r_now r) w) as [[ins|e] w2].
    + destruct ins; [|discriminate Ei]. unfold bind in Ei. destruct (EvaluateDeviceGeofences _ _ _ w2) as [[[|ev evs] err] w3]; [discriminate Ei|].
      destruct (NotifyGeofenceEvents _ _ _ w3); discriminate Ei.
    + destruct e; injection Ei as <- _ _; by destruct Hcode.
Qed.
End Replay.

(* ------------------------------------------------------------------ *)
(** ** Push registration *)

Section Registration.
Context `{G : PostGIS} `{U : Unicode} `{F : FloatJson} `{H : SHA256} `{I : UUID}.
Context {N : Type} `{Nt : !Notifier N}.

(** Rows of other viewers under other endpoints stay, and no row of theirs appears. *)
Definition others_kept (viewerID provider token : string) (db0 db : DB) : Prop :=
  forall s, sub_viewer_id s <> viewerID -> same_endpoint provider token s = false ->
    (s ∈ push_subscriptions db <-> s ∈ push_subscriptions db0).

Lemma register_others viewerID provider token db0 :
  preserves (others_kept viewerID provider token db0) (RegisterPushSubscription viewerID provider token).
Proof.
  unfold RegisterPushSubscription. destruct (negb _); [apply preserves_ret|]. apply preserves_exec.
  intros env db Hk. unfold registerPushSubscriptionSQL. repeat case_match; try done; intros row Hv He; simpl.
  - rewrite <- (Hk row Hv He), list_elem_of_fmap. split.
    + intros (x & -> & Hx). case_match; [|done]. by destruct Hv.
    + intros Hs. exists row. by rewrite He.
  - rewrite <- (Hk row Hv He), elem_of_app, list_elem_of_singleton. split; [|by left]. intros [?|Es]; [done|].
    by destruct Hv; rewrite Es.
Qed.

Lemma remove_others viewerID provider token replaced db0 :
  preserves (others_kept viewerID provider token db0) (RemovePushSubscriptionForViewer viewerID provider replaced).
Proof.
  unfold RemovePushSubscriptionForViewer. destruct (negb _); [apply preserves_ret|].
  apply preserves_bindr; [|intros; apply preserves_ret]. apply preserves_exec. intros env db Hk s Hv He. simpl.
  rewrite <- (Hk s Hv He), elem_of_filter_b. split; [by intros [? _]|]. intros Hs. split; [done|].
  destruct (String.eqb_spec (sub_viewer_id s) viewerID); done.
Qed.

(** The registration past its validation. *)
Definition register_tail (cfg : string) (v : Viewer) (provider token : string) (replaces : option string) (n : N) : M (Response * N) :=
  let* id := RegisterPushSubscription (v_ID v) provider token in
  match id with
  | Err ErrInvalidPushProvider => respond (writeError StatusBadRequest "malformed") n
  | Err _ => respond (writeError StatusInternalServerError "internal") n
  | Ok id =>
      let n := notify_registered provider token n in
      let* n := remove_superseded (v_ID v) provider (superseded token replaces) n in
      respond (writeJSON StatusCreated (pushSubscriptionResponse id provider cfg)) n
  end.

Lemma register_tail_others cfg v provider token replaces n db0 :
  preserves (others_kept (v_ID v) provider token db0) (register_tail cfg v provider token replaces n).
Proof.
  unfold register_tail, respond. apply preserves_bind; [apply register_others|]. intros [id|e]; [|destruct e; apply preserves_ret].
  apply preserves_bind; [|intros; apply preserves_ret]. unfold remove_superseded.
  destruct (superseded token replaces); [|apply preserves_ret]. apply preserves_bind; [apply remove_others|].
  intros [[]|]; apply preserves_ret.
Qed.

(** The response does not see the removal. *)
Lemma register_tail_response cfg v provider token replaces replaces' n w :
  fst (fst (register_tail cfg v provider token replaces n w)) = fst (fst (register_tail cfg v provider token replaces' n w)).
Proof.
  unfold register_tail, bind. destruct (RegisterPushSubscription _ _ _ w) as [[id|e] w1]; [|by destruct e].
  destruct (remove_superseded _ _ (superseded token replaces) _ w1) as [n1 w2].
  by destruct (remove_superseded _ _ (superseded token replaces') _ w1) as [n3 w3].
Qed.

Lemma registerPushSubscription_tail cfg v r (n : N) fs provider tok replaces :
  decodeStrict push_fields (r_Body r) = Some fs ->
  decode_pushRequest fs = Some (mkPushRequest (Some provider) (Some tok) replaces) ->
  registerPushSubscription cfg v r n =
    if String.eqb (TrimSpace tok) "" then respond (writeError StatusBadRequest "malformed") n
    else if negb (ValidPushProvider provider) then respond (writeError StatusBadRequest "malformed") n
    else register_tail cfg v provider (TrimSpace tok) replaces n.
Proof. intros E1 E2. unfold registerPushSubscription. by rewrite E1, E2. Qed.

(** A registration reveals and touches nothing of other viewers.  Two
    registrations of one endpoint that differ only in the address they claim to
    replace get the same response - whether or not that address exists and whoever
    owns it, and whatever the database does - and no subscription of another viewer
    under another endpoint appears or disappears. *)
Theorem registration_oblivious (cfg : string) (v : Viewer) (r r' : Request) (n : N) (w : World) fs fs' provider tok replaces replaces' :
  decodeStrict push_fields (r_Body r) = Some fs -> decodeStrict push_fields (r_Body r') = Some fs' ->
  decode_pushRequest fs = Some (mkPushRequest (Some provider) (Some tok) replaces) ->
  decode_pushRequest fs' = Some (mkPushRequest (Some provider) (Some tok) replaces') ->
  fst (fst (registerPushSubscription cfg v r n w)) = fst (fst (registerPushSubscription cfg v r' n w)) /\
  forall s, sub_viewer_id s <> v_ID v -> same_endpoint provider (TrimSpace tok) s = false ->
    (s ∈ push_subscriptions (w_db (snd (registerPushSubscription cfg v r n w))) <-> s ∈ push_subscriptions (w_db w)).
Proof.
  intros E1 E2 D1 D2. rewrite (registerPushSubscription_tail _ _ _ _ _ _ _ _ E1 D1), (registerPushSubscription_tail _ _ _ _ _ _ _ _ E2 D2).
  destruct (String.eqb _ ""); [done|]. destruct (negb _); [done|].
  split; [apply register_tail_response|]. intros s Hv He.
  by apply (register_tail_others cfg v provider (TrimSpace tok) replaces n (w_db w) w (fun s _ _ => iff_refl _)).
Qed.
End Registration.

(* ------------------------------------------------------------------ *)
(** ** The order of the device list *)

Section DeviceOrder.
Context `{U : Unicode}.

Lemma device_less_irrefl a : device_less a a = false.
Proof. unfold device_less. rewrite !String.eqb_refl. simpl. apply str_ltb_irrefl. Qed.

(** The key compared, as a triple. *)
Definition order_key (s : DeviceState) : string * string * string := (ToLower (ds_DeviceName s), ds_DeviceName s, ds_DeviceID s).
Definition key_less (a b : string * string * string) : bool :=
  let '(a1, a2, a3) := a in let '(b1, b2, b3) := b in
  str_ltb a1 b1 || (String.eqb a1 b1 && (str_ltb a2 b2 || (String.eqb a2 b2 && str_ltb a3 b3))).

Lemma device_less_key a b : device_less a b = key_less (order_key a) (order_key b).
Proof.
  unfold device_less, key_less, order_key. destruct (String.eqb_spec (ToLower (ds_DeviceName a)) (ToLower (ds_DeviceName b))) as [->|]; simpl.
  - rewrite str_ltb_irrefl. simpl. destruct (String.eqb_spec (ds_DeviceName a) (ds_DeviceName b)) as [->|]; simpl.
    + by rewrite str_ltb_irrefl.
    + by rewrite orb_false_r.
  - by rewrite orb_false_r.
Qed.

Lemma key_less_asym a b : key_less a b = true -> key_less b a = false.
Proof.
  destruct a as [[a1 a2] a3], b as [[b1 b2] b3]. unfold key_less. intros Hl.
  destruct (str_ltb b1 a1) eqn:E1.
  - rewrite (str_ltb_asym _ _ E1) in Hl. simpl in Hl. apply andb_true_iff in Hl as [->%String.eqb_eq _]. by rewrite str_ltb_irrefl in E1.
  - simpl. destruct (String.eqb_spec b1 a1) as [->|]; [|done]. rewrite str_ltb_irrefl, String.eqb_refl in Hl. simpl in *.
    destruct (str_ltb b2 a2) eqn:E2.
    + rewrite (str_ltb_asym _ _ E2) in Hl. simpl in Hl. apply andb_true_iff in Hl as [->%String.eqb_eq _]. by rewrite str_ltb_irrefl in E2.
    + simpl. destruct (String.eqb_spec b2 a2) as [->|]; [|done]. rewrite str_ltb_irrefl, String.eqb_refl in Hl. simpl in *. by apply str_ltb_asym.
Qed.

Lemma key_less_total a b : key_less a b = false -> key_less b a = false -> a = b.
Proof.
  destruct a as [[a1 a2] a3], b as [[b1 b2] b3]. unfold key_less. intros [H1 H2]%orb_false_iff [H3 H4]%orb_false_iff.
  pose proof (str_ltb_total _ _ H1 H3) as ->. rewrite String.eqb_refl in *. simpl in *.
  apply orb_false_iff in H2 as [H2 H2'], H4 as [H4 H4']. pose proof (str_ltb_total _ _ H2 H4) as ->.
  rewrite String.eqb_refl in *. simpl in *. by pose proof (str_ltb_total _ _ H2' H4') as ->.
Qed.

Lemma key_less_trans a b c : key_less a b = true -> key_less b c = true -> key_less a c = true.
Proof.
  destruct a as [[a1 a2] a3], b as [[b1 b2] b3], c as [[c1 c2] c3]. unfold key_less.
  rewrite !orb_true_iff, !andb_true_iff, !orb_true_iff, !andb_true_iff, !String.eqb_eq.
  intros [H1|[-> [H1|[-> H1]]]] [H2|[E2 [H2|[E3 H2]]]]; subst; eauto using str_ltb_trans.
  right. split; [done|]. right. split; [done|]. by eapply str_ltb_trans.
Qed.

Lemma key_less_negtrans a b c : key_less b a = false -> key_less c b = false -> key_less c a = false.
Proof.
  intros H1 H2. destruct (key_less c a) eqn:E; [|done]. destruct (key_less a b) eqn:E2.
  - pose proof (key_less_trans _ _ _ E E2). congruence.
  - rewrite (key_less_total a b E2 H1) in E. congruence.
Qed.

(** The device list has one order.  Whatever order the database returns a family's
    devices in, the response lists them in the same order: by case-folded name, then
    by name, then by identifier. *)
Theorem sortDeviceStates_canonical (states states' : list DeviceState) :
  NoDup (map ds_DeviceID states) -> states ≡ₚ states' ->
  sortDeviceStates states = sortDeviceStates states' /\ sortDeviceStates states ≡ₚ states /\
  StronglySorted (fun a b => key_less (order_key b) (order_key a) = false) (sortDeviceStates states).
Proof.
  intros Hn Hp. unfold sortDeviceStates.
  assert (Hasym : forall x y, device_less x y = true -> device_less y x = false)
    by (intros x y; rewrite !device_less_key; apply key_less_asym).
  assert (Hneg : forall x y z, device_less y x = false -> device_less z y = false -> device_less z x = false)
    by (intros x y z; rewrite !device_less_key; apply key_less_negtrans).
  split; [|split; [apply stable_sort_perm|]].
  - apply stable_sort_unique; [done|done| |done]. intros x y Hx Hy. rewrite !device_less_key. intros H1 H2.
    pose proof (key_less_total _ _ H1 H2) as E. unfold order_key in E. injection E as _ _ E.
    by apply (unique_key_eq ds_DeviceID states).
  - pose proof (stable_sort_sorted device_less Hasym Hneg states) as Hs.
    eapply StronglySorted_weaken; [|exact Hs]. intros x y Hxy. unfold sort_le in Hxy. by rewrite device_less_key in Hxy.
Qed.
End DeviceOrder.

(* ------------------------------------------------------------------ *)
(** ** Witnesses *)

#[local] Instance int_floats : FloatJson := {|
  float_json := fun _ => "0";
  ParseFloat := fun t => match ParseInt t with Ok n => Some (f64 n) | Err _ => None end |}.
Lemma zeros_len (s : string) : len (of_list (repeat "0"%char 32)) = 32.
Proof. reflexivity. Qed.
#[local] Instance one_digest : SHA256 := {| Sum256 := fun _ => of_list (repeat "0"%char 32); Sum256_len := zeros_len |}.
#[local] Instance any_uuid : UUID := {| uuid_Parse := fun _ => true |}.
#[local] Existing Instance ascii_unicode.

Definition enrolled : device_row := mkDevice "d" "fam" "phone" (of_list (repeat "0"%char 32)) None.
Definition server_db : @DB planar := mkDB [mkFamily "fam" "Family"] [enrolled] [] [] [] [] [] ∅.
Definition server_world : @World planar := calm server_db noon.

Definition q (s : string) : string := of_list (encode_string s).
Definition report : string :=
  "{" ++ q "lat" ++ ":5," ++ q "lon" ++ ":5," ++ q "ts" ++ ":" ++ Itoa (Unix_secs noon) ++ "}".
Definition post (path auth body : string) : Request := mkHttp "POST" path auth body (fun _ => "") "" noon.
Definition wins : Windows := mkWindows 120 900.
Definition none_other : Route -> @Handler planar unit := fun _ _ n => ret (mkResp 404 [] (BText ""), n).

Definition posted : (Response * unit) * @World planar := postFix (device_of enrolled) (post "/v1/fixes" "Bearer t" report) tt server_world.

Lemma posted_created : rp_Code (fst (fst posted)) = StatusCreated /\
  length (fixes (w_db (snd (New wins "" none_other (post "/v1/fixes" "Bearer t" report) tt server_world)))) = 1%nat.
Proof. split; vm_compute; reflexivity. Qed.

Lemma writes_own_device_witness :
  let db' := w_db (snd (New wins "" none_other (post "/v1/fixes" "Bearer t" report) tt server_world)) in
  db' = server_db \/
  exists tok row, FromRequest "Bearer t" = Some tok /\ row ∈ [enrolled] /\
    dev_token_hash row = Auth.Hash tok /\ unexpired (dev_expires_at row) noon = true /\ ingested (dev_id row) server_db db'.
Proof.
  apply (writes_own_device (post "/v1/fixes" "Bearer t" report) tt server_world wins "" none_other RFixes "POST"); reflexivity.
Defined.

Lemma gates_refuse_witness :
  fst (New wins "" none_other (mkHttp "GET" "/v1/positions" "Bearer t" "" (fun _ => "") "" noon) tt server_world) = (unauthorized, tt) /\
  w_db (snd (New wins "" none_other (mkHttp "GET" "/v1/positions" "Bearer t" "" (fun _ => "") "" noon) tt server_world)) = server_db.
Proof.
  apply (gates_refuse (mkHttp "GET" "/v1/positions" "Bearer t" "" (fun _ => "") "" noon) tt server_world wins "" none_other RPositions).
  - apply calm_quiet.
  - reflexivity.
  - discriminate.
  - intros (tok & _ & Hrow). apply Hrow. reflexivity.
Defined.

(** The same family beside a stranger's device and its fix. *)
Definition crowded_db : @DB planar :=
  mkDB [mkFamily "fam" "Family"] [enrolled; mkDevice "x" "other" "theirs" "h" None] []
    [mkFixRow "x" noon (f64 1, f64 1) None None None None None noon] [] [] [] ∅.

Lemma crowded_same : same_family "fam" server_db crowded_db.
Proof. constructor; reflexivity. Qed.

Lemma reads_family_only_witness :
  fst (getPositions wins (mkView "v" "fam" "" "") (post "" "" "") tt server_world) =
  fst (getPositions wins (mkView "v" "fam" "" "") (post "" "" "") tt (calm crowded_db noon)).
Proof.
  apply (reads_family_only (mkView "v" "fam" "" "") (post "" "" "") tt server_world (calm crowded_db noon) wins "d").
  split; [reflexivity|]. split; [reflexivity|]. exact crowded_same.
Defined.

Lemma replay_absorbed_witness :
  (fst (postFix (device_of enrolled) (post "/v1/fixes" "Bearer t" report) tt (calm (w_db (snd posted)) noon)) = (duplicate, tt) \/
   fst (postFix (device_of enrolled) (post "/v1/fixes" "Bearer t" report) tt (calm (w_db (snd posted)) noon)) =
     (writeError StatusBadRequest "invalid_fix", tt)) /\
  w_db (snd (postFix (device_of enrolled) (post "/v1/fixes" "Bearer t" report) tt (calm (w_db (snd posted)) noon))) = w_db (snd posted).
Proof.
  apply (replay_absorbed (device_of enrolled) (post "/v1/fixes" "Bearer t" report) (post "/v1/fixes" "Bearer t" report) tt tt tt
    server_world (snd posted) (calm (w_db (snd posted)) noon) (fst (fst posted))).
  - unfold posted. destruct (postFix _ _ _ _) as [[resp []] w]. reflexivity.
  - right. vm_compute. reflexivity.
  - reflexivity.
  - apply calm_quiet.
  - reflexivity.
Defined.

Definition registration (replaces : string) : string :=
  "{" ++ q "provider" ++ ":" ++ q "fcm" ++ "," ++ q "token" ++ ":" ++ q "new" ++ "," ++ q "replaces_token" ++ ":" ++ q replaces ++ "}".

Lemma registration_oblivious_witness :
  fst (fst (registerPushSubscription "fcm" (mkView "v" "fam" "" "") (post "" "" (registration "old")) tt server_world)) =
  fst (fst (registerPushSubscription "fcm" (mkView "v" "fam" "" "") (post "" "" (registration "elsewhere")) tt server_world)).
Proof.
  eapply (registration_oblivious "fcm" (mkView "v" "fam" "" "") (post "" "" (registration "old")) (post "" "" (registration "elsewhere"))
    tt server_world); vm_compute; reflexivity.
Defined.

Lemma sortDeviceStates_canonical_witness :
  sortDeviceStates [mkDeviceState "1" "apple" None None; mkDeviceState "2" "APPLE" None None] =
  sortDeviceStates [mkDeviceState "2" "APPLE" None None; mkDeviceState "1" "apple" None None].
Proof.
  apply (sortDeviceStates_canonical [mkDeviceState "1" "apple" None None; mkDeviceState "2" "APPLE" None None]).
  - apply NoDup_cons. split; [intros H%list_elem_of_singleton; discriminate H|apply NoDup_singleton].
  - apply Permutation_swap.
Defined.

(** A stray closing brace after the object is not trailing data to the decoder. *)
Lemma trailing_brace_accepted :
  decodeStrict fix_fields (report ++ "}") = decodeStrict fix_fields report /\
  is_Some (decodeStrict fix_fields report) /\ decodeStrict fix_fields (report ++ "{}") = None.
Proof. split; [vm_compute; reflexivity|]. split; [vm_compute; by eexists|]. vm_compute. reflexivity. Qed.
