(* ===== verification/Stream.v ===== *)
(** The live stream ([internal/server/stream.go]): the poll loop of one watcher's
    connection.  A connection is the record [streamConn]; [poll] is one pass over the
    database, [getStream] the handler with its first pass, [tick_pass] what a tick of
    the running loop does.  A write reaches the watcher as a whole event or not at
    all; [c_alive] says which writes still do.  Between two polls anything may happen
    to the database, so a session is a list of polls in arbitrary worlds.  The Server-
    Sent-Events text of an event is [frame]. *)

From Stdlib Require Import ZArith Lia Bool String Ascii List SpecFloat Sorted.
From stdpp Require Import base option list strings gmap sorting.
From S2P Require Import Prelude GoTime Presentation GoStrings Calendar Database StoreFix StoreEntities.
From S2P Require Import StoreGeofence StoreReads Auth Json Dispatcher Notify Server.
Local Open Scope string_scope.
Local Open Scope Z_scope.

Definition streamPollInterval : Z := second.
Definition streamHeartbeatInterval : Z := 15 * second.

Definition streamPollTick (w : Windows) : Z :=
  let tick := streamPollInterval in
  let half := Z.quot (wrap64 (SweepBound w * second)) 2 in
  if (0 <? half) && (half <? tick) then half else tick.

Definition eventPosition : string := "position".
Definition eventPresentation : string := "presentation".
Definition eventError : string := "error".

Record event := mkEvent { e_name : string; e_id : Z; e_data : json }.

(** The text of an event; an id of 0 is no id line. *)
Definition nl : string := String (ascii_of_nat 10) "".
Definition frame `{FloatJson} (e : event) : string :=
  (if e_id e =? 0 then "" else "id: " ++ Itoa (e_id e) ++ nl) ++ "event: " ++ e_name e ++ nl ++
  "data: " ++ default "" (Marshal (e_data e)) ++ nl ++ nl.
Definition keep_alive : string := ": keep-alive" ++ nl ++ nl.

Record streamConn := mkConn {
  c_familyID : string; c_windows : Windows;
  c_since : Time; c_cursorInstant : Time; c_resuming : bool; c_swept : bool;
  c_prev : gmap string (option Time); c_prevAt : Time; c_degraded : bool;
  c_alive : nat -> bool; c_out : list event; c_lastWrite : Time }.

Definition set_since t c := mkConn (c_familyID c) (c_windows c) t (c_cursorInstant c) (c_resuming c) (c_swept c) (c_prev c) (c_prevAt c) (c_degraded c) (c_alive c) (c_out c) (c_lastWrite c).
Definition set_swept c := mkConn (c_familyID c) (c_windows c) (c_since c) (c_cursorInstant c) (c_resuming c) true (c_prev c) (c_prevAt c) (c_degraded c) (c_alive c) (c_out c) (c_lastWrite c).
Definition set_prev p t c := mkConn (c_familyID c) (c_windows c) (c_since c) (c_cursorInstant c) (c_resuming c) (c_swept c) p t (c_degraded c) (c_alive c) (c_out c) (c_lastWrite c).
Definition set_degraded b c := mkConn (c_familyID c) (c_windows c) (c_since c) (c_cursorInstant c) (c_resuming c) (c_swept c) (c_prev c) (c_prevAt c) b (c_alive c) (c_out c) (c_lastWrite c).
Definition set_out o t c := mkConn (c_familyID c) (c_windows c) (c_since c) (c_cursorInstant c) (c_resuming c) (c_swept c) (c_prev c) (c_prevAt c) (c_degraded c) (c_alive c) o t.

(** [newConn]: what [getStream] starts a connection with. *)
Definition newConn (familyID : string) (w : Windows) (cursor : Time) (resuming : bool) (alive : nat -> bool) : streamConn :=
  mkConn familyID w cursor cursor resuming false ∅ zero_time false alive [] zero_time.

Section Stream.
Context `{G : PostGIS} `{U : Unicode} `{F : FloatJson} `{H : SHA256}.

(** Whether the watcher is still there; a payload that does not marshal is skipped. *)
Definition writeEvent (now : Time) (name : string) (id : Z) (payload : json) (c : streamConn) : bool * streamConn :=
  match Marshal payload with
  | None => (true, c)
  | Some _ =>
      if c_alive c (length (c_out c)) then (true, set_out (c_out c ++ [mkEvent name id payload])%list now c) else (false, c)
  end.

Definition streamErrorPayload : json :=
  JObj [("error", JStr "unavailable");
        ("message", JStr "tracker cannot currently read this family's data; the states shown are no longer confirmed")].

Definition reportUnavailable (now : Time) (c : streamConn) : bool * streamConn :=
  if c_degraded c then (true, c)
  else writeEvent now eventError 0 streamErrorPayload (set_degraded true c).

(** The batch of positions, decided against the cursor the poll began with. *)
Fixpoint send_positions (at_ since : Time) (states : list DeviceState) (positioned : list string) (c : streamConn)
  : bool * list string * streamConn :=
  match states with
  | [] => (true, positioned, c)
  | s :: rest =>
      match ds_Current s with
      | Some p =>
          if negb (After (pos_ReceivedAt p) since) then send_positions at_ since rest positioned c
          else
            match writeEvent at_ eventPosition (UnixMicro (pos_ReceivedAt p)) (entryFor s at_ (c_windows c)) c with
            | (false, c') => (false, positioned, c')
            | (true, c') =>
                send_positions at_ since rest (positioned ++ [ds_DeviceID s])%list (set_since (pos_ReceivedAt p) c')
            end
      | None => send_positions at_ since rest positioned c
      end
  end.

Fixpoint send_presentations (at_ : Time) (owed : list DeviceState) (c : streamConn) : bool * streamConn :=
  match owed with
  | [] => (true, c)
  | s :: rest =>
      match writeEvent at_ eventPresentation 0 (presentationPayloadFor s at_ (c_windows c)) c with
      | (false, c') => (false, c')
      | (true, c') => send_presentations at_ rest c'
      end
  end.

Definition is_positioned (positioned : list string) (s : DeviceState) : bool :=
  existsb (String.eqb (ds_DeviceID s)) positioned.

Definition snapshotUnlocated (w : Windows) (states : list DeviceState) (at_ : Time) (positioned : list string) : list DeviceState :=
  List.filter (fun s => negb (is_positioned positioned s) &&
                   bool_decide (Evaluate at_ (ds_LastContact s) w = NoPosition)) states.

Definition reannounce (states : list DeviceState) (positioned : list string) : list DeviceState :=
  List.filter (fun s => negb (is_positioned positioned s)) states.

Definition diff (c : streamConn) (states : list DeviceState) (at_ : Time) (positioned : list string) : list DeviceState :=
  List.filter (fun s => negb (is_positioned positioned s) &&
    match c_prev c !! ds_DeviceID s with
    | None => false
    | Some prev => negb (bool_decide (Evaluate (c_prevAt c) prev (c_windows c) = Evaluate at_ (ds_LastContact s) (c_windows c)))
    end) states.

Definition resume_owed (c : streamConn) (asOf : gmap string Time) (states : list DeviceState) (at_ : Time) (positioned : list string)
  : list DeviceState :=
  List.filter (fun s => negb (is_positioned positioned s) &&
    match asOf !! ds_DeviceID s with
    | None => true
    | Some lastContactThen =>
        negb (bool_decide (Evaluate (c_cursorInstant c) (Some lastContactThen) (c_windows c) =
                           Evaluate at_ (ds_LastContact s) (c_windows c)))
    end) states.

Definition resumeSweep (c : streamConn) (states : list DeviceState) (at_ : Time) (positioned : list string)
  : M (result error (list DeviceState)) :=
  let? asOf := FamilyLastContactAsOf (c_familyID c) (c_cursorInstant c) in
  ret (Ok (resume_owed c asOf states at_ positioned)).

Definition observations (states : list DeviceState) : gmap string (option Time) :=
  foldl (fun m s => <[ds_DeviceID s := ds_LastContact s]> m) ∅ states.

(** One pass, at the process instant [at_]: whether the watcher is still there. *)
Definition poll (at_ : Time) (c : streamConn) : M (bool * streamConn) :=
  let* q := FamilyDeviceStates (c_familyID c) in
  match q with
  | Err _ => ret (reportUnavailable at_ c)
  | Ok states =>
      let recovered := c_degraded c in
      let c := set_degraded false c in
      let '(ok, positioned, c) := send_positions at_ (c_since c) (sortByArrival states) [] c in
      if negb ok then ret (false, c)
      else
        let states := sortDeviceStates (sortByArrival states) in
        let* owed :=
          (if negb (c_swept c) && c_resuming c then resumeSweep c states at_ positioned
           else if negb (c_swept c) then ret (Ok (snapshotUnlocated (c_windows c) states at_ positioned))
           else if recovered then ret (Ok (reannounce states positioned))
           else ret (Ok (diff c states at_ positioned))) in
        match owed with
        | Err _ => ret (reportUnavailable at_ c)
        | Ok owed =>
            let '(ok, c) := send_presentations at_ owed (set_swept c) in
            if negb ok then ret (false, c) else ret (true, set_prev (observations states) at_ c)
        end
  end.

(** What a tick does after its poll: the heartbeat of a quiet stream. *)
Definition tick_pass (at_ now : Time) (heartbeat_ok : bool) (c : streamConn) : M (bool * streamConn) :=
  let* out := poll at_ c in
  let '(ok, c) := out in
  if negb ok then ret (false, c)
  else if streamHeartbeatInterval <=? nanos now - nanos (c_lastWrite c) then
    if heartbeat_ok then ret (true, set_out (c_out c) now c) else ret (false, c)
  else ret (true, c).

(* ------------------------------------------------------------------ *)
(** ** Opening a stream *)

Definition authViewerForStream (r : Request) : M (result Response Viewer) :=
  let tok := match FromRequest (r_Authorization r) with
             | Some tok => Some tok
             | None => let q := r_Query r "token" in if String.eqb q "" then None else Some q
             end in
  match tok with
  | None => ret (Err unauthorized)
  | Some tok =>
      let* v := AuthenticateViewer (Auth.Hash tok) in
      match v with
      | Ok v => ret (Ok v)
      | Err ErrUnknownToken => ret (Err unauthorized)
      | Err _ => ret (Err (writeError StatusInternalServerError "internal"))
      end
  end.

Definition parseResumeCursor (r : Request) : Time * bool :=
  let raw := r_LastEventID r in
  if String.eqb raw "" then (zero_time, false)
  else match ParseInt raw with
       | Err _ => (zero_time, false)
       | Ok micros => (UnixMicro_time micros, true)
       end.

Definition stream_headers : list (string * string) :=
  [("Content-Type", "text/event-stream"); ("Cache-Control", "no-cache"); ("Connection", "keep-alive"); ("X-Accel-Buffering", "no")].

(** The handler up to its first pass: an error response, or the open connection. *)
Definition getStream (w : Windows) (flusher : bool) (alive : nat -> bool) (r : Request) : M (result Response (bool * streamConn)) :=
  if negb flusher then ret (Err (writeError StatusInternalServerError "internal"))
  else
    let* auth := authViewerForStream r in
    match auth with
    | Err resp => ret (Err resp)
    | Ok v =>
        let '(cursor, resuming) := parseResumeCursor r in
        let* out := poll (r_now r) (newConn (v_FamilyID v) w cursor resuming alive) in
        ret (Ok out)
    end.
End Stream.
