(* ===== verification/StreamSpec.v ===== *)
(** What a watcher of the live stream can rely on: the exact batch of positions and
    the cursor after a poll, and that the presentation values the watcher holds are,
    after every poll that could read the database, the values the published function
    gives at that poll. *)

From Stdlib Require Import ZArith Lia Bool String Ascii List SpecFloat Sorted.
From stdpp Require Import base option list strings gmap sorting.
From S2P Require Import Prelude GoTime Presentation GoStrings Calendar Database StoreFix StoreEntities.
From S2P Require Import StoreGeofence StoreReads Auth Json Dispatcher Notify Server ServerSpec.
From S2P Require Import Stream.
Local Open Scope string_scope.
Local Open Scope Z_scope.

Section StreamSpec.
Context `{G : PostGIS} `{U : Unicode} `{F : FloatJson} `{H : SHA256}.

(** A device holds a position exactly when it has been heard from, with finite
    coordinates. *)
Definition state_ok (s : DeviceState) : Prop :=
  (is_Some (ds_Current s) <-> is_Some (ds_LastContact s)) /\
  forall p, ds_Current s = Some p ->
    isNotFinite (pos_Lat p) = false /\ isNotFinite (pos_Lon p) = false /\ Before zero_time (pos_ReceivedAt p) = true.

Definition arrived (since : Time) (s : DeviceState) : bool :=
  match ds_Current s with Some p => After (pos_ReceivedAt p) since | None => false end.

Definition position_event (at_ : Time) (w : Windows) (s : DeviceState) : event :=
  mkEvent eventPosition (match ds_Current s with Some p => UnixMicro (pos_ReceivedAt p) | None => 0 end) (entryFor s at_ w).
Definition presentation_event (at_ : Time) (w : Windows) (s : DeviceState) : event :=
  mkEvent eventPresentation 0 (presentationPayloadFor s at_ w).

Lemma entryFor_marshals s at_ w : state_ok s -> is_Some (Marshal (entryFor s at_ w)).
Proof.
  intros [_ Hf]. unfold entryFor. destruct (ds_Current s) as [p|]; [|by eexists].
  destruct (Hf p eq_refl) as (Hlat & Hlon & _). destruct (ds_LastContact s); [|by eexists].
  case_bool_decide; [by eexists|]. unfold isNotFinite in *. unfold Marshal, positionResponse. cbn [encode].
  rewrite Hlat, Hlon. by eexists.
Qed.

Lemma payload_marshals s at_ w : is_Some (Marshal (presentationPayloadFor s at_ w)).
Proof.
  unfold presentationPayloadFor. destruct (ds_Current s), (ds_LastContact s); try case_bool_decide; by eexists.
Qed.

(** The rest of the connection is not touched by writing. *)
Definition same_conn (c c' : streamConn) : Prop :=
  c_familyID c' = c_familyID c /\ c_windows c' = c_windows c /\ c_cursorInstant c' = c_cursorInstant c /\
  c_resuming c' = c_resuming c /\ c_swept c' = c_swept c /\ c_prev c' = c_prev c /\ c_prevAt c' = c_prevAt c /\
  c_degraded c' = c_degraded c.

Lemma same_conn_refl c : same_conn c c.
Proof. repeat split. Qed.
Lemma same_conn_trans a b c : same_conn a b -> same_conn b c -> same_conn a c.
Proof. unfold same_conn. intuition congruence. Qed.

Definition last_arrival (since : Time) (sent : list DeviceState) : Time :=
  match last sent with Some s => match ds_Current s with Some p => pos_ReceivedAt p | None => since end | None => since end.

Lemma send_positions_spec at_ since states : Forall state_ok states -> forall positioned c pos' c',
  send_positions at_ since states positioned c = (true, pos', c') ->
  let sent := List.filter (arrived since) states in
  pos' = (positioned ++ map ds_DeviceID sent)%list /\
  c_out c' = (c_out c ++ map (position_event at_ (c_windows c)) sent)%list /\
  c_since c' = last_arrival (c_since c) sent /\ same_conn c c'.
Proof.
  induction 1 as [|s rest Hs Hrest IH]; intros positioned c pos' c'; cbn [send_positions].
  - intros [= <- <-]. simpl. rewrite !app_nil_r. split; [done|]. split; [done|]. split; [done|apply same_conn_refl].
  - cbn [List.filter]. assert (Ea : arrived since s = match ds_Current s with Some p => After (pos_ReceivedAt p) since | None => false end) by done.
    rewrite Ea. destruct (ds_Current s) as [p|] eqn:Ep; [|apply IH].
    destruct (After (pos_ReceivedAt p) since); cbn [negb]; [|apply IH].
    unfold writeEvent. destruct (entryFor_marshals s at_ (c_windows c) Hs) as [body ->].
    destruct (c_alive c _); [|done]. intros E. apply IH in E as (E1 & E2 & E3 & E4). cbn [map].
    split; [rewrite E1, <- app_assoc; done|]. split.
    { rewrite E2. cbn [c_out set_since set_out c_windows]. rewrite <- app_assoc. unfold position_event at 2. by rewrite Ep. }
    split; [|by eapply same_conn_trans; [|exact E4]].
    rewrite E3. unfold last_arrival. cbn [c_since set_since].
    destruct (List.filter (arrived since) rest) as [|x l] eqn:El; [simpl; by rewrite Ep|].
    rewrite (last_cons s). destruct (last (x :: l)) as [y|] eqn:Ey; [|by apply last_None in Ey].
    destruct (ds_Current y) eqn:Ecy; [done|].
    assert (Hy : y ∈ List.filter (arrived since) rest) by (rewrite El; by apply last_Some_elem_of).
    apply elem_of_filter_b in Hy as [_ Hy]. unfold arrived in Hy. by rewrite Ecy in Hy.
Qed.

Lemma send_presentations_spec at_ owed : forall c c',
  send_presentations at_ owed c = (true, c') ->
  c_out c' = (c_out c ++ map (presentation_event at_ (c_windows c)) owed)%list /\ c_since c' = c_since c /\ same_conn c c'.
Proof.
  induction owed as [|s rest IH]; intros c c'; cbn [send_presentations].
  - intros [= <-]. simpl. rewrite app_nil_r. split; [done|]. split; [done|apply same_conn_refl].
  - unfold writeEvent. destruct (payload_marshals s at_ (c_windows c)) as [body ->].
    destruct (c_alive c _); [|done]. intros E. apply IH in E as (E1 & E2 & E3). cbn [map].
    split; [rewrite E1; cbn [c_out set_out c_windows]; by rewrite <- app_assoc|]. split; [by rewrite E2|].
    by eapply same_conn_trans; [|exact E3].
Qed.

(* ---- what the watcher holds ---- *)

Definition field (name : string) (j : json) : option json :=
  match j with JObj fs => option_map snd (List.find (fun kv => String.eqb (fst kv) name) fs) | _ => None end.

(** The device an event speaks of and the value it gives it. *)
Definition announces (e : event) : option (string * string) :=
  match field "device_id" (e_data e), field "presentation" (e_data e) with
  | Some (JStr id), Some (JStr v) => Some (id, v)
  | _, _ => None
  end.

Definition hear (m : gmap string string) (e : event) : gmap string string :=
  match announces e with Some (id, v) => <[id := v]> m | None => m end.

(** The latest value heard for each device. *)
Definition view (out : list event) : gmap string string := foldl hear ∅ out.

Definition value_at (at_ : Time) (w : Windows) (s : DeviceState) : string := token (Evaluate at_ (ds_LastContact s) w).

Lemma Evaluate_contact at_ lc w : Evaluate at_ (Some lc) w <> NoPosition.
Proof. simpl. destruct (_ <=? _); [done|]. by destruct (_ <=? _). Qed.

Lemma announces_position at_ w s : state_ok s -> announces (position_event at_ w s) = Some (ds_DeviceID s, value_at at_ w s).
Proof.
  intros [Hc _]. unfold announces, position_event, entryFor, value_at. cbn [e_data].
  destruct (ds_Current s) as [p|], (ds_LastContact s) as [lc|].
  - rewrite bool_decide_false by apply Evaluate_contact. done.
  - by destruct (proj1 Hc ltac:(eauto)).
  - by destruct (proj2 Hc ltac:(eauto)).
  - done.
Qed.

Lemma announces_presentation at_ w s : state_ok s -> announces (presentation_event at_ w s) = Some (ds_DeviceID s, value_at at_ w s).
Proof.
  intros [Hc _]. unfold announces, presentation_event, presentationPayloadFor, value_at. cbn [e_data].
  destruct (ds_Current s) as [p|], (ds_LastContact s) as [lc|].
  - rewrite bool_decide_false by apply Evaluate_contact. done.
  - by destruct (proj1 Hc ltac:(eauto)).
  - by destruct (proj2 Hc ltac:(eauto)).
  - done.
Qed.

(** Folding insertions of distinct keys. *)
Lemma foldl_insert {A V} (k : A -> string) (v : A -> V) l : NoDup (map k l) -> forall m : gmap string V,
  (forall x, x ∈ l -> foldl (fun m x => <[k x := v x]> m) m l !! k x = Some (v x)) /\
  (forall i, ~ i ∈ map k l -> foldl (fun m x => <[k x := v x]> m) m l !! i = m !! i).
Proof.
  induction l as [|x l IH]; csimpl; [intros _ m; split; [by intros ? ?%elem_of_nil|done]|].
  intros [Hx Hn]%NoDup_cons m. destruct (IH Hn (<[k x := v x]> m)) as [H1 H2]. split.
  - intros y [->|Hy]%elem_of_cons; [|by apply H1]. rewrite H2 by done. apply lookup_insert_eq.
  - intros i [Hi1 Hi2]%not_elem_of_cons. rewrite H2 by done. by apply lookup_insert_ne.
Qed.

Lemma view_said out evs L at_ w :
  map announces evs = map (fun s => Some (ds_DeviceID s, value_at at_ w s)) L -> NoDup (map ds_DeviceID L) ->
  (forall s, s ∈ L -> view (out ++ evs) !! ds_DeviceID s = Some (value_at at_ w s)) /\
  (forall id, ~ id ∈ map ds_DeviceID L -> view (out ++ evs) !! id = view out !! id).
Proof.
  intros E Hn. unfold view. rewrite foldl_app. set (m := foldl hear ∅ out).
  assert (Ef : foldl hear m evs = foldl (fun m s => <[ds_DeviceID s := value_at at_ w s]> m) m L).
  { clearbody m. clear Hn. revert L E m. induction evs as [|e evs IH]; intros [|s L]; try done. csimpl. intros [= E1 E2] m.
    assert (hear m e = <[ds_DeviceID s := value_at at_ w s]> m) as -> by (unfold hear; by rewrite E1). by apply IH. }
  rewrite Ef. by apply foldl_insert.
Qed.

Lemma observations_lookup states : NoDup (map ds_DeviceID states) ->
  (forall s, s ∈ states -> observations states !! ds_DeviceID s = Some (ds_LastContact s)) /\
  (forall id, ~ id ∈ map ds_DeviceID states -> observations states !! id = None).
Proof.
  intros Hn. destruct (foldl_insert ds_DeviceID ds_LastContact states Hn ∅) as [H1 H2].
  split; [exact H1|]. intros id Hid. unfold observations. rewrite H2 by done. apply lookup_empty.
Qed.

(* ---- one poll ---- *)

(** The devices the second half of a poll is owed, by the connection's history. *)
Definition owed_by (c : streamConn) (states : list DeviceState) (at_ : Time) (positioned : list string) : list DeviceState :=
  if negb (c_swept c) then snapshotUnlocated (c_windows c) states at_ positioned
  else if c_degraded c then reannounce states positioned
  else diff c states at_ positioned.

Definition polled (c : streamConn) (w : World) : list DeviceState := sortByArrival (familyDeviceStatesSQL (c_familyID c) (w_db w)).

Definition owed_query (c : streamConn) (states : list DeviceState) (at_ : Time) (positioned : list string)
  : M (result error (list DeviceState)) :=
  if negb (c_swept c) && c_resuming c then resumeSweep c states at_ positioned
  else ret (Ok (owed_by c states at_ positioned)).

(** A pass that could read everything sends the positions that arrived after the
    cursor and the presentations owed, and remembers what it saw. *)
Definition pass_sent (at_ : Time) (w : World) (owed : list DeviceState) (c c' : streamConn) : Prop :=
  let sent := List.filter (arrived (c_since c)) (polled c w) in
  c_out c' = (c_out c ++ map (position_event at_ (c_windows c)) sent ++ map (presentation_event at_ (c_windows c)) owed)%list /\
  c_since c' = last_arrival (c_since c) sent /\ c_swept c' = true /\ c_degraded c' = false /\
  c_prev c' = observations (sortDeviceStates (polled c w)) /\ c_prevAt c' = at_ /\
  c_familyID c' = c_familyID c /\ c_windows c' = c_windows c /\ c_resuming c' = c_resuming c.

Definition owes (at_ : Time) (c : streamConn) (w : World) : M (result error (list DeviceState)) :=
  owed_query c (sortDeviceStates (polled c w)) at_ (map ds_DeviceID (List.filter (arrived (c_since c)) (polled c w))).

(** A first pass of a resumed connection that read the family and then could not read
    what was known at the cursor instant: the positions went out, and then the error. *)
Definition sweep_failed (at_ : Time) (w : World) (c c' : streamConn) : Prop :=
  let sent := List.filter (arrived (c_since c)) (polled c w) in
  c_out c' = (c_out c ++ map (position_event at_ (c_windows c)) sent ++ [mkEvent eventError 0 streamErrorPayload])%list /\
  c_degraded c' = true /\ c_familyID c' = c_familyID c /\ c_windows c' = c_windows c /\ c_resuming c' = c_resuming c /\
  c_cursorInstant c' = c_cursorInstant c /\ c_swept c' = c_swept c.

Lemma reported_degraded now c : fst (reportUnavailable now c) = true -> c_degraded (snd (reportUnavailable now c)) = true.
Proof.
  unfold reportUnavailable. destruct (c_degraded c) eqn:E; [done|]. unfold writeEvent. cbn [Marshal encode streamErrorPayload].
  by destruct (c_alive _ _).
Qed.

Lemma poll_read at_ c (w : World) out w' states w1 : Forall state_ok (polled c w) ->
  FamilyDeviceStates (c_familyID c) w = (Ok states, w1) ->
  poll at_ c w = (out, w') -> fst out = true ->
  w_db w1 = w_db w /\
  ((exists e w2, owes at_ c w w1 = (Err e, w2) /\ sweep_failed at_ w c (snd out)) \/
   (exists owed w2, owes at_ c w w1 = (Ok owed, w2) /\ pass_sent at_ w owed c (snd out))).
Proof.
  intros Hok Eq E Ht. unfold poll in E. unfold bind at 1 in E. rewrite Eq in E.
  unfold FamilyDeviceStates in Eq. apply query_ok_inv in Eq as [Es Edb]. split; [by rewrite Edb|]. cbv zeta in E.
  assert (Ep : sortByArrival states = polled c w) by (unfold polled; by rewrite Es). rewrite Ep in E. unfold owes.
  set (sent := List.filter _ _).
  destruct (send_positions at_ (c_since (set_degraded false c)) (polled c w) [] (set_degraded false c)) as [[ok pos] c1] eqn:E1.
  destruct ok; [|injection E as <- _; discriminate Ht].
  apply send_positions_spec in E1 as (P1 & P2 & P3 & P4); [|done]. cbn [set_degraded c_since c_out c_windows] in *.
  destruct P4 as (Q1 & Q2 & Q3 & Q4 & Q5 & Q6 & Q7 & Q8).
  cbn [set_degraded c_familyID c_windows c_resuming c_swept c_prev c_prevAt c_degraded c_cursorInstant] in *.
  rewrite app_nil_l in P1. subst pos. fold sent in E, P2, P3. set (ids := map ds_DeviceID sent) in *.
  rewrite Q5, Q4, Q2 in E. change (negb true) with false in E. cbv beta iota in E. unfold bind in E.
  match type of E with context [let '(a, w') := ?q w1 in _] => assert (Eo : q w1 = owed_query c (sortDeviceStates (polled c w)) at_ ids w1) end.
  { unfold owed_query, owed_by. unfold resumeSweep, resume_owed, diff. rewrite Q1, Q2, Q3, Q6, Q7.
    by destruct (c_swept c), (c_resuming c), (c_degraded c). }
  rewrite Eo in E. clear Eo. destruct (owed_query c _ at_ ids w1) as [[owed|e] w2] eqn:Ew.
  2: { left. exists e, w2. split; [done|]. injection E as <- _. unfold sweep_failed. fold sent. unfold reportUnavailable in *. rewrite Q8 in *.
       unfold writeEvent in *. cbn [Marshal encode streamErrorPayload] in *. destruct (c_alive _ _); [|discriminate Ht].
       cbn [snd set_out set_degraded c_out c_degraded c_familyID c_windows c_resuming c_cursorInstant c_swept]. rewrite P2, <- app_assoc. done. }
  right. exists owed, w2. split; [done|].
  destruct (send_presentations at_ owed (set_swept c1)) as [ok c2] eqn:E2.
  destruct ok; [|injection E as <- _; discriminate Ht].
  apply send_presentations_spec in E2 as (R1 & R2 & R3). destruct R3 as (S1 & S2 & S3 & S4 & S5 & S6 & S7 & S8).
  cbn [set_swept c_out c_since c_familyID c_windows c_resuming c_swept c_prev c_prevAt c_degraded] in *.
  injection E as <- _. unfold pass_sent. fold sent.
  cbn [snd set_prev c_out c_since c_familyID c_windows c_resuming c_swept c_prev c_prevAt c_degraded].
  rewrite R1, P2, Q2, <- app_assoc. repeat (split; [first [done|congruence]|]). congruence.
Qed.

Definition read_failed (c c' : streamConn) : Prop :=
  c' = c /\ c_degraded c = true \/
  (c_out c' = (c_out c ++ [mkEvent eventError 0 streamErrorPayload])%list /\ c_since c' = c_since c /\
   same_conn (set_degraded true c) c').

Lemma poll_unread at_ c (w : World) out w' e w1 : FamilyDeviceStates (c_familyID c) w = (Err e, w1) ->
  poll at_ c w = (out, w') -> fst out = true -> read_failed c (snd out).
Proof.
  intros Eq E Ht. unfold poll, bind at 1 in E. rewrite Eq in E. unfold ret in E. injection E as <- _. unfold read_failed, reportUnavailable in *.
  destruct (c_degraded c) eqn:Ed; [by left|]. right.
  unfold writeEvent in *. cbn [Marshal encode streamErrorPayload] in *.
  destruct (c_alive _ _); [|discriminate Ht]. cbn [snd set_out c_out c_since set_degraded].
  split; [done|]. split; [done|]. repeat split.
Qed.

(** A pass of a connection that no resume sweep is due on, whose watcher stayed. *)
Lemma poll_cases at_ c (w : World) out w' : c_swept c = true \/ c_resuming c = false -> Forall state_ok (polled c w) ->
  poll at_ c w = (out, w') -> fst out = true ->
  read_failed c (snd out) \/
  pass_sent at_ w (owed_by c (sortDeviceStates (polled c w)) at_ (map ds_DeviceID (List.filter (arrived (c_since c)) (polled c w)))) c (snd out).
Proof.
  intros Hres Hok E Ht. assert (Hplain : negb (c_swept c) && c_resuming c = false) by (destruct Hres as [-> | ->]; [done|apply andb_false_r]).
  destruct (FamilyDeviceStates (c_familyID c) w) as [[states|e] w1] eqn:Eq; [right|left; by eapply poll_unread].
  destruct (poll_read _ _ _ _ _ _ _ Hok Eq E Ht) as (_ & [(e & w2 & Ew & _)|(owed & w2 & Ew & Hs)]);
    unfold owes, owed_query in Ew; rewrite Hplain in Ew; [discriminate Ew|]. by injection Ew as <- _.
Qed.

(* ---- what a poll owes ---- *)

Definition owed_test (c : streamConn) (at_ : Time) (s : DeviceState) : bool :=
  if negb (c_swept c) then bool_decide (Evaluate at_ (ds_LastContact s) (c_windows c) = NoPosition)
  else if c_degraded c then true
  else match c_prev c !! ds_DeviceID s with
       | None => false
       | Some prev => negb (bool_decide (Evaluate (c_prevAt c) prev (c_windows c) = Evaluate at_ (ds_LastContact s) (c_windows c)))
       end.

Lemma owed_by_test c states at_ positioned :
  owed_by c states at_ positioned = List.filter (fun s => negb (is_positioned positioned s) && owed_test c at_ s) states.
Proof.
  unfold owed_by, owed_test, snapshotUnlocated, reannounce, diff. destruct (c_swept c), (c_degraded c); try done.
  simpl. apply filter_ext. intros s. by rewrite andb_true_r.
Qed.

Lemma is_positioned_spec L s : is_positioned (map ds_DeviceID L) s = true <-> ds_DeviceID s ∈ map ds_DeviceID L.
Proof.
  unfold is_positioned. rewrite existsb_exists, list_elem_of_In. split; [by intros (x & Hx & ->%String.eqb_eq)|].
  intros Hs. exists (ds_DeviceID s). by rewrite String.eqb_refl.
Qed.

Lemma same_id states s x : NoDup (map ds_DeviceID states) -> s ∈ states -> x ∈ states -> ds_DeviceID s = ds_DeviceID x -> s = x.
Proof. intros Hn Hs Hx E. by eapply unique_key_eq. Qed.

Lemma NoDup_map_filter {A B} (f : A -> B) (P : A -> bool) l : NoDup (map f l) -> NoDup (map f (List.filter P l)).
Proof.
  induction l as [|x l IH]; csimpl; [done|]. intros [Hx Hn]%NoDup_cons. destruct (P x); [|by apply IH].
  csimpl. apply NoDup_cons. split; [|by apply IH]. intros (y & E & [Hy _]%elem_of_filter_b)%list_elem_of_fmap.
  apply Hx. rewrite E. by apply list_elem_of_fmap_2.
Qed.

(** What a poll sends names each device at most once, and a device it does not name
    has neither a new position nor a claim to a presentation event. *)
Lemma sent_and_owed c states at_ :
  let sent := List.filter (arrived (c_since c)) states in
  let L := (sent ++ owed_by c (sortDeviceStates states) at_ (map ds_DeviceID sent))%list in
  NoDup (map ds_DeviceID states) ->
  NoDup (map ds_DeviceID L) /\ (forall s, s ∈ L -> s ∈ states) /\
  (forall s, s ∈ states -> ~ ds_DeviceID s ∈ map ds_DeviceID L -> arrived (c_since c) s = false /\ owed_test c at_ s = false).
Proof.
  intros sent L Hn. set (ids := map ds_DeviceID sent).
  assert (Hp : sortDeviceStates states ≡ₚ states) by apply stable_sort_perm.
  assert (Howed : forall s, s ∈ owed_by c (sortDeviceStates states) at_ ids <->
                            s ∈ states /\ ~ ds_DeviceID s ∈ ids /\ owed_test c at_ s = true).
  { intros s. rewrite owed_by_test, elem_of_filter_b, Hp, andb_true_iff, negb_true_iff, <- not_true_iff_false.
    unfold ids. rewrite is_positioned_spec. tauto. }
  split; [|split].
  - unfold L. rewrite map_app. apply NoDup_app. split; [by apply NoDup_map_filter|]. split.
    + intros i Hi (s & -> & Hs)%list_elem_of_fmap. apply Howed in Hs as (_ & Hs & _). done.
    + rewrite owed_by_test. apply NoDup_map_filter. by rewrite Hp.
  - intros s [Hs|Hs]%elem_of_app; [by apply elem_of_filter_b in Hs as [? _]|by apply Howed in Hs as [? _]].
  - intros s Hs Hni. unfold L in Hni. rewrite map_app, not_elem_of_app in Hni. destruct Hni as [H1 H2]. split.
    + apply not_true_iff_false. intros Ha. apply H1. apply list_elem_of_fmap_2, elem_of_filter_b. done.
    + apply not_true_iff_false. intros Ht. apply H2. apply list_elem_of_fmap_2, Howed. done.
Qed.

(* ---- a session ---- *)

(** What the tables promise a reader: device ids are keys, coordinates are finite,
    receive times are after the zero instant. *)
Definition readable (db : DB) : Prop :=
  NoDup (map dev_id (devices db)) /\
  forall r, r ∈ fixes db -> isNotFinite (ST_X (fr_location r)) = false /\ isNotFinite (ST_Y (fr_location r)) = false /\
                            Before zero_time (fr_received_at r) = true.

Definition listed (fam : string) (w : World) : list string := map ds_DeviceID (familyDeviceStatesSQL fam (w_db w)).

Lemma polled_perm c w : polled c w ≡ₚ familyDeviceStatesSQL (c_familyID c) (w_db w).
Proof. apply stable_sort_perm. Qed.

Lemma polled_ids c w : map ds_DeviceID (polled c w) ≡ₚ listed (c_familyID c) w.
Proof. unfold listed. by rewrite polled_perm. Qed.

Lemma readable_polled c w : readable (w_db w) -> Forall state_ok (polled c w) /\ NoDup (map ds_DeviceID (polled c w)).
Proof.
  intros [Hn Hr]. rewrite polled_ids, polled_perm. split.
  - apply Forall_forall. intros s. unfold familyDeviceStatesSQL. intros (d & -> & _)%list_elem_of_fmap.
    pose proof (newest_fix_spec (dev_id d) (w_db w)) as Hf.
    pose proof (max_received_spec (List.filter (of_device (dev_id d)) (fixes (w_db w)))) as Hm.
    unfold state_ok, state_of. cbn [ds_Current ds_LastContact]. split.
    + destruct (newest_fix _ _) as [r|], (max_received _) as [t|]; try done.
      * destruct Hf as (Hr1 & Er & _). assert (r ∈ @nil fix_row) as Hnil; [|by apply elem_of_nil in Hnil].
        rewrite <- Hm. apply elem_of_filter_b. unfold of_device. by rewrite Er, String.eqb_refl.
      * destruct Hm as [(r & [Hr1 Hr2]%elem_of_filter_b & _) _]. apply Hf in Hr1. unfold of_device in Hr2.
        by apply String.eqb_eq in Hr2.
    + intros p. destruct (newest_fix _ _) as [r|]; [|done]. intros [= <-]. cbn [pos_Lat pos_Lon pos_ReceivedAt].
      destruct Hf as (Hr1 & _). apply Hr in Hr1. tauto.
  - unfold listed, familyDeviceStatesSQL. rewrite map_map. simpl. by apply NoDup_map_filter.
Qed.

(** The polls of one connection, each at its own instant against its own world. *)
Fixpoint session (polls : list (Time * World)) (c : streamConn) : bool * streamConn :=
  match polls with
  | [] => (true, c)
  | (at_, w) :: rest =>
      match fst (poll at_ c w) with
      | (true, c') => session rest c'
      | (false, c') => (false, c')
      end
  end.

Definition growing (fam : string) (polls : list (Time * World)) : Prop :=
  Sorted (fun a b => listed fam (snd a) ⊆ listed fam (snd b)) polls.
(** What holds between two polls of a session: the values the watcher holds are the
    published function's at the last poll that read, for devices in [ids]. *)
Record truthful (known ids : list string) (c : streamConn) : Prop := {
  tr_resuming : c_resuming c = false;
  tr_fresh : c_swept c = false -> view (c_out c) = ∅ /\ c_since c = zero_time;
  tr_said : forall id v, c_swept c = true -> view (c_out c) !! id = Some v ->
    exists lc, c_prev c !! id = Some lc /\ v = token (Evaluate (c_prevAt c) lc (c_windows c));
  tr_known : forall id, c_swept c = true -> id ∈ known -> is_Some (view (c_out c) !! id);
  tr_listed : forall id, is_Some (c_prev c !! id) -> id ∈ ids }.

Lemma view_error out : view (out ++ [mkEvent eventError 0 streamErrorPayload])%list = view out.
Proof. unfold view. by rewrite foldl_app. Qed.

Lemma truthful_failed known ids ids' c c' : ids ⊆ ids' -> truthful known ids c -> read_failed c c' -> truthful known ids' c'.
Proof.
  intros Hi [T1 T2 T3 T4 T5] [[-> _]|(E1 & E2 & Q1 & Q2 & Q3 & Q4 & Q5 & Q6 & Q7 & Q8)]; [split; eauto|].
  cbn [set_degraded c_resuming c_swept c_prev c_prevAt c_windows] in *.
  split; rewrite ?E1, ?E2, ?view_error, ?Q2, ?Q4, ?Q5, ?Q6, ?Q7; eauto.
Qed.

Lemma sent_announces at_ c w owed : Forall state_ok (polled c w) -> (forall s, s ∈ owed -> s ∈ polled c w) ->
  let sent := List.filter (arrived (c_since c)) (polled c w) in
  map announces (map (position_event at_ (c_windows c)) sent ++ map (presentation_event at_ (c_windows c)) owed)%list =
  map (fun s => Some (ds_DeviceID s, value_at at_ (c_windows c) s)) (sent ++ owed)%list.
Proof.
  intros Hok Ho sent. rewrite !map_app, !map_map. rewrite Forall_forall in Hok. f_equal; apply map_ext_in; intros s Hs%list_elem_of_In.
  - apply announces_position, Hok. by apply elem_of_filter_b in Hs as [? _].
  - by apply announces_presentation, Hok, Ho.
Qed.

Lemma elem_of_ids (L : list DeviceState) id : id ∈ map ds_DeviceID L -> exists s, s ∈ L /\ ds_DeviceID s = id.
Proof. intros (s & -> & Hs)%list_elem_of_fmap. by exists s. Qed.

(** A device that reported is sent as a position by a connection that has sent none. *)
Lemma fresh_arrives c s at_ : state_ok s -> c_since c = zero_time -> c_swept c = false -> owed_test c at_ s = false ->
  arrived (c_since c) s = true.
Proof.
  intros [Hc Hf] Hz Hs Ht. unfold owed_test in Ht. rewrite Hs in Ht. apply bool_decide_eq_false in Ht.
  destruct (ds_LastContact s) as [lc|]; [|done]. destruct (ds_Current s) as [p|] eqn:Ep; [|by destruct (proj2 Hc ltac:(eauto))].
  unfold arrived. rewrite Ep, Hz. destruct (Hf p eq_refl) as (_ & _ & Hb). exact Hb.
Qed.

Lemma truthful_sent known ids at_ c w c' : Forall state_ok (polled c w) -> NoDup (map ds_DeviceID (polled c w)) ->
  truthful known ids c -> ids ⊆ listed (c_familyID c) w -> known ⊆ listed (c_familyID c) w ->
  pass_sent at_ w (owed_by c (sortDeviceStates (polled c w)) at_ (map ds_DeviceID (List.filter (arrived (c_since c)) (polled c w)))) c c' ->
  truthful known (listed (c_familyID c) w) c'.
Proof.
  intros Hok Hn [T1 T2 T3 T4 T5] Hids Hknown (E1 & E2 & E3 & E4 & E5 & E6 & E7 & E8 & E9).
  destruct (sent_and_owed c (polled c w) at_ Hn) as (HnL & HL & Hout).
  set (owed := owed_by _ _ _ _) in *. set (sent := List.filter _ _) in *.
  pose proof (sent_announces at_ c w owed Hok ltac:(intros s Hs; apply HL, elem_of_app; by right)) as Hann. cbv zeta in Hann. fold sent in Hann.
  destruct (view_said (c_out c) _ _ _ _ Hann HnL) as [V1 V2]. rewrite <- E1 in V1, V2.
  destruct (observations_lookup (sortDeviceStates (polled c w))) as [O1 O2]; [unfold sortDeviceStates; by rewrite stable_sort_perm|].
  rewrite <- E5 in O1, O2. assert (Hper : sortDeviceStates (polled c w) ≡ₚ polled c w) by apply stable_sort_perm.
  rewrite Forall_forall in Hok.
  assert (Hlook : forall id, id ∈ listed (c_familyID c) w -> exists s, s ∈ polled c w /\ ds_DeviceID s = id /\ state_ok s /\ c_prev c' !! id = Some (ds_LastContact s)).
  { intros id Hid. rewrite <- polled_ids in Hid. apply elem_of_ids in Hid as (s & Hs & <-). exists s.
    split; [done|]. split; [done|]. split; [by apply Hok|]. apply O1. by rewrite Hper. }
  split; rewrite ?E3, ?E6, ?E8, ?E9; try done.
  - intros id v _ Hv. destruct (decide (id ∈ map ds_DeviceID (sent ++ owed)%list)) as [Hin|Hnin].
    + apply elem_of_ids in Hin as (s & Hs & <-). rewrite (V1 s Hs) in Hv. injection Hv as <-.
      exists (ds_LastContact s). split; [|done]. apply O1. rewrite Hper. by apply HL.
    + rewrite V2 in Hv by done. destruct (c_swept c) eqn:Esw.
      2: { destruct T2 as [Hempty _]; [done|]. rewrite Hempty, lookup_empty in Hv. discriminate. }
      destruct (T3 id v eq_refl Hv) as (lc & Hlc & ->).
      destruct (Hlook id) as (s & Hs & <- & _ & Hprev); [by apply Hids, T5; eauto|]. exists (ds_LastContact s). split; [done|].
      destruct (Hout s Hs Hnin) as [_ Ht]. unfold owed_test in Ht. rewrite Esw, Hlc in Ht. simpl in Ht.
      destruct (c_degraded c); [discriminate|]. apply negb_false_iff, bool_decide_eq_true in Ht. by rewrite Ht.
  - intros id _ Hid. destruct (decide (id ∈ map ds_DeviceID (sent ++ owed)%list)) as [Hin|Hnin].
    + apply elem_of_ids in Hin as (s & Hs & <-). rewrite (V1 s Hs). by eexists.
    + rewrite V2 by done. destruct (c_swept c) eqn:Esw; [by apply T4|].
      destruct T2 as [_ Hz]; [done|]. destruct (Hlook id) as (s & Hs & <- & Hsok & _); [by apply Hknown|].
      destruct (Hout s Hs Hnin) as [Ha Ht]. pose proof (fresh_arrives c s at_ Hsok Hz Esw Ht). congruence.
  - intros id [lc Hlc]. destruct (decide (id ∈ listed (c_familyID c) w)); [done|]. rewrite O2 in Hlc; [discriminate|].
    by rewrite Hper, polled_ids.
Qed.
(** One pass keeps the invariant, and after one that read nothing is left unsaid. *)
Lemma pass_truthful known ids at_ c w c' : readable (w_db w) -> truthful known ids c ->
  ids ⊆ listed (c_familyID c) w -> known ⊆ listed (c_familyID c) w -> fst (poll at_ c w) = (true, c') ->
  truthful known (listed (c_familyID c) w) c' /\ c_familyID c' = c_familyID c /\ c_windows c' = c_windows c /\
  (c_degraded c' = true \/ c_swept c' = true /\ c_prevAt c' = at_ /\ c_prev c' = observations (sortDeviceStates (polled c w))).
Proof.
  intros Hr T Hids Hknown E. destruct (readable_polled c w Hr) as [Hok Hn].
  destruct (poll at_ c w) as [out w'] eqn:Ep. simpl in E.
  destruct (poll_cases at_ c w out w' (or_intror (tr_resuming _ _ _ T)) Hok Ep ltac:(by rewrite E)) as [Hf|Hs]; rewrite E in *; simpl in *.
  - split; [exact (truthful_failed _ _ _ _ _ Hids T Hf)|]. destruct Hf as [[-> Hd]|(_ & _ & Q1 & Q2 & _ & _ & _ & _ & _ & Q8)]; [by auto|].
    split; [done|]. split; [done|]. by left.
  - pose proof (truthful_sent known ids at_ c w c' Hok Hn T Hids Hknown Hs) as T'.
    destruct Hs as (_ & _ & S3 & _ & S5 & S6 & S7 & S8 & _). auto 8.
Qed.

Definition up_to_date (at_ : Time) (w : World) (c : streamConn) : Prop :=
  c_degraded c = true \/ c_swept c = true /\ c_prevAt c = at_ /\ c_prev c = observations (sortDeviceStates (polled c w)).

Lemma session_truthful fam polls : forall known ids c c', truthful known ids c -> c_familyID c = fam ->
  Forall (fun p => readable (w_db (snd p)) /\ known ⊆ listed fam (snd p)) polls ->
  Sorted (fun a b => a ⊆ b) (ids :: map (fun p => listed fam (snd p)) polls) ->
  session polls c = (true, c') ->
  c_familyID c' = fam /\ c_windows c' = c_windows c /\
  match last polls with
  | None => True
  | Some (at_, w) => truthful known (listed fam w) c' /\ up_to_date at_ w c'
  end.
Proof.
  induction polls as [|[at_ w] rest IH]; intros known ids c c' T Ef Hp Hs E; simpl in E; [by injection E as <-|].
  destruct (fst (poll at_ c w)) as [[] c1] eqn:E1; [|discriminate]. apply Forall_cons in Hp as [[Hr Hk] Hp].
  apply Sorted_inv in Hs as [Hs Hh]. apply HdRel_inv in Hh. simpl in Hr, Hk, Hh. rewrite <- Ef in Hh, Hk.
  destruct (pass_truthful known ids at_ c w c1 Hr T Hh Hk E1) as (T1 & F1 & W1 & U1). rewrite Ef in T1, F1.
  destruct (IH known (listed fam w) c1 c' T1 F1 Hp Hs E) as (F' & W' & L). split; [done|]. split; [congruence|].
  rewrite last_cons. destruct (last rest) as [[]|] eqn:El; [done|]. apply last_None in El. subst rest. injection E as <-.
  split; [done|]. unfold up_to_date, polled in *. by rewrite F1, <- Ef.
Qed.

Lemma newConn_truthful known ids fam win alive : truthful known ids (newConn fam win zero_time false alive).
Proof. split; try done. intros id [x Hx]. done. Qed.

(** A whole session of a fresh connection keeps track of its family. *)
Lemma session_tracks fam win alive (first : Time * World) at_ (w : World) polls c :
  session polls (newConn fam win zero_time false alive) = (true, c) -> head polls = Some first -> last polls = Some (at_, w) ->
  Forall (fun p => readable (w_db (snd p))) polls -> growing fam polls ->
  truthful (listed fam (snd first)) (listed fam w) c /\ up_to_date at_ w c /\ c_familyID c = fam /\ c_windows c = win.
Proof.
  intros E Hh Hl Hr Hs. destruct (session_truthful fam polls (listed fam (snd first)) [] _ c (newConn_truthful _ _ fam win alive) eq_refl) as (Ef & W & L); [..|done|].
  - destruct polls as [|p rest]; [done|]. injection Hh as <-. apply Sorted_StronglySorted in Hs; [|intros x y z; apply transitivity].
    apply StronglySorted_inv in Hs as [_ Hs]. rewrite !Forall_forall in *. intros x Hx. split; [by apply Hr|].
    apply elem_of_cons in Hx as [->|Hx]; [done|]. by apply Hs.
  - constructor; [|destruct polls; constructor; apply list_subseteq_nil].
    clear -Hs. induction Hs as [|x l Hl IH Hd]; simpl; constructor; [done|]. by destruct Hd; constructor.
  - rewrite Hl in L. destruct L as [T Hu]. done.
Qed.
(** What is announced of a device, after a pass that read, is its value at that pass. *)
Lemma announced_value known ids at_ (w : World) c s v : truthful known ids c -> up_to_date at_ w c -> c_degraded c = false -> readable (w_db w) ->
  s ∈ familyDeviceStatesSQL (c_familyID c) (w_db w) -> view (c_out c) !! ds_DeviceID s = Some v -> v = value_at at_ (c_windows c) s.
Proof.
  intros T [Hbad|(Hsw & Hat & Hprev)] Hd Hr Hin Hv; [congruence|]. destruct (readable_polled c w Hr) as [Hok Hn].
  destruct (observations_lookup (sortDeviceStates (polled c w))) as [O1 _]; [unfold sortDeviceStates; by rewrite stable_sort_perm|].
  destruct (tr_said _ _ _ T _ _ Hsw Hv) as (lc & Hlc & ->). rewrite Hprev, O1 in Hlc.
  - injection Hlc as <-. unfold value_at. by rewrite Hat.
  - unfold sortDeviceStates. by rewrite stable_sort_perm, polled_perm.
Qed.

(* ---- one device, on any connection ---- *)

(** A pass that reads will state every device: there is an outage to end, or nothing was
    read yet on a fresh connection. *)
Definition states_all (c : streamConn) : Prop :=
  c_swept c = true /\ c_degraded c = true \/ c_swept c = false /\ c_resuming c = false /\ c_since c = zero_time.
(** What was last announced of a device is its value when it was last read. *)
Definition told (id : string) (c : streamConn) : Prop :=
  exists lc, c_prev c !! id = Some lc /\ view (c_out c) !! id = Some (token (Evaluate (c_prevAt c) lc (c_windows c))).

Lemma states_all_plain c : states_all c -> c_swept c = true \/ c_resuming c = false.
Proof. intros [[? _]|(_ & ? & _)]; auto. Qed.
Lemma states_all_owed at_ c s : states_all c -> state_ok s -> arrived (c_since c) s = false -> owed_test c at_ s = true.
Proof.
  intros Hc Hs Ha. apply not_false_iff_true. intros Ht. destruct Hc as [[H1 H2]|(H1 & _ & H3)].
  - unfold owed_test in Ht. rewrite H1, H2 in Ht. done.
  - by rewrite (fresh_arrives c s at_ Hs H3 H1 Ht) in Ha.
Qed.
Lemma failed_told id c c' : read_failed c c' -> told id c -> told id c'.
Proof.
  intros [[-> _]|(E1 & _ & Q1 & Q2 & Q3 & Q4 & Q5 & Q6 & Q7 & Q8)]; [done|]. intros (lc & H1 & H2). exists lc.
  cbn [set_degraded c_prev c_prevAt c_windows] in *. by rewrite E1, view_error, Q2, Q6, Q7.
Qed.
Lemma sent_told id at_ c w c' : Forall state_ok (polled c w) -> NoDup (map ds_DeviceID (polled c w)) ->
  pass_sent at_ w (owed_by c (sortDeviceStates (polled c w)) at_ (map ds_DeviceID (List.filter (arrived (c_since c)) (polled c w)))) c c' ->
  id ∈ listed (c_familyID c) w -> states_all c \/ c_swept c = true /\ told id c -> told id c'.
Proof.
  intros Hok Hn (E1 & _ & _ & _ & E5 & E6 & _ & E8 & _) Hid Hc. destruct (sent_and_owed c (polled c w) at_ Hn) as (HnL & HL & Hout).
  set (owed := owed_by _ _ _ _) in *. set (sent := List.filter _ _) in *.
  pose proof (sent_announces at_ c w owed Hok ltac:(intros s Hs; apply HL, elem_of_app; by right)) as Hann. cbv zeta in Hann. fold sent in Hann.
  destruct (view_said (c_out c) _ _ _ _ Hann HnL) as [V1 V2]. rewrite <- E1 in V1, V2.
  destruct (observations_lookup (sortDeviceStates (polled c w))) as [O1 _]; [unfold sortDeviceStates; by rewrite stable_sort_perm|]. rewrite <- E5 in O1.
  rewrite <- polled_ids in Hid. apply elem_of_ids in Hid as (s & Hs & <-). exists (ds_LastContact s).
  rewrite E6, E8. split; [apply O1; unfold sortDeviceStates; by rewrite stable_sort_perm|].
  destruct (decide (ds_DeviceID s ∈ map ds_DeviceID (sent ++ owed)%list)) as [Hin|Hnin].
  - apply elem_of_ids in Hin as (x & Hx & Ex). rewrite <- (same_id _ x s Hn (HL x Hx) Hs Ex). by apply V1.
  - destruct (Hout s Hs Hnin) as [Ha Ht]. rewrite Forall_forall in Hok. destruct Hc as [Hc|[Hsw (lc & Hlc & Hv)]].
    + by rewrite (states_all_owed at_ c s Hc (Hok s Hs) Ha) in Ht.
    + rewrite V2 by done. rewrite Hv. f_equal. unfold owed_test in Ht. rewrite Hsw, Hlc in Ht. cbn [negb] in Ht.
      destruct (c_degraded c); [done|]. apply negb_false_iff, bool_decide_eq_true in Ht. by rewrite Ht.
Qed.
(** After a pass that read, what was last announced is the value at that pass. *)
Lemma told_value at_ (w : World) c s : told (ds_DeviceID s) c -> readable (w_db w) -> s ∈ familyDeviceStatesSQL (c_familyID c) (w_db w) ->
  c_prevAt c = at_ -> c_prev c = observations (sortDeviceStates (polled c w)) -> view (c_out c) !! ds_DeviceID s = Some (value_at at_ (c_windows c) s).
Proof.
  intros (lc & Hlc & ->) Hr Hin Hat Hprev. destruct (readable_polled c w Hr) as [_ Hn].
  destruct (observations_lookup (sortDeviceStates (polled c w))) as [O1 _]; [unfold sortDeviceStates; by rewrite stable_sort_perm|].
  rewrite Hprev, O1 in Hlc by (unfold sortDeviceStates; by rewrite stable_sort_perm, polled_perm). injection Hlc as <-. by rewrite Hat.
Qed.

(** C4: a watcher of the live stream always holds the truth.  Take any session of a
    fresh connection - any number of polls at any instants, between which the
    database changes arbitrarily except that no device leaves the family, some of
    which may fail to read it.  If the watcher is still there and the last poll was
    not left degraded, then for every device of the family the last value announced
    to the watcher, if any, is the published function's value at that poll, and a
    device that was in the family when the stream was opened has been announced. *)
Theorem stream_truthful (fam : string) (win : Windows) (alive : nat -> bool) (first last_ : Time * World) polls (c : streamConn) :
  session polls (newConn fam win zero_time false alive) = (true, c) ->
  head polls = Some first -> last polls = Some last_ -> c_degraded c = false ->
  Forall (fun p => readable (w_db (snd p))) polls ->
  Sorted (fun a b => listed fam (snd a) ⊆ listed fam (snd b)) polls ->
  forall s, s ∈ familyDeviceStatesSQL fam (w_db (snd last_)) ->
    (forall v, view (c_out c) !! ds_DeviceID s = Some v -> v = token (Evaluate (fst last_) (ds_LastContact s) win)) /\
    (ds_DeviceID s ∈ listed fam (snd first) ->
     view (c_out c) !! ds_DeviceID s = Some (token (Evaluate (fst last_) (ds_LastContact s) win))).
Proof.
  intros E Hh Hl Hd Hr Hs s Hin. destruct last_ as [at_ w]. cbn [fst snd] in *.
  destruct (session_tracks fam win alive first at_ w polls c E Hh Hl Hr Hs) as (T & Hu & Ef & W). rewrite <- Ef in Hin.
  assert (Hrw : readable (w_db w)) by (rewrite Forall_forall in Hr; apply (Hr (at_, w)); by apply last_Some_elem_of).
  assert (Hv : forall v, view (c_out c) !! ds_DeviceID s = Some v -> v = token (Evaluate at_ (ds_LastContact s) win)).
  { intros v Hv. rewrite <- W. by apply (announced_value _ _ at_ w c s v T). }
  split; [done|]. intros Hf. destruct Hu as [Hbad|(Hsw & _)]; [congruence|]. destruct (tr_known _ _ _ T _ Hsw Hf) as [v Hv']. rewrite Hv'. by rewrite (Hv v Hv').
Qed.
(* ---- one pass, exactly ---- *)

Lemma keyed_omap_lookup (g : device_row -> option Time) l :
  let m := list_to_map (omap (fun d => option_map (pair (dev_id d)) (g d)) l) : gmap string Time in
  NoDup (map dev_id l) ->
  (forall d, d ∈ l -> m !! dev_id d = g d) /\ (forall id, ~ id ∈ map dev_id l -> m !! id = None).
Proof.
  induction l as [|x l IH]; csimpl; [intros _; split; [by intros ? ?%elem_of_nil|done]|].
  intros [Hx Hn]%NoDup_cons. destruct (IH Hn) as [H1 H2]. split.
  - intros d [->|Hd]%elem_of_cons; destruct (g _) eqn:Eg; simpl; rewrite ?lookup_insert_eq; try done; [by apply H2| |by apply H1].
    rewrite lookup_insert_ne; [by apply H1|]. intros E. apply Hx. rewrite E. by apply list_elem_of_fmap_2.
  - intros i [Hi1 Hi2]%not_elem_of_cons. destruct (g x); simpl; [rewrite lookup_insert_ne by done|]; by apply H2.
Qed.

(** The device's last contact over the fixes received at or before an instant. *)
Definition contact_as_of (db : DB) (id : string) (instant : Time) : option Time :=
  max_received (List.filter (fun r => of_device id r && negb (Before instant (fr_received_at r))) (fixes db)).

(** Why a pass that sent the device no position owes it a presentation event. *)
Definition owed_because (c : streamConn) (db : DB) (at_ : Time) (s : DeviceState) : bool :=
  if negb (c_swept c) && c_resuming c then
    match contact_as_of db (ds_DeviceID s) (timestamptz (c_cursorInstant c)) with
    | None => true
    | Some t => negb (bool_decide (Evaluate (c_cursorInstant c) (Some t) (c_windows c) =
                                   Evaluate at_ (ds_LastContact s) (c_windows c)))
    end
  else owed_test c at_ s.

Lemma family_device fam db s : NoDup (map dev_id (devices db)) -> s ∈ familyDeviceStatesSQL fam db ->
  exists d, d ∈ List.filter (fun d => String.eqb (dev_family_id d) fam) (devices db) /\ s = state_of db d.
Proof. intros Hn (d & -> & Hd)%list_elem_of_fmap. eauto. Qed.

Lemma owes_because at_ c w w1 owed w2 : readable (w_db w) -> w_db w1 = w_db w -> owes at_ c w w1 = (Ok owed, w2) ->
  let ids := map ds_DeviceID (List.filter (arrived (c_since c)) (polled c w)) in
  owed = List.filter (fun s => negb (is_positioned ids s) && owed_because c (w_db w) at_ s) (sortDeviceStates (polled c w)).
Proof.
  intros [Hn _] Edb E ids. unfold owes, owed_query in E. fold ids in E. unfold owed_because.
  destruct (negb (c_swept c) && c_resuming c) eqn:Er.
  - unfold resumeSweep, FamilyLastContactAsOf, bindr, bind in E.
    destruct (query (fun _ => familyLastContactAsOfSQL (c_familyID c) (timestamptz (c_cursorInstant c))) w1) as [[rows|e] w3] eqn:Eq; [|discriminate E]. apply query_ok_inv in Eq as [-> ->].
    unfold ret in E. injection E as <- _. unfold resume_owed. apply filter_ext_in. intros s Hs%list_elem_of_In. f_equal.
    assert (Hs' : s ∈ familyDeviceStatesSQL (c_familyID c) (w_db w)).
    { rewrite <- polled_perm. revert Hs. unfold sortDeviceStates. by rewrite stable_sort_perm. }
    destruct (family_device _ _ _ Hn Hs') as (d & Hd & ->). rewrite Edb. unfold familyLastContactAsOfSQL.
    destruct (keyed_omap_lookup (fun d => contact_as_of (w_db w) (dev_id d) (timestamptz (c_cursorInstant c)))
                (List.filter (fun d => String.eqb (dev_family_id d) (c_familyID c)) (devices (w_db w)))) as [K _]; [by apply NoDup_map_filter|].
    cbn [state_of ds_DeviceID]. unfold contact_as_of in K. rewrite (K d Hd). unfold contact_as_of. done.
  - injection E as <- _. apply owed_by_test.
Qed.
(* ---- arrival order ---- *)

Definition arrived_at (s : DeviceState) : option Time := option_map pos_ReceivedAt (ds_Current s).

Lemma arrival_less_asym a b : arrival_less a b = true -> arrival_less b a = false.
Proof.
  unfold arrival_less. destruct (ds_Current a) as [p|], (ds_Current b) as [q|]; try done; [|apply str_ltb_asym].
  destruct (decide (pos_ReceivedAt p = pos_ReceivedAt q)) as [->|Hne].
  - rewrite (proj2 (Equal_eq _ _) eq_refl). apply str_ltb_asym.
  - rewrite (not_true_is_false _ (fun E => Hne (proj1 (Equal_eq _ _) E))).
    rewrite (not_true_is_false _ (fun E => Hne (eq_sym (proj1 (Equal_eq _ _) E)))). apply Before_asym.
Qed.

(** Not arriving before, as one comparison of instants and one of identifiers. *)
Lemma arrival_not_less a b : arrival_less b a = false <->
  match arrived_at a, arrived_at b with
  | None, None => str_ltb (ds_DeviceID b) (ds_DeviceID a) = false
  | None, Some _ => True
  | Some _, None => False
  | Some s, Some t => Before t s = false /\ (s = t -> str_ltb (ds_DeviceID b) (ds_DeviceID a) = false)
  end.
Proof.
  unfold arrival_less, arrived_at. destruct (ds_Current a) as [p|], (ds_Current b) as [q|]; simpl; try done.
  destruct (Equal (pos_ReceivedAt q) (pos_ReceivedAt p)) eqn:E; simpl.
  - apply Equal_eq in E as ->. rewrite Before_irrefl. tauto.
  - split; [intros Hb; split; [done|]|by intros [? _]]. intros Es. rewrite Es, (proj2 (Equal_eq _ _) eq_refl) in E. discriminate.
Qed.

Lemma arrival_less_negtrans x y z : arrival_less y x = false -> arrival_less z y = false -> arrival_less z x = false.
Proof.
  rewrite !arrival_not_less. destruct (arrived_at x), (arrived_at y), (arrived_at z); try done.
  - intros [H1 E1] [H2 E2]. split; [by eapply Before_negtrans|]. intros ->.
    pose proof (Before_total _ _ H1 H2) as ->. eapply str_ltb_negtrans; eauto.
  - apply str_ltb_negtrans.
Qed.

Lemma polled_sorted c w : StronglySorted (fun a b => arrival_less b a = false) (polled c w).
Proof. apply stable_sort_sorted; [intros x y; apply arrival_less_asym|intros x y z; apply arrival_less_negtrans]. Qed.

Lemma StronglySorted_last {A} (R : A -> A -> Prop) l x y : StronglySorted R l -> last l = Some y -> x ∈ l -> x = y \/ R x y.
Proof.
  induction 1 as [|z l Hl IH Hz]; [done|]. rewrite last_cons. intros Ey [->|Hx]%elem_of_cons.
  - destruct (last l) as [y'|] eqn:El; injection Ey as <-; [|by left]. right. rewrite Forall_forall in Hz. apply Hz. by apply last_Some_elem_of.
  - destruct (last l) as [y'|] eqn:El; injection Ey as <-; [by apply IH|]. apply last_None in El. subst. by apply elem_of_nil in Hx.
Qed.

(** The cursor after the batch is at or after everything there is to send. *)
Lemma last_arrival_bound c w since s p : s ∈ polled c w -> ds_Current s = Some p ->
  let sent := List.filter (arrived since) (polled c w) in
  Before (last_arrival since sent) (pos_ReceivedAt p) = false /\ Before (last_arrival since sent) since = false.
Proof.
  intros Hs Ep sent. unfold last_arrival.
  assert (Ha : arrived since s = Before since (pos_ReceivedAt p)) by (unfold arrived; by rewrite Ep).
  destruct (last sent) as [y|] eqn:Ey.
  - assert (Hy : y ∈ sent) by by apply last_Some_elem_of. apply elem_of_filter_b in Hy as [_ Hy]. unfold arrived in Hy.
    destruct (ds_Current y) as [q|] eqn:Eq; [|done]. unfold After in Hy. split; [|by apply Before_asym].
    destruct (Before since (pos_ReceivedAt p)) eqn:Eb.
    + destruct (StronglySorted_last (fun a b => arrival_less b a = false) sent s y) as [->|Hle];
        [apply StronglySorted_filter_b, polled_sorted|done| | |].
      * apply elem_of_filter_b. rewrite Ha. done.
      * rewrite Ep in Eq. injection Eq as ->. apply Before_irrefl.
      * apply arrival_not_less in Hle. unfold arrived_at in Hle. rewrite Ep, Eq in Hle. apply Hle.
    + eapply Before_negtrans; [exact Eb|]. by apply Before_asym.
  - split; [|apply Before_irrefl]. apply last_None in Ey. rewrite <- Ha. apply not_true_iff_false. intros Hbad.
    assert (s ∈ sent) as Hin by (by apply elem_of_filter_b). rewrite Ey in Hin. by apply elem_of_nil in Hin.
Qed.
(** C19: what one pass sends.  A pass that could read the database and whose watcher
    stayed sends, in this order: a position event for each device of the family
    whose newest fix was received strictly after the cursor the pass began with - all
    of a tie, each once, in arrival order, with the receive time in microseconds as
    its id - and then a presentation event without an id for exactly the devices it
    sent no position of and has a reason to speak of: on a resumed connection's first
    pass those with no fix received by the cursor instant or whose value then differs
    from its value now, on a fresh connection's first pass those without a fix, after
    an outage every one, and otherwise those whose value changed since the last pass.
    No device is named twice; afterwards the cursor is at or after every position of
    the family and never moves back, so nothing is sent again. *)
Theorem poll_exact (at_ : Time) (c c' : streamConn) (w w' : World) :
  readable (w_db w) -> poll at_ c w = ((true, c'), w') -> c_degraded c' = false ->
  let sent := List.filter (arrived (c_since c)) (polled c w) in
  exists owed,
    c_out c' = (c_out c ++ map (position_event at_ (c_windows c)) sent ++ map (presentation_event at_ (c_windows c)) owed)%list /\
    StronglySorted (fun a b => arrival_less b a = false) sent /\
    NoDup (map ds_DeviceID (sent ++ owed)%list) /\
    (forall s, s ∈ owed <-> s ∈ polled c w /\ arrived (c_since c) s = false /\ owed_because c (w_db w) at_ s = true) /\
    (forall s p, s ∈ polled c w -> ds_Current s = Some p -> Before (c_since c') (pos_ReceivedAt p) = false) /\
    Before (c_since c') (c_since c) = false.
Proof.
  intros Hr E Hd sent. destruct (readable_polled c w Hr) as [Hok Hn].
  destruct (FamilyDeviceStates (c_familyID c) w) as [[states|e] w1] eqn:Eq.
  2: { unfold poll, bind at 1 in E. rewrite Eq in E. unfold ret in E. injection E as E _.
       pose proof (reported_degraded at_ c) as Hrep. rewrite E in Hrep. simpl in Hrep. rewrite Hrep in Hd by done. done. }
  destruct (poll_read _ _ _ _ _ _ _ Hok Eq E eq_refl) as (Edb & [(e & w2 & _ & _ & Hbad & _)|(owed & w2 & Ew & Hs)]);
    [simpl in Hbad; congruence|].
  apply (owes_because _ _ _ _ _ _ Hr Edb) in Ew. cbv zeta in Ew. fold sent in Ew. destruct Hs as (E1 & E2 & _). fold sent in E1, E2.
  cbn [snd] in E1, E2. exists owed.
  assert (Hp : sortDeviceStates (polled c w) ≡ₚ polled c w) by apply stable_sort_perm.
  assert (Hpos : forall s, s ∈ polled c w -> ds_DeviceID s ∈ map ds_DeviceID sent <-> arrived (c_since c) s = true).
  { intros s Hs. split.
    - intros Hin. apply elem_of_ids in Hin as (x & Hx & Ex). apply elem_of_filter_b in Hx as [Hx Ha].
      by rewrite <- (same_id _ x s Hn Hx Hs Ex).
    - intros Ha. apply list_elem_of_fmap_2, elem_of_filter_b. done. }
  assert (Howed : forall s, s ∈ owed <-> s ∈ polled c w /\ arrived (c_since c) s = false /\ owed_because c (w_db w) at_ s = true).
  { intros s. rewrite Ew, elem_of_filter_b, Hp, andb_true_iff, negb_true_iff. apply and_iff_congr. intros Hs.
    rewrite <- !not_true_iff_false, is_positioned_spec, Hpos by done. done. }
  split; [done|]. split; [apply StronglySorted_filter_b, polled_sorted|]. split; [|split; [done|split]].
  - rewrite map_app. apply NoDup_app. split; [by apply NoDup_map_filter|]. split.
    + intros i Hi Hio. apply elem_of_ids in Hio as (s & Hs & <-). apply Howed in Hs as (Hs & Ha & _).
      apply Hpos in Hi; [congruence|done].
    + rewrite Ew. apply NoDup_map_filter. by rewrite Hp.
  - intros s p Hs Ep. rewrite E2. by apply (last_arrival_bound c w (c_since c) s p).
  - rewrite E2. unfold last_arrival. destruct (last sent) as [y|] eqn:Ey; [|apply Before_irrefl].
    assert (Hy : y ∈ sent) by by apply last_Some_elem_of. apply elem_of_filter_b in Hy as [_ Hy]. unfold arrived, After in Hy.
    destruct (ds_Current y); [by apply Before_asym|done].
Qed.
End StreamSpec.

(* ------------------------------------------------------------------ *)
(** ** The cadence *)

(** The poll period is usable and meets the bound: whatever the windows it is
    positive and at most a second (the ticker cannot panic), and unless the bound [B]
    of the windows exceeds what a duration holds, two periods are at most [B]
    seconds. *)
Theorem streamPollTick_bounds (w : Windows) :
  0 < streamPollTick w <= second /\
  (SweepBound w * second < 2^63 -> 2 * streamPollTick w <= SweepBound w * second).
Proof.
  unfold streamPollTick, streamPollInterval, second. pose proof (SweepBound_pos w) as Hb.
  set (half := Z.quot _ 2). split.
  - destruct (0 <? half) eqn:E1, (half <? 1000000000) eqn:E2; simpl; lia.
  - intros Hs. assert (Eh : half = Z.quot (SweepBound w * 1000000000) 2).
    { unfold half. rewrite wrap64_id; [done|]. unfold int64. lia. }
    pose proof (Z.quot_div_nonneg (SweepBound w * 1000000000) 2 ltac:(lia) ltac:(lia)) as Hq.
    pose proof (Z.mul_div_le (SweepBound w * 1000000000) 2 ltac:(lia)).
    pose proof (Z.mul_succ_div_gt (SweepBound w * 1000000000) 2 ltac:(lia)).
    destruct (0 <? half) eqn:E1, (half <? 1000000000) eqn:E2; simpl; lia.
Qed.

Lemma streamPollTick_bounds_witness :
  streamPollTick (mkWindows 1 2) = 500000000 /\ 2 * streamPollTick (mkWindows 1 2) <= SweepBound (mkWindows 1 2) * second.
Proof. split; [reflexivity|]. apply (streamPollTick_bounds (mkWindows 1 2)). reflexivity. Defined.

(** Windows whose bound does not fit a duration make the stream poll faster, not
    slower. *)
Example streamPollTick_overflow : streamPollTick (mkWindows 36893488148 (2 * 36893488148)) = 145224192.
Proof. reflexivity. Qed.

(* ------------------------------------------------------------------ *)
(** ** Witnesses *)

#[local] Existing Instance int_floats.
#[local] Existing Instance ascii_unicode.

Definition seconds_after (n : Z) : Time := mkTime (t_sec noon + n) 0.
Definition watched_db (fs : list (@fix_row planar)) : @DB planar :=
  mkDB [mkFamily "fam" "Family"] [phone_a; tablet] [viewer_a] fs [] [] [] ∅.
Definition watched (fs : list (@fix_row planar)) : @World planar := calm (watched_db fs) noon.
Definition fix_received (ts received : Time) : @fix_row planar :=
  mkFixRow "d" ts (ST_Point (f64 5) (f64 5)) None None None None None received.
Definition at_noon : list (@fix_row planar) := [fix_received noon noon].
Definition at_home : nat -> bool := fun _ => true.

(** Open at noon, look again a quarter of an hour and five seconds later, and then
    after a new fix. *)
Definition two_polls : list (Time * @World planar) := [(noon, watched at_noon); (seconds_after 2000, watched at_noon)].
Definition opened : streamConn := newConn "fam" wins zero_time false at_home.

Example two_polls_told :
  map announces (c_out (snd (session two_polls opened))) = [Some ("d", "live"); Some ("e", "no-position"); Some ("d", "stale")].
Proof. vm_compute. reflexivity. Qed.

Lemma watched_readable ts received : Before zero_time received = true -> readable (watched_db [fix_received ts received]).
Proof.
  intros Hr. split; [apply (bool_decide_unpack _); by vm_compute|].
  intros r ->%list_elem_of_singleton. done.
Qed.

Definition phone_then : DeviceState := state_of (watched_db at_noon) phone_a.

Lemma stream_truthful_witness :
  (forall v, view (c_out (snd (session two_polls opened))) !! ds_DeviceID phone_then = Some v ->
     v = token (Evaluate (seconds_after 2000) (ds_LastContact phone_then) wins)) /\
  (ds_DeviceID phone_then ∈ listed "fam" (watched at_noon) ->
   view (c_out (snd (session two_polls opened))) !! ds_DeviceID phone_then =
     Some (token (Evaluate (seconds_after 2000) (ds_LastContact phone_then) wins))).
Proof.
  apply (stream_truthful "fam" wins at_home (noon, watched at_noon) (seconds_after 2000, watched at_noon) two_polls).
  - rewrite (surjective_pairing (session two_polls opened)). f_equal; vm_compute; reflexivity.
  - reflexivity.
  - reflexivity.
  - vm_compute. reflexivity.
  - apply Forall_cons; split; [by apply watched_readable|]. apply Forall_singleton. by apply watched_readable.
  - apply Sorted_cons; [apply Sorted_cons; [apply Sorted_nil|constructor]|constructor; done].
  - by left.
Defined.

Lemma poll_exact_witness :
  let c' := snd (fst (poll noon opened (watched at_noon))) in
  let sent := List.filter (arrived zero_time) (polled opened (watched at_noon)) in
  exists owed,
    c_out c' = (map (position_event noon wins) sent ++ map (presentation_event noon wins) owed)%list /\
    StronglySorted (fun a b => arrival_less b a = false) sent /\
    NoDup (map ds_DeviceID (sent ++ owed)%list) /\
    (forall s, s ∈ owed <-> s ∈ polled opened (watched at_noon) /\ arrived zero_time s = false /\
                            owed_because opened (watched_db at_noon) noon s = true) /\
    (forall s p, s ∈ polled opened (watched at_noon) -> ds_Current s = Some p -> Before (c_since c') (pos_ReceivedAt p) = false) /\
    Before (c_since c') zero_time = false.
Proof.
  apply (poll_exact noon opened _ (watched at_noon) (snd (poll noon opened (watched at_noon)))).
  - by apply watched_readable.
  - apply run_pair, injective_projections; [vm_compute; reflexivity|reflexivity].
  - vm_compute. reflexivity.
Defined.

(* ------------------------------------------------------------------ *)
(** ** Where the documents promise more *)

(** Silence on a resumed stream does not mean that what the watcher holds is current:
    it was told [live] with a position and [stale] without one; while it was away an
    old fix was delivered late, which makes the device live again but is not its
    newest fix.  Resuming at the position's cursor says nothing of it, and the
    watcher keeps [stale]. *)
Definition late_fix : list (@fix_row planar) := fix_received (seconds_after (-1000)) (seconds_after 2000) :: at_noon.
Definition resume_at : Time := UnixMicro_time (default 0 (option_map e_id (head (c_out (snd (session two_polls opened)))))).
Definition resumed : bool * streamConn := fst (poll (seconds_after 2005) (newConn "fam" wins resume_at true at_home) (watched late_fix)).

Lemma resume_silence_is_stale :
  map announces (c_out (snd resumed)) = [Some ("e", "no-position")] /\ fst resumed = true /\ c_degraded (snd resumed) = false /\
  view (c_out (snd (session two_polls opened))) !! "d" = Some "stale" /\
  map (fun s => (ds_DeviceID s, value_at (seconds_after 2005) wins s)) (familyDeviceStatesSQL "fam" (watched_db late_fix)) =
    [("d", "live"); ("e", "no-position")].
Proof. vm_compute. repeat split. Qed.

(** A watcher that resumes while only the sweep's query fails is told of the outage
    on every pass. *)
Definition second_query_fails : @World planar :=
  mkWorld (watched_db at_noon) (fun n => mkStmtEnv (if Nat.even n then NoFault else LostRequest (mkPgError "57P01" "")) noon "u") 0.

Lemma outage_told_twice :
  map e_name (c_out (snd (session [(noon, second_query_fails); (seconds_after 1, second_query_fails)]
                             (newConn "fam" wins noon true at_home)))) = ["error"; "error"].
Proof. vm_compute. reflexivity. Qed.
