(* ===== verification/Flags.v ===== *)
(** The [flag] package and [time.ParseDuration] as the operator commands
    ([cmd/tracker/main.go]) use them: [Parse] over a function from the defined names to
    their setters, and durations as decimal numbers with units, in int64 nanoseconds,
    the fraction computed in float64 as the library computes it. *)

From Stdlib Require Import ZArith Lia Bool String Ascii List SpecFloat.
From stdpp Require Import base option list strings gmap.
From S2P Require Import Prelude GoTime GoStrings.
Local Open Scope string_scope.
Local Open Scope Z_scope.

(* ------------------------------------------------------------------ *)
(** ** [flag.FlagSet.Parse] *)

Inductive flag_error := FHelp | FSyntax | FUndefined | FNeedsArg | FInvalid.

(** What an argument is: not a flag, the terminator, or the text of a flag. *)
Inductive arg_kind := ANotFlag | ATerminator | AFlag (body : string).

Definition classify_arg (s : string) : arg_kind :=
  match to_list s with
  | "-"%char :: "-"%char :: [] => ATerminator
  | "-"%char :: "-"%char :: rest => AFlag (of_list rest)
  | "-"%char :: c :: rest => AFlag (of_list (c :: rest))
  | _ => ANotFlag
  end.

(** The name and the value after the first [=], if there is one. *)
Definition split_flag (body : string) : string * option string :=
  let '(name, value, found) := Cut body "=" in (name, if found then Some value else None).

Definition bad_syntax (body : string) : bool :=
  match to_list body with
  | [] | "-"%char :: _ | "="%char :: _ => true
  | _ => false
  end.

Section Parse.
Context {S : Type} (formal : string -> option (string -> S -> option S)).

Definition set_flag (f : string -> S -> option S) (v : string) (s : S) : result flag_error S :=
  match f v s with Some s' => Ok s' | None => Err FInvalid end.

Fixpoint Parse (args : list string) (s : S) : result flag_error (S * list string) :=
  match args with
  | [] => Ok (s, [])
  | a :: rest =>
      match classify_arg a with
      | ANotFlag => Ok (s, args)
      | ATerminator => Ok (s, rest)
      | AFlag body =>
          if bad_syntax body then Err FSyntax
          else
            let '(name, value) := split_flag body in
            match formal name, value, rest with
            | None, _, _ => Err (if String.eqb name "help" || String.eqb name "h" then FHelp else FUndefined)
            | Some f, Some v, _ => match set_flag f v s with Ok s' => Parse rest s' | Err e => Err e end
            | Some f, None, v :: rest' => match set_flag f v s with Ok s' => Parse rest' s' | Err e => Err e end
            | Some _, None, [] => Err FNeedsArg
            end
      end
  end.
End Parse.

(** [fs.String] for each of some names; an unset flag is its default, the empty
    string. *)
Definition string_flags (names : list string) (name : string) : option (string -> gmap string string -> option (gmap string string)) :=
  if existsb (String.eqb name) names then Some (fun v m => Some (<[name := v]> m)) else None.

Definition flag_value (name : string) (m : gmap string string) : string := default "" (m !! name).

(* ------------------------------------------------------------------ *)
(** ** [time.ParseDuration] *)

Fixpoint leadingInt (s : list ascii) (x : Z) : option (Z * list ascii) :=
  match s with
  | c :: rest =>
      match digit c with
      | None => Some (x, s)
      | Some d =>
          if 2^63 / 10 <? x then None
          else let x := x * 10 + d in if 2^63 <? x then None else leadingInt rest x
      end
  | [] => Some (x, [])
  end.

(** The value of the fraction's digits, the scale as float64, and the rest; digits
    past what fits are dropped. *)
Fixpoint leadingFraction (s : list ascii) (x : Z) (scale : float64) (overflow : bool) : Z * float64 * list ascii :=
  match s with
  | c :: rest =>
      match digit c with
      | None => (x, scale, s)
      | Some d =>
          if overflow || ((2^63 - 1) / 10 <? x) then leadingFraction rest x scale true
          else let y := x * 10 + d in
               if 2^63 <? y then leadingFraction rest x scale true
               else leadingFraction rest y (SFmul 53 1024 scale (f64 10)) false
      end
  | [] => (x, scale, [])
  end.

Fixpoint take_unit (s acc : list ascii) : list ascii * list ascii :=
  match s with
  | c :: rest => if is_digit c || Ascii.eqb c "." then (rev acc, s) else take_unit rest (c :: acc)
  | [] => (rev acc, [])
  end.

(** Both spellings of the micro sign, in UTF-8. *)
Definition micro_sign : string := of_list [byte_of 194; byte_of 181] ++ "s".
Definition greek_mu : string := of_list [byte_of 206; byte_of 188] ++ "s".
Definition unitMap (u : string) : option Z :=
  if String.eqb u "ns" then Some 1
  else if String.eqb u "us" || String.eqb u micro_sign || String.eqb u greek_mu then Some microsecond
  else if String.eqb u "ms" then Some millisecond
  else if String.eqb u "s" then Some second
  else if String.eqb u "m" then Some minute
  else if String.eqb u "h" then Some hour
  else None.

(** [uint64(f)] of a float64 that is positive and in range. *)
Definition truncate (f : float64) : Z :=
  match f with
  | S754_finite false m e => if 0 <=? e then Z.shiftl (Zpos m) e else Z.shiftr (Zpos m) (- e)
  | _ => 0
  end.

(** One number and its unit: the nanoseconds it adds, and the rest. *)
Definition duration_part (s : list ascii) : option (Z * list ascii) :=
  match s with
  | [] => None
  | c :: _ =>
      if negb (Ascii.eqb c "." || is_digit c) then None
      else
        match leadingInt s 0 with
        | None => None
        | Some (v, s1) =>
            let pre := negb (length s =? length s1)%nat in
            let '(f, scale, s2, post) :=
              match s1 with
              | "."%char :: r => let '(f, scale, s2) := leadingFraction r 0 (f64 1) false in (f, scale, s2, negb (length r =? length s2)%nat)
              | _ => (0, f64 1, s1, false)
              end in
            if negb pre && negb post then None
            else
              let '(u, s3) := take_unit s2 [] in
              match u with
              | [] => None
              | _ =>
                  match unitMap (of_list u) with
                  | None => None
                  | Some unit =>
                      if 2^63 / unit <? v then None
                      else
                        let v := v * unit in
                        let v := if 0 <? f then v + truncate (SFmul 53 1024 (f64 f) (f_div (f64 unit) scale)) else v in
                        if (0 <? f) && (2^63 <? v) then None else Some (v, s3)
                  end
              end
        end
  end.

Fixpoint duration_parts (fuel : nat) (s : list ascii) (d : Z) : option Z :=
  match s, fuel with
  | [], _ => Some d
  | _, O => None
  | _, Datatypes.S fuel =>
      match duration_part s with
      | None => None
      | Some (v, rest) => let d := (d + v) mod 2^64 in if 2^63 <? d then None else duration_parts fuel rest d
      end
  end.

Definition ParseDuration (text : string) : option Z :=
  let s := to_list text in
  let '(neg, s) :=
    match s with
    | "-"%char :: r => (true, r)
    | "+"%char :: r => (false, r)
    | _ => (false, s)
    end in
  match s with
  | [] => None
  | _ =>
      if String.eqb (of_list s) "0" then Some 0
      else
        match duration_parts (length s) s 0 with
        | None => None
        | Some d => if neg then Some (wrap64 (- d)) else if 2^63 - 1 <? d then None else Some d
        end
  end.
