(* ===== verification/Regex.v ===== *)
(** Go's [regexp] package (RE2 syntax, leftmost-first) as the source uses it, on
    bytes.  [compile] reads the syntax the source's patterns are written in;
    [ends] is the matcher: every way to match at a position, in the order of
    preference of the leftmost-first rule, so that the match Go reports is the head
    of the list; [find] scans for the leftmost position that has one.  [reads] is
    the declarative meaning of an expression in its context, and [ends_spec] says
    the matcher finds exactly its derivations.  A negated class under a repetition
    consumes the bytes of a multi-byte rune one by one, which is the same set of
    matches as consuming the rune when the class's members are ASCII, as they are in
    every pattern of the source. *)

From Stdlib Require Import ZArith Lia Bool String Ascii List.
From stdpp Require Import base option list strings.
From S2P Require Import Prelude GoStrings.
Local Open Scope string_scope.
Local Open Scope Z_scope.

(* ------------------------------------------------------------------ *)
(** ** Expressions *)

(** A byte class is a list of inclusive ranges of codes, or its complement. *)
Inductive re :=
| Eps
| Chr (negated : bool) (ranges : list (Z * Z))
| Seq (r1 r2 : re)
| Alt (r1 r2 : re)
| Star (greedy : bool) (r : re)
| Group (n : nat) (r : re)
| WordBoundary
| BeginText | EndText | BeginLine | EndLine.

Definition in_ranges (ranges : list (Z * Z)) (c : ascii) : bool :=
  existsb (fun r => (fst r <=? code c) && (code c <=? snd r)) ranges.
Definition in_class (negated : bool) (ranges : list (Z * Z)) (c : ascii) : bool := xorb negated (in_ranges ranges c).

Definition word_ranges : list (Z * Z) := [(48, 57); (65, 90); (95, 95); (97, 122)].
Definition space_ranges : list (Z * Z) := [(9, 10); (12, 13); (32, 32)].
Definition digit_ranges : list (Z * Z) := [(48, 57)].
Definition is_word (c : ascii) : bool := in_ranges word_ranges c.

Definition starts_word (l : list ascii) : bool := match l with c :: _ => is_word c | [] => false end.
Definition at_newline (l : list ascii) : bool := match l with c :: _ => code c =? 10 | [] => true end.
Definition is_nil (l : list ascii) : bool := match l with [] => true | _ => false end.

(** The zero-width tests, between the reversed text before and the text after. *)
Definition assertion (r : re) (before after : list ascii) : bool :=
  match r with
  | Eps => true
  | WordBoundary => xorb (starts_word before) (starts_word after)
  | BeginText => is_nil before
  | EndText => is_nil after
  | BeginLine => at_newline before
  | EndLine => at_newline after
  | _ => false
  end.

(* ------------------------------------------------------------------ *)
(** ** The matcher *)

Record cursor := mkCursor { before : list ascii; rest : list ascii; caps : list (nat * list ascii) }.

Definition set_cap (n : nat) (text : list ascii) (c : cursor) : cursor := mkCursor (before c) (rest c) ((n, text) :: caps c).

(** What was consumed between two positions of one text. *)
Definition consumed (c c' : cursor) : list ascii := firstn (length (rest c) - length (rest c')) (rest c).

(** Repetition of a step that must make progress. *)
Fixpoint iter (fuel : nat) (greedy : bool) (step : cursor -> list cursor) (c : cursor) : list cursor :=
  match fuel with
  | O => [c]
  | S fuel =>
      let more := flat_map (fun c' => if (length (rest c') <? length (rest c))%nat then iter fuel greedy step c' else []) (step c) in
      if greedy then (more ++ [c])%list else c :: more
  end.

Fixpoint ends (r : re) (c : cursor) : list cursor :=
  match r with
  | Chr negated ranges =>
      match rest c with
      | x :: l => if in_class negated ranges x then [mkCursor (x :: before c) l (caps c)] else []
      | [] => []
      end
  | Seq r1 r2 => flat_map (ends r2) (ends r1 c)
  | Alt r1 r2 => (ends r1 c ++ ends r2 c)%list
  | Star greedy r => iter (length (rest c)) greedy (ends r) c
  | Group n r => map (fun c' => set_cap n (consumed c c') c') (ends r c)
  | r => if assertion r (before c) (rest c) then [c] else []
  end.

(** The leftmost match: where it starts and the cursor after it. *)
Fixpoint find_from (r : re) (b l : list ascii) : option (cursor * cursor) :=
  let c := mkCursor b l [] in
  match ends r c, l with
  | c' :: _, _ => Some (c, c')
  | [], x :: l' => find_from r (x :: b) l'
  | [], [] => None
  end.

Definition find (r : re) (s : string) : option (cursor * cursor) := find_from r [] (to_list s).

Definition MatchString (r : re) (s : string) : bool := match find r s with Some _ => true | None => false end.

Definition FindString (r : re) (s : string) : string :=
  match find r s with Some (c, c') => of_list (consumed c c') | None => "" end.

(** A capture: the last text the group matched, if it took part. *)
Definition cap (n : nat) (c : cursor) : option string :=
  option_map (fun p => of_list (snd p)) (List.find (fun p => Nat.eqb (fst p) n) (caps c)).

(** [FindStringSubmatch]: the groups by number; a group that took no part is empty. *)
Definition FindStringSubmatch (r : re) (s : string) : option (nat -> string) :=
  option_map (fun p n => match n with O => of_list (consumed (fst p) (snd p)) | _ => default "" (cap n (snd p)) end) (find r s).

(** [FindAllStringSubmatch(s, -1)]: successive matches that do not overlap; after an
    empty match the search moves on by one byte, and an empty match right after a
    match is not reported. *)
Fixpoint find_all (fuel : nat) (r : re) (b l : list ascii) (after_match : bool) : list (cursor * cursor) :=
  match fuel with
  | O => []
  | S fuel =>
      match find_from r b l with
      | None => []
      | Some (c, c') =>
          if (length (rest c') <? length (rest c))%nat then (c, c') :: find_all fuel r (before c') (rest c') true
          else
            let skip := match rest c' with x :: l' => find_all fuel r (x :: before c') l' false | [] => [] end in
            if after_match && (length (rest c) =? length l)%nat then skip else (c, c') :: skip
      end
  end.

Definition FindAllStringSubmatch (r : re) (s : string) : list (nat -> string) :=
  map (fun p n => match n with O => of_list (consumed (fst p) (snd p)) | _ => default "" (cap n (snd p)) end)
    (find_all (S (S (length (to_list s)))) r [] (to_list s) false).

(* ------------------------------------------------------------------ *)
(** ** Meaning *)

(** [reads r b w a]: the expression matches [w] between the reversed text [b] and the
    text [a]. *)
Inductive reads : re -> list ascii -> list ascii -> list ascii -> Prop :=
| reads_chr negated ranges b c a : in_class negated ranges c = true -> reads (Chr negated ranges) b [c] a
| reads_seq r1 r2 b w1 w2 a :
    reads r1 b w1 (w2 ++ a) -> reads r2 (rev w1 ++ b) w2 a -> reads (Seq r1 r2) b (w1 ++ w2) a
| reads_alt_l r1 r2 b w a : reads r1 b w a -> reads (Alt r1 r2) b w a
| reads_alt_r r1 r2 b w a : reads r2 b w a -> reads (Alt r1 r2) b w a
| reads_star_nil greedy r b a : reads (Star greedy r) b [] a
| reads_star_more greedy r b w1 w2 a :
    w1 <> [] -> reads r b w1 (w2 ++ a) -> reads (Star greedy r) (rev w1 ++ b) w2 a -> reads (Star greedy r) b (w1 ++ w2) a
| reads_group n r b w a : reads r b w a -> reads (Group n r) b w a
| reads_assert r b a : assertion r b a = true -> reads r b [] a.

(** A move of the cursor over [w]. *)
Definition moves (c : cursor) (w : list ascii) (c' : cursor) : Prop := before c' = (rev w ++ before c)%list /\ rest c = (w ++ rest c')%list.

Lemma moves_refl c : moves c [] c.
Proof. done. Qed.

Lemma moves_trans c1 w1 c2 w2 c3 : moves c1 w1 c2 -> moves c2 w2 c3 -> moves c1 (w1 ++ w2) c3.
Proof. intros [H1 H2] [H3 H4]. split; [by rewrite H3, H1, rev_app_distr, app_assoc|by rewrite H2, H4, app_assoc]. Qed.

Lemma moves_caps c w c' n t : moves c w (set_cap n t c') <-> moves c w c'.
Proof. done. Qed.

Lemma moves_consumed c w c' : moves c w c' -> consumed c c' = w.
Proof.
  intros [_ E]. unfold consumed. rewrite E, length_app. replace (length w + length (rest c') - length (rest c'))%nat with (length w) by lia.
  by rewrite firstn_app, firstn_all, Nat.sub_diag, firstn_O, app_nil_r.
Qed.

Lemma moves_shorter c w c' : moves c w c' -> ((length (rest c') <? length (rest c))%nat = true <-> w <> []).
Proof. intros [_ E]. rewrite Nat.ltb_lt, E, length_app. destruct w; simpl; split; try done; lia. Qed.

(** The matcher's step for an expression agrees with its meaning. *)
Definition agrees (r : re) : Prop :=
  (forall c c', c' ∈ ends r c -> exists w, moves c w c' /\ reads r (before c) w (rest c')) /\
  (forall c w a, rest c = (w ++ a)%list -> reads r (before c) w a ->
     exists c', c' ∈ ends r c /\ moves c w c' /\ rest c' = a).

Lemma elem_of_flat_map {A B} (f : A -> list B) l y : y ∈ flat_map f l <-> exists x, x ∈ l /\ y ∈ f x.
Proof. rewrite list_elem_of_In, in_flat_map. by setoid_rewrite list_elem_of_In. Qed.

Lemma iter_sound r greedy fuel : agrees r -> forall c c', c' ∈ iter fuel greedy (ends r) c ->
  exists w, moves c w c' /\ reads (Star greedy r) (before c) w (rest c').
Proof.
  intros [Hs _]. induction fuel as [|fuel IH]; intros c c'; simpl.
  - intros ->%list_elem_of_singleton. exists []. split; [done|constructor].
  - set (more := flat_map _ _). intros Hin.
    assert (Hin' : c' = c \/ c' ∈ more).
    { destruct greedy; [apply elem_of_app in Hin as [?|?%list_elem_of_singleton]|apply elem_of_cons in Hin as [?|?]]; auto. }
    destruct Hin' as [->|Hm]; [exists []; split; [done|constructor]|].
    apply elem_of_flat_map in Hm as (c1 & Hc1 & Hm). destruct (_ <? _)%nat eqn:El; [|by apply elem_of_nil in Hm].
    apply Hs in Hc1 as (w1 & M1 & R1). apply IH in Hm as (w2 & M2 & R2). exists (w1 ++ w2)%list.
    split; [by eapply moves_trans|]. destruct M1 as [B1 E1], M2 as [B2 E2]. apply reads_star_more.
    + apply (moves_shorter c w1 c1); done.
    + by rewrite <- E2.
    + by rewrite <- B1.
Qed.

Lemma iter_complete r greedy : agrees r -> forall fuel c w a, (length (rest c) <= fuel)%nat ->
  rest c = (w ++ a)%list -> reads (Star greedy r) (before c) w a ->
  exists c', c' ∈ iter fuel greedy (ends r) c /\ moves c w c' /\ rest c' = a.
Proof.
  intros [_ Hc]. induction fuel as [|fuel IH]; intros c w a Hf E R.
  - destruct (rest c) eqn:Er; [|simpl in Hf; lia]. symmetry in E. apply app_eq_nil in E as [-> ->].
    exists c. split; [by left|]. split; [done|done].
  - inversion R as [| | | |g' r' b' a'|g' r' b' w1 w2 a' Hne R1 R2| |r' b' a' Ha]; subst; simpl in *; [| |done].
    + exists c. split; [|by split]. destruct greedy; [apply elem_of_app; right; by left|by left].
    + rewrite <- app_assoc in E. destruct (Hc c w1 (w2 ++ a)%list E R1) as (c1 & Hin1 & M1 & E1).
      pose proof (moves_shorter _ _ _ M1) as Hs.
      destruct (IH c1 w2 a) as (c' & Hin & M2 & E2); [| |by destruct M1 as [-> _]|].
      { assert (Hl : (length (rest c1) < length (rest c))%nat) by (apply Nat.ltb_lt; by apply Hs). lia. }
      { done. }
      exists c'. split; [|split; [by eapply moves_trans|done]].
      assert (Hm : c' ∈ flat_map (fun c' => if (length (rest c') <? length (rest c))%nat then iter fuel greedy (ends r) c' else []) (ends r c)).
      { apply elem_of_flat_map. exists c1. split; [done|]. by rewrite (proj2 Hs Hne). }
      destruct greedy; [apply elem_of_app; by left|by right].
Qed.

Lemma assert_agrees r : (forall c, ends r c = if assertion r (before c) (rest c) then [c] else []) ->
  (forall b w a, reads r b w a -> w = [] /\ assertion r b a = true) -> agrees r.
Proof.
  intros He Hr. split.
  - intros c c'. rewrite He. destruct (assertion _ _ _) eqn:Ea; [|by intros ?%elem_of_nil].
    intros ->%list_elem_of_singleton. exists []. split; [done|by constructor].
  - intros c w a E R. destruct (Hr _ _ _ R) as [-> Ha]. rewrite He, E. simpl. rewrite Ha. exists c. split; [by left|done].
Qed.

Lemma ends_agrees r : agrees r.
Proof.
  induction r as [|neg rs|r1 [S1 C1] r2 [S2 C2]|r1 [S1 C1] r2 [S2 C2]|g r IH|n r [S1 C1]| | | | |].
  all: try (by apply assert_agrees; [|intros ? ? ? R; inversion R; subst]).
  - split.
    + intros c c'. simpl. destruct (rest c) as [|x l] eqn:E; [by intros ?%elem_of_nil|].
      destruct (in_class neg rs x) eqn:Ei; [|by intros ?%elem_of_nil]. intros ->%list_elem_of_singleton. exists [x].
      split; [by split|by constructor].
    + intros c w a E R. inversion R; subst; simpl in *; [|done]. rewrite E. simpl.
      match goal with HA : in_class _ _ _ = true |- _ => rewrite HA end.
      eexists. split; [by left|]. split; [by split|done].
  - split.
    + intros c c'. simpl. intros (c1 & H1 & H2)%elem_of_flat_map. apply S1 in H1 as (w1 & M1 & R1). apply S2 in H2 as (w2 & M2 & R2).
      exists (w1 ++ w2)%list. split; [by eapply moves_trans|]. destruct M1 as [B1 E1], M2 as [B2 E2]. apply reads_seq; [by rewrite <- E2|by rewrite <- B1].
    + intros c w a E R. inversion R as [|? ? ? w1 w2 ? R1 R2| | | | | |? ? ? Ha]; subst; [|done]. rewrite <- app_assoc in E.
      destruct (C1 _ _ _ E R1) as (c1 & H1 & M1 & E1). destruct (C2 c1 w2 a E1) as (c2 & H2 & M2 & E2); [by destruct M1 as [-> _]|].
      exists c2. split; [apply elem_of_flat_map; eauto|]. split; [by eapply moves_trans|done].
  - split.
    + intros c c'. simpl. intros [H1|H1]%elem_of_app; [apply S1 in H1 as (w & M & R)|apply S2 in H1 as (w & M & R)]; exists w; split; try done.
      * by apply reads_alt_l.
      * by apply reads_alt_r.
    + intros c w a E R. inversion R as [| |? ? ? ? ? R1|? ? ? ? ? R1| | | |? ? ? Ha]; subst; [| |done].
      * destruct (C1 _ _ _ E R1) as (c1 & H1 & M). exists c1. split; [apply elem_of_app; by left|done].
      * destruct (C2 _ _ _ E R1) as (c1 & H1 & M). exists c1. split; [apply elem_of_app; by right|done].
  - split; [intros c c'; by apply iter_sound|]. intros c w a E R. by apply iter_complete.
  - split.
    + intros c c'. simpl. intros (c1 & -> & H1)%list_elem_of_fmap. apply S1 in H1 as (w & M & R). exists w. split; [done|by apply reads_group].
    + intros c w a E R. inversion R as [| | | | | |? ? ? ? ? R1|? ? ? Ha]; subst; [|done].
      destruct (C1 _ _ _ E R1) as (c1 & H1 & M & E1). exists (set_cap n (consumed c c1) c1).
      split; [by apply list_elem_of_fmap_2 with (f := fun c' => set_cap n (consumed c c') c')|done].
Qed.

Lemma ends_sound r c c' : c' ∈ ends r c -> exists w, moves c w c' /\ reads r (before c) w (rest c').
Proof. apply ends_agrees. Qed.
Lemma ends_complete r c w a : rest c = (w ++ a)%list -> reads r (before c) w a -> exists c', c' ∈ ends r c /\ moves c w c' /\ rest c' = a.
Proof. apply ends_agrees. Qed.

(** An occurrence of the expression in a text that follows [b]. *)
Definition occurs (r : re) (b l pre w post : list ascii) : Prop := l = (pre ++ w ++ post)%list /\ reads r (rev pre ++ b) w post.

(** The scan stops at the leftmost position with a match, and finds one if there is. *)
Lemma find_from_spec r l : forall b,
  match find_from r b l with
  | Some (c, c') => exists pre w, before c = (rev pre ++ b)%list /\ rest c = (w ++ rest c')%list /\ moves c w c' /\
      occurs r b l pre w (rest c') /\ forall pre' w' post', occurs r b l pre' w' post' -> (length pre <= length pre')%nat
  | None => forall pre w post, ~ occurs r b l pre w post
  end.
Proof.
  induction l as [|x l IH]; intros b; cbn [find_from]; destruct (ends r (mkCursor b _ [])) as [|c' cs] eqn:E.
  - intros pre w post [El R]. symmetry in El. apply app_eq_nil in El as [-> El].
    destruct (ends_complete r (mkCursor b [] []) w post (eq_sym El) R) as (c' & Hin & _). rewrite E in Hin. by apply elem_of_nil in Hin.
  - destruct (ends_sound r (mkCursor b [] []) c') as (w & M & R); [rewrite E; by left|]. exists [], w.
    destruct M as [M1 M2]. split; [done|]. split; [done|]. split; [done|]. split; [by split|]. intros; simpl; lia.
  - specialize (IH (x :: b)).
    assert (Hne : forall pre w post, occurs r b (x :: l) pre w post -> exists pre', pre = x :: pre' /\ occurs r (x :: b) l pre' w post).
    { intros [|y pre] w post [El R].
      - destruct (ends_complete r (mkCursor b (x :: l) []) w post El R) as (c' & Hin & _). rewrite E in Hin. by apply elem_of_nil in Hin.
      - injection El as <- El. exists pre. split; [done|]. split; [done|]. simpl in R. by rewrite <- app_assoc in R. }
    destruct (find_from r (x :: b) l) as [[c c']|].
    + destruct IH as (pre & w & B & Er & M & [El R] & Hmin). exists (x :: pre), w. simpl. rewrite <- app_assoc. simpl.
      split; [done|]. split; [done|]. split; [done|]. split; [split; [simpl; by rewrite El|simpl; by rewrite <- app_assoc]|].
      intros pre' w' post' Ho. destruct (Hne _ _ _ Ho) as (pre2 & -> & Ho2). apply Hmin in Ho2. simpl. lia.
    + intros pre w post Ho. destruct (Hne _ _ _ Ho) as (pre2 & -> & Ho2). by eapply IH.
  - destruct (ends_sound r (mkCursor b (x :: l) []) c') as (w & M & R); [rewrite E; by left|]. exists [], w.
    destruct M as [M1 M2]. split; [done|]. split; [done|]. split; [done|]. split; [by split|]. intros; simpl; lia.
Qed.

(** [MatchString] decides whether the expression occurs. *)
Lemma MatchString_occurs r s : MatchString r s = true <-> exists pre w post, occurs r [] (to_list s) pre w post.
Proof.
  unfold MatchString, find. pose proof (find_from_spec r (to_list s) []) as H. destruct (find_from _ _ _) as [[c c']|].
  - destruct H as (pre & w & _ & _ & _ & Ho & _). split; [eauto|done].
  - split; [done|]. intros (pre & w & post & Ho). by apply H in Ho.
Qed.

(* ------------------------------------------------------------------ *)
(** ** The syntax *)

Record flags := mkFlags { fold_case : bool; multi_line : bool }.

(** A literal byte, both cases under [(?i)]. *)
Definition literal (fl : flags) (c : ascii) : re :=
  let k := code c in
  if fold_case fl && is_lower c then Chr false [(k, k); (k - 32, k - 32)]
  else if fold_case fl && is_upper c then Chr false [(k, k); (k + 32, k + 32)]
  else Chr false [(k, k)].

(** The class of a backslash escape that is not a literal. *)
Definition escape_class (c : ascii) : option (bool * list (Z * Z)) :=
  match c with
  | "d"%char => Some (false, digit_ranges)
  | "w"%char => Some (false, word_ranges)
  | "s"%char => Some (false, space_ranges)
  | "S"%char => Some (true, space_ranges)
  | "D"%char => Some (true, digit_ranges)
  | "W"%char => Some (true, word_ranges)
  | _ => None
  end.

Definition escaped_literal (c : ascii) : ascii :=
  match c with "n"%char => byte_of 10 | "t"%char => byte_of 9 | "r"%char => byte_of 13 | _ => c end.

(** The members of a bracket class up to its closing bracket. *)
Fixpoint class_items (l : list ascii) (acc : list (Z * Z)) : option (list (Z * Z) * list ascii) :=
  match l with
  | "]"%char :: l' => Some (rev acc, l')
  | "\"%char :: c :: l' =>
      match escape_class c with
      | Some (false, rs) => class_items l' (rev rs ++ acc)
      | Some (true, _) => None
      | None => class_items l' ((code (escaped_literal c), code (escaped_literal c)) :: acc)
      end
  | c :: (("-"%char :: d :: l'') as l') =>
      match d with
      | "]"%char => class_items l' ((code c, code c) :: acc)
      | _ => class_items l'' ((code c, code d) :: acc)
      end
  | c :: l' => class_items l' ((code c, code c) :: acc)
  | [] => None
  end.

Definition bracket (l : list ascii) : option (re * list ascii) :=
  let '(neg, l) := match l with "^"%char :: l' => (true, l') | _ => (false, l) end in
  option_map (fun p => (Chr neg (fst p), snd p)) (class_items l []).

Fixpoint repeat_re (n : nat) (r : re) : re := match n with O => Eps | S O => r | S n => Seq r (repeat_re n r) end.
Fixpoint up_to (n : nat) (r : re) : re := match n with O => Eps | S n => Alt (Seq r (up_to n r)) Eps end.
Definition plus_re (g : bool) (r : re) : re := Seq r (Star g r).
Definition opt_re (g : bool) (r : re) : re := if g then Alt r Eps else Alt Eps r.

(** [{n}] and [{n,m}]. *)
Fixpoint take_number (l : list ascii) (n : nat) : nat * list ascii :=
  match l with
  | c :: l' => match digit c with Some d => take_number l' (n * 10 + Z.to_nat d) | None => (n, l) end
  | [] => (n, [])
  end.

Definition counted (l : list ascii) (r : re) : option (re * list ascii) :=
  let '(n, l) := take_number l 0 in
  match l with
  | "}"%char :: l' => Some (repeat_re n r, l')
  | ","%char :: l' => let '(m, l') := take_number l' 0 in
      match l' with "}"%char :: l'' => Some (Seq (repeat_re n r) (up_to (m - n) r), l'') | _ => None end
  | _ => None
  end.

(** A quantifier after an atom; a question mark after it makes it lazy. *)
Definition quantified (r : re) (l : list ascii) : option (re * list ascii) :=
  let lazy (f : bool -> re) (l : list ascii) := match l with "?"%char :: l' => Some (f false, l') | _ => Some (f true, l) end in
  match l with
  | "*"%char :: l' => lazy (fun g => Star g r) l'
  | "+"%char :: l' => lazy (fun g => plus_re g r) l'
  | "?"%char :: l' => lazy (fun g => opt_re g r) l'
  | "{"%char :: l' => counted l' r
  | _ => Some (r, l)
  end.

(** The group openers of the source's patterns: capturing, not capturing, and the
    flags [i] and [m], for the group or for what follows. *)
Inductive opener := OCapture | OPlain (fl : flags) | OFlags (fl : flags).

Definition group_open (fl : flags) (l : list ascii) : opener * list ascii :=
  match l with
  | "?"%char :: ":"%char :: l' => (OPlain fl, l')
  | "?"%char :: "i"%char :: ":"%char :: l' => (OPlain (mkFlags true (multi_line fl)), l')
  | "?"%char :: "i"%char :: ")"%char :: l' => (OFlags (mkFlags true (multi_line fl)), l')
  | "?"%char :: "m"%char :: ")"%char :: l' => (OFlags (mkFlags (fold_case fl) true), l')
  | _ => (OCapture, l)
  end.

(** Alternatives up to a closing parenthesis or the end; [n] is the next group. *)
Fixpoint parse (fuel : nat) (fl : flags) (n : nat) (l : list ascii) (seq : re) : option (re * list ascii * nat) :=
  match fuel with
  | O => None
  | S fuel =>
      let next (atom : re) (l : list ascii) (n : nat) (fl : flags) :=
        match quantified atom l with Some (r, l) => parse fuel fl n l (match seq with Eps => r | _ => Seq seq r end) | None => None end in
      match l with
      | [] => Some (seq, [], n)
      | ")"%char :: _ => Some (seq, l, n)
      | "|"%char :: l' =>
          match parse fuel fl n l' Eps with Some (r, l, n) => Some (Alt seq r, l, n) | None => None end
      | "("%char :: l' =>
          match group_open fl l' with
          | (OFlags fl, l) => parse fuel fl n l seq
          | (OPlain fl', l) =>
              match parse fuel fl' n l Eps with Some (r, ")"%char :: l, n) => next r l n fl | _ => None end
          | (OCapture, l) =>
              match parse fuel fl (S n) l Eps with Some (r, ")"%char :: l, n') => next (Group n r) l n' fl | _ => None end
          end
      | "["%char :: l' => match bracket l' with Some (r, l) => next r l n fl | None => None end
      | "^"%char :: l' => next (if multi_line fl then BeginLine else BeginText) l' n fl
      | "$"%char :: l' => next (if multi_line fl then EndLine else EndText) l' n fl
      | "."%char :: l' => next (Chr true [(10, 10)]) l' n fl
      | "\"%char :: "b"%char :: l' => next WordBoundary l' n fl
      | "\"%char :: c :: l' =>
          match escape_class c with
          | Some (neg, rs) => next (Chr neg rs) l' n fl
          | None => next (literal fl (escaped_literal c)) l' n fl
          end
      | c :: l' => next (literal fl c) l' n fl
      end
  end.

(** [regexp.MustCompile]; a pattern outside the syntax above is [None]. *)
Definition compile (pattern : string) : option re :=
  match parse (S (String.length pattern)) (mkFlags false false) 1 (to_list pattern) Eps with
  | Some (r, [], _) => Some r
  | _ => None
  end.

Definition MustCompile (pattern : string) : re := default Eps (compile pattern).

(* ------------------------------------------------------------------ *)
(** ** Reading a compiled pattern *)

Lemma reads_seq_iff r1 r2 b w a : reads (Seq r1 r2) b w a <->
  exists w1 w2, w = (w1 ++ w2)%list /\ reads r1 b w1 (w2 ++ a) /\ reads r2 (rev w1 ++ b) w2 a.
Proof.
  split.
  - intros R. inversion R; subst; [eauto 6|done].
  - intros (w1 & w2 & -> & R1 & R2). by apply reads_seq.
Qed.

Lemma reads_chr_iff neg rs b w a : reads (Chr neg rs) b w a <-> exists c, w = [c] /\ in_class neg rs c = true.
Proof.
  split.
  - intros R. inversion R; subst; [eauto|done].
  - intros (c & -> & Hc). by constructor.
Qed.

Lemma reads_alt_iff r1 r2 b w a : reads (Alt r1 r2) b w a <-> reads r1 b w a \/ reads r2 b w a.
Proof.
  split.
  - intros R. inversion R; subst; [auto..|done].
  - intros [R|R]; [by apply reads_alt_l|by apply reads_alt_r].
Qed.

Lemma reads_group_iff n r b w a : reads (Group n r) b w a <-> reads r b w a.
Proof.
  split; [|apply reads_group]. intros R. by inversion R; subst.
Qed.

Lemma reads_assert_iff r b w a : (forall c, ends r c = if assertion r (before c) (rest c) then [c] else []) ->
  reads r b w a <-> w = [] /\ assertion r b a = true.
Proof.
  intros He. split; [|intros [-> Ha]; by constructor]. intros R.
  destruct (ends_complete r (mkCursor b (w ++ a) []) w a eq_refl R) as (c' & Hin & M & E). rewrite He in Hin. simpl in Hin.
  destruct (assertion r b (w ++ a)) eqn:Ea; [|by apply elem_of_nil in Hin]. apply list_elem_of_singleton in Hin as ->.
  simpl in E. assert (w = []) as ->; [|by split].
  apply (f_equal length) in E. rewrite length_app in E. destruct w; [done|simpl in E; lia].
Qed.

Lemma reads_eps_iff b w a : reads Eps b w a <-> w = [].
Proof. rewrite reads_assert_iff by done. naive_solver. Qed.

(** Repetition of a byte class is a word over it. *)
Lemma reads_star_chr_iff g neg rs b w a : reads (Star g (Chr neg rs)) b w a <-> Forall (fun c => in_class neg rs c = true) w.
Proof.
  split.
  - remember (Star g (Chr neg rs)) as r eqn:Er. induction 1; try discriminate; [constructor| |by subst].
    injection Er as -> ->. apply Forall_app. split; [|by apply IHreads2].
    apply reads_chr_iff in H0 as (c & -> & Hc). by constructor.
  - intros Hw. revert b. induction Hw as [|c w Hc Hw IH]; intros b; [constructor|].
    apply (reads_star_more _ _ _ [c]); [done|by constructor|apply IH].
Qed.

Lemma reads_plus_iff g neg rs b w a : reads (plus_re g (Chr neg rs)) b w a <->
  w <> [] /\ Forall (fun c => in_class neg rs c = true) w.
Proof.
  unfold plus_re. rewrite reads_seq_iff. setoid_rewrite reads_chr_iff. setoid_rewrite reads_star_chr_iff. split.
  - intros (w1 & w2 & -> & (c & -> & Hc) & Hw). split; [done|by constructor].
  - intros [Hn Hw]. destruct Hw as [|c w Hc Hw]; [done|]. exists [c], w. eauto.
Qed.

Lemma reads_begin_iff pre w a : reads BeginText (rev pre ++ []) w a <-> w = [] /\ pre = [].
Proof.
  rewrite reads_assert_iff by done. simpl. rewrite app_nil_r. destruct pre as [|c pre]; simpl; [naive_solver|].
  split; [|by intros [_ ?]]. intros [_ H]. by destruct (rev pre).
Qed.
Lemma reads_end_iff b w a : reads EndText b w a <-> w = [] /\ a = [].
Proof. rewrite reads_assert_iff by done. simpl. destruct a; simpl; naive_solver. Qed.

Lemma byte_of_code c k : code c = k -> c = byte_of k.
Proof. intros <-. unfold byte_of, code. by rewrite Nat2Z.id, ascii_nat_embedding. Qed.

Lemma literal_char k c : in_class false [(k, k)] c = true -> c = byte_of k.
Proof. unfold in_class, in_ranges. simpl. rewrite orb_false_r, andb_true_iff, !Z.leb_le. intros H. apply byte_of_code. lia. Qed.

(** Takes a reading of a compiled pattern apart, down to its classes. *)
Ltac read_in H :=
  lazymatch type of H with
  | reads (Seq _ _) _ _ _ =>
      let w1 := fresh "w" in let w2 := fresh "w" in let H1 := fresh H in let H2 := fresh H in
      apply reads_seq_iff in H as (w1 & w2 & -> & H1 & H2); read_in H1; read_in H2
  | reads (Chr false [(_, _)]) _ _ _ =>
      let c := fresh "c" in let E := fresh H in apply reads_chr_iff in H as (c & -> & E);
      try (apply literal_char in E; subst c)
  | reads (Chr _ _) _ _ _ => let c := fresh "c" in let E := fresh H in apply reads_chr_iff in H as (c & -> & E)
  | reads (Alt _ _) _ _ _ => apply reads_alt_iff in H as [H|H]; read_in H
  | reads (Group _ _) _ _ _ => apply reads_group_iff in H; read_in H
  | reads Eps _ _ _ => apply reads_eps_iff in H; subst
  | reads (Star _ (Chr _ _)) _ _ _ => apply reads_star_chr_iff in H
  | reads BeginText (rev _ ++ []) _ _ => apply reads_begin_iff in H as [-> ->]
  | reads EndText _ _ _ => apply reads_end_iff in H as [-> ->]
  | _ => idtac
  end.

(** Builds a reading of a compiled pattern; alternatives and classes are left. *)
Ltac build_reads :=
  lazymatch goal with
  | |- reads (Seq _ _) _ _ _ => eapply reads_seq; build_reads
  | |- reads (Chr false [(?k, ?k)]) _ _ _ => apply (reads_chr _ _ _ (byte_of k)); reflexivity
  | |- reads (Group _ _) _ _ _ => apply reads_group; build_reads
  | |- reads Eps _ _ _ => apply reads_assert; reflexivity
  | |- reads BeginText [] _ _ => apply reads_assert; reflexivity
  | |- reads EndText _ _ [] => apply reads_assert; reflexivity
  | _ => idtac
  end.

(* ------------------------------------------------------------------ *)
(** ** All matches of an expression whose occurrences do not overlap *)

Section Disjoint.
Context (r : re).
Hypothesis not_empty : forall b w a, reads r b w a -> w <> [].
Hypothesis disjoint : forall b l pre w post pre' w' post', occurs r b l pre w post -> occurs r b l pre' w' post' ->
  (length pre < length pre')%nat -> (length pre + length w <= length pre')%nat.

Lemma find_all_sound fuel : forall b l am c c', (c, c') ∈ find_all fuel r b l am ->
  c' ∈ ends r c /\ exists pre w, before c = (rev pre ++ b)%list /\ rest c = (w ++ rest c')%list /\ occurs r b l pre w (rest c').
Proof.
  assert (Hends : forall l b c c', find_from r b l = Some (c, c') -> c' ∈ ends r c).
  { intros l. induction l as [|x l IH]; intros b c c'; cbn [find_from]; destruct (ends r _) as [|y ys] eqn:E; try done.
    - intros [= <- <-]. rewrite E. by left.
    - apply IH.
    - intros [= <- <-]. rewrite E. by left. }
  induction fuel as [|fuel IH]; intros b l am c c'; cbn [find_all]; [by intros ?%elem_of_nil|].
  pose proof (find_from_spec r l b) as Hf. destruct (find_from r b l) as [[c0 c0']|] eqn:Ef; [|by intros ?%elem_of_nil].
  destruct Hf as (pre0 & w0 & B0 & R0 & M0 & [El O0] & _).
  assert (Hne : w0 <> []) by by eapply not_empty. apply (moves_shorter _ _ _ M0) in Hne. rewrite Hne.
  intros [E|Hin]%elem_of_cons.
  - injection E as -> ->. split; [by eapply Hends|]. by exists pre0, w0.
  - apply IH in Hin as (He & pre & w & B & R & [El' O]). split; [done|]. exists (pre0 ++ w0 ++ pre)%list, w.
    destruct M0 as [M1 M2]. assert (Eb : (rev (pre0 ++ w0 ++ pre) ++ b)%list = before c).
    { rewrite B, M1, B0, !rev_app_distr, !app_assoc. done. }
    split; [done|]. split; [done|]. split; [by rewrite El, El', <- !app_assoc|]. rewrite Eb. by rewrite <- B in O.
Qed.

Lemma find_all_complete fuel : forall b l am pre w post, (length l < fuel)%nat -> occurs r b l pre w post ->
  exists c c', (c, c') ∈ find_all fuel r b l am /\ before c = (rev pre ++ b)%list /\ rest c = (w ++ post)%list.
Proof.
  induction fuel as [|fuel IH]; intros b l am pre w post Hf Ho; [lia|]. cbn [find_all].
  pose proof (find_from_spec r l b) as Hs. destruct (find_from r b l) as [[c0 c0']|]; [|by apply Hs in Ho].
  destruct Hs as (pre0 & w0 & B0 & R0 & M0 & O0 & Hmin). specialize (Hmin _ _ _ Ho).
  assert (Hne : w0 <> []) by (destruct O0; by eapply not_empty). pose proof (proj2 (moves_shorter _ _ _ M0) Hne) as Hlt. rewrite Hlt.
  destruct Ho as [El R]. destruct (decide (length pre0 = length pre)) as [E|E].
  - exists c0, c0'. split; [by left|]. destruct O0 as [El0 _]. rewrite El in El0. apply app_inj_1 in El0 as [-> El0]; [|done].
    split; [done|]. by rewrite R0, El0.
  - pose proof (disjoint _ _ _ _ _ _ _ _ O0 (conj El R) ltac:(lia)) as Hd. destruct O0 as [El0 _].
    assert (Hsplit : exists pre2, pre = (pre0 ++ w0 ++ pre2)%list /\ rest c0' = (pre2 ++ w ++ post)%list).
    { exists (skipn (length pre0 + length w0) pre).
      assert (Eall : (pre0 ++ w0 ++ rest c0' = pre ++ w ++ post)%list) by congruence.
      pose proof (f_equal (firstn (length pre0 + length w0)) Eall) as E1. pose proof (f_equal (skipn (length pre0 + length w0)) Eall) as E2.
      rewrite app_assoc, <- length_app in E1, E2. rewrite firstn_app, Nat.sub_diag, firstn_all, firstn_O, app_nil_r in E1.
      rewrite skipn_app, Nat.sub_diag, skipn_all in E2. simpl in E2.
      rewrite firstn_app, skipn_app in *. rewrite length_app in *.
      replace (length pre0 + length w0 - length pre)%nat with 0%nat in * by lia. rewrite firstn_O, app_nil_r in E1. rewrite skipn_O in E2.
      split; [|done]. rewrite app_assoc, E1. by rewrite firstn_skipn. }
    destruct Hsplit as (pre2 & -> & Er). destruct M0 as [M1 M2].
    assert (Eb : (rev (pre0 ++ w0 ++ pre2) ++ b = rev pre2 ++ before c0')%list).
    { rewrite M1, B0, !rev_app_distr, <- !app_assoc. done. }
    destruct (IH (before c0') (rest c0') true pre2 w post) as (c & c' & Hin & B & Rr).
    + assert (Hl : (length (rest c0) <= length l)%nat) by (rewrite El, R0, Er, !length_app; lia). apply Nat.ltb_lt in Hlt. lia.
    + split; [done|]. by rewrite <- Eb.
    + exists c, c'. split; [by right|]. split; [|done]. by rewrite Eb, B.
Qed.
End Disjoint.

(** A group before a last byte captures exactly what it matched. *)
Lemma ends_group_last r1 n r2 neg rs c c' : c' ∈ ends (Seq (Seq r1 (Group n r2)) (Chr neg rs)) c ->
  exists w1 w2 x, rest c = (w1 ++ w2 ++ x :: rest c')%list /\ cap n c' = Some (of_list w2) /\ in_class neg rs x = true /\
    reads r1 (before c) w1 (w2 ++ x :: rest c') /\ reads r2 (rev w1 ++ before c) w2 (x :: rest c').
Proof.
  cbn [ends]. intros (c2 & (c1 & H1 & H2)%elem_of_flat_map & H3)%elem_of_flat_map.
  apply list_elem_of_fmap in H2 as (d & -> & H2). apply ends_sound in H1 as (w1 & M1 & R1). apply ends_sound in H2 as (w2 & M2 & R2).
  cbn [set_cap rest before caps] in H3. destruct (rest d) as [|x l] eqn:Ed; [by apply elem_of_nil in H3|].
  destruct (in_class neg rs x) eqn:Ex; [|by apply elem_of_nil in H3]. apply list_elem_of_singleton in H3 as ->. simpl.
  exists w1, w2, x. destruct M1 as [B1 E1], M2 as [B2 E2]. rewrite Ed in *. rewrite E2 in *.
  split; [done|]. split; [|split; [done|split; [done|by rewrite <- B1]]].
  unfold cap. simpl. rewrite Nat.eqb_refl. simpl. do 2 f_equal. apply (moves_consumed _ _ d). split; [done|by rewrite Ed].
Qed.

(* ------------------------------------------------------------------ *)
(** ** Whole matches of a chain of parts *)

Lemma reads_repeat_chr n neg rs : forall b w a, reads (repeat_re (S n) (Chr neg rs)) b w a <-> length w = S n /\ Forall (fun c => in_class neg rs c = true) w.
Proof.
  induction n as [|n IH]; intros b w a.
  - simpl. rewrite reads_chr_iff. split; [intros (c & -> & Hc); by repeat constructor|].
    intros [Hl Hf]. destruct w as [|c [|? ?]]; try discriminate. exists c. by inversion Hf.
  - change (repeat_re (S (S n)) (Chr neg rs)) with (Seq (Chr neg rs) (repeat_re (S n) (Chr neg rs))). rewrite reads_seq_iff. split.
    + intros (w1 & w2 & -> & R1 & R2). apply IH in R2 as [Hl Hf]. apply reads_chr_iff in R1 as (c & -> & Hc). simpl. split; [by rewrite Hl|by constructor].
    + intros [Hl Hf]. destruct w as [|c w]; [done|]. inversion Hf; subst. exists [c], w. split; [done|]. split; [by constructor|].
      apply IH. split; [by injection Hl|done].
Qed.

(** [r] means [P] wherever it stands. *)
Definition plain (r : re) (P : list ascii -> Prop) : Prop := forall b w a, reads r b w a <-> P w.

Lemma plain_ext r P Q : plain r P -> (forall w, P w <-> Q w) -> plain r Q.
Proof. intros H E b w a. by rewrite (H b w a). Qed.

Lemma plain_literal k : 0 <= k < 256 -> plain (Chr false [(k, k)]) (fun w => w = [byte_of k]).
Proof.
  intros Hk b w a. rewrite reads_chr_iff. split; [by intros (c & -> & ->%literal_char)|]. intros ->. exists (byte_of k). split; [done|].
  unfold in_class, in_ranges. simpl. rewrite code_byte_of by done. by rewrite !Z.leb_refl.
Qed.

Lemma plain_plus g neg rs : plain (plus_re g (Chr neg rs)) (fun w => w <> [] /\ Forall (fun c => in_class neg rs c = true) w).
Proof. intros b w a. apply reads_plus_iff. Qed.
Lemma plain_star g neg rs : plain (Star g (Chr neg rs)) (fun w => Forall (fun c => in_class neg rs c = true) w).
Proof. intros b w a. apply reads_star_chr_iff. Qed.
Lemma plain_repeat n neg rs : plain (repeat_re (S n) (Chr neg rs)) (fun w => length w = S n /\ Forall (fun c => in_class neg rs c = true) w).
Proof. intros b w a. apply reads_repeat_chr. Qed.
Lemma plain_eps : plain Eps (fun w => w = []).
Proof. intros b w a. apply reads_eps_iff. Qed.
Lemma plain_group n r P : plain r P -> plain (Group n r) P.
Proof. intros H b w a. by rewrite reads_group_iff. Qed.
Lemma plain_alt r1 r2 P1 P2 : plain r1 P1 -> plain r2 P2 -> plain (Alt r1 r2) (fun w => P1 w \/ P2 w).
Proof. intros H1 H2 b w a. by rewrite reads_alt_iff, (H1 b w a), (H2 b w a). Qed.
Lemma plain_seq r1 r2 P1 P2 : plain r1 P1 -> plain r2 P2 -> plain (Seq r1 r2) (fun w => exists w1 w2, w = (w1 ++ w2)%list /\ P1 w1 /\ P2 w2).
Proof.
  intros H1 H2 b w a. rewrite reads_seq_iff. split; intros (w1 & w2 & -> & R1 & R2); exists w1, w2; (split; [done|split]);
    first [by eapply H1|by eapply H2].
Qed.

(** A chain of parts, from the left. *)
Definition chain (first : re) (rs : list re) : re := fold_left Seq rs first.

Lemma reads_chain rs Ps : Forall2 plain rs Ps -> forall first b w a, reads (chain first rs) b w a <->
  exists w0 ws, w = (w0 ++ concat ws)%list /\ reads first b w0 (concat ws ++ a) /\ Forall2 (fun P w => P w) Ps ws.
Proof.
  induction 1 as [|r P rs Ps Hr Hrs IH]; intros first b w a; unfold chain; cbn [fold_left].
  - split; [intros R; exists w, []; simpl; by rewrite app_nil_r|]. intros (w0 & ws & -> & R & F). inversion F; subst. by rewrite app_nil_r in *.
  - fold (chain (Seq first r) rs). rewrite IH. setoid_rewrite reads_seq_iff. split.
    + intros (w0 & ws & -> & (w1 & w2 & -> & R1 & R2) & F). exists w1, (w2 :: ws). cbn [concat]. rewrite <- !app_assoc in *.
      split; [done|]. split; [done|]. constructor; [by eapply Hr|done].
    + intros (w0 & ws & -> & R & F). inversion F as [|? w2 ? ws' HP F']; subst. cbn [concat] in *. rewrite <- !app_assoc in R.
      exists (w0 ++ w2)%list, ws'. rewrite <- !app_assoc. split; [done|]. split; [|done]. exists w0, w2.
      split; [done|]. split; [done|]. by eapply Hr.
Qed.

(** An anchored chain matches exactly the texts its parts make up. *)
Lemma match_whole rs Ps s : Forall2 plain rs Ps ->
  MatchString (Seq (chain BeginText rs) EndText) s = true <-> exists ws, Forall2 (fun P w => P w) Ps ws /\ to_list s = concat ws.
Proof.
  intros H. rewrite MatchString_occurs. unfold occurs. setoid_rewrite reads_seq_iff. setoid_rewrite (reads_chain rs Ps H).
  setoid_rewrite reads_begin_iff. setoid_rewrite reads_end_iff. split.
  - intros (pre & w & post & E & w1 & w2 & -> & (w0 & ws & -> & [-> ->] & F) & -> & ->). exists ws.
    by rewrite !app_nil_r in E.
  - intros (ws & F & E). exists [], (to_list s), []. split; [by rewrite app_nil_r|]. exists (to_list s), [].
    split; [by rewrite app_nil_r|]. split; [|done]. exists [], ws. done.
Qed.

(** A chain anchored on the left only matches the texts it makes up a prefix of. *)
Lemma match_prefix rs Ps s : Forall2 plain rs Ps ->
  MatchString (chain BeginText rs) s = true <-> exists ws more, Forall2 (fun P w => P w) Ps ws /\ to_list s = (concat ws ++ more)%list.
Proof.
  intros H. rewrite MatchString_occurs. unfold occurs. setoid_rewrite (reads_chain rs Ps H). setoid_rewrite reads_begin_iff. split.
  - intros (pre & w & post & E & w0 & ws & -> & [-> ->] & F). exists ws, post. by rewrite !app_nil_l in E.
  - intros (ws & more & F & E). exists [], (concat ws), more. split; [done|]. exists [], ws. done.
Qed.

(** A chain of plain parts is plain, and an unanchored one matches anywhere. *)
Lemma plain_chain r P rs Ps : plain r P -> Forall2 plain rs Ps ->
  plain (chain r rs) (fun w => exists ws, Forall2 (fun P w => P w) (P :: Ps) ws /\ w = concat ws).
Proof.
  intros Hr H b w a. rewrite (reads_chain rs Ps H). split.
  - intros (w0 & ws & -> & R & F). exists (w0 :: ws). split; [|done]. apply List.Forall2_cons; [by eapply Hr|done].
  - intros (ws & F & ->). inversion F; subst. simpl. eexists _, _. split; [done|]. split; [by apply Hr|done].
Qed.

Lemma match_anywhere r P s : plain r P -> MatchString r s = true <-> exists pre w post, P w /\ to_list s = (pre ++ w ++ post)%list.
Proof.
  intros H. rewrite MatchString_occurs. unfold occurs. split; intros (pre & w & post & H1 & H2); exists pre, w, post; split; try done; by eapply H.
Qed.

(** A literal text. *)
Definition word_re (c : ascii) (l : list ascii) : re := chain (Chr false [(code c, code c)]) (map (fun c => Chr false [(code c, code c)]) l).

Lemma plain_word c l : plain (word_re c l) (fun w => w = c :: l).
Proof.
  assert (Hone : forall c, plain (Chr false [(code c, code c)]) (fun w => w = [c])).
  { intros d. eapply plain_ext; [apply plain_literal, code_range|]. intros w. by rewrite <- (byte_of_code d (code d)). }
  intros b w a. unfold word_re. rewrite (reads_chain _ (map (fun c w => w = [c]) l)).
  2:{ induction l as [|d l IH]; [apply List.Forall2_nil|]. apply List.Forall2_cons; [apply Hone|exact IH]. }
  assert (Hws : forall ws, Forall2 (fun P w => P w) (map (fun c w => w = [c]) l) ws <-> ws = map (fun c => [c]) l).
  { induction l as [|d l IH]; intros ws; split; [by inversion 1|intros ->; apply List.Forall2_nil| |].
    - inversion 1; subst. simpl. f_equal. by apply IH.
    - intros ->. simpl. apply List.Forall2_cons; [done|]. by apply IH. }
  assert (Hc : concat (map (fun c => [c]) l) = l) by (clear; induction l; simpl; congruence).
  split.
  - intros (w0 & ws & -> & R & F%Hws). apply (Hone c) in R as ->. rewrite F, Hc. done.
  - intros ->. exists [c], (map (fun c => [c]) l). rewrite Hc. split; [done|]. split; [by apply (Hone c)|]. by apply Hws.
Qed.

(** The parts of a chain match, one by one. *)
Ltac chain_parts :=
  repeat match goal with
  | H : Forall2 _ (_ :: _) _ |- _ => inversion H; clear H; subst
  | H : Forall2 _ [] _ |- _ => inversion H; clear H; subst
  end.
(** Proves [plain] of a part built from literals, classes, groups and repetitions. *)
Ltac plain_parts :=
  lazymatch goal with
  | |- Forall2 _ [] _ => apply List.Forall2_nil
  | |- Forall2 _ (_ :: _) _ => apply List.Forall2_cons; [plain_parts|plain_parts]
  | |- plain (Chr false [(?k, ?k)]) _ => apply plain_literal; lia
  | |- plain (plus_re _ (Chr _ _)) _ => apply plain_plus
  | |- plain (Star _ (Chr _ _)) _ => apply plain_star
  | |- plain (repeat_re _ (Chr _ _)) _ => apply plain_repeat
  | |- plain Eps _ => apply plain_eps
  | |- plain (Group _ _) _ => apply plain_group; plain_parts
  | |- plain (Alt _ _) _ => apply plain_alt; plain_parts
  | |- plain (Seq _ _) _ => apply plain_seq; plain_parts
  | |- _ => idtac
  end.
(** Proves the parts of a chain from facts at hand. *)
Ltac chain_build := repeat (apply List.Forall2_cons; [done|]); apply List.Forall2_nil.
