(* ===== verification/Shapes.v ===== *)
(** Shapes of texts the gates' expressions accept: character classes, numbers,
    versions, digests, and the expressions that mean them ([plain]). *)

From Stdlib Require Import ZArith Lia Bool String Ascii List.
From stdpp Require Import base option list strings.
From S2P Require Import Prelude GoStrings Regex.
Local Open Scope string_scope.
Local Open Scope Z_scope.

Definition is_space_char (c : ascii) : Prop := 9 <= code c <= 10 \/ 12 <= code c <= 13 \/ code c = 32.
Definition digit_char (c : ascii) : Prop := 48 <= code c <= 57.
Definition hex_char (c : ascii) : Prop := 48 <= code c <= 57 \/ 97 <= code c <= 102.
Definition version_char (c : ascii) : Prop := 48 <= code c <= 57 \/ 65 <= code c <= 90 \/ 97 <= code c <= 122 \/ code c = 45 \/ code c = 46.
Definition name_char (c : ascii) : Prop := code c <> 64 /\ ~ is_space_char c.
Definition tag_char (c : ascii) : Prop := code c <> 64 /\ code c <> 58 /\ code c <> 47 /\ ~ is_space_char c.

Definition some_of (P : ascii -> Prop) (l : list ascii) : Prop := l <> [] /\ Forall P l.
Definition count_of (n : nat) (P : ascii -> Prop) (l : list ascii) : Prop := length l = n /\ Forall P l.
Definition number : list ascii -> Prop := some_of digit_char.
(** Nothing, or a mark and version characters. *)
Definition suffix (mark : string) (l : list ascii) : Prop := l = [] \/ exists t, some_of version_char t /\ l = (to_list mark ++ t)%list.
(** Numbers between dots. *)
Definition dotted (l : list ascii) : Prop :=
  exists n rest, number n /\ Forall (fun m => exists d, number d /\ m = (to_list "." ++ d)%list) rest /\ l = (n ++ concat rest)%list.

Ltac class_spec := intros; unfold in_class, in_ranges, digit_char, hex_char, version_char, name_char, tag_char, is_space_char;
  rewrite ?xorb_true_l, ?xorb_false_l; simpl;
  repeat first [rewrite negb_true_iff | rewrite orb_false_r | rewrite orb_false_iff | rewrite orb_true_iff | rewrite andb_true_iff | rewrite andb_false_iff
               | rewrite Z.leb_le | rewrite Z.leb_gt]; lia.

(** A class of the compiler means a class of characters. *)
Definition class_is (neg : bool) (rs : list (Z * Z)) (P : ascii -> Prop) : Prop := forall c, in_class neg rs c = true <-> P c.

Lemma digit_class : class_is false [(48, 57)] digit_char.
Proof. unfold class_is. class_spec. Qed.
Lemma hex_class : class_is false [(48, 57); (97, 102)] hex_char.
Proof. unfold class_is. class_spec. Qed.
Lemma name_class : class_is true [(9, 10); (12, 13); (32, 32); (64, 64)] name_char.
Proof. unfold class_is. class_spec. Qed.
Lemma name_class' : class_is true [(64, 64); (9, 10); (12, 13); (32, 32)] name_char.
Proof. unfold class_is. class_spec. Qed.
Lemma tag_class : class_is true [(9, 10); (12, 13); (32, 32); (64, 64); (58, 58); (47, 47)] tag_char.
Proof. unfold class_is. class_spec. Qed.
Lemma space_class : class_is false [(9, 10); (12, 13); (32, 32)] is_space_char.
Proof. unfold class_is. class_spec. Qed.
Lemma version_class : class_is false [(48, 57); (65, 90); (97, 122); (46, 46); (45, 45)] version_char.
Proof. unfold class_is. class_spec. Qed.

Lemma Forall_class neg rs P l : class_is neg rs P -> Forall (fun c => in_class neg rs c = true) l <-> Forall P l.
Proof. intros H. split; (intros F; eapply Forall_impl; [exact F|]; intros c; apply H). Qed.

(** The parts of the gates' expressions. *)
Lemma plain_some neg rs P : class_is neg rs P -> plain (plus_re true (Chr neg rs)) (some_of P).
Proof. intros H. eapply plain_ext; [apply plain_plus|]. intros w. unfold some_of. by rewrite (Forall_class _ _ _ _ H). Qed.
Lemma plain_many neg rs P : class_is neg rs P -> plain (Star true (Chr neg rs)) (Forall P).
Proof. intros H. eapply plain_ext; [apply plain_star|]. intros w. apply (Forall_class _ _ _ _ H). Qed.
Lemma plain_count n neg rs P : class_is neg rs P -> plain (repeat_re (S n) (Chr neg rs)) (count_of (S n) P).
Proof. intros H. eapply plain_ext; [apply plain_repeat|]. intros w. unfold count_of. by rewrite (Forall_class _ _ _ _ H). Qed.
Lemma plain_one neg rs P : class_is neg rs P -> plain (Chr neg rs) (fun w => exists c, w = [c] /\ P c).
Proof. intros H b w a. rewrite reads_chr_iff. split; intros (c & -> & Hc); exists c; (split; [done|]); by apply H. Qed.

Lemma reads_star_plain g r P b w a : plain r P -> reads (Star g r) b w a <-> exists ws, Forall (fun w => P w /\ w <> []) ws /\ w = concat ws.
Proof.
  intros H. split.
  - intros R. remember (Star g r) as s eqn:E. revert E. induction R; intros E; try discriminate.
    + exists []. split; [constructor|done].
    + injection E as -> ->. destruct (IHR2 eq_refl) as (ws & F & ->). exists (w1 :: ws). split; [|done]. constructor; [|done].
      split; [by eapply H|done].
    + subst. discriminate.
  - intros (ws & F & ->). revert b. induction F as [|w ws [Hw Hne] F IH]; intros b; simpl; [constructor|].
    apply reads_star_more; [done|by apply H|apply IH].
Qed.

Lemma plain_star_of g r P : plain r P -> (forall w, P w -> w <> []) -> plain (Star g r) (fun w => exists ws, Forall P ws /\ w = concat ws).
Proof.
  intros H Hne b w a. rewrite (reads_star_plain g r P b w a H). split; intros (ws & F & ->); exists ws; (split; [|done]);
    (eapply Forall_impl; [exact F|]); intros x; [by intros [? _]|eauto].
Qed.

Definition digits_re : re := plus_re true (Chr false [(48, 57)]).
Lemma plain_digits : plain digits_re number.
Proof. apply plain_some, digit_class. Qed.

Definition suffix_re (mark : Z) : re := Alt (Seq (Chr false [(mark, mark)]) (plus_re true (Chr false [(48, 57); (65, 90); (97, 122); (46, 46); (45, 45)]))) Eps.
Lemma plain_suffix mark k : to_list mark = [byte_of k] -> 0 <= k < 256 -> plain (suffix_re k) (suffix mark).
Proof.
  intros E Hk. eapply plain_ext; [apply plain_alt; [apply plain_seq; [by apply plain_literal|apply plain_some, version_class]|apply plain_eps]|].
  intros w. unfold suffix. rewrite E. split.
  - intros [(w1 & w2 & -> & -> & Hw)| ->]; [right; by exists w2|by left].
  - intros [->|(t & H1 & ->)]; [by right|left; by exists [byte_of k], t].
Qed.
