(* ===== verification/Command.v ===== *)
(** The program itself ([cmd/tracker/main.go]): subcommand dispatch, the operator
    commands over the store, the secret and TLS lint, and what [serve] establishes
    before it listens.  A command returns the text it prints or the error it exits
    with; [Host] is the machine it runs on - environment, clock, random bytes,
    credential files, the outcome of migrating and connecting.  The listener, the
    signal handling and the shutdown are not modelled. *)

From Stdlib Require Import ZArith Lia Bool String Ascii List SpecFloat.
From stdpp Require Import base option list strings gmap.
From S2P Require Import Prelude GoTime GoStrings Calendar Presentation Database Partitions Retention StoreFix StoreEntities.
From S2P Require Import StoreGeofence StoreReads Auth Config Ledger Dispatcher Json Notify Senders Flags Regex SecretScan.
Local Open Scope string_scope.
Local Open Scope Z_scope.

Inductive cmd_error :=
| CFlag (e : flag_error) | CUsage | CConfig (e : config_error) | CMigrate | COpen | CRandom | CStore (e : error)
| CNotFound | CScan | CLint (problems : list string) | CPush | CUnknown.

Record Host := mkHost {
  h_env : string -> string;                    (* the environment *)
  h_now : Time;                                (* the clock *)
  h_random : option (list ascii);              (* 32 bytes of crypto/rand *)
  h_migrates : bool; h_version : bool; h_opens : bool;   (* db.Up, db.Version, db.Open *)
  h_file : string -> option string;            (* os.ReadFile *)
  h_tree : string -> entry }.                  (* the tree under a path *)

Definition partitionLookaheadMonths : Z := 2.
Definition newline : string := String (byte_of 10) "".
Definition lines (l : list string) : string := Join l newline ++ newline.


Inductive level := LevelDebug | LevelInfo | LevelWarn | LevelError.
Definition newLogger (l : string) : level :=
  if String.eqb l "debug" then LevelDebug else if String.eqb l "warn" then LevelWarn
  else if String.eqb l "error" then LevelError else LevelInfo.

Section Command.
Context `{G : PostGIS} `{U : Unicode} `{F : FloatJson} `{FT : FloatText} `{H : SHA256} `{N : NetURL} `{R : RSA}.

Definition cmd (A : Type) : Type := M (result cmd_error A).
Definition fail {A} (e : cmd_error) : cmd A := ret (Err e).
Definition store {A} (m : M (result error A)) : cmd A :=
  let* r := m in ret (match r with Ok a => Ok a | Err e => Err (CStore e) end).

Definition openForCommand (h : Host) : result cmd_error unit :=
  match Load (h_env h) with
  | Err e => Err (CConfig e)
  | Ok _ => if negb (h_migrates h) then Err CMigrate else if negb (h_opens h) then Err COpen else Ok tt
  end.

(** Parse, then check what is required. *)
Definition with_flags (names : list string) (required : list string) (args : list string) (k : (string -> string) -> cmd string) : cmd string :=
  match Parse (string_flags names) args ∅ with
  | Err e => fail (CFlag e)
  | Ok (m, _) =>
      if existsb (fun n => String.eqb (flag_value n m) "") required then fail CUsage else k (fun n => flag_value n m)
  end.

Definition with_pool (h : Host) (k : cmd string) : cmd string :=
  match openForCommand h with Err e => fail e | Ok _ => k end.

Definition with_token (h : Host) (k : Token -> cmd string) : cmd string :=
  match Generate (h_random h) with None => fail CRandom | Some t => k t end.


Definition token_text (t : Token) : list string := ["bearer token (store it now — it is not recoverable):"; "  " ++ t].

Definition runEnroll (h : Host) (args : list string) : cmd string :=
  with_flags ["family"; "name"] ["family"; "name"] args (fun flag =>
  with_token h (fun token =>
  with_pool h (
    let? deviceID := store (CreateDevice (flag "family") (flag "name") (Auth.Hash token)) in
    ret (Ok (lines (app ["device enrolled"; "  id:     " ++ deviceID; "  family: " ++ flag "family"; "  name:   " ++ flag "name"; ""]
                         (token_text token))))))).

Definition runAddViewer (h : Host) (args : list string) : cmd string :=
  with_flags ["family"; "email"; "name"] ["family"; "email"; "name"] args (fun flag =>
  with_token h (fun token =>
  with_pool h (
    let? viewerID := store (CreateViewer (flag "family") (flag "email") (flag "name") (Auth.Hash token)) in
    ret (Ok (lines (app ["viewer added"; "  id:     " ++ viewerID; "  family: " ++ flag "family"; "  email:  " ++ flag "email";
                     "  name:   " ++ flag "name"; ""] (token_text token))))))).
(* ------------------------------------------------------------------ *)
(** ** Places *)







(* ------------------------------------------------------------------ *)
(** ** Rotation *)




(* ------------------------------------------------------------------ *)
(** ** Lint *)


(* ------------------------------------------------------------------ *)
(** ** Serving *)

(** What [buildPushNotifier] assembles: nothing, or the provider's sender. *)
Inductive push_backend := PushNone | PushFCM (projectID : string) (tokens : ServiceAccount) | PushUnified.

Definition buildPushNotifier (h : Host) (c : Config) : result cmd_error push_backend :=
  if String.eqb (PushProvider c) PushProviderNone then Ok PushNone
  else if String.eqb (PushProvider c) PushProviderFCM then
    match h_file h (FCMCredentialsFile c) with
    | None => Err CPush
    | Some raw =>
        match newServiceAccountTokenSource raw with
        | None => Err CPush
        | Some tokens => Ok (PushFCM (FCMProjectID c) tokens)
        end
    end
  else if String.eqb (PushProvider c) PushProviderUnifiedPush then Ok PushUnified
  else Err CPush.

(** A server about to listen. *)
Record Serving := mkServing {
  sv_Windows : Windows; sv_ConfiguredProvider : string; sv_Push : push_backend;
  sv_Retention : option Z; sv_TLS : option (string * string); sv_Level : level; sv_Partitions : list string }.

Definition runServe (h : Host) : cmd Serving :=
  match Load (h_env h) with
  | Err e => fail (CConfig e)
  | Ok c =>
      match RequireServable c with
      | Some e => fail (CConfig e)
      | None =>
          if negb (h_migrates h) then fail CMigrate
          else if negb (h_version h) then fail CMigrate
          else if negb (h_opens h) then fail COpen
          else
            let? names := store (EnsurePartitions (h_now h) partitionLookaheadMonths) in
            match buildPushNotifier h c with
            | Err e => fail e
            | Ok push =>
                ret (Ok (mkServing (mkWindows (LiveWindowSeconds c) (StaleWindowSeconds c)) (PushProvider c) push
                           (retention_job (RetentionDays c))
                           (if ServesTLS c then Some (TLSCertFile c, TLSKeyFile c) else None)
                           (newLogger (LogLevel c)) names))
            end
      end
  end.

(* ------------------------------------------------------------------ *)
(** ** Dispatch *)




End Command.

(* ------------------------------------------------------------------ *)
(** ** Theorems *)

Section Theorems.
Context `{G : PostGIS} `{U : Unicode} `{F : FloatJson} `{FT : FloatText} `{H : SHA256} `{N : NetURL} `{R : RSA}.


(** The last line printed. *)
Lemma lines_last l x : exists pre, lines (app l [x]) = pre ++ x ++ newline.
Proof.
  unfold lines. induction l as [|y l [pre IH]]; [by exists ""|].
  exists (y ++ newline ++ pre). destruct (app l [x]) as [|z l'] eqn:E; [by destruct l|].
  change (Join (app (y :: l) [x]) newline) with (Join (y :: app l [x]) newline). rewrite E.
  change (Join (y :: z :: l') newline) with (y ++ newline ++ Join (z :: l') newline).
  rewrite !sapp_assoc. by rewrite IH.
Qed.

Lemma with_flags_ok names required args k w text w' : with_flags names required args k w = (Ok text, w') ->
  exists m rest, Parse (string_flags names) args ∅ = Ok (m, rest) /\ (forall n, n ∈ required -> flag_value n m <> "") /\
    k (fun n => flag_value n m) w = (Ok text, w').
Proof.
  unfold with_flags, fail. destruct (Parse _ _ _) as [[m rest]|e]; [|done]. destruct (existsb _ _) eqn:E; [done|].
  intros Hk. exists m, rest. split; [done|]. split; [|done]. intros n Hn. rewrite existsb_elem_false in E.
  specialize (E n Hn). by apply String.eqb_neq in E.
Qed.

Lemma with_pool_ok h k w text w' : with_pool h k w = (Ok text, w') -> openForCommand h = Ok tt /\ k w = (Ok text, w').
Proof. unfold with_pool, fail. by destruct (openForCommand h) as [[]|]. Qed.

Lemma with_token_ok h k w text w' : with_token h k w = (Ok text, w') ->
  exists random, h_random h = Some random /\ k (of_list (raw_url_encode random)) w = (Ok text, w').
Proof. unfold with_token, fail. destruct (h_random h) as [random|]; [|done]. simpl. eauto. Qed.

Lemma store_then {A B} (m : M (result error A)) (k : A -> cmd B) w r w' : bindr (store m) k w = (Ok r, w') ->
  exists a w1, m w = (Ok a, w1) /\ k a w1 = (Ok r, w').
Proof. unfold store, bindr, bind, ret. destruct (m w) as [[a|e] w1]; [eauto|done]. Qed.

Lemma ret_ok {A} (a b : A) w w' : ret (Ok a) w = (Ok b : result cmd_error A, w') -> b = a /\ w' = w.
Proof. by intros [= <- <-]. Qed.

(** A command's printed token works at the gate. *)
Definition usable (text : string) (token : Token) : Prop :=
  FromRequest ("Bearer " ++ token) = Some token /\ exists pre, text = pre ++ "  " ++ token ++ newline.

Lemma token_usable random l : Z.of_nat (length random) = TokenBytes ->
  usable (lines (app l (token_text (of_list (raw_url_encode random))))) (of_list (raw_url_encode random)).
Proof.
  intros Hr. split.
  - apply (bearer_presented "Bearer"); [|done|done]. intros E. apply (f_equal (fun l => Z.of_nat (length l))) in E.
    by rewrite raw_url_encode_length, Hr in E.
  - unfold token_text. set (t := of_list _). destruct (lines_last (app l ["bearer token (store it now — it is not recoverable):"]) ("  " ++ t)) as [pre Ep].
    exists pre. rewrite <- app_assoc in Ep. simpl app in Ep. by rewrite Ep.
Qed.

(** C6: the operator's commands issue credentials that work.  Whenever [enroll] ends
    well, the text it prints ends with a token that the gate reads from a Bearer
    header, the tables gained exactly one row - a device of the family and name given,
    holding the token's digest and not the token, under an id not used before - and
    from then on that token authenticates as that device; likewise [add-viewer] and a
    viewer.  Ids and digests stay unique. *)
Theorem issued_credentials_work (h : Host) (args : list string) (w w' : World) (text : string) (random : list ascii) :
  credentials_ok (w_db w) -> h_random h = Some random -> Z.of_nat (length random) = TokenBytes ->
  (runEnroll h args w = (Ok text, w') ->
   exists family name id token, usable text token /\ credentials_ok (w_db w') /\ has_family family (w_db w) = true /\
     w_db w' = set_devices (app (devices (w_db w)) [mkDevice id family name (Auth.Hash token) None]) (w_db w) /\
     forall wq, quiet wq -> w_db wq = w_db w' -> fst (AuthenticateDevice (Auth.Hash token) wq) = Ok (mkDev id family name)) /\
  (runAddViewer h args w = (Ok text, w') ->
   exists family email name id token, usable text token /\ credentials_ok (w_db w') /\ has_family family (w_db w) = true /\
     w_db w' = set_viewers (app (viewers (w_db w)) [mkViewer id family email name (Auth.Hash token) None]) (w_db w) /\
     forall wq, quiet wq -> w_db wq = w_db w' -> fst (AuthenticateViewer (Auth.Hash token) wq) = Ok (mkView id family email name)).
Proof.
  intros Hc Er Hr. split; intros E; apply with_flags_ok in E as (m & rest & _ & _ & E);
    apply with_token_ok in E as (random' & Er' & E); rewrite Er in Er'; injection Er' as <-;
    apply with_pool_ok in E as [_ E]; apply store_then in E as (id & w1 & E1 & E2); apply ret_ok in E2 as [-> ->].
  - apply (CreateDevice_authenticates _ _ _ _ _ _ Hc) in E1 as (C1 & C2 & C3 & C4).
    exists (flag_value "family" m), (flag_value "name" m), id, (of_list (raw_url_encode random)).
    split; [by apply token_usable|done].
  - apply (CreateViewer_authenticates _ _ _ _ _ _ _ Hc) in E1 as (C1 & C2 & C3 & C4).
    exists (flag_value "family" m), (flag_value "email" m), (flag_value "name" m), id, (of_list (raw_url_encode random)).
    split; [by apply token_usable|done].
Qed.
(* ---- serving ---- *)

Definition relations_only (db0 db : DB) : Prop := db = set_relations (relations db) db0.
(** ... and every partition that was there is still there. *)
Definition partitions_added (db0 db : DB) : Prop := relations_only db0 db /\ relations db0 ⊆ relations db.

Lemma preserves_ensure (I : DB -> Prop) from months :
  (forall name lo hi db, I db -> I (snd (sql_createPartition name lo hi db))) -> preserves I (EnsurePartitions from months).
Proof.
  intros Hc. assert (Hloop : forall n start i names, preserves I (ensure_loop start i n names)).
  { induction n as [|n IH]; intros start i names; cbn [ensure_loop]; [apply preserves_ret|].
    apply preserves_bindr; [|intros name; apply IH]. unfold EnsureMonthlyPartition. preserves_steps. apply preserves_exec. intros _. apply Hc. }
  unfold EnsurePartitions. destruct (_ <? _); [apply preserves_ret|apply Hloop].
Qed.
Lemma partitions_added_refl db : partitions_added db db.
Proof. split; [by destruct db|done]. Qed.
Lemma partitions_added_ensure db0 from months : preserves (partitions_added db0) (EnsurePartitions from months).
Proof.
  apply preserves_ensure. intros name lo hi db [H1 H2]. unfold sql_createPartition. destruct (relations db !! name) eqn:E; [done|].
  case_match; [done|]. cbn [snd]. split; [unfold relations_only in *; by rewrite H1|]. cbn [relations set_relations].
  etransitivity; [exact H2|]. by apply insert_subseteq.
Qed.

(** C21: a server that is about to listen is in order.  Its configuration loaded; the
    presentation windows it applies are valid; it serves TLS with a certificate and a
    key or plaintext was allowed explicitly; every instant of this month and the next
    has its partition, and nothing else in the tables changed; retention runs with
    the window of a positive number of days or not at all; and the push backend is
    the configured provider's, with credentials that were read. *)
Theorem serve_ready (h : Host) (w w' : World) (s : Serving) : runServe h w = (Ok s, w') ->
  exists c, Load (h_env h) = Ok c /\ valid_windows (sv_Windows s) /\
    match sv_TLS s with
    | Some (cert, key) => cert <> "" /\ key <> ""
    | None => AllowPlaintext c = true
    end /\
    (forall t, 0 <= t_nsec t < second -> Before t (monthStart (h_now h)) = false ->
       Before t (AddDate (monthStart (h_now h)) 0 2 0) = true -> routed (relations (w_db w')) t = true) /\
    w_db w' = set_relations (relations (w_db w')) (w_db w) /\
    (if 0 <? RetentionDays c then sv_Retention s = Some (retention_window (RetentionDays c)) else sv_Retention s = None) /\
    match sv_Push s with
    | PushNone => PushProvider c = ""
    | PushUnified => PushProvider c = "unifiedpush"
    | PushFCM project tokens => PushProvider c = "fcm" /\ project = FCMProjectID c /\
        exists raw, h_file h (FCMCredentialsFile c) = Some raw /\ newServiceAccountTokenSource raw = Some tokens
    end.
Proof.
  unfold runServe, fail. destruct (Load (h_env h)) as [c|] eqn:EL; [|done]. destruct (RequireServable c) eqn:ER; [done|].
  destruct (h_migrates h), (h_version h), (h_opens h); try done. simpl. intros E.
  apply store_then in E as (names & w1 & E1 & E2). destruct (buildPushNotifier h c) as [push|] eqn:EP; [|done].
  apply ret_ok in E2 as [-> ->]. exists c. split; [done|]. cbn [sv_Windows sv_TLS sv_Retention sv_Push].
  split; [by apply Load_windows with (Getenv := h_env h)|]. split; [|split; [|split; [|split]]].
  - unfold RequireServable in ER. destruct (ServesTLS c) eqn:ES; [|by destruct (AllowPlaintext c)].
    unfold ServesTLS in ES. b2p. done.
  - intros t Hn H1 H2. rewrite monthStart_eq in H1. rewrite monthStart_eq, AddDate_month in H2.
    eapply routed_month; [done| |done]. eapply EnsurePartitions_months; [exact E1|]. by apply month_within.
  - pose proof (partitions_added_ensure (w_db w) (h_now h) partitionLookaheadMonths w (partitions_added_refl _)) as Hr.
    rewrite E1 in Hr. apply Hr.
  - unfold retention_job. rewrite Z.gtb_ltb. by destruct (0 <? RetentionDays c).
  - unfold buildPushNotifier in EP. destruct (String.eqb_spec (PushProvider c) PushProviderNone); [by injection EP as <-|].
    destruct (String.eqb_spec (PushProvider c) PushProviderFCM).
    + destruct (h_file h _) as [raw|] eqn:Ef; [|done]. destruct (newServiceAccountTokenSource raw) eqn:Es; [|done].
      injection EP as <-. eauto 6.
    + destruct (String.eqb_spec (PushProvider c) PushProviderUnifiedPush); [by injection EP as <-|done].
Qed.
(* ---- failures ---- *)














End Theorems.

(* ------------------------------------------------------------------ *)
(** ** Witnesses: a host that migrates and connects *)

#[local] Existing Instance ascii_unicode.
#[local] Existing Instance any_postgres.
#[local] Instance some_text : FloatText := {| FormatFloat := fun _ => "1" |}.
Definition sample_host : Host :=
  mkHost sample_env noon (Some (repeat "a"%char 32)) true true true (fun _ => None) (fun _ => EDir "repo" (Some [])).
Definition printed_text (r : result cmd_error string) : string := match r with Ok t => t | Err _ => "" end.

Definition enrolled : result cmd_error string * World :=
  runEnroll sample_host ["-family"; "fam"; "-name=tablet"] (calm family_db noon).
Definition added : result cmd_error string * World :=
  runAddViewer sample_host ["--family=fam"; "-email"; "b@x"; "-name"; "Bob"] (calm family_db noon).

Lemma issued_credentials_work_witness :
  (exists family name id token, usable (printed_text (fst enrolled)) token /\ credentials_ok (w_db (snd enrolled)) /\
     has_family family family_db = true /\
     w_db (snd enrolled) = set_devices (app (devices family_db) [mkDevice id family name (Auth.Hash token) None]) family_db /\
     forall wq, quiet wq -> w_db wq = w_db (snd enrolled) ->
       fst (AuthenticateDevice (Auth.Hash token) wq) = Ok (mkDev id family name)) /\
  (exists family email name id token, usable (printed_text (fst added)) token /\ credentials_ok (w_db (snd added)) /\
     has_family family family_db = true /\
     w_db (snd added) = set_viewers (app (viewers family_db) [mkViewer id family email name (Auth.Hash token) None]) family_db /\
     forall wq, quiet wq -> w_db wq = w_db (snd added) ->
       fst (AuthenticateViewer (Auth.Hash token) wq) = Ok (mkView id family email name)).
Proof.
  split.
  - apply (issued_credentials_work sample_host ["-family"; "fam"; "-name=tablet"] (calm family_db noon) (snd enrolled)
      (printed_text (fst enrolled)) (repeat "a"%char 32)); [exact family_credentials|reflexivity|reflexivity|].
    apply run_pair. vm_compute. reflexivity.
  - apply (issued_credentials_work sample_host ["--family=fam"; "-email"; "b@x"; "-name"; "Bob"] (calm family_db noon) (snd added)
      (printed_text (fst added)) (repeat "a"%char 32)); [exact family_credentials|reflexivity|reflexivity|].
    apply run_pair. vm_compute. reflexivity.
Defined.

Definition served : result cmd_error Serving * World :=
  runServe sample_host (calm family_db noon).
Definition sample_serving : Serving :=
  mkServing (mkWindows 120 300) "" PushNone None None LevelInfo ["fixes_2026_07"; "fixes_2026_08"].

Lemma serve_ready_witness :
  exists c, Load sample_env = Ok c /\ valid_windows (mkWindows 120 300) /\ AllowPlaintext c = true /\
    (forall t, 0 <= t_nsec t < second -> Before t (monthStart noon) = false ->
       Before t (AddDate (monthStart noon) 0 2 0) = true -> routed (relations (w_db (snd served))) t = true) /\
    w_db (snd served) = set_relations (relations (w_db (snd served))) family_db /\
    (if 0 <? RetentionDays c then None = Some (retention_window (RetentionDays c)) else @None Z = None) /\ PushProvider c = "".
Proof.
  apply (serve_ready sample_host (calm family_db noon) (snd served) sample_serving).
  apply run_pair. vm_compute. reflexivity.
Defined.

