(* ===== verification/Shutdown.v ===== *)
(** How a serving process ends ([cmd/tracker/main.go]: the end of runServe): the goroutine
    that listens, the signal that cancels the root context, the select between them, the
    graceful shutdown and the deferred closings.  A process is the record [proc], its
    threads the rules of [step]; a select with both cases ready takes either.  What
    net/http's server answers is in the rules: ListenAndServe always ends with an error,
    which is ErrServerClosed only once Shutdown was called. *)

From Stdlib Require Import Bool String List.
From stdpp Require Import base option list relations.
From S2P Require Import Prelude.
Local Open Scope string_scope.

Inductive serve_error := Listen_tls (e : string) | Listen (e : string) | Shutdown (e : string).
(** The deferred calls, in the order they run. *)
Inductive closing := CloseNotifier | ClosePool | StopSignals.
Definition closings : list closing := [CloseNotifier; ClosePool; StopSignals].

(** The listening goroutine: still listening, or ended having sent what it sends. *)
Inductive listener := Listening | Ended.
Inductive main_at := Selecting | ShuttingDown | Returned (r : option serve_error).
(** [errCh] has room for one value. *)
Record proc := mkProc { ls : listener; errCh : option (option serve_error); cancelled : bool; at_ : main_at; closed : list closing }.
Definition serving : proc := mkProc Listening None false Selecting [].

Definition listen_error (tls : bool) (e : string) : serve_error := if tls then Listen_tls e else Listen e.
Definition shutdown_called (m : main_at) : Prop := m <> Selecting.

Inductive step (tls : bool) : proc -> proc -> Prop :=
| listener_fails e done_ m c : step tls (mkProc Listening None done_ m c) (mkProc Ended (Some (Some (listen_error tls e))) done_ m c)
| listener_closed done_ m c : shutdown_called m -> step tls (mkProc Listening None done_ m c) (mkProc Ended (Some None) done_ m c)
| signalled l ch m c : step tls (mkProc l ch false m c) (mkProc l ch true m c)
| select_error l r done_ : step tls (mkProc l (Some r) done_ Selecting []) (mkProc l None done_ (Returned r) closings)
| select_done l ch : step tls (mkProc l ch true Selecting []) (mkProc l ch true ShuttingDown [])
| shut_down l ch done_ e : step tls (mkProc l ch done_ ShuttingDown []) (mkProc l ch done_ (Returned (option_map Shutdown e)) closings).

Definition reachable (tls : bool) (p : proc) : Prop := rtc (step tls) serving p.

(* ------------------------------------------------------------------ *)
(** ** Invariant *)

(** What holds in every state: a listener that has not ended has sent nothing, so its send
    never waits; the channel holds its own error until a shutdown was called; a shutdown
    follows a signal; and the deferred calls ran exactly when the function returned. *)
Record tidy (tls : bool) (p : proc) : Prop := {
  td_room : ls p = Listening -> errCh p = None;
  td_error : forall r, errCh p = Some r -> at_ p = Selecting -> exists e, r = Some (listen_error tls e);
  td_signal : at_ p = ShuttingDown -> cancelled p = true;
  td_kept : at_ p = Selecting -> ls p = Ended -> is_Some (errCh p);
  td_closed : closed p = (match at_ p with Returned _ => closings | _ => [] end);
  td_clean : at_ p = Returned None -> cancelled p = true;
  td_failed : forall e, at_ p = Returned (Some e) -> (exists t, e = Shutdown t) \/ ls p = Ended /\ exists t, e = listen_error tls t }.

Lemma serving_tidy tls : tidy tls serving.
Proof. by split. Qed.
Lemma step_tidy tls p p' : step tls p p' -> tidy tls p -> tidy tls p'.
Proof.
  intros Hs [T1 T2 T3 T4 T5 T6 T7]. destruct Hs as [e dn m c|dn m c Hm|l ch m c|l r dn|l ch|l ch dn e]; cbn in *; split; cbn; try done; eauto.
  - intros r [= <-] _. by eexists.
  - intros e' He. destruct (T7 e' He) as [H|[[=] _]]. by left.
  - intros e' He. destruct (T7 e' He) as [H|[[=] _]]. by left.
  - intros [= ->]. destruct (T2 None eq_refl eq_refl) as [e [=]].
  - intros e [= ->]. destruct (T2 _ eq_refl eq_refl) as [t [= ->]]. right. split; [|by eexists]. destruct l; [|done]. by specialize (T1 eq_refl).
  - intros e' E. destruct e as [e|]; cbn in E; [|discriminate E]. injection E as <-. left. by eexists.
Qed.
Lemma reachable_tidy tls p : reachable tls p -> tidy tls p.
Proof.
  intros Hr. assert (Hk : forall q, rtc (step tls) q p -> tidy tls q -> tidy tls p).
  { clear Hr. induction 1 as [|q y z Hs _ IH]; [done|]. intros Hq. apply IH. by eapply step_tidy. }
  apply (Hk serving); [exact Hr|apply serving_tidy].
Qed.

(** The function answers nil only after a signal, and then Shutdown had answered nil; it
    answers a listening error only when its own listener failed with it; nothing a listener
    sends waits or is lost; and however it returns the push dispatcher is drained before
    the pool it writes to is closed. *)
Theorem serve_ends_tidy (tls : bool) (p : proc) : reachable tls p ->
  (ls p = Listening -> errCh p = None) /\
  (forall r, at_ p = Returned r -> closed p = [CloseNotifier; ClosePool; StopSignals] /\
     match r with
     | None => cancelled p = true
     | Some e => (exists t, e = Shutdown t) \/ ls p = Ended /\ exists t, e = listen_error tls t
     end) /\
  (at_ p = Selecting -> ls p = Ended -> exists r, step tls p (mkProc Ended None (cancelled p) (Returned (Some r)) closings)) /\
  (at_ p = Selecting -> cancelled p = true -> exists p', step tls p p' /\ at_ p' = ShuttingDown).
Proof.
  intros Hr. destruct (reachable_tidy tls p Hr) as [T1 T2 T3 T4 T5 T6 T7]. split; [done|]. split; [|split].
  - intros r Er. rewrite T5, Er. split; [done|]. destruct r as [e|]; [by apply T7|by apply T6].
  - intros Ea El. destruct (T4 Ea El) as [r Ec]. destruct (T2 r Ec Ea) as [e ->]. exists (listen_error tls e).
    destruct p as [l ch dn m c]. cbn in *. subst. apply select_error.
  - intros Ea Ed. destruct p as [l ch dn m c]. cbn in *. subst. eexists. split; [apply select_done|done].
Qed.
