(* ===== verification/Vulngate.v ===== *)
(** The vulnerability gate ([internal/vulngate], [cmd/vulngate]): it runs the pinned
    govulncheck, reads its whole JSON stream, validates the recorded suppressions and
    decides.  The YAML library is the class [YAML]; running a program is an argument
    of [Run].  Error texts are reduced to their kind with the facts they name; what
    the gate prints is kept. *)

From Stdlib Require Import ZArith Lia Bool String Ascii List Sorted.
From stdpp Require Import base option list strings gmap sorting.
From S2P Require Import Prelude GoStrings GoTime Calendar Json Flags Regex.
Local Open Scope string_scope.
Local Open Scope Z_scope.

(** A node of a YAML sequence: its line, whether it is a mapping, and what decoding
    it as a mapping of strings gives. *)
Record yaml_node := mkNode { node_Line : Z; node_mapping : bool; node_fields : option (gmap string string) }.
Class YAML := { yaml_Sequence : string -> option (list yaml_node) }.

(* ------------------------------------------------------------------ *)
(** ** Recorded suppressions *)

Definition SuppressionsFile : string := ".govulncheck-suppressions.yaml".
Definition reAdvisoryID : re := Eval vm_compute in MustCompile "^GO-[0-9]{4}-[0-9]+$".
Definition requiredKeys : list string := ["id"; "reason"; "reachability"; "recorded"].

Record Entry := mkEntry { en_ID : string; en_Reason : string; en_Reachability : string; en_Recorded : string }.

Definition isRequiredKey (key : string) : bool := existsb (String.eqb key) requiredKeys.

(** [sorted]: insertion sort, each element moved down past the greater ones before it. *)
Fixpoint move_down (x : string) (before : list string) : list string :=
  match before with
  | y :: before' => if str_ltb x y then y :: move_down x before' else x :: before
  | [] => [x]
  end.
Definition sorted (l : list string) : list string := rev (fold_left (fun before x => move_down x before) l []).

Definition daysIn (month year : Z) : Z :=
  let c := year * 12 + (month - 1) in month_day (c + 1) - month_day c.

(** [time.Parse("2006-01-02", s)] succeeds. *)
Definition is_date (s : string) : bool :=
  match to_list s with
  | [y1; y2; y3; y4; d1; m1; m2; d2; a; b] =>
      forallb is_digit [y1; y2; y3; y4; m1; m2; a; b] && Ascii.eqb d1 "-" && Ascii.eqb d2 "-" &&
      let month := value_of [m1; m2] 0 in let day := value_of [a; b] 0 in
      (1 <=? month) && (month <=? 12) && (1 <=? day) && (day <=? daysIn month (value_of [y1; y2; y3; y4] 0))
  | _ => false
  end.

(** What is wrong with an entry, by its number. *)
Inductive problem :=
| PNotMapping (i : nat) | PNotStrings (i : nat)
| PMissing (i : nat) (keys : list string) | PEmpty (i : nat) (keys : list string) | PUnknown (i : nat) (keys : list string)
| PBadID (i : nat) (id : string) | PBadDate (i : nat) (recorded : string) | PDuplicate (i first : nat).

Section Suppressions.
Context `{U : Unicode} `{Y : YAML}.

Definition field (fields : gmap string string) (key : string) : string := TrimSpace (default "" (fields !! key)).

Definition missing_keys (fields : gmap string string) : list string :=
  List.filter (fun key => match fields !! key with None => true | Some _ => false end) requiredKeys.
Definition empty_keys (fields : gmap string string) : list string :=
  List.filter (fun key => match fields !! key with None => false | Some v => String.eqb (TrimSpace v) "" end) requiredKeys.
Definition unknown_keys (fields : gmap string string) : list string :=
  List.filter (fun key => negb (isRequiredKey key)) (map fst (map_to_list fields)).

(** The problem of some keys, when there are any. *)
Definition keyed (p : list string -> problem) (l : list string) : list problem :=
  match l with [] => [] | _ => [p (sorted l)] end.

(** One node, the [i]-th, after the ids [seen] so far with the numbers they had. *)
Definition check_node (i : nat) (node : yaml_node) (seen : gmap string nat) : list problem * gmap string nat * option Entry :=
  if negb (node_mapping node) then ([PNotMapping i], seen, None)
  else match node_fields node with
  | None => ([PNotStrings i], seen, None)
  | Some fields =>
      let id := field fields "id" in
      let recorded := field fields "recorded" in
      let dup := match seen !! id with Some first => if negb (String.eqb id "") then [PDuplicate i first] else [] | None => [] end in
      let problems := (keyed (PMissing i) (missing_keys fields) ++ keyed (PEmpty i) (empty_keys fields) ++ keyed (PUnknown i) (unknown_keys fields) ++
        (if negb (String.eqb id "") && negb (MatchString reAdvisoryID id) then [PBadID i id] else []) ++
        (if negb (String.eqb recorded "") && negb (is_date recorded) then [PBadDate i recorded] else []) ++ dup)%list in
      let seen := if negb (String.eqb id "") then match dup with [] => <[id := S i]> seen | _ => seen end else seen in
      (problems, seen,
       match problems with
       | [] => Some (mkEntry id (field fields "reason") (field fields "reachability") recorded)
       | _ => None
       end)
  end.

Fixpoint check_nodes (i : nat) (nodes : list yaml_node) (seen : gmap string nat) (problems : list problem) (entries : list Entry)
  : list problem * list Entry :=
  match nodes with
  | [] => (problems, entries)
  | node :: nodes =>
      let '(more, seen, entry) := check_node i node seen in
      check_nodes (S i) nodes seen (problems ++ more)%list (entries ++ match entry with Some e => [e] | None => [] end)%list
  end.

Inductive suppressions_error := NotSequence | Problems (l : list problem) | Unreadable.

Definition ParseSuppressions (data : string) : result suppressions_error (list Entry) :=
  match yaml_Sequence data with
  | None => Err NotSequence
  | Some nodes =>
      match check_nodes 0 nodes ∅ [] [] with
      | ([], entries) => Ok entries
      | (problems, _) => Err (Problems problems)
      end
  end.

(** What reading the file answers. *)
Inductive file := Absent | Forbidden | Data (text : string).
Definition LoadSuppressions (f : file) : result suppressions_error (list Entry) :=
  match f with
  | Absent => Ok []
  | Forbidden => Err Unreadable
  | Data text => ParseSuppressions text
  end.
End Suppressions.

(* ------------------------------------------------------------------ *)
(** ** The report *)

Inductive Level := LevelModule | LevelPackage | LevelSymbol.
Definition rank (l : Level) : Z := match l with LevelModule => 0 | LevelPackage => 1 | LevelSymbol => 2 end.
Definition Level_String (l : Level) : string :=
  match l with LevelSymbol => "symbol" | LevelPackage => "package" | LevelModule => "module" end.

Record Advisory := mkAdvisory {
  a_ID : string; a_Level : Level; a_Module : string; a_Version : string;
  a_FixedVersion : string; a_Summary : string; a_Trace : string }.
Definition HasFix (a : Advisory) : bool := negb (String.eqb (a_FixedVersion a) "").

Record Report := mkReport {
  rp_ScannerVersion : string; rp_DB : string; rp_DBLastModified : string; rp_GoVersion : string;
  rp_ScanLevel : string; rp_ScanMode : string; rp_Advisories : list Advisory }.

Record position := mkPosition { ps_Filename : string; ps_Line : Z; ps_Column : Z }.
Record frame := mkFrame {
  fr_Module : string; fr_Version : string; fr_Package : string; fr_Function : string; fr_Receiver : string;
  fr_Position : option position }.
Record streamFinding := mkStreamFinding { sf_OSV : string; sf_FixedVersion : string; sf_Trace : list frame }.
Record streamOSV := mkStreamOSV { so_ID : string; so_Summary : string }.
Record streamConfig := mkStreamConfig {
  sc_ScannerName : string; sc_ScannerVersion : string; sc_DB : string; sc_DBLastModified : string;
  sc_GoVersion : string; sc_ScanLevel : string; sc_ScanMode : string }.
Record streamMessage := mkStreamMessage {
  sm_Config : option streamConfig; sm_OSV : option streamOSV; sm_Finding : option streamFinding }.

Definition scannerName : string := "govulncheck".
Definition wantScanLevel : string := "symbol".
Definition wantScanMode : string := "source".

Section Decoding.
Context `{U : Unicode}.

Definition set_position (n : string) : into position := fun j p =>
  if String.eqb n "filename" then option_map (fun v => mkPosition v (ps_Line p) (ps_Column p)) (into_string j (ps_Filename p))
  else if String.eqb n "line" then option_map (fun v => mkPosition (ps_Filename p) v (ps_Column p)) (into_int j (ps_Line p))
  else option_map (fun v => mkPosition (ps_Filename p) (ps_Line p) v) (into_int j (ps_Column p)).
Definition into_position : into position := into_struct ["filename"; "line"; "column"] set_position.

Definition set_frame (n : string) : into frame := fun j f =>
  let '(mkFrame m v p fn r ps) := f in
  if String.eqb n "module" then option_map (fun x => mkFrame x v p fn r ps) (into_string j m)
  else if String.eqb n "version" then option_map (fun x => mkFrame m x p fn r ps) (into_string j v)
  else if String.eqb n "package" then option_map (fun x => mkFrame m v x fn r ps) (into_string j p)
  else if String.eqb n "function" then option_map (fun x => mkFrame m v p x r ps) (into_string j fn)
  else if String.eqb n "receiver" then option_map (fun x => mkFrame m v p fn x ps) (into_string j r)
  else option_map (fun x => mkFrame m v p fn r x) (into_pointer (mkPosition "" 0 0) into_position j ps).
Definition zero_frame : frame := mkFrame "" "" "" "" "" None.
Definition into_frame : into frame :=
  into_struct ["module"; "version"; "package"; "function"; "receiver"; "position"] set_frame.

Definition set_finding (n : string) : into streamFinding := fun j f =>
  if String.eqb n "osv" then option_map (fun v => mkStreamFinding v (sf_FixedVersion f) (sf_Trace f)) (into_string j (sf_OSV f))
  else if String.eqb n "fixed_version"
  then option_map (fun v => mkStreamFinding (sf_OSV f) v (sf_Trace f)) (into_string j (sf_FixedVersion f))
  else option_map (fun v => mkStreamFinding (sf_OSV f) (sf_FixedVersion f) v) (into_slice zero_frame into_frame j (sf_Trace f)).
Definition into_finding : into streamFinding := into_struct ["osv"; "fixed_version"; "trace"] set_finding.

Definition set_osv (n : string) : into streamOSV := fun j o =>
  if String.eqb n "id" then option_map (fun v => mkStreamOSV v (so_Summary o)) (into_string j (so_ID o))
  else option_map (fun v => mkStreamOSV (so_ID o) v) (into_string j (so_Summary o)).
Definition into_osv : into streamOSV := into_struct ["id"; "summary"] set_osv.

Definition set_config (n : string) : into streamConfig := fun j c =>
  let '(mkStreamConfig sn sv db lm gv sl sm) := c in
  if String.eqb n "scanner_name" then option_map (fun x => mkStreamConfig x sv db lm gv sl sm) (into_string j sn)
  else if String.eqb n "scanner_version" then option_map (fun x => mkStreamConfig sn x db lm gv sl sm) (into_string j sv)
  else if String.eqb n "db" then option_map (fun x => mkStreamConfig sn sv x lm gv sl sm) (into_string j db)
  else if String.eqb n "db_last_modified" then option_map (fun x => mkStreamConfig sn sv db x gv sl sm) (into_string j lm)
  else if String.eqb n "go_version" then option_map (fun x => mkStreamConfig sn sv db lm x sl sm) (into_string j gv)
  else if String.eqb n "scan_level" then option_map (fun x => mkStreamConfig sn sv db lm gv x sm) (into_string j sl)
  else option_map (fun x => mkStreamConfig sn sv db lm gv sl x) (into_string j sm).
Definition zero_config : streamConfig := mkStreamConfig "" "" "" "" "" "" "".
Definition into_config : into streamConfig :=
  into_struct ["scanner_name"; "scanner_version"; "db"; "db_last_modified"; "go_version"; "scan_level"; "scan_mode"] set_config.

Definition set_message (n : string) : into streamMessage := fun j m =>
  if String.eqb n "config"
  then option_map (fun v => mkStreamMessage v (sm_OSV m) (sm_Finding m)) (into_pointer zero_config into_config j (sm_Config m))
  else if String.eqb n "osv"
  then option_map (fun v => mkStreamMessage (sm_Config m) v (sm_Finding m)) (into_pointer (mkStreamOSV "" "") into_osv j (sm_OSV m))
  else option_map (fun v => mkStreamMessage (sm_Config m) (sm_OSV m) v)
         (into_pointer (mkStreamFinding "" "" []) into_finding j (sm_Finding m)).
Definition message_of (j : json) : option streamMessage :=
  into_struct ["config"; "osv"; "finding"] set_message j (mkStreamMessage None None None).
End Decoding.

(* ------------------------------------------------------------------ *)
(** ** From findings to advisories *)

Definition levelOf (trace : list frame) : Level :=
  fold_left (fun level f =>
    if negb (String.eqb (fr_Function f) "") then (if rank level <? rank LevelSymbol then LevelSymbol else level)
    else if negb (String.eqb (fr_Package f) "") then (if rank level <? rank LevelPackage then LevelPackage else level)
    else level) trace LevelModule.

Definition firstNonEmpty (values : list string) : string :=
  match List.find (fun v => negb (String.eqb v "")) values with Some v => v | None => "" end.

(** What follows the last slash. *)
Definition shortPackage (path : string) : string := default "" (last (Split path "/")).

Definition frameName (f : frame) : string :=
  let pkg := shortPackage (fr_Package f) in
  if negb (String.eqb (fr_Function f) "") && negb (String.eqb (fr_Receiver f) "")
  then pkg ++ "." ++ fr_Receiver f ++ "." ++ fr_Function f
  else if negb (String.eqb (fr_Function f) "") then pkg ++ "." ++ fr_Function f
  else if negb (String.eqb (fr_Package f) "") then fr_Package f
  else fr_Module f.

Definition renderTrace (trace : list frame) : string :=
  match last trace with
  | None => ""
  | Some entry =>
      match levelOf trace with
      | LevelModule => "required by the module graph; no vulnerable package imported and no call path found"
      | _ =>
          let line := Join (map frameName (rev trace)) " -> " in
          match fr_Position entry with
          | Some p =>
              if negb (String.eqb (ps_Filename p) "")
              then ps_Filename p ++ ":" ++ Itoa (ps_Line p) ++ ":" ++ Itoa (ps_Column p) ++ ": " ++ line
              else line
          | None => line
          end
      end
  end.

Inductive gate_error :=
| ESuppressions (e : suppressions_error) | ERunner | EExit (code : Z)
| EStream | EFindingID (id : string) | EEmptyTrace (id : string)
| ENoConfig | EScanner (name : string) | EScanLevel (level : string) | EScanMode (mode : string)
| EUnrecorded (l : list string) | EFixable (l : list string) | EStale (l : list string).

Definition advisoryOf (f : streamFinding) : result gate_error Advisory :=
  if negb (MatchString reAdvisoryID (sf_OSV f)) then Err (EFindingID (sf_OSV f))
  else match sf_Trace f with
  | [] => Err (EEmptyTrace (sf_OSV f))
  | vulnerable :: _ =>
      Ok (mkAdvisory (sf_OSV f) (levelOf (sf_Trace f)) (fr_Module vulnerable)
            (firstNonEmpty [fr_Version vulnerable; "(no version)"]) (sf_FixedVersion f) "" (renderTrace (sf_Trace f)))
  end.

(** What the loop of [ParseReport] keeps. *)
Record progress := mkProgress {
  pg_cfg : option streamConfig; pg_summaries : gmap string string;
  pg_deepest : gmap string Advisory; pg_order : list string }.

Definition with_fix (fixed : string) (a : Advisory) : Advisory :=
  mkAdvisory (a_ID a) (a_Level a) (a_Module a) (a_Version a) fixed (a_Summary a) (a_Trace a).

(** The deepest finding of an advisory, with a fix wherever it appeared. *)
Definition merge (prev a : Advisory) : Advisory :=
  if rank (a_Level prev) <? rank (a_Level a)
  then (if String.eqb (a_FixedVersion a) "" then with_fix (a_FixedVersion prev) a else a)
  else if String.eqb (a_FixedVersion prev) "" && negb (String.eqb (a_FixedVersion a) "")
  then with_fix (a_FixedVersion a) prev
  else prev.

Definition add_finding (a : Advisory) (s : progress) : progress :=
  match pg_deepest s !! a_ID a with
  | None => mkProgress (pg_cfg s) (pg_summaries s) (<[a_ID a := a]> (pg_deepest s)) (pg_order s ++ [a_ID a])%list
  | Some prev => mkProgress (pg_cfg s) (pg_summaries s) (<[a_ID a := merge prev a]> (pg_deepest s)) (pg_order s)
  end.

Definition read_message (m : streamMessage) (s : progress) : result gate_error progress :=
  match sm_Config m, sm_OSV m, sm_Finding m with
  | Some c, _, _ => Ok (mkProgress (Some c) (pg_summaries s) (pg_deepest s) (pg_order s))
  | None, Some o, _ => Ok (mkProgress (pg_cfg s) (<[so_ID o := so_Summary o]> (pg_summaries s)) (pg_deepest s) (pg_order s))
  | None, None, Some f =>
      match advisoryOf f with Err e => Err e | Ok a => Ok (add_finding a s) end
  | None, None, None => Ok s
  end.

Section Report.
Context `{U : Unicode}.

(** The loop over the stream; every message takes a byte at least. *)
Fixpoint read_stream (fuel : nat) (l : list ascii) (s : progress) : result gate_error progress :=
  match fuel with
  | O => Err EStream
  | S fuel =>
      match skip_ws l with
      | [] => Ok s
      | _ =>
          match scan_value l with
          | None => Err EStream
          | Some (v, rest) =>
              match message_of v with
              | None => Err EStream
              | Some m => match read_message m s with Err e => Err e | Ok s' => read_stream fuel rest s' end
              end
          end
      end
  end.

Definition checked_config (cfg : option streamConfig) : result gate_error streamConfig :=
  match cfg with
  | None => Err ENoConfig
  | Some c =>
      if negb (String.eqb (sc_ScannerName c) scannerName) then Err (EScanner (sc_ScannerName c))
      else if negb (String.eqb (sc_ScanLevel c) wantScanLevel) then Err (EScanLevel (sc_ScanLevel c))
      else if negb (String.eqb (sc_ScanMode c) wantScanMode) then Err (EScanMode (sc_ScanMode c))
      else Ok c
  end.

Definition with_summary (s : progress) (id : string) (a : Advisory) : Advisory :=
  mkAdvisory (a_ID a) (a_Level a) (a_Module a) (a_Version a) (a_FixedVersion a) (default "" (pg_summaries s !! id)) (a_Trace a).

Definition zero_advisory : Advisory := mkAdvisory "" LevelModule "" "" "" "" "".

Definition ParseReport (stdout : string) : result gate_error Report :=
  match read_stream (S (String.length stdout)) (to_list stdout) (mkProgress None ∅ ∅ []) with
  | Err e => Err e
  | Ok s =>
      match checked_config (pg_cfg s) with
      | Err e => Err e
      | Ok c =>
          Ok (mkReport (sc_ScannerVersion c) (sc_DB c) (sc_DBLastModified c) (sc_GoVersion c) (sc_ScanLevel c) (sc_ScanMode c)
                (map (fun id => with_summary s id (default zero_advisory (pg_deepest s !! id))) (stable_sort str_ltb (pg_order s))))
      end
  end.
End Report.

Definition IDs (r : Report) : list string := map a_ID (rp_Advisories r).

Definition newline : string := String (byte_of 10) "".

Definition advisory_text (a : Advisory) : string :=
  "  " ++ a_ID a ++ "  [" ++ Level_String (a_Level a) ++ " level]  " ++ a_Module a ++ "@" ++ a_Version a ++ "  " ++
  (if HasFix a then "fixed in " ++ a_FixedVersion a else "NO FIX AVAILABLE anywhere") ++ newline ++
  (if negb (String.eqb (a_Summary a) "") then "      " ++ a_Summary a ++ newline else "") ++
  (if negb (String.eqb (a_Trace a) "") then "      trace: " ++ a_Trace a ++ newline else "") ++
  "      https://pkg.go.dev/vuln/" ++ a_ID a ++ newline.

Definition Report_String (r : Report) : string :=
  "govulncheck " ++ rp_ScannerVersion r ++ " scanned " ++ rp_GoVersion r ++ " (level " ++ rp_ScanLevel r ++ ", mode " ++ rp_ScanMode r ++
  ") against " ++ rp_DB r ++ ", database last modified " ++ rp_DBLastModified r ++ newline ++
  match rp_Advisories r with
  | [] => "no advisories reported at any level: no vulnerable symbol called, no vulnerable package imported, no vulnerable module required" ++ newline
  | l => Itoa (Z.of_nat (length l)) ++ " advisory(ies) reported across symbol, package and module level:" ++ newline ++
         Join (map advisory_text l) ""
  end.

(* ------------------------------------------------------------------ *)
(** ** The verdict *)

(** [recorded[id]] and [isReported[id]]. *)
Definition recorded (entries : list Entry) (id : string) : bool := existsb (fun e => String.eqb (en_ID e) id) entries.
Definition is_reported (reported : list Advisory) (id : string) : bool := existsb (fun a => String.eqb (a_ID a) id) reported.

Definition unrecorded_text (a : Advisory) : string :=
  a_ID a ++ " (" ++ Level_String (a_Level a) ++ " level, " ++ a_Module a ++ "@" ++ a_Version a ++ ", " ++
  (if HasFix a then "fixed in " ++ a_FixedVersion a else "no fix reported") ++ ")".
Definition fixable_text (a : Advisory) : string :=
  a_ID a ++ " (fixed in " ++ a_FixedVersion a ++ "; found in " ++ a_Module a ++ "@" ++ a_Version a ++ ")".
Definition stale_text (e : Entry) : string := en_ID e ++ " (recorded " ++ en_Recorded e ++ ")".

Definition complaint (kind : list string -> gate_error) (l : list string) : list gate_error :=
  match l with [] => [] | _ => [kind (stable_sort str_ltb l)] end.

Definition Evaluate (reported : list Advisory) (entries : list Entry) : list gate_error :=
  (complaint EUnrecorded (map unrecorded_text (List.filter (fun a => negb (recorded entries (a_ID a))) reported)) ++
   complaint EFixable (map fixable_text (List.filter (fun a => recorded entries (a_ID a) && HasFix a) reported)) ++
   complaint EStale (map stale_text (List.filter (fun e => negb (is_reported reported (en_ID e))) entries)))%list.

(* ------------------------------------------------------------------ *)
(** ** Running the tool *)

Record Result := mkResult { Stdout : string; Stderr : string; ExitCode : Z }.

Definition exitReportProduced : Z := 0.
Definition maxRawEcho : Z := 4000.
Definition rePinnedVersion : re := Eval vm_compute in
  MustCompile "^v\d+\.\d+\.\d+(?:-[0-9A-Za-z.\-]+)?(?:\+[0-9A-Za-z.\-]+)?$".
Definition toolName : string := "govulncheck".
Definition modulePath : string := "golang.org/x/vuln/cmd/govulncheck".
Definition jsonFormat : list string := ["-format"; "json"].

Record GovulncheckRunner := mkRunner { r_Version : string; r_Patterns : list string }.

Definition InstallArgs (r : GovulncheckRunner) : option (list string) :=
  if negb (MatchString rePinnedVersion (r_Version r)) then None else Some ["install"; modulePath ++ "@" ++ r_Version r].
Definition ScanArgs (r : GovulncheckRunner) : option (list string) :=
  match r_Patterns r with [] => None | _ => Some (jsonFormat ++ r_Patterns r)%list end.

(** What starting a program comes to: an exit status and its output, or not started. *)
Inductive started := Exited (status : Z) (out err : string) | NotStarted (out err : string).
(** The machine: a directory for the tool, and the programs it can start there. *)
Record Machine := mkMachine { tmp_dir : option string; exec_go : list string -> started; exec_tool : string -> list string -> started }.

(** [Run]: the result, and whether there was an error. *)
Definition Run (mc : Machine) (r : GovulncheckRunner) : Result * bool :=
  match InstallArgs r, ScanArgs r, tmp_dir mc with
  | Some installArgs, Some scanArgs, Some binDir =>
      match exec_go mc installArgs with
      | Exited 0 _ _ =>
          match exec_tool mc (binDir ++ "/" ++ toolName) scanArgs with
          | Exited status out err => (mkResult out err status, false)
          | NotStarted out err => (mkResult out err 0, true)
          end
      | Exited _ out _ | NotStarted out _ => (mkResult "" out 0, true)
      end
  | _, _, _ => (mkResult "" "" 0, true)
  end.

(* ------------------------------------------------------------------ *)
(** ** The gate *)

Definition echoStderr (stderr : string) : string :=
  let out := TrimSpace stderr in if negb (String.eqb out "") then out ++ newline else "".

Definition echoRaw (res : Result) : string :=
  (let out := TrimSpace (Stdout res) in
   if negb (String.eqb out "")
   then (if maxRawEcho <? len out
         then substring 0 (Z.to_nat maxRawEcho) out ++ newline ++ "... (truncated; " ++ Itoa (len (Stdout res)) ++ " bytes of output in total)"
         else out) ++ newline
   else "") ++ echoStderr (Stderr res).

Definition echoReport (r : Report) (stderr : string) : string := Report_String r ++ echoStderr stderr.

Section Gate.
Context `{U : Unicode} `{Y : YAML}.

(** [Check]: the errors (none when the gate passes) and the text it prints. *)
Definition Check_gate (suppressions : file) (run : Result * bool) : list gate_error * string :=
  match LoadSuppressions suppressions with
  | Err e => ([ESuppressions e], "")
  | Ok entries =>
      let '(res, failed) := run in
      if failed then ([ERunner], echoRaw res)
      else if negb (ExitCode res =? exitReportProduced) then ([EExit (ExitCode res)], echoRaw res)
      else match ParseReport (Stdout res) with
      | Err e => ([e], echoRaw res)
      | Ok report => (Evaluate (rp_Advisories report) entries, echoReport report (Stderr res))
      end
  end.

(** The command: the flag, the patterns, the exit status. *)
Definition main (mc : Machine) (suppressions : file) (args : list string) : Z * string :=
  match Parse (string_flags ["govulncheck-version"]) args ∅ with
  | Err e => (match e with FHelp => 0 | _ => 2 end, "")
  | Ok (m, rest) =>
      let patterns := match rest with [] => ["./..."] | _ => rest end in
      match Check_gate suppressions (Run mc (mkRunner (flag_value "govulncheck-version" m) patterns)) with
      | ([], out) => (0, out ++ "vulnerability gate OK: every advisory govulncheck reports, at symbol, package and module level, is remediated at source or recorded in " ++ SuppressionsFile ++ newline)
      | (_, out) => (1, out)
      end
  end.
End Gate.
