(* ===== verification/VulngateSpec.v ===== *)
(** What the vulnerability gate promises: the report of a stream holds every advisory
    a finding names, at its deepest level and with a fix wherever one appeared; the
    suppression file is accepted exactly when every record is complete and distinct;
    and the gate is green exactly when a pinned, full-depth run of the tool reported
    nothing but recorded advisories without a fix, each record of which is needed. *)

From Stdlib Require Import ZArith Lia Bool String Ascii List Sorted.
From stdpp Require Import base option list strings gmap sorting.
From S2P Require Import Prelude GoStrings GoTime Calendar Json Flags Regex Shapes Vulngate.
Local Open Scope string_scope.
Local Open Scope Z_scope.

(* ------------------------------------------------------------------ *)
(** ** The shape of an advisory id *)

(** GO-, four digits, a dash, digits. *)
Definition advisory_id (s : string) : Prop :=
  exists y n, count_of 4 digit_char y /\ number n /\ to_list s = (to_list "GO-" ++ y ++ to_list "-" ++ n)%list.

Lemma reAdvisoryID_spec s : MatchString reAdvisoryID s = true <-> advisory_id s.
Proof.
  change reAdvisoryID with (Seq (chain BeginText
    [Chr false [(71, 71)]; Chr false [(79, 79)]; Chr false [(45, 45)]; id (repeat_re 4 (Chr false [(48, 57)])); Chr false [(45, 45)]; digits_re]) EndText).
  rewrite match_whole; [|plain_parts; [apply (plain_count 3), digit_class|apply plain_digits]]. unfold advisory_id. split.
  - intros (ws & F & E). chain_parts. match type of E with _ = concat [_; _; _; ?y; _; ?n] => exists y, n end.
    do 2 (split; [done|]). rewrite E. simpl. by rewrite app_nil_r.
  - intros (y & n & Hy & Hn & E). exists [[byte_of 71]; [byte_of 79]; [byte_of 45]; y; [byte_of 45]; n].
    split; [chain_build|]. rewrite E. simpl. by rewrite app_nil_r.
Qed.

(* ------------------------------------------------------------------ *)
(** ** The stream as a list of messages *)

(** The messages a text consists of. *)
Inductive stream_of `{Unicode} : list ascii -> list streamMessage -> Prop :=
| stream_end l : skip_ws l = [] -> stream_of l []
| stream_more l v rest m ms : skip_ws l <> [] -> scan_value l = Some (v, rest) -> message_of v = Some m ->
    stream_of rest ms -> stream_of l (m :: ms).

(** The findings among the messages, and the last configuration. *)
Definition findings_of (ms : list streamMessage) : list streamFinding :=
  omap (fun m => match sm_Config m, sm_OSV m with None, None => sm_Finding m | _, _ => None end) ms.
Definition last_config (ms : list streamMessage) (old : option streamConfig) : option streamConfig :=
  fold_left (fun c m => match sm_Config m with Some c' => Some c' | None => c end) ms old.

Fixpoint read_messages (ms : list streamMessage) (s : progress) : result gate_error progress :=
  match ms with
  | [] => Ok s
  | m :: ms => match read_message m s with Err e => Err e | Ok s' => read_messages ms s' end
  end.

(** A finding the gate can answer: an OSV id and a trace. *)
Definition readable (f : streamFinding) : Prop := advisory_id (sf_OSV f) /\ sf_Trace f <> [].

Lemma readable_ok f : readable f <-> exists a, advisoryOf f = Ok a.
Proof.
  unfold readable, advisoryOf. rewrite <- reAdvisoryID_spec. destruct (MatchString reAdvisoryID (sf_OSV f)); simpl; [|naive_solver].
  destruct (sf_Trace f); naive_solver.
Qed.

Section Stream.
Context `{U : Unicode}.

Lemma read_stream_spec fuel : forall l s s', (length l < fuel)%nat ->
  read_stream fuel l s = Ok s' <-> exists ms, stream_of l ms /\ read_messages ms s = Ok s'.
Proof.
  induction fuel as [|fuel IH]; intros l s s' Hl; [lia|]. cbn [read_stream].
  destruct (skip_ws l) as [|c r] eqn:Ew.
  { split; [intros [= <-]; exists []; split; [by constructor|done]|]. intros (ms & Hs & Hr). inversion Hs; subst; [done|congruence]. }
  destruct (scan_value l) as [[v rest]|] eqn:Ev.
  2:{ split; [done|]. intros (ms & Hs & _). inversion Hs; subst; congruence. }
  destruct (message_of v) as [m|] eqn:Em.
  2:{ split; [done|]. intros (ms & Hs & _). inversion Hs; subst; congruence. }
  pose proof (scan_value_shorter _ _ _ Ev) as Hrest.
  destruct (read_message m s) as [s1|e] eqn:Er.
  - rewrite IH by lia. split.
    + intros (ms & Hs & Hr). exists (m :: ms). split; [eapply stream_more; [by rewrite Ew|exact Ev|exact Em|exact Hs]|]. cbn. by rewrite Er.
    + intros (ms & Hs & Hr). inversion Hs; subst; [congruence|]. simplify_eq. cbn in Hr. rewrite Er in Hr. eauto.
  - split; [done|]. intros (ms & Hs & Hr). inversion Hs; subst; [congruence|]. simplify_eq. cbn in Hr. by rewrite Er in Hr.
Qed.
End Stream.

(* ------------------------------------------------------------------ *)
(** ** What the loop knows after some findings *)

Lemma HasFix_with_fix fixed a : HasFix (with_fix fixed a) = negb (String.eqb fixed "").
Proof. done. Qed.

Lemma merge_spec prev a : a_ID prev = a_ID a ->
  a_ID (merge prev a) = a_ID a /\ rank (a_Level (merge prev a)) = Z.max (rank (a_Level prev)) (rank (a_Level a)) /\
  (a_Level (merge prev a) = a_Level prev \/ a_Level (merge prev a) = a_Level a) /\
  HasFix (merge prev a) = HasFix prev || HasFix a.
Proof.
  intros E. unfold merge. destruct (Z.ltb_spec (rank (a_Level prev)) (rank (a_Level a))).
  - destruct (String.eqb_spec (a_FixedVersion a) "") as [Ef|Ef].
    + simpl. unfold HasFix at 3. rewrite Ef, HasFix_with_fix, orb_false_r. split; [done|]. split; [lia|]. split; [by right|done].
    + split; [done|]. split; [lia|]. split; [by right|]. unfold HasFix at 3. apply String.eqb_neq in Ef. unfold HasFix at 1. by rewrite Ef, orb_true_r.
  - destruct (String.eqb_spec (a_FixedVersion prev) "") as [Ep|Ep]; [destruct (String.eqb_spec (a_FixedVersion a) "") as [Ef|Ef]|]; simpl.
    + split; [done|]. split; [lia|]. split; [by left|]. unfold HasFix. by rewrite Ep, Ef.
    + split; [done|]. split; [lia|]. split; [by left|]. unfold HasFix. simpl. by rewrite Ep.
    + split; [done|]. split; [lia|]. split; [by left|]. unfold HasFix at 1 2. apply String.eqb_neq in Ep. by rewrite Ep.
Qed.

(** [d] sums up the advisories [advs] read for its id. *)
Definition sums_up (advs : list Advisory) (d : Advisory) : Prop :=
  (exists a, a ∈ advs /\ a_ID a = a_ID d /\ a_Level a = a_Level d) /\
  (forall a, a ∈ advs -> a_ID a = a_ID d -> rank (a_Level a) <= rank (a_Level d)) /\
  (HasFix d = true <-> exists a, a ∈ advs /\ a_ID a = a_ID d /\ HasFix a = true).

Record tracks (advs : list Advisory) (s : progress) : Prop := {
  tr_nodup : NoDup (pg_order s);
  tr_order : forall id, id ∈ pg_order s <-> exists a, a ∈ advs /\ a_ID a = id;
  tr_dom : forall id, is_Some (pg_deepest s !! id) <-> id ∈ pg_order s;
  tr_deepest : forall id d, pg_deepest s !! id = Some d -> a_ID d = id /\ sums_up advs d }.

Lemma sums_up_snoc_other advs d a : a_ID a <> a_ID d -> sums_up advs d -> sums_up (advs ++ [a]) d.
Proof.
  intros Hne (H1 & H2 & H3). split; [|split].
  - destruct H1 as (b & Hb & E). exists b. split; [apply elem_of_app; by left|done].
  - intros b [Hb| ->%list_elem_of_singleton]%elem_of_app E; [by apply H2|done].
  - rewrite H3. setoid_rewrite elem_of_app. setoid_rewrite list_elem_of_singleton. naive_solver.
Qed.

Lemma sums_up_new advs a : (forall b, b ∈ advs -> a_ID b <> a_ID a) -> sums_up (advs ++ [a]) a.
Proof.
  intros Hnew. split; [|split].
  - exists a. split; [apply elem_of_app; right; by left|done].
  - intros b [Hb| ->%list_elem_of_singleton]%elem_of_app E; [by destruct (Hnew b)|lia].
  - setoid_rewrite elem_of_app. setoid_rewrite list_elem_of_singleton. naive_solver.
Qed.

Lemma sums_up_merge advs prev a : a_ID prev = a_ID a -> sums_up advs prev -> sums_up (advs ++ [a]) (merge prev a).
Proof.
  intros E (H1 & H2 & H3). destruct (merge_spec prev a E) as (Ei & Er & El & Ef). split; [|split].
  - rewrite Ei. destruct El as [El|El]; rewrite El.
    + destruct H1 as (b & Hb & Eb & Lb). exists b. split; [apply elem_of_app; by left|]. split; [congruence|done].
    + exists a. split; [apply elem_of_app; right; by left|done].
  - intros b [Hb| ->%list_elem_of_singleton]%elem_of_app Eb; [|lia]. rewrite Ei, <- E in Eb. specialize (H2 b Hb Eb). lia.
  - rewrite Ef, Ei, orb_true_iff, H3, E. setoid_rewrite elem_of_app. setoid_rewrite list_elem_of_singleton. naive_solver.
Qed.

Lemma tracks_add advs s a : tracks advs s -> tracks (advs ++ [a]) (add_finding a s).
Proof.
  intros [Hn Ho Hd Hs]. unfold add_finding. destruct (pg_deepest s !! a_ID a) as [prev|] eqn:E.
  - assert (Hin : a_ID a ∈ pg_order s) by (apply Hd; eauto). destruct (Hs _ _ E) as [Ei Hsum]. constructor; simpl.
    + done.
    + intros id. rewrite Ho. setoid_rewrite elem_of_app. setoid_rewrite list_elem_of_singleton. split; [naive_solver|].
      intros (b & [Hb| ->] & <-); [eauto|]. by apply Ho.
    + intros id. destruct (decide (id = a_ID a)) as [->|Hne]; [rewrite lookup_insert_eq; split; eauto|by rewrite lookup_insert_ne].
    + intros id d. destruct (decide (id = a_ID a)) as [->|Hne].
      * rewrite lookup_insert_eq. intros [= <-]. split; [by apply merge_spec|by apply sums_up_merge].
      * rewrite lookup_insert_ne by done. intros [Eid Hsum']%Hs. split; [done|]. apply sums_up_snoc_other; [congruence|done].
  - assert (Hout : a_ID a ∉ pg_order s) by (intros [x Hx]%Hd; congruence). constructor; simpl.
    + apply NoDup_app. split; [done|]. split; [|apply NoDup_singleton]. intros id Hid ->%list_elem_of_singleton. done.
    + intros id. rewrite elem_of_app, Ho, list_elem_of_singleton. setoid_rewrite elem_of_app. setoid_rewrite list_elem_of_singleton. naive_solver.
    + intros id. rewrite elem_of_app, list_elem_of_singleton. destruct (decide (id = a_ID a)) as [->|Hne];
        [rewrite lookup_insert_eq; split; eauto|rewrite lookup_insert_ne by done; rewrite Hd; naive_solver].
    + intros id d. destruct (decide (id = a_ID a)) as [->|Hne].
      * rewrite lookup_insert_eq. intros [= <-]. split; [done|]. apply sums_up_new. intros b Hb Eb. apply Hout, Ho. eauto.
      * rewrite lookup_insert_ne by done. intros [Eid Hsum']%Hs. split; [done|]. apply sums_up_snoc_other; [congruence|done].
Qed.

(* ------------------------------------------------------------------ *)
(** ** Depth of a trace *)

(** A trace goes as deep as [level]. *)
Definition reaches (trace : list frame) (level : Level) : Prop :=
  match level with
  | LevelModule => True
  | LevelPackage => exists f, f ∈ trace /\ (fr_Function f <> "" \/ fr_Package f <> "")
  | LevelSymbol => exists f, f ∈ trace /\ fr_Function f <> ""
  end.

Lemma reaches_snoc trace f level : reaches (trace ++ [f]) level <-> reaches trace level \/ reaches [f] level.
Proof.
  unfold reaches. destruct level; [tauto| |]; setoid_rewrite elem_of_app; setoid_rewrite list_elem_of_singleton; naive_solver.
Qed.

Lemma levelOf_spec trace level : rank level <= rank (levelOf trace) <-> reaches trace level.
Proof.
  revert level. induction trace as [|f trace IH] using rev_ind; intros level.
  - unfold levelOf. simpl. destruct level; simpl; split; intros H; try lia; try done;
      destruct H as (f & Hf & _); by apply elem_of_nil in Hf.
  - rewrite reaches_snoc, <- IH. unfold levelOf. rewrite fold_left_app. cbn [fold_left]. fold (levelOf trace).
    assert (Hone : forall lv, reaches [f] lv <-> match lv with LevelModule => True
      | LevelPackage => fr_Function f <> "" \/ fr_Package f <> "" | LevelSymbol => fr_Function f <> "" end).
    { intros []; simpl; [done| |]; setoid_rewrite list_elem_of_singleton; naive_solver. }
    rewrite Hone. destruct (String.eqb_spec (fr_Function f) "") as [Ef|Ef]; simpl.
    + destruct (String.eqb_spec (fr_Package f) "") as [Ep|Ep]; simpl.
      * destruct level; simpl; [|tauto|tauto]. destruct (levelOf trace); simpl; lia.
      * destruct (levelOf trace), level; simpl; split; intros; try lia; tauto.
    + destruct (levelOf trace), level; simpl; split; intros; try lia; tauto.
Qed.

(* ------------------------------------------------------------------ *)
(** ** The report of a list of messages *)

(** The advisory of a readable finding. *)
Definition adv (f : streamFinding) : Advisory := match advisoryOf f with Ok a => a | Err _ => zero_advisory end.

Lemma adv_spec f : readable f -> a_ID (adv f) = sf_OSV f /\ a_Level (adv f) = levelOf (sf_Trace f) /\ a_FixedVersion (adv f) = sf_FixedVersion f.
Proof.
  intros [a Ea]%readable_ok. unfold adv. rewrite Ea. unfold advisoryOf in Ea. destruct (negb _); [done|].
  destruct (sf_Trace f) as [|v t] eqn:E; [done|]. by injection Ea as <-.
Qed.

Lemma tracks_start : tracks [] (mkProgress None ∅ ∅ []).
Proof.
  constructor; simpl; [constructor| | |].
  - intros id. split; [by intros ?%elem_of_nil|]. by intros (a & ?%elem_of_nil & _).
  - intros id. rewrite lookup_empty. split; [by intros [? ?]|by intros ?%elem_of_nil].
  - intros id d. by rewrite lookup_empty.
Qed.

Lemma read_messages_ok ms : forall advs s s', tracks advs s -> read_messages ms s = Ok s' ->
  Forall readable (findings_of ms) /\ pg_cfg s' = last_config ms (pg_cfg s) /\ tracks (advs ++ map adv (findings_of ms)) s'.
Proof.
  induction ms as [|m ms IH]; intros advs s s' Ht; cbn [read_messages].
  - intros [= <-]. simpl. rewrite app_nil_r. split; [constructor|done].
  - destruct (read_message m s) as [s1|] eqn:Em; [|done]. intros Hr. unfold last_config. cbn [fold_left]. fold (last_config ms).
    unfold read_message in Em. cbn [findings_of omap list_omap]. fold (findings_of ms).
    assert (Hsame : forall c sums, tracks advs (mkProgress c sums (pg_deepest s) (pg_order s))) by (destruct Ht; by constructor).
    destruct (sm_Config m) as [c|], (sm_OSV m) as [o|], (sm_Finding m) as [f|];
      try (injection Em as <-; exact (IH _ _ _ (Hsame _ _) Hr)); [|injection Em as <-; exact (IH _ _ _ Ht Hr)].
    destruct (advisoryOf f) as [a|] eqn:Ea; [|done]. injection Em as <-.
    destruct (IH (advs ++ [a])%list _ _ (tracks_add _ _ a Ht) Hr) as (H1 & H2 & H3).
    split; [constructor; [apply readable_ok; eauto|done]|]. split.
    + rewrite H2. unfold add_finding. by destruct (pg_deepest s !! a_ID a).
    + cbn [map]. unfold adv at 1. rewrite Ea. by rewrite <- app_assoc in H3.
Qed.

Lemma read_messages_total ms : forall s, Forall readable (findings_of ms) -> exists s', read_messages ms s = Ok s'.
Proof.
  induction ms as [|m ms IH]; intros s; cbn [read_messages]; [eauto|]. unfold read_message.
  cbn [findings_of omap list_omap]. fold (findings_of ms). intros Hf.
  destruct (sm_Config m) as [c|], (sm_OSV m) as [o|], (sm_Finding m) as [f|]; try (by apply IH).
  apply Forall_cons in Hf as [[a ->]%readable_ok H2]. by apply IH.
Qed.

(** The configuration of a full-depth source scan by govulncheck. *)
Definition full_scan (c : streamConfig) : Prop :=
  sc_ScannerName c = "govulncheck" /\ sc_ScanLevel c = "symbol" /\ sc_ScanMode c = "source".

Lemma checked_config_ok cfg c : checked_config cfg = Ok c <-> cfg = Some c /\ full_scan c.
Proof.
  unfold checked_config, full_scan, scannerName, wantScanLevel, wantScanMode. destruct cfg as [d|]; [|naive_solver].
  destruct (String.eqb_spec (sc_ScannerName d) "govulncheck"), (String.eqb_spec (sc_ScanLevel d) "symbol"),
    (String.eqb_spec (sc_ScanMode d) "source"); simpl; naive_solver.
Qed.

(** Strictly increasing in byte order. *)
Definition str_lt (a b : string) : Prop := str_ltb a b = true.

Lemma sorted_strictly l : NoDup l -> StronglySorted str_lt (stable_sort str_ltb l).
Proof.
  intros Hn. pose proof (stable_sort_sorted str_ltb str_ltb_asym str_ltb_negtrans l) as Hs.
  assert (Hn' : NoDup (stable_sort str_ltb l)) by by rewrite stable_sort_perm.
  induction Hs as [|x l' Hs IH Hx]; [constructor|]. apply NoDup_cons in Hn' as [Hx' Hn']. constructor; [by apply IH|].
  rewrite Forall_forall in *. intros y Hy. specialize (Hx y Hy). unfold sort_le in Hx. unfold str_lt.
  destruct (str_ltb x y) eqn:E; [done|]. destruct Hx'. by rewrite (str_ltb_total x y E Hx).
Qed.

Section Exact.
Context `{U : Unicode}.

Lemma stream_of_unique l ms ms' : stream_of l ms -> stream_of l ms' -> ms = ms'.
Proof.
  intros H. revert ms'. induction H as [l E|l v rest m ms Hw Hv Hm Hs IH]; intros ms' H'; inversion H'; subst; [done|congruence|congruence|].
  simplify_eq. f_equal. by apply IH.
Qed.

(** What [ParseReport] returns, out of what its loop kept. *)
Lemma ParseReport_inv out r : ParseReport out = Ok r <->
  exists ms c s, stream_of (to_list out) ms /\ read_messages ms (mkProgress None ∅ ∅ []) = Ok s /\ last_config ms None = Some c /\ full_scan c /\
    r = mkReport (sc_ScannerVersion c) (sc_DB c) (sc_DBLastModified c) (sc_GoVersion c) (sc_ScanLevel c) (sc_ScanMode c)
      (map (fun id => with_summary s id (default zero_advisory (pg_deepest s !! id))) (stable_sort str_ltb (pg_order s))).
Proof.
  unfold ParseReport. set (s0 := mkProgress None ∅ ∅ []).
  pose proof (fun s => read_stream_spec (S (String.length out)) (to_list out) s0 s ltac:(rewrite length_to_list; lia)) as Hspec.
  split.
  - destruct (read_stream _ _ s0) as [s|] eqn:E; [|done]. destruct (proj1 (Hspec s) eq_refl) as (ms & Hs & Hr).
    destruct (checked_config (pg_cfg s)) as [c|] eqn:Ec; [|done]. intros [= <-].
    destruct (read_messages_ok ms [] s0 s tracks_start Hr) as (_ & Hc & _). apply checked_config_ok in Ec as [Ec Hf].
    exists ms, c, s. split; [done|]. split; [done|]. split; [by rewrite <- Ec, Hc|done].
  - intros (ms & c & s & Hs & Hr & Hc & Hf & ->). rewrite (proj2 (Hspec s)) by eauto.
    destruct (read_messages_ok ms [] s0 s tracks_start Hr) as (_ & Hc' & _). cbn [pg_cfg s0] in Hc'.
    by rewrite (proj2 (checked_config_ok (pg_cfg s) c)) by (rewrite Hc'; done).
Qed.

Lemma ParseReport_succeeds (out : string) : (exists r, ParseReport out = Ok r) <->
  exists ms c, stream_of (to_list out) ms /\ Forall readable (findings_of ms) /\ last_config ms None = Some c /\ full_scan c.
Proof.
  setoid_rewrite ParseReport_inv. split.
  + intros (r & ms & c & s & Hs & Hr & Hc & Hf & _). exists ms, c. split; [done|]. split; [|done].
    by eapply read_messages_ok; [exact tracks_start|].
  + intros (ms & c & Hs & Hok & Hc & Hf). destruct (read_messages_total ms (mkProgress None ∅ ∅ []) Hok) as [s Hr].
    eexists _, ms, c, s. by repeat split; try done; apply Hf.
Qed.

(** [r] is the verdict of the findings of [ms]. *)
Definition verdict_of (ms : list streamMessage) (r : Report) : Prop :=
  StronglySorted str_lt (IDs r) /\
  (forall id, id ∈ IDs r <-> exists f, f ∈ findings_of ms /\ sf_OSV f = id) /\
  forall a, a ∈ rp_Advisories r ->
    (forall level, rank level <= rank (a_Level a) <->
       exists f, f ∈ findings_of ms /\ sf_OSV f = a_ID a /\ reaches (sf_Trace f) level) /\
    (HasFix a = true <-> exists f, f ∈ findings_of ms /\ sf_OSV f = a_ID a /\ sf_FixedVersion f <> "").

Lemma ParseReport_verdict (out : string) (r : Report) (ms : list streamMessage) :
  ParseReport out = Ok r -> stream_of (to_list out) ms -> verdict_of ms r.
Proof.
  intros (ms' & c & s & Hs & Hr & Hc & Hf & ->)%ParseReport_inv Hms. rewrite (stream_of_unique _ _ _ Hs Hms) in *. clear Hs.
  destruct (read_messages_ok ms [] _ s tracks_start Hr) as (Hok & _ & [Hn Ho Hd Hsum]). rewrite app_nil_l in *.
  assert (Hadv : forall (P : Advisory -> Prop), (exists a, a ∈ map adv (findings_of ms) /\ P a) <-> exists f, f ∈ findings_of ms /\ P (adv f)).
  { intros P. split; [intros (a & (f & -> & Hin)%list_elem_of_fmap & Ha); eauto|].
    intros (f & Hin & Ha). exists (adv f). split; [by apply list_elem_of_fmap_2|done]. }
  assert (Hspec : forall f, f ∈ findings_of ms -> a_ID (adv f) = sf_OSV f /\ a_Level (adv f) = levelOf (sf_Trace f) /\ a_FixedVersion (adv f) = sf_FixedVersion f)
    by (intros f Hin; apply adv_spec; by eapply Forall_forall in Hok).
  assert (Hids : forall id, id ∈ pg_order s -> exists d, pg_deepest s !! id = Some d /\ a_ID d = id /\ sums_up (map adv (findings_of ms)) d).
  { intros id [d E]%Hd. exists d. destruct (Hsum _ _ E). done. }
  assert (Eids : map a_ID (map (fun id => with_summary s id (default zero_advisory (pg_deepest s !! id))) (stable_sort str_ltb (pg_order s)))
               = stable_sort str_ltb (pg_order s)).
  { rewrite map_map. rewrite <- (map_id (stable_sort str_ltb (pg_order s))) at 2. apply map_ext_in. intros id Hin%list_elem_of_In.
    rewrite stable_sort_perm in Hin. destruct (Hids id Hin) as (d & -> & Ed & _). exact Ed. }
  unfold verdict_of, IDs. cbn [rp_Advisories]. rewrite Eids. split; [by apply sorted_strictly|]. split.
  + intros id. rewrite stable_sort_perm, Ho, Hadv. split; intros (f & Hin & E); exists f; (split; [done|]);
      destruct (Hspec f Hin) as (Ei & _); congruence.
  + intros a (id & -> & Hin)%list_elem_of_fmap. rewrite stable_sort_perm in Hin. destruct (Hids id Hin) as (d & -> & Ed & (H1 & H2 & H3)).
    cbn [default with_summary a_ID a_Level]. subst id. split.
    * intros level. split.
      -- intros Hl. destruct H1 as (b & (f & -> & Hf')%list_elem_of_fmap & Eb & Lb). exists f. destruct (Hspec f Hf') as (Ei & El & _).
         split; [done|]. split; [by rewrite <- Ei|]. apply levelOf_spec. by rewrite <- El, Lb.
      -- intros (f & Hf' & Ei & Hreach%levelOf_spec). destruct (Hspec f Hf') as (Ei' & El & _).
         etransitivity; [exact Hreach|]. rewrite <- El. apply H2; [by apply list_elem_of_fmap_2|by rewrite Ei'].
    * unfold HasFix at 1. cbn [a_FixedVersion]. fold (HasFix d). rewrite H3, (Hadv (fun a => a_ID a = a_ID d /\ HasFix a = true)).
      split; intros (f & Hf' & E1 & E2); exists f; destruct (Hspec f Hf') as (Ei & _ & Efix); (split; [done|split; [first [by rewrite Ei|by rewrite <- Ei]|]]);
        unfold HasFix in *; rewrite ?Efix in *; [by apply negb_true_iff, String.eqb_neq in E2|by apply negb_true_iff, String.eqb_neq].
Qed.

(** The report is the whole verdict.  [ParseReport] succeeds exactly on a text
    that is a stream of JSON objects end to end, whose findings all have an OSV id
    and a trace, and whose last configuration is a full-depth source scan by
    govulncheck.  Its advisories are then in increasing order of id, one for each id
    a finding names at whatever level; an advisory is at least at a level exactly
    when the trace of one of its findings reaches that level, and has a fix exactly
    when one of its findings names a fixed version. *)
Theorem ParseReport_exact (out : string) :
  ((exists r, ParseReport out = Ok r) <->
   exists ms c, stream_of (to_list out) ms /\ Forall readable (findings_of ms) /\ last_config ms None = Some c /\ full_scan c) /\
  forall r ms, ParseReport out = Ok r -> stream_of (to_list out) ms -> verdict_of ms r.
Proof. split; [apply ParseReport_succeeds|apply ParseReport_verdict]. Qed.
End Exact.

(* ------------------------------------------------------------------ *)
(** ** Recorded suppressions *)

(** A record with exactly the four keys, none of them blank, an OSV id and a date. *)
Definition complete_record (fields : gmap string string) : Prop :=
  (forall key, is_Some (fields !! key) <-> key ∈ requiredKeys) /\
  (forall key, key ∈ requiredKeys -> field fields key <> "") /\
  advisory_id (field fields "id") /\ is_date (field fields "recorded") = true.

Definition entry_of (fields : gmap string string) : Entry :=
  mkEntry (field fields "id") (field fields "reason") (field fields "reachability") (field fields "recorded").

Lemma filter_empty {A} (p : A -> bool) l : List.filter p l = [] <-> forall x, x ∈ l -> p x = false.
Proof.
  split; [|apply filter_none]. intros E x Hx. destruct (p x) eqn:Ep; [|done].
  assert (H : x ∈ List.filter p l) by by apply elem_of_filter_b. by rewrite E in H; apply elem_of_nil in H.
Qed.

Lemma isRequiredKey_spec key : isRequiredKey key = true <-> key ∈ requiredKeys.
Proof.
  unfold isRequiredKey. rewrite existsb_elem. split; [intros (k & Hk & ->%String.eqb_eq); done|].
  intros Hk. exists key. by rewrite String.eqb_refl.
Qed.

Lemma keys_complete fields : missing_keys fields = [] /\ empty_keys fields = [] /\ unknown_keys fields = [] <->
  (forall key, is_Some (fields !! key) <-> key ∈ requiredKeys) /\ (forall key, key ∈ requiredKeys -> field fields key <> "").
Proof.
  unfold missing_keys, empty_keys, unknown_keys. rewrite !filter_empty. split.
  - intros (Hm & He & Hu).
    assert (Hin : forall key, key ∈ requiredKeys -> is_Some (fields !! key)).
    { intros key Hk. specialize (Hm key Hk). destruct (fields !! key); [eauto|done]. }
    split.
    + intros key. split; [|apply Hin]. intros [v Hv]. apply isRequiredKey_spec.
      assert (Hk : key ∈ map fst (map_to_list fields)) by (apply list_elem_of_fmap; exists (key, v); split; [done|by apply elem_of_map_to_list]).
      specialize (Hu key Hk). by apply negb_false_iff in Hu.
    + intros key Hk. specialize (He key Hk). unfold field. destruct (Hin key Hk) as [v Hv]. rewrite Hv in *. simpl. by apply String.eqb_neq.
  - intros [Hd Hf]. split; [|split].
    + intros key [v Hv]%Hd. by rewrite Hv.
    + intros key Hk. specialize (Hf key Hk). unfold field in Hf. destruct (fields !! key); [|done]. simpl in Hf. by apply String.eqb_neq.
    + intros key ([k v] & -> & Hin%elem_of_map_to_list)%list_elem_of_fmap. apply negb_false_iff, isRequiredKey_spec, Hd. eauto.
Qed.

Lemma keyed_nil p l : keyed p l = [] <-> l = [].
Proof. by destruct l. Qed.

Lemma blame_nil {A} (b : bool) (x : A) : (if b then [x] else []) = [] <-> b = false.
Proof. by destruct b. Qed.

(** A node adds no problem exactly when it is a complete record of a new id. *)
Lemma check_node_clean i node seen seen' e : check_node i node seen = ([], seen', e) <->
  exists fields, node_mapping node = true /\ node_fields node = Some fields /\ complete_record fields /\
    seen !! field fields "id" = None /\ seen' = <[field fields "id" := S i]> seen /\ e = Some (entry_of fields).
Proof.
  unfold check_node. destruct (node_mapping node); simpl; [|split; [done|naive_solver]].
  destruct (node_fields node) as [fields|]; [|split; [done|naive_solver]].
  set (id := field fields "id"). set (rec := field fields "recorded").
  set (dup := match seen !! id with Some first => if negb (String.eqb id "") then [PDuplicate i first] else [] | None => [] end).
  match goal with |- (?p, _, _) = _ <-> _ => set (problems := p) end.
  assert (Hp : problems = [] <-> complete_record fields /\ seen !! id = None).
  { unfold problems, complete_record. rewrite !app_nil, !keyed_nil, !blame_nil. fold id rec. rewrite <- reAdvisoryID_spec.
    pose proof (keys_complete fields) as Hk. split.
    - intros (H1 & H2 & H3 & H4 & H5 & H6). destruct (proj1 Hk (conj H1 (conj H2 H3))) as [Hd Hf].
      assert (Hid : String.eqb id "" = false) by (apply String.eqb_neq, Hf; unfold requiredKeys; set_solver).
      assert (Hrec : String.eqb rec "" = false) by (apply String.eqb_neq, Hf; unfold requiredKeys; set_solver).
      rewrite Hid in H4. rewrite Hrec in H5. apply negb_false_iff in H4, H5. unfold dup in H6. rewrite Hid in H6.
      destruct (seen !! id); [done|]. done.
    - intros [(Hd & Hf & Hid & Hrec) Hs]. destruct (proj2 Hk (conj Hd Hf)) as (H1 & H2 & H3).
      unfold dup. rewrite Hs, Hid, Hrec, !andb_false_r. done. }
  split.
  - intros [= Ep <- <-]. destruct (proj1 Hp Ep) as [Hc Hs]. exists fields. rewrite Ep.
    assert (Hid : String.eqb id "" = false) by (apply String.eqb_neq; apply Hc; unfold requiredKeys; set_solver).
    unfold dup. rewrite Hs, Hid. done.
  - intros (f & _ & [= <-] & Hc & Hs & -> & ->). fold id in Hs. rewrite (proj2 Hp (conj Hc Hs)).
    assert (Hid : String.eqb id "" = false) by (apply String.eqb_neq; apply Hc; unfold requiredKeys; set_solver).
    unfold dup. rewrite Hs, Hid. done.
Qed.

(** The records a file's nodes hold, when they are all mappings of strings. *)
Definition records (nodes : list yaml_node) (rs : list (gmap string string)) : Prop :=
  Forall2 (fun node fields => node_mapping node = true /\ node_fields node = Some fields) nodes rs.

Lemma check_nodes_problems nodes : forall i seen problems entries problems' entries',
  check_nodes i nodes seen problems entries = (problems', entries') -> problems' = [] -> problems = [].
Proof.
  induction nodes as [|node nodes IH]; intros i seen problems entries problems' entries'; cbn [check_nodes]; [by intros [= <- <-]|].
  destruct (check_node i node seen) as [[more seen1] e]. intros H Hp. by apply (IH _ _ _ _ _ _ H), app_nil in Hp as [-> _].
Qed.

Lemma check_nodes_clean nodes : forall i seen entries entries',
  check_nodes i nodes seen [] entries = ([], entries') <->
  exists rs, records nodes rs /\ Forall complete_record rs /\ NoDup (map (fun r => field r "id") rs) /\
    (forall r, r ∈ rs -> seen !! field r "id" = None) /\ entries' = (entries ++ map entry_of rs)%list.
Proof.
  induction nodes as [|node nodes IH]; intros i seen entries entries'; cbn [check_nodes].
  - split.
    + intros [= <-]. exists []. simpl. rewrite app_nil_r. repeat split; try constructor. by intros r ?%elem_of_nil.
    + intros (rs & Hr & _ & _ & _ & ->). inversion Hr; subst. simpl. by rewrite app_nil_r.
  - destruct (check_node i node seen) as [[more seen1] e] eqn:En. split.
    + intros H. pose proof (check_nodes_problems _ _ _ _ _ _ _ H eq_refl) as Hm. simpl in Hm. subst more.
      apply check_node_clean in En as (f & H1 & H2 & H3 & H4 & -> & ->). apply IH in H as (rs & R1 & R2 & R3 & R4 & ->).
      exists (f :: rs). split; [by constructor|]. split; [by constructor|]. split; [|split].
      * constructor; [|done]. intros (r & Er & Hin)%list_elem_of_fmap. specialize (R4 r Hin). by rewrite <- Er, lookup_insert_eq in R4.
      * intros r [->|Hin]%elem_of_cons; [done|]. specialize (R4 r Hin).
        destruct (decide (field r "id" = field f "id")) as [E|E]; [by rewrite E, lookup_insert_eq in R4|by rewrite lookup_insert_ne in R4].
      * by rewrite <- app_assoc.
    + intros (rs & R1 & R2 & R3 & R4 & ->). inversion R1 as [|? f ? rs' [Hm Hf] R1']; subst.
      apply Forall_cons in R2 as [C R2]. apply NoDup_cons in R3 as [Hni R3].
      assert (Hseen : seen !! field f "id" = None) by (apply R4; by left).
      assert (En' : check_node i node seen = ([], <[field f "id" := S i]> seen, Some (entry_of f))) by (apply check_node_clean; eauto 8).
      rewrite En' in En. injection En as <- <- <-. simpl. apply IH. exists rs'. split; [done|]. split; [done|]. split; [done|]. split.
      * intros r Hin. rewrite lookup_insert_ne; [apply R4; by right|]. intros E. apply Hni. apply list_elem_of_fmap. exists r. by rewrite E.
      * by rewrite <- app_assoc.
Qed.

(** The package's own insertion sort is a sort. *)
Lemma move_down_perm x before : move_down x before ≡ₚ x :: before.
Proof. induction before as [|y b IH]; simpl; [done|]. destruct (str_ltb x y); [|done]. rewrite IH. constructor. Qed.

Lemma move_down_sorted x before : StronglySorted (fun a b => str_ltb a b = false) before ->
  StronglySorted (fun a b => str_ltb a b = false) (move_down x before).
Proof.
  induction 1 as [|y b Hb IH Hy]; simpl; [repeat constructor|]. destruct (str_ltb x y) eqn:E.
  - constructor; [done|]. rewrite Forall_forall in *. intros z Hz. rewrite move_down_perm in Hz.
    apply elem_of_cons in Hz as [->|Hz]; [by apply str_ltb_asym|auto].
  - constructor; [by constructor|]. constructor; [done|]. rewrite Forall_forall in *. intros z Hz.
    eapply str_ltb_negtrans; [by apply Hy|done].
Qed.

Lemma sorted_spec l : sorted l ≡ₚ l /\ StronglySorted (fun a b => str_ltb b a = false) (sorted l).
Proof.
  unfold sorted. assert (H : forall before, fold_left (fun before x => move_down x before) l before ≡ₚ rev l ++ before /\
    (StronglySorted (fun a b => str_ltb a b = false) before ->
     StronglySorted (fun a b => str_ltb a b = false) (fold_left (fun before x => move_down x before) l before))).
  { induction l as [|x l IH]; intros before; simpl; [done|]. destruct (IH (move_down x before)) as [H1 H2]. split.
    - rewrite H1, move_down_perm, <- app_assoc. done.
    - intros Hs. by apply H2, move_down_sorted. }
  destruct (H []) as [H1 H2]. split; [by rewrite Permutation_rev, rev_involutive, H1, app_nil_r, <- Permutation_rev|].
  exact (StronglySorted_rev _ _ (H2 (SSorted_nil _))).
Qed.

Section Suppressions.
Context `{U : Unicode} `{Y : YAML}.

(** A suppression file is accepted exactly when it is a sequence of complete
    records of distinct advisories - each a mapping with the four keys and no other,
    no value blank, an id of the form GO-year-number and an ISO date - and the
    entries are then those records, none added, none skipped. *)
Theorem ParseSuppressions_exact (data : string) (entries : list Entry) : ParseSuppressions data = Ok entries <->
  exists nodes rs, yaml_Sequence data = Some nodes /\ records nodes rs /\ Forall complete_record rs /\
    NoDup (map en_ID entries) /\ entries = map entry_of rs.
Proof.
  assert (Hids : forall rs, map en_ID (map entry_of rs) = map (fun r => field r "id") rs) by (intros rs; by rewrite map_map).
  unfold ParseSuppressions. destruct (yaml_Sequence data) as [nodes|]; [|split; [done|naive_solver]].
  pose proof (check_nodes_clean nodes 0 ∅ []) as Hc. destruct (check_nodes 0 nodes ∅ [] []) as [problems es] eqn:E. split.
  - destruct problems as [|p ps]; [|done]. intros [= <-]. destruct (proj1 (Hc es) eq_refl) as (rs & R1 & R2 & R3 & _ & ->).
    exists nodes, rs. split; [done|]. split; [done|]. split; [done|]. split; [by rewrite app_nil_l, Hids|done].
  - intros (ns & rs & [= <-] & R1 & R2 & R3 & ->). rewrite Hids in R3.
    assert (Ec : (problems, es) = ([], map entry_of rs)) by (apply Hc; exists rs; repeat split; try done; intros; apply lookup_empty).
    by injection Ec as -> ->.
Qed.
End Suppressions.

(* ------------------------------------------------------------------ *)
(** ** The pin *)

(** An exact version: v, three numbers, an optional pre-release, optional build data. *)
Definition exact_pin (s : string) : Prop :=
  exists a b c pre build, number a /\ number b /\ number c /\ suffix "-" pre /\ suffix "+" build /\
    to_list s = (to_list "v" ++ a ++ to_list "." ++ b ++ to_list "." ++ c ++ pre ++ build)%list.

Lemma exact_pin_spec s : MatchString rePinnedVersion s = true <-> exact_pin s.
Proof.
  change rePinnedVersion with (Seq (chain BeginText
    [Chr false [(118, 118)]; digits_re; Chr false [(46, 46)]; digits_re; Chr false [(46, 46)]; digits_re; suffix_re 45; suffix_re 43]) EndText).
  rewrite match_whole; [|plain_parts; first [apply plain_digits|by apply (plain_suffix "-")|by apply (plain_suffix "+")]]. unfold exact_pin. split.
  - intros (ws & F & E). chain_parts.
    match type of E with _ = concat [_; ?a; _; ?b; _; ?c; ?p; ?q] => exists a, b, c, p, q end.
    do 5 (split; [done|]). rewrite E. simpl. by rewrite app_nil_r.
  - intros (a & b & c & p & q & Ha & Hb & Hc & Hp & Hq & E). exists [[byte_of 118]; a; [byte_of 46]; b; [byte_of 46]; c; p; q].
    split; [chain_build|]. rewrite E. simpl. by rewrite app_nil_r.
Qed.

(* ------------------------------------------------------------------ *)
(** ** The gate *)

(** The pinned tool, installed and run to its end, wrote [out]. *)
Definition pinned_run (mc : Machine) (r : GovulncheckRunner) (out : string) : Prop :=
  exact_pin (r_Version r) /\ r_Patterns r <> [] /\
  exists dir o1 e1 err, tmp_dir mc = Some dir /\
    exec_go mc ["install"; "golang.org/x/vuln/cmd/govulncheck@" ++ r_Version r] = Exited 0 o1 e1 /\
    exec_tool mc (dir ++ "/govulncheck") ("-format" :: "json" :: r_Patterns r) = Exited 0 out err.

Lemma Run_clean mc r out : (exists res, Run mc r = (res, false) /\ ExitCode res = 0 /\ Stdout res = out) <-> pinned_run mc r out.
Proof.
  unfold Run, InstallArgs, ScanArgs, pinned_run, jsonFormat, toolName, modulePath. rewrite <- exact_pin_spec.
  destruct (MatchString rePinnedVersion (r_Version r)); cbn [negb]; [|split; [by intros (res & ? & _)|by intros (? & _)]].
  destruct (r_Patterns r) as [|p ps]; [split; [by intros (res & ? & _)|by intros (_ & ? & _)]|].
  destruct (tmp_dir mc) as [dir|]; [|split; [by intros (res & ? & _)|by intros (_ & _ & ? & ? & ? & ? & ? & _)]].
  match goal with |- context [exec_go mc ?args] => destruct (exec_go mc args) as [[|st|st] o1 e1|o1 e1] eqn:Eg end;
    try (split; [by intros (res & ? & _)|intros (_ & _ & d & x & y & z & _ & H & _); by pose proof (eq_trans (eq_sym Eg) H)]).
  match goal with |- context [exec_tool mc ?path ?args] => destruct (exec_tool mc path args) as [st o2 e2|o2 e2] eqn:Et end.
  - split.
    + intros (res & [= <-] & E1 & E2). cbn in *. subst st out. split; [done|]. split; [done|]. exists dir, o1, e1, e2. done.
    + intros (_ & _ & d & x & y & z & [= <-] & _ & H). pose proof (eq_trans (eq_sym Et) H) as [= -> -> ->].
      exists (mkResult out z 0). done.
  - split; [by intros (res & ? & _)|]. intros (_ & _ & d & x & y & z & [= <-] & _ & H). by pose proof (eq_trans (eq_sym Et) H).
Qed.

Lemma complaint_nil kind l : complaint kind l = [] <-> l = [].
Proof. by destruct l. Qed.

Lemma map_nil {A B} (f : A -> B) l : map f l = [] <-> l = [].
Proof. by destruct l. Qed.

(** The verdict is empty exactly when every advisory is recorded and has no fix, and
    every record has its advisory. *)
Lemma Evaluate_clean reported entries : Evaluate reported entries = [] <->
  (forall a, a ∈ reported -> (exists e, e ∈ entries /\ en_ID e = a_ID a) /\ HasFix a = false) /\
  (forall e, e ∈ entries -> en_ID e ∈ map a_ID reported).
Proof.
  unfold Evaluate. rewrite !app_nil, !complaint_nil, !map_nil, !filter_empty.
  assert (Hr : forall a, recorded entries (a_ID a) = true <-> exists e, e ∈ entries /\ en_ID e = a_ID a).
  { intros a. unfold recorded. rewrite existsb_elem. by setoid_rewrite String.eqb_eq. }
  assert (Hp : forall e, is_reported reported (en_ID e) = true <-> en_ID e ∈ map a_ID reported).
  { intros e. unfold is_reported. rewrite existsb_elem, list_elem_of_fmap. setoid_rewrite String.eqb_eq.
    split; intros (a & H1 & H2); by exists a. }
  setoid_rewrite negb_false_iff. setoid_rewrite <- Hr. setoid_rewrite <- Hp. split.
  - intros (H1 & H2 & H3). split; [|done]. intros a Ha. split; [by apply H1|]. specialize (H2 a Ha). rewrite (H1 a Ha) in H2. by apply negb_false_iff.
  - intros [H1 H2]. split; [intros a Ha; by apply H1|]. split; [|done]. intros a Ha. destruct (H1 a Ha) as [-> Hx]. by apply negb_false_iff.
Qed.

Section Gate.
Context `{U : Unicode} `{Y : YAML}.

(** A verdict without complaint, in terms of the findings. *)
Lemma Evaluate_findings ms r entries : verdict_of ms r ->
  Evaluate (rp_Advisories r) entries = [] <->
  (forall f, f ∈ findings_of ms -> (exists e, e ∈ entries /\ en_ID e = sf_OSV f) /\ sf_FixedVersion f = "") /\
  (forall e, e ∈ entries -> exists f, f ∈ findings_of ms /\ sf_OSV f = en_ID e).
Proof.
  intros (_ & Hids & Hadv). rewrite Evaluate_clean. fold (IDs r). setoid_rewrite Hids. split.
  - intros [H1 H2]. split; [|done]. intros f Hf. assert (Hin : sf_OSV f ∈ IDs r) by (apply Hids; eauto).
    apply list_elem_of_fmap in Hin as (a & Ea & Ha). destruct (H1 a Ha) as [He Hx]. rewrite Ea. split; [done|].
    destruct (decide (sf_FixedVersion f = "")) as [|Hne]; [done|]. destruct (Hadv a Ha) as [_ Hfix].
    rewrite (proj2 Hfix) in Hx; [done|]. eauto.
  - intros [H1 H2]. split; [|done]. intros a Ha. assert (Hin : a_ID a ∈ IDs r) by by apply list_elem_of_fmap_2.
    apply Hids in Hin as (f & Hf & E). split; [rewrite <- E; by apply H1|]. destruct (HasFix a) eqn:Ex; [|done].
    apply (Hadv a Ha) in Ex as (g & Hg & _ & Hne). by destruct Hne; apply H1.
Qed.

(** C27: the gate is green exactly when nothing is left unanswered.  [Check] has no
    complaint if and only if the suppression file reads as entries; the tool's
    version is an exact pin, it was installed at that version, was asked for JSON over
    at least one pattern and nothing else, and itself exited with status 0; what it
    wrote is a stream of objects to the end, every finding readable, from a
    full-depth scan; every finding, at whatever level, is of a recorded advisory and
    names no fixed version; and every entry's advisory has a finding. *)
Theorem gate_green_exact (mc : Machine) (r : GovulncheckRunner) (f : file) :
  fst (Check_gate f (Run mc r)) = [] <->
  exists entries out ms c, LoadSuppressions f = Ok entries /\ pinned_run mc r out /\
    stream_of (to_list out) ms /\ Forall readable (findings_of ms) /\ last_config ms None = Some c /\ full_scan c /\
    (forall x, x ∈ findings_of ms -> (exists e, e ∈ entries /\ en_ID e = sf_OSV x) /\ sf_FixedVersion x = "") /\
    (forall e, e ∈ entries -> exists x, x ∈ findings_of ms /\ sf_OSV x = en_ID e).
Proof.
  unfold Check_gate. destruct (LoadSuppressions f) as [entries|e]; [|split; [done|by intros (? & ? & ? & ? & ? & _)]].
  setoid_rewrite <- Run_clean. destruct (Run mc r) as [res failed]. destruct failed.
  { split; [done|]. by intros (? & out & ms & c & _ & (res' & ? & _) & _). }
  unfold exitReportProduced. destruct (Z.eqb_spec (ExitCode res) 0) as [E0|E0]; simpl.
  2:{ split; [done|]. intros (? & out & ms & c & _ & (res' & [= ->] & ? & _) & _). done. }
  destruct (ParseReport (Stdout res)) as [rp|e] eqn:Ep.
  - assert (Hok : exists r, ParseReport (Stdout res) = Ok r) by eauto.
    apply ParseReport_succeeds in Hok as (ms & c & Hs & Hf & Hc & Hfull).
    simpl. rewrite (Evaluate_findings ms rp entries) by by eapply ParseReport_verdict. split.
    + intros [H1 H2]. exists entries, (Stdout res), ms, c. eauto 12.
    + intros (? & out & ms' & c' & [= <-] & (? & [= <-] & _ & <-) & Hs' & _ & _ & _ & HX).
      by rewrite (stream_of_unique _ _ _ Hs Hs').
  - split; [done|]. intros (? & out & ms & c & _ & (? & [= <-] & _ & <-) & Hs & Hf & Hc & Hfull & _).
    destruct (proj2 (ParseReport_succeeds (Stdout res))) as [rp Er]; [eauto 8|]. by rewrite Er in Ep.
Qed.
End Gate.

(* ------------------------------------------------------------------ *)
(** ** Witnesses: one advisory without a fix, recorded *)

#[local] Existing Instance ascii_unicode.
Definition qt (s : string) : string := of_list (encode_string s).
Definition pair_text (k v : string) : string := qt k ++ ":" ++ v.

Definition sample_stream : string :=
  "{" ++ pair_text "config" ("{" ++ pair_text "scanner_name" (qt "govulncheck") ++ "," ++ pair_text "scan_level" (qt "symbol") ++ "," ++
    pair_text "scan_mode" (qt "source") ++ "}") ++ "} {" ++
  pair_text "finding" ("{" ++ pair_text "osv" (qt "GO-2024-0001") ++ "," ++ pair_text "trace" ("[{" ++ pair_text "module" (qt "m") ++ "}]") ++ "}") ++ "}".
Definition sample_messages : list streamMessage :=
  [mkStreamMessage (Some (mkStreamConfig "govulncheck" "" "" "" "" "symbol" "source")) None None;
   mkStreamMessage None None (Some (mkStreamFinding "GO-2024-0001" "" [mkFrame "m" "" "" "" "" None]))].
Definition sample_report : Report :=
  mkReport "" "" "" "" "symbol" "source"
    [mkAdvisory "GO-2024-0001" LevelModule "m" "(no version)" "" "" "required by the module graph; no vulnerable package imported and no call path found"].

Lemma ParseReport_exact_witness : verdict_of sample_messages sample_report.
Proof.
  apply (ParseReport_exact sample_stream); [vm_compute; reflexivity|].
  eapply stream_more; [vm_compute; discriminate|vm_compute; reflexivity|vm_compute; reflexivity|].
  eapply stream_more; [vm_compute; discriminate|vm_compute; reflexivity|vm_compute; reflexivity|].
  apply stream_end. reflexivity.
Defined.

Definition sample_fields : gmap string string :=
  {["id" := "GO-2024-0001"; "reason" := "no release"; "reachability" := "never called"; "recorded" := "2026-02-28"]}.
#[local] Instance one_record : YAML := {| yaml_Sequence := fun _ => Some [mkNode 1 true (Some sample_fields)] |}.
Definition sample_machine : Machine :=
  mkMachine (Some "/tmp/v") (fun _ => Exited 0 "" "") (fun _ _ => Exited 0 sample_stream "").

Lemma gate_green_exact_witness :
  exists entries out ms c, LoadSuppressions (Data "-") = Ok entries /\ pinned_run sample_machine (mkRunner "v1.1.4" ["./..."]) out /\
    stream_of (to_list out) ms /\ Forall readable (findings_of ms) /\ last_config ms None = Some c /\ full_scan c /\
    (forall x, x ∈ findings_of ms -> (exists e, e ∈ entries /\ en_ID e = sf_OSV x) /\ sf_FixedVersion x = "") /\
    (forall e, e ∈ entries -> exists x, x ∈ findings_of ms /\ sf_OSV x = en_ID e).
Proof. apply (gate_green_exact sample_machine (mkRunner "v1.1.4" ["./..."]) (Data "-")). vm_compute. reflexivity. Defined.
