(* ===== verification/Repo.v ===== *)
(** A working tree as the repository's gates read it, and the parts of [strings],
    [path] and [filepath] they compute with.  A tree is a map from slash-separated
    paths to what reading the file answers; paths are clean and relative, as a walk
    produces them. *)

From Stdlib Require Import ZArith Lia Bool String Ascii List Sorted.
From stdpp Require Import base option list strings gmap sorting.
From S2P Require Import Prelude GoStrings.
Local Open Scope string_scope.
Local Open Scope Z_scope.

(* ------------------------------------------------------------------ *)
(** ** Strings *)

(** [strings.ReplaceAll] of a text that is not empty. *)
Fixpoint replace_list (fuel : nat) (l old new : list ascii) : list ascii :=
  match fuel with
  | O => l
  | S fuel =>
      match drop_prefix old l, l with
      | Some l', _ => (new ++ replace_list fuel l' old new)%list
      | None, c :: l' => c :: replace_list fuel l' old new
      | None, [] => []
      end
  end.
Definition ReplaceAll (s old new : string) : string :=
  of_list (replace_list (S (String.length s)) (to_list s) (to_list old) (to_list new)).

(** [strings.Fields]: the runs between white space. *)
Fixpoint fields_list (fuel : nat) (l acc : list ascii) : list (list ascii) :=
  let close := match acc with [] => [] | _ => [rev acc] end in
  match fuel with
  | O => close
  | S fuel =>
      match strip_one space_runes l, l with
      | Some l', _ => (close ++ fields_list fuel l' [])%list
      | None, c :: l' => fields_list fuel l' (c :: acc)
      | None, [] => close
      end
  end.
Definition Fields (s : string) : list string := map of_list (fields_list (S (String.length s)) (to_list s) []).

(** [strings.Trim] and [strings.TrimLeft] with an ASCII cutset. *)
Fixpoint trim_left (cutset l : list ascii) : list ascii :=
  match l with c :: l' => if existsb (Ascii.eqb c) cutset then trim_left cutset l' else l | [] => [] end.
Definition TrimLeft (s cutset : string) : string := of_list (trim_left (to_list cutset) (to_list s)).
Definition Trim (s cutset : string) : string :=
  of_list (rev (trim_left (to_list cutset) (rev (trim_left (to_list cutset) (to_list s))))).

(** The text before the first occurrence. *)
Definition before_first (s sep : string) : string :=
  match Index s sep with Some i => substring 0 i s | None => s end.

(* ------------------------------------------------------------------ *)
(** ** Paths *)

(** [path.Base]. *)
Definition Base (s : string) : string :=
  match to_list s with
  | [] => "."
  | l =>
      match rev (trim_left ["/"%char] (rev l)) with
      | [] => "/"
      | l => of_list (List.last (split_list "/" l []) [])
      end
  end.

(** [path.Dir] of a clean relative path. *)
Definition components (rel : string) : list string := Split rel "/".
Definition Dir (rel : string) : string :=
  match removelast (components rel) with [] => "." | dirs => Join dirs "/" end.
(** [path.Join] of a clean directory and a name. *)
Definition path_Join (dir name : string) : string := if String.eqb dir "." then name else dir ++ "/" ++ name.

(** The directories a path lies in, outermost first. *)
Fixpoint prefixes (acc : list string) (l : list string) : list string :=
  match l with
  | [] | [_] => []
  | d :: l => let acc := (acc ++ [d])%list in Join acc "/" :: prefixes acc l
  end.
Definition parents (rel : string) : list string := prefixes [] (components rel).

(** [filepath.Match] with stars only. *)
Fixpoint glob (p s : list ascii) : bool :=
  match p with
  | [] => match s with [] => true | _ => false end
  | c :: p' =>
      if Ascii.eqb c "*"%char then
        (fix star (s : list ascii) : bool :=
           glob p' s || match s with d :: s' => negb (Ascii.eqb d "/"%char) && star s' | [] => false end) s
      else match s with d :: s' => Ascii.eqb c d && glob p' s' | [] => false end
  end.

(* ------------------------------------------------------------------ *)
(** ** The tree *)

(** Regular files by path: their bytes, or [None] when reading them fails. *)
Definition Tree : Type := gmap string (option string).

Inductive read_error := ReadFailed (rel : string).

(** [readFile]: absent is not an error. *)
Definition readFile (t : Tree) (rel : string) : result read_error (option string) :=
  match t !! rel with
  | None => Ok None
  | Some None => Err (ReadFailed rel)
  | Some (Some data) => Ok (Some data)
  end.

(** [readLines]. *)
Definition lines_of (data : string) : list string := Split (ReplaceAll data (of_list [byte_of 13; byte_of 10]) (of_list [byte_of 10])) (byte_of 10).
Definition readLines (t : Tree) (rel : string) : result read_error (option (list string)) :=
  match readFile t rel with
  | Err e => Err e
  | Ok data => Ok (option_map lines_of data)
  end.

Definition exists_file (t : Tree) (rel : string) : bool := match t !! rel with Some _ => true | None => false end.

(** Lines with their 1-based numbers. *)
Fixpoint numbered {A} (n : Z) (l : list A) : list (Z * A) :=
  match l with [] => [] | x :: l => (n, x) :: numbered (n + 1) l end.

(** [walkFiles]: the paths [keep] keeps, sorted, outside the skipped directories. *)
Definition walkFiles (skip_name skip_path : string -> bool) (t : Tree) (keep : string -> bool) : list string :=
  stable_sort str_ltb
    (List.filter (fun rel => negb (existsb (fun d => skip_name (Base d) || skip_path d) (parents rel)) && keep rel)
       (map fst (map_to_list t))).

(** The tree under a directory. *)
Definition subtree (dir : string) (t : Tree) : Tree :=
  list_to_map (@omap list _ _ _ (fun p : string * option string => match drop_prefix (to_list (dir ++ "/")) (to_list (fst p)) with
                              | Some rel => Some (of_list rel, snd p)
                              | None => None
                              end) (map_to_list t)).

(** [exists]: a file, or a directory with a file in it. *)
Definition exists_path (t : Tree) (rel : string) : bool :=
  exists_file t rel || existsb (fun p => existsb (String.eqb rel) (parents p)) (map fst (map_to_list t)).

(* ------------------------------------------------------------------ *)
(** ** Lemmas *)

Lemma numbered_length {A} (l : list A) : forall n, length (numbered n l) = length l.
Proof. induction l as [|x l IH]; intros n; simpl; [done|]. by rewrite IH. Qed.

Lemma elem_of_numbered {A} (l : list A) : forall n i x, (i, x) ∈ numbered n l <-> n <= i /\ l !! Z.to_nat (i - n) = Some x.
Proof.
  induction l as [|y l IH]; intros n i x; simpl.
  - split; [by intros ?%elem_of_nil|]. intros [_ H]. by destruct (Z.to_nat (i - n)).
  - rewrite elem_of_cons, IH. split.
    + intros [[= -> ->]|[H1 H2]]; [rewrite Z.sub_diag; split; [lia|done]|]. split; [lia|].
      replace (Z.to_nat (i - n)) with (S (Z.to_nat (i - (n + 1)))) by lia. done.
    + intros [H1 H2]. destruct (Z.eq_dec i n) as [->|Hne]; [rewrite Z.sub_diag in H2; injection H2 as ->; by left|]. right. split; [lia|].
      replace (Z.to_nat (i - n)) with (S (Z.to_nat (i - (n + 1)))) in H2 by lia. done.
Qed.

Lemma walkFiles_spec sn sp t keep rel : rel ∈ walkFiles sn sp t keep <->
  is_Some (t !! rel) /\ keep rel = true /\ (forall d, d ∈ parents rel -> sn (Base d) = false /\ sp d = false).
Proof.
  unfold walkFiles. rewrite stable_sort_perm, elem_of_filter_b, andb_true_iff, negb_true_iff, existsb_elem_false.
  assert (Hin : rel ∈ map fst (map_to_list t) <-> is_Some (t !! rel)).
  { rewrite list_elem_of_fmap. split.
    - intros ([k v] & -> & H%elem_of_map_to_list). eauto.
    - intros [v H]. exists (rel, v). split; [done|by apply elem_of_map_to_list]. }
  rewrite Hin. setoid_rewrite orb_false_iff. naive_solver.
Qed.
