(* ===== verification/MapPage.v ===== *)
(** The live map's static surface ([internal/server/stream.go]: mapAssets, serveMapPage,
    serveDocument, newNonce, documentCSP and the start-up check of the embedded
    documents): the policy each response carries, and the nonce that admits a page's
    own inline elements and nothing injected.  The embedded files are a map, the random
    bytes an argument, and [net/http]'s file server the class [FileServer]. *)

From Stdlib Require Import ZArith Lia Bool String Ascii List.
From stdpp Require Import base option list strings gmap.
From S2P Require Import Prelude GoStrings Occurs Repo Auth.
Local Open Scope string_scope.
Local Open Scope Z_scope.

(* ------------------------------------------------------------------ *)
(** ** The nonce *)

(** The standard alphabet differs from the URL one in two characters. *)
Definition std_char (c : ascii) : ascii := if Ascii.eqb c "-"%char then "+"%char else if Ascii.eqb c "_"%char then "/"%char else c.
Definition padding (n : nat) : string := match (n mod 3)%nat with 1%nat => "==" | 2%nat => "=" | _ => "" end.
(** [base64.StdEncoding.EncodeToString]. *)
Definition std_encode (l : list ascii) : string := of_list (map std_char (raw_url_encode l)) ++ padding (length l).
(** [newNonce], of what the system's source of randomness gave. *)
Definition newNonce (random : option (list ascii)) : option string := option_map std_encode random.

(* ------------------------------------------------------------------ *)
(** ** Policies *)

Definition cspNoncePlaceholder : string := "__CSP_NONCE__".
Definition tileHost : string := "https://tile.openstreetmap.org".
Definition assetCSP : string := "default-src 'none'; base-uri 'none'; form-action 'none'; frame-ancestors 'none'".
Definition documentCSP (nonce : string) : string :=
  "default-src 'none'; " ++
  "base-uri 'none'; " ++
  "form-action 'none'; " ++
  "frame-ancestors 'none'; " ++
  "object-src 'none'; " ++
  "script-src 'self' 'nonce-" ++ nonce ++ "'; " ++
  "style-src 'self' 'nonce-" ++ nonce ++ "'; " ++
  "img-src 'self' data: " ++ tileHost ++ "; " ++
  "connect-src 'self'".

(** A response: the text written, or the kind of a JSON error. *)
Inductive page_body := PText (text : string) | PError (code : string).
Record page := mkPage { pg_Code : Z; pg_Header : gmap string string; pg_Body : page_body }.
Definition setCommonSecurityHeaders (h : gmap string string) : gmap string string :=
  <["X-Content-Type-Options" := "nosniff"]> (<["Referrer-Policy" := "no-referrer"]> h).

(** [http.NotFound]. *)
Definition NotFound : page :=
  mkPage 404 {[ "Content-Type" := "text/plain; charset=utf-8"; "X-Content-Type-Options" := "nosniff" ]} (PText ("404 page not found" ++ of_list [byte_of 10])).

(* ------------------------------------------------------------------ *)
(** ** Serving *)

(** The file server over the embedded files, on a response that has headers. *)
Class FileServer := { ServeFile : string -> gmap string string -> page }.

(** [path.Clean]. *)
Fixpoint clean_components (rooted : bool) (l stack : list string) : list string :=
  match l with
  | [] => rev stack
  | c :: l =>
      if String.eqb c "" || String.eqb c "." then clean_components rooted l stack
      else if String.eqb c ".." then
        match stack with
        | top :: below => if String.eqb top ".." then clean_components rooted l (c :: stack) else clean_components rooted l below
        | [] => clean_components rooted l (if rooted then [] else [c])
        end
      else clean_components rooted l (c :: stack)
  end.
Definition Clean (p : string) : string :=
  let rooted := HasPrefix p "/" in
  let cleaned := Join (clean_components rooted (Split p "/") []) "/" in
  if rooted then "/" ++ cleaned else if String.eqb cleaned "" then "." else cleaned.

Section Serving.
Context `{FS : FileServer} (staticFS : gmap string string).

Definition serveDocument (random : option (list ascii)) (name : string) : page :=
  match staticFS !! name with
  | None => NotFound
  | Some page =>
      match newNonce random with
      | None => mkPage 500 {[ "Content-Type" := "application/json" ]} (PError "internal")
      | Some nonce =>
          mkPage 200
            (<["Cache-Control" := "no-store"]> (<["Content-Type" := "text/html; charset=utf-8"]>
              (<["Content-Security-Policy" := documentCSP nonce]> (setCommonSecurityHeaders ∅))))
            (PText (ReplaceAll page cspNoncePlaceholder nonce))
      end
  end.
Definition serveMapPage (random : option (list ascii)) : page := serveDocument random "static/map.html".
Definition mapAssets (random : option (list ascii)) (path : string) : page :=
  if HasSuffix path ".html" then serveDocument random (TrimPrefix (Clean path) "/")
  else ServeFile path (<["Content-Security-Policy" := assetCSP]> (setCommonSecurityHeaders ∅)).

(** [strings.Count] of a text that is not empty. *)
Fixpoint count_list (fuel : nat) (l sub : list ascii) : Z :=
  match fuel with
  | O => 0
  | S fuel => match drop_prefix sub l, l with
              | Some rest, _ => 1 + count_list fuel rest sub
              | None, _ :: l => count_list fuel l sub
              | None, [] => 0
              end
  end.
Definition Count (s sub : string) : Z := count_list (S (String.length s)) (to_list s) (to_list sub).
Definition htmlDocuments : list string := ["static/map.html"; "static/map-explained.html"; "static/app-explained.html"].
(** The check at start-up: it panics on the first document that fails it. *)
Definition document_ok (body : string) : bool :=
  let inline := Count body "<style" + Count body "<script" in
  negb (inline =? 0) && (Count body cspNoncePlaceholder =? inline).
Definition starts : bool := forallb (fun name => match staticFS !! name with Some body => document_ok body | None => false end) htmlDocuments.
End Serving.

(* ------------------------------------------------------------------ *)
(** ** What the policy says *)

(** A policy as a browser reads it: directives separated by semicolons, each a name and
    its sources. *)
Definition directives (csp : string) : list (list string) := map Fields (Split csp ";").

Definition nonce_byte (c : ascii) : bool := is_upper c || is_lower c || is_digit c || Ascii.eqb c "+"%char || Ascii.eqb c "/"%char.

Lemma std_char_alphabet v : 0 <= v -> nonce_byte (std_char (url_char v)) = true.
Proof.
  intros Hv. assert (Hs : forallb (fun n => nonce_byte (std_char (url_char (Z.of_nat n)))) (seq 0 64) = true) by (vm_compute; reflexivity).
  destruct (Z.ltb_spec v 64) as [H|H].
  - rewrite forallb_forall in Hs. specialize (Hs (Z.to_nat v)). rewrite Z2Nat.id in Hs by lia. apply Hs. apply in_seq. lia.
  - unfold url_char. rewrite (proj2 (Z.ltb_ge v 26)), (proj2 (Z.ltb_ge v 52)), (proj2 (Z.ltb_ge v 62)), (proj2 (Z.eqb_neq v 62)) by lia. done.
Qed.
Lemma encoded_alphabet l : Forall (fun c => nonce_byte c = true) (map std_char (raw_url_encode l)).
Proof.
  assert (Hsh : forall n k, 0 <= Z.land (Z.shiftr n k) 63) by (intros; apply sextet_range).
  assert (Hc : forall c, 0 <= code c) by (intros; apply code_range).
  induction l as [|a|a b|a b c l IH] using list_ind3; cbn [raw_url_encode map];
    repeat (constructor; [apply std_char_alphabet|]); try done;
    try (apply Z.shiftr_nonneg; rewrite ?Z.lor_nonneg, ?Z.shiftl_nonneg; auto).
  rewrite land63. apply Z.mod_pos_bound. lia.
Qed.

(* ------------------------------------------------------------------ *)
(** ** Words *)

(** A word: not empty, and of printable ASCII. *)
Definition is_word (w : string) : Prop := w <> "" /\ Forall (fun c => plain c = true) (to_list w).
Definition words_text (ws : list string) : list ascii := to_list (Join ws " ").

Lemma fields_list_word w : forall fuel rest acc, Forall (fun c => plain c = true) w ->
  fields_list (length w + fuel) (w ++ rest)%list acc = fields_list fuel rest (rev w ++ acc)%list.
Proof.
  induction w as [|c w IH]; intros fuel rest acc Hw; [done|]. inversion Hw as [|? ? Hc Hw']; subst.
  cbn [length app Nat.add]. unfold fields_list; fold fields_list. rewrite strip_one_plain by done. rewrite IH by done. simpl. by rewrite <- app_assoc.
Qed.
Lemma fields_list_space fuel l acc :
  fields_list (S fuel) (" "%char :: l) acc = ((match acc with [] => [] | _ => [rev acc] end) ++ fields_list fuel l [])%list.
Proof. reflexivity. Qed.
Lemma fields_list_words ws : Forall is_word ws -> fields_list (S (length (words_text ws))) (words_text ws) [] = map to_list ws.
Proof.
  unfold words_text. induction ws as [|w ws IH]; intros Hw; [done|]. inversion Hw as [|? ? [Hne Hc] Hw']; subst.
  assert (Hacc : forall l, (rev (to_list w) ++ l <> [])%list) by (intros l; destruct w; [done|]; simpl; by destruct (rev (to_list w))).
  destruct ws as [|w2 ws].
  - cbn [Join]. replace (S (length (to_list w))) with (length (to_list w) + 1)%nat by lia. rewrite <- (app_nil_r (to_list w)) at 2.
    rewrite fields_list_word by done. specialize (Hacc []). destruct (rev (to_list w) ++ [])%list eqn:E; [done|].
    change ([rev (a :: l)] = [to_list w]). rewrite <- E, app_nil_r. by rewrite rev_involutive.
  - specialize (IH Hw'). change (Join (w :: w2 :: ws) " ") with (w ++ " " ++ Join (w2 :: ws) " ")%string. rewrite !to_list_app.
    cbn [to_list app]. rewrite !length_app. cbn [length].
    replace (S (length (to_list w) + S (length (to_list (Join (w2 :: ws) " "))))) with (length (to_list w) + S (S (length (to_list (Join (w2 :: ws) " ")))))%nat by lia.
    rewrite fields_list_word by done. rewrite fields_list_space. specialize (Hacc []).
    destruct (rev (to_list w) ++ [])%list eqn:E; [done|].
    change (([rev (a :: l)] ++ fields_list (S (length (to_list (Join (w2 :: ws) " ")))) (to_list (Join (w2 :: ws) " ")) [])%list = to_list w :: map to_list (w2 :: ws)).
    rewrite IH, <- E, app_nil_r. by rewrite rev_involutive.
Qed.
Lemma Fields_words ws : Forall is_word ws -> Fields (Join ws " ") = ws /\ Fields (" " ++ Join ws " ") = ws.
Proof.
  intros Hw. unfold Fields. rewrite <- !length_to_list. split.
  - pose proof (fields_list_words ws Hw) as H. unfold words_text in H. rewrite H. rewrite map_map. rewrite <- (map_id ws) at 2. apply map_ext. intros. apply of_to_list.
  - change (to_list (" " ++ Join ws " ")) with (" "%char :: to_list (Join ws " ")). cbn [length].
    rewrite fields_list_space. cbn [app].
    pose proof (fields_list_words ws Hw) as H. unfold words_text in H. rewrite H. rewrite map_map. rewrite <- (map_id ws) at 2. apply map_ext. intros. apply of_to_list.
Qed.

(* ------------------------------------------------------------------ *)
(** ** The document policy *)

Lemma split_list_one c l : forall acc, c ∉ l -> split_list c l acc = [(rev acc ++ l)%list].
Proof.
  induction l as [|d l IH]; intros acc Hc; simpl; [by rewrite app_nil_r|]. apply not_elem_of_cons in Hc as [Hne Hc].
  destruct (Ascii.eqb_spec c d); [done|]. rewrite IH by done. simpl. by rewrite <- app_assoc.
Qed.
Lemma Split_one s c : c ∉ to_list s -> Split s c = [s].
Proof. intros H. unfold Split. rewrite split_list_one by done. cbn. by rewrite of_to_list. Qed.
Lemma Split_Join ls : Forall (fun s => ";"%char ∉ to_list s) ls -> forall x, ";"%char ∉ to_list x -> Split (Join (x :: ls) "; ") ";" = x :: map (String.append " ") ls.
Proof.
  induction ls as [|y ls IH]; intros Hls x Hx; [by apply Split_one|]. inversion Hls as [|? ? Hy Hls']; subst.
  change (Join (x :: y :: ls) "; ") with (x ++ String ";" (" " ++ Join (y :: ls) "; "))%string. rewrite Split_app, Split_one by done. cbn [app map]. f_equal.
  replace (" " ++ Join (y :: ls) "; ")%string with (Join ((" " ++ y)%string :: ls) "; ") by (destruct ls; [done|]; cbn [Join]; by rewrite sapp_assoc).
  rewrite IH; [done..|]. rewrite to_list_app. intros [H|H]%elem_of_app; [|done]. by apply list_elem_of_singleton in H.
Qed.

(** A policy that admits scripts and styles by a nonce and images of some hosts, and the
    policy of a document with its nonce. *)
Definition policy_with (script style : string) (hosts : list string) : list (list string) :=
  [["default-src"; "'none'"]; ["base-uri"; "'none'"]; ["form-action"; "'none'"]; ["frame-ancestors"; "'none'"]; ["object-src"; "'none'"];
   ["script-src"; "'self'"; "'nonce-" ++ script ++ "'"]; ["style-src"; "'self'"; "'nonce-" ++ style ++ "'"];
   "img-src" :: "'self'" :: "data:" :: hosts; ["connect-src"; "'self'"]].
Definition policy (nonce : string) : list (list string) := policy_with nonce nonce [tileHost].
Definition policy_text (p : list (list string)) : string := Join (map (fun ws => Join ws " ") p) "; ".
Definition nonce_text (nonce : string) : Prop := Forall (fun c => nonce_byte c = true \/ c = "="%char) (to_list nonce).

Lemma nonce_byte_plain c : nonce_byte c = true \/ c = "="%char -> plain c = true /\ c <> ";"%char /\ c <> "_"%char.
Proof.
  intros [H| ->]; [|done]. destruct c as [[] [] [] [] [] [] [] []]; try discriminate H; repeat split; discriminate.
Qed.
Lemma nonce_word nonce : nonce_text nonce -> is_word ("'nonce-" ++ nonce ++ "'") /\ ";"%char ∉ to_list ("'nonce-" ++ nonce ++ "'").
Proof.
  intros Hn. unfold nonce_text in Hn. rewrite Forall_forall in Hn. unfold is_word. rewrite !to_list_app. split.
  - split; [done|]. apply Forall_app. split; [repeat constructor|]. apply Forall_app. split; [|repeat constructor]. apply Forall_forall. intros c Hc. by apply nonce_byte_plain, Hn.
  - rewrite !elem_of_app. intros [H|[H|H]].
    + by repeat (apply elem_of_cons in H as [?|H]; [done|]); apply elem_of_nil in H.
    + apply Hn, nonce_byte_plain in H. by destruct H as (_ & H & _).
    + by apply list_elem_of_singleton in H.
Qed.

Definition clean_text (s : string) : Prop := ";"%char ∉ to_list s.
Lemma directives_join (p : list (list string)) : p <> [] -> Forall (fun ws => Forall is_word ws /\ clean_text (Join ws " ")) p ->
  directives (Join (map (fun ws => Join ws " ") p) "; ") = p.
Proof.
  intros Hne Hp. destruct p as [|ws p]; [done|]. clear Hne. inversion Hp as [|? ? [Hw Hc] Hp']; subst. unfold directives. cbn [map].
  rewrite Split_Join; [|by apply Forall_map; eapply Forall_impl; [exact Hp'|]; intros ? [_ ?]|done].
  cbn [map]. f_equal; [by apply Fields_words|]. rewrite map_map, map_map. rewrite <- (map_id p) at 2. clear Hw Hc Hp ws.
  induction Hp' as [|ws p [Hw _] Hp' IH]; [done|]. cbn [map]. f_equal; [by apply (proj2 (Fields_words ws Hw))|done].
Qed.
Lemma plain_is_word w : w <> "" -> forallb plain (to_list w) = true -> is_word w.
Proof. intros Hne H. split; [done|]. apply Forall_forall. intros c Hc. rewrite forallb_forall in H. apply H. by apply list_elem_of_In. Qed.
Lemma clean_by s : forallb (fun c => negb (Ascii.eqb c ";"%char)) (to_list s) = true -> clean_text s.
Proof. intros H Hc. rewrite forallb_forall in H. specialize (H _ (proj1 (list_elem_of_In _ _) Hc)). done. Qed.

Lemma documentCSP_text nonce : documentCSP nonce = policy_text (policy nonce).
Proof. unfold documentCSP, policy_text, policy, policy_with. cbn [map Join String.append app]. rewrite !sapp_assoc. reflexivity. Qed.

Definition literal (ws : list string) : bool :=
  forallb (fun w => negb (String.eqb w "") && forallb plain (to_list w)) ws && forallb (fun c => negb (Ascii.eqb c ";"%char)) (to_list (Join ws " ")).
Lemma literal_words ws : literal ws = true -> Forall is_word ws /\ clean_text (Join ws " ").
Proof.
  unfold literal. rewrite andb_true_iff. intros [H1 H2]. split; [|by apply clean_by]. apply Forall_forall. intros w Hin. rewrite forallb_forall in H1.
  specialize (H1 w (proj1 (list_elem_of_In _ _) Hin)). apply andb_true_iff in H1 as [H3 H4]. apply plain_is_word; [|done]. intros ->. done.
Qed.
Lemma source_words d nonce : nonce_text nonce -> literal [d] = true -> Forall is_word [d; "'self'"; "'nonce-" ++ nonce ++ "'"] /\ clean_text (Join [d; "'self'"; "'nonce-" ++ nonce ++ "'"] " ").
Proof.
  intros Hn Hd. destruct (nonce_word nonce Hn) as [Hw Hc]. destruct (literal_words _ Hd) as [Hd1 Hd2]. inversion Hd1; subst. split.
  - apply Forall_cons; split; [done|]. apply Forall_cons; split; [by apply plain_is_word|]. apply Forall_cons; split; [done|constructor].
  - unfold clean_text in *. cbn [Join] in *. rewrite !(to_list_app d), !(to_list_app " "), !(to_list_app "'self'"), !(to_list_app " ").
    rewrite !elem_of_app. intros [H|[H|[H|[H|H]]]]; try done; by repeat (apply elem_of_cons in H as [?|H]; [done|]); apply elem_of_nil in H.
Qed.
Lemma policy_with_read script style hosts : nonce_text script -> nonce_text style -> literal ("img-src" :: "'self'" :: "data:" :: hosts) = true ->
  directives (policy_text (policy_with script style hosts)) = policy_with script style hosts.
Proof.
  intros Hs Ht Hh. apply directives_join; [done|]. unfold policy_with.
  repeat (apply Forall_cons; split); try apply Forall_nil; try exact I.
  all: first [by apply literal_words|by apply source_words].
Qed.
Lemma policy_read nonce : nonce_text nonce -> directives (documentCSP nonce) = policy nonce.
Proof. intros Hn. rewrite documentCSP_text. by apply policy_with_read. Qed.

(* ------------------------------------------------------------------ *)
(** ** The placeholder *)

(** Replacing by a text that is as long, lacks the last byte of what is replaced, and
    ends in a byte that this lacks in turn, leaves no occurrence. *)
Section Replaced.
Context (old new head : list ascii) (x sep : ascii).
Context (Hnew : new = (head ++ [sep])%list) (Hlast : last old = Some x).
Context (Hx : x ∉ new) (Hsep : sep ∉ old) (Hlen : (length old <= length new)%nat).

Lemma suffix_of_out fuel : forall l suf, (length l < fuel)%nat -> last suf = Some x -> (length suf <= length old)%nat ->
  (exists r, replace_list fuel l old new = (suf ++ r)%list) -> exists r, l = (suf ++ r)%list.
Proof.
  induction fuel as [|fuel IH]; intros l suf Hf Hs Hsl [r H]; [lia|]. cbn [replace_list] in H.
  destruct (drop_prefix old l) as [l'|] eqn:E.
  - exfalso. apply Hx. assert (Hin : x ∈ suf) by (apply last_Some in Hs as [s' ->]; apply elem_of_app; right; by left).
    destruct (app_eq_inv _ _ _ _ H) as [(k & -> & _)|(k & Hk & _)]; [by apply elem_of_app; left|].
    assert (length k = 0)%nat by (apply (f_equal length) in Hk; rewrite length_app in Hk; lia). destruct k; [|done]. rewrite app_nil_r in Hk. by subst suf.
  - destruct l as [|c l]; [by destruct suf|]. destruct suf as [|d suf]; [by exists (c :: l)|]. injection H as <- H.
    destruct suf as [|d2 suf]; [by exists l|]. assert (Hs' : last (d2 :: suf) = Some x) by exact Hs.
    destruct (IH l (d2 :: suf)) as [r' ->]; [simpl in Hf; lia|done|simpl in *; lia|by exists r|]. by exists r'.
Qed.
Lemma replaced_none fuel : forall l, (length l < fuel)%nat -> ~ occurs (replace_list fuel l old new) old.
Proof.
  assert (Hno : forall a, x ∉ a -> ~ occurs a old).
  { intros a Ha (p & q & ->). apply Ha. rewrite !elem_of_app. right. left. apply last_Some in Hlast as [o ->]. apply elem_of_app. right. by left. }
  induction fuel as [|fuel IH]; intros l Hf Ho; [lia|]. cbn [replace_list] in Ho. destruct (drop_prefix old l) as [l'|] eqn:E.
  - apply drop_prefix_some in E. assert (Hl' : (length l' < fuel)%nat).
    { rewrite E, length_app in Hf. destruct old; [done|]. simpl in Hf. lia. }
    specialize (IH l' Hl'). revert Ho IH. generalize (replace_list fuel l' old new) as out. intros out Ho IH.
    rewrite Hnew, <- app_assoc in Ho. cbn [app] in Ho. destruct (occurs_sep _ _ _ _ Hsep Ho) as [Ho'|Ho']; [|exact (IH Ho')].
    revert Ho'. apply Hno. intros Hin. apply Hx. rewrite Hnew. apply elem_of_app. by left.
  - destruct l as [|c l]; [by apply (Hno [] (not_elem_of_nil _))|]. destruct Ho as (p & q & Ho).
    destruct p as [|d p]; [|injection Ho as -> Ho; apply (IH l); [simpl in Hf; lia|by exists p, q]].
    assert (exists o old', old = o :: old') as (o & old' & Eo) by (destruct old as [|o old']; [done|by exists o, old']).
    cbn [app] in Ho. assert (Hq : exists q, c :: replace_list fuel l old new = (o :: old' ++ q)%list) by (exists q; rewrite Ho; by rewrite Eo).
    destruct Hq as [q' Hq]. injection Hq as <- Hq. destruct old' as [|o2 old'].
    + assert (drop_prefix old (c :: l) = Some l); [|congruence]. apply drop_prefix_some. by rewrite Eo.
    + destruct (suffix_of_out fuel l (o2 :: old')) as [r Hr]; [simpl in Hf; lia|rewrite Eo in Hlast; exact Hlast|rewrite Eo; simpl; lia|by exists q'|].
      assert (drop_prefix old (c :: l) = Some r); [|congruence]. apply drop_prefix_some. by rewrite Eo, Hr.
Qed.
End Replaced.

(* ------------------------------------------------------------------ *)
(** ** The documents *)

Definition url_byte (c : ascii) : bool := is_upper c || is_lower c || is_digit c || Ascii.eqb c "-"%char || Ascii.eqb c "_"%char.
Lemma url_char_alphabet v : 0 <= v -> url_byte (url_char v) = true.
Proof.
  intros Hv. assert (Hs : forallb (fun n => url_byte (url_char (Z.of_nat n))) (seq 0 64) = true) by (vm_compute; reflexivity).
  destruct (Z.ltb_spec v 64) as [H|H].
  - rewrite forallb_forall in Hs. specialize (Hs (Z.to_nat v)). rewrite Z2Nat.id in Hs by lia. apply Hs. apply in_seq. lia.
  - unfold url_char. rewrite (proj2 (Z.ltb_ge v 26)), (proj2 (Z.ltb_ge v 52)), (proj2 (Z.ltb_ge v 62)), (proj2 (Z.eqb_neq v 62)) by lia. done.
Qed.
Lemma raw_alphabet l : Forall (fun c => url_byte c = true) (raw_url_encode l).
Proof.
  assert (Hsh : forall n k, 0 <= Z.land (Z.shiftr n k) 63) by (intros; apply sextet_range).
  assert (Hc : forall c, 0 <= code c) by (intros; apply code_range).
  induction l as [|a|a b|a b c l IH] using list_ind3; cbn [raw_url_encode];
    repeat (constructor; [apply url_char_alphabet|]); try done;
    try (apply Z.shiftr_nonneg; rewrite ?Z.lor_nonneg, ?Z.shiftl_nonneg; auto).
  rewrite land63. apply Z.mod_pos_bound. lia.
Qed.
Lemma std_char_byte c : url_byte c = true -> nonce_byte (std_char c) = true.
Proof. destruct c as [[] [] [] [] [] [] [] []]; done. Qed.
Lemma std_char_inj c d : url_byte c = true -> url_byte d = true -> std_char c = std_char d -> c = d.
Proof.
  unfold std_char. intros Hc Hd.
  destruct (Ascii.eqb_spec c "-"%char) as [->|]; [|destruct (Ascii.eqb_spec c "_"%char) as [->|]]; (destruct (Ascii.eqb_spec d "-"%char) as [->|]; [|destruct (Ascii.eqb_spec d "_"%char) as [->|]]);
    try done; intros H; subst; discriminate.
Qed.
Lemma map_std_inj l : forall l', Forall (fun c => url_byte c = true) l -> Forall (fun c => url_byte c = true) l' -> map std_char l = map std_char l' -> l = l'.
Proof.
  induction l as [|c l IH]; intros [|d l'] Hl Hl' H; try done. inversion Hl; inversion Hl'; subst. injection H as Hc Ht. f_equal; [by apply std_char_inj|by apply IH].
Qed.

(** A nonce of sixteen bytes. *)
Lemma nonce_of random : length random = 16%nat ->
  std_encode random = of_list (map std_char (raw_url_encode random)) ++ "==" /\ nonce_text (std_encode random) /\ length (to_list (std_encode random)) = 24%nat /\
  forall random', length random' = 16%nat -> std_encode random' = std_encode random -> random' = random.
Proof.
  intros Hr. assert (He : forall r, length r = 16%nat -> to_list (std_encode r) = (map std_char (raw_url_encode r) ++ ["="; "="]%char)%list).
  { intros r H. unfold std_encode, padding. rewrite H, to_list_app, to_of_list. done. }
  assert (Hlen : forall r, length r = 16%nat -> length (map std_char (raw_url_encode r)) = 22%nat).
  { intros r H. rewrite length_map. pose proof (raw_url_encode_length r) as L. rewrite H in L. change ((4 * Z.of_nat 16 + 2) / 3) with 22 in L. lia. }
  split; [unfold std_encode, padding; by rewrite Hr|]. split; [|split].
  - unfold nonce_text. rewrite He by done. apply Forall_app. split; [|repeat constructor; by right].
    apply Forall_map. eapply Forall_impl; [apply raw_alphabet|]. intros c Hc. left. by apply std_char_byte.
  - rewrite He, length_app, Hlen by done. done.
  - intros r' Hr' H. apply (f_equal to_list) in H. rewrite !He in H by done. apply app_inv_tail in H.
    apply map_std_inj in H; [|apply raw_alphabet..]. apply raw_url_encode_inj; [by rewrite Hr, Hr'|done].
Qed.

Section Documents.
Context `{FS : FileServer}.

(** C20: a document of the live map is served with a policy that a browser reads as nothing but the server itself, the tile host for images and the inline elements that carry this response's nonce, with no referrer and uncached; no placeholder is left in its body, and another response has that nonce only if it drew the same sixteen bytes. *)
Theorem document_policy_exact (staticFS : gmap string string) random name page : length random = 16%nat -> staticFS !! name = Some page ->
  exists nonce header body, serveDocument staticFS (Some random) name = mkPage 200 header (PText body) /\
    directives (default "" (header !! "Content-Security-Policy")) = policy nonce /\
    header !! "Referrer-Policy" = Some "no-referrer" /\ header !! "Cache-Control" = Some "no-store" /\
    Contains body cspNoncePlaceholder = false /\
    forall random', length random' = 16%nat -> newNonce (Some random') = Some nonce -> random' = random.
Proof.
  intros Hr Hp. destruct (nonce_of random Hr) as (He & Ht & Hl & Hinj). exists (std_encode random). eexists _, _.
  unfold serveDocument. rewrite Hp. cbn [newNonce option_map]. split; [reflexivity|]. split; [|split; [|split; [|split]]].
  - rewrite !lookup_insert_ne by done. rewrite lookup_insert_eq. by apply policy_read.
  - unfold setCommonSecurityHeaders. rewrite !lookup_insert_ne by done. by rewrite lookup_insert_eq.
  - by rewrite lookup_insert_eq.
  - apply Contains_false. unfold ReplaceAll. rewrite to_of_list.
    apply (replaced_none (to_list cspNoncePlaceholder) (to_list (std_encode random)) (map std_char (raw_url_encode random) ++ ["="%char])%list "_"%char "="%char).
    + rewrite He, to_list_app, to_of_list. by rewrite <- app_assoc.
    + done.
    + intros Hin. unfold nonce_text in Ht. rewrite Forall_forall in Ht. apply Ht, nonce_byte_plain in Hin. by destruct Hin as (_ & _ & ?).
    + cbn. by repeat (apply not_elem_of_cons; split; [done|]); apply not_elem_of_nil.
    + rewrite Hl. simpl. lia.
    + rewrite length_to_list. lia.
  - intros r' Hr' [= H]. by apply Hinj.
Qed.
End Documents.

Module LivePage.
#[local] Instance plain_files : FileServer := {| ServeFile := fun path h => mkPage 200 h (PText path) |}.
Definition quote : string := of_list [byte_of 34].
Definition small_page : string := "<style nonce=" ++ quote ++ cspNoncePlaceholder ++ quote ++ "></style><script nonce=" ++ quote ++ cspNoncePlaceholder ++ quote ++ "></script>".
Definition files : gmap string string := {[ "static/map.html" := small_page ]}.
Definition zeros : list ascii := repeat (byte_of 255) 16.

Example page_checked : document_ok small_page = true /\ document_ok ("<script></script>" ++ small_page) = false.
Proof. vm_compute. split; reflexivity. Qed.
Example page_through_assets : mapAssets files (Some zeros) "/static//x/../map.html" = serveMapPage files (Some zeros).
Proof. vm_compute. reflexivity. Qed.
(** A document that is not embedded is answered without any policy. *)
Example missing_document : mapAssets files (Some zeros) "/static/missing.html" = NotFound /\ pg_Header NotFound !! "Content-Security-Policy" = None.
Proof. vm_compute. split; reflexivity. Qed.

Lemma document_policy_exact_witness :
  exists nonce header body, serveDocument files (Some zeros) "static/map.html" = mkPage 200 header (PText body) /\
    directives (default "" (header !! "Content-Security-Policy")) = policy nonce /\
    header !! "Referrer-Policy" = Some "no-referrer" /\ header !! "Cache-Control" = Some "no-store" /\
    Contains body cspNoncePlaceholder = false /\
    forall random', length random' = 16%nat -> newNonce (Some random') = Some nonce -> random' = zeros.
Proof. apply (document_policy_exact files zeros "static/map.html" small_page); vm_compute; reflexivity. Defined.
End LivePage.
