(* ===== verification/Programs.v ===== *)
(** Programs over a state that may stop with an error: what a Go function that returns
    an error and acts on something beside it is, with the notations of the routes that
    are written in them.  An error ends the program and keeps the state it was met in. *)

From Stdlib Require Import ZArith Lia Bool List.
From stdpp Require Import base option list.
From S2P Require Import Prelude.

Definition Program (S E A : Type) : Type := S -> result E A * S.

Section Programs.
Context {S E : Type}.

Definition done {A} (a : A) : Program S E A := fun s => (Ok a, s).
Definition fail {A} (e : E) : Program S E A := fun s => (Err e, s).
Definition andThen {A B} (m : Program S E A) (f : A -> Program S E B) : Program S E B :=
  fun s => match m s with (Ok a, s) => f a s | (Err e, s) => (Err e, s) end.
(** The error as a value. *)
Definition attempt {A} (m : Program S E A) : Program S E (option E) :=
  fun s => match m s with (Ok _, s) => (Ok None, s) | (Err e, s) => (Ok (Some e), s) end.
(** The value, or nothing when it failed. *)
Definition passing_over {A} (m : Program S E A) : Program S E (option A) :=
  fun s => match m s with (Ok a, s) => (Ok (Some a), s) | (Err _, s) => (Ok None, s) end.
(** Both outcomes as a value, and a value as a program. *)
Definition attempt_value {A} (m : Program S E A) : Program S E (result E A) := fun s => let '(r, s) := m s in (Ok r, s).
Definition of_result {A} (r : result E A) : Program S E A := fun s => (r, s).
(** The error wrapped. *)
Definition wrapping {A} (f : E -> E) (m : Program S E A) : Program S E A :=
  fun s => match m s with (Ok a, s) => (Ok a, s) | (Err e, s) => (Err (f e), s) end.
(** [defer]: the second runs whatever the first answers, and the first's answer stays. *)
Definition finally {A} (m : Program S E A) (after : Program S E unit) : Program S E A :=
  fun s => let '(r, s) := m s in (r, snd (after s)).
Fixpoint each {A} (f : A -> Program S E unit) (l : list A) : Program S E unit :=
  match l with [] => done tt | x :: l => andThen (f x) (fun _ => each f l) end.

Lemma andThen_ok {A B} (m : Program S E A) (f : A -> Program S E B) s b s' :
  andThen m f s = (Ok b, s') <-> exists a s1, m s = (Ok a, s1) /\ f a s1 = (Ok b, s').
Proof. unfold andThen. destruct (m s) as [[a|e] s1]; split; [by exists a, s1|by intros (? & ? & [= <- <-] & ?)|done|by intros (? & ? & [=] & _)]. Qed.
Lemma attempt_ok {A} (m : Program S E A) s r s' : attempt m s = (Ok r, s') <-> match r with None => exists a, m s = (Ok a, s') | Some e => m s = (Err e, s') end.
Proof. unfold attempt. destruct (m s) as [[a|e] s1]; destruct r; split; try done; [by intros [= <-]; exists a|by intros [? [= -> ->]]|by intros [= <- <-]|by intros [= -> ->]|by intros [? [=]]]. Qed.
End Programs.

Declare Scope program_scope.
Delimit Scope program_scope with program.
Notation "'do' x <- m ; k" := (andThen m (fun x => k)) (at level 200, x pattern, m at level 100, k at level 200, right associativity) : program_scope.
Notation "m ;; k" := (andThen m (fun _ => k)) (at level 100, k at level 200, right associativity) : program_scope.
