(* ===== verification/Migrations.v ===== *)
(** The pool and the schema migrations ([internal/db/db.go]).  The driver and the
    migration library are the class [Drivers] over the database they act on; a process
    keeps what [sync.OnceValue] keeps, how often the library's globals were set, and how
    many handles and pools are open. *)

From Stdlib Require Import ZArith Lia Bool String List.
From stdpp Require Import base option list.
From S2P Require Import Prelude Programs.
Local Open Scope string_scope.
Local Open Scope Z_scope.
Local Open Scope program_scope.

Definition migrationsDir : string := "migrations".

(** pgxpool's [New] and [Ping], [sql.Open], and goose's [SetDialect], [UpContext],
    [DownToContext] and [GetDBVersionContext]; an error is its text. *)
Class Drivers (D : Type) := {
  pgxpool_New : string -> option string;
  pool_Ping : string -> D -> option string;
  sql_Open : string -> option string;
  goose_SetDialect : string -> option string;
  goose_Up : string -> string -> D -> option string * D;
  goose_DownTo : string -> string -> Z -> D -> option string * D;
  goose_Version : string -> D -> result string Z * D }.

(** [openHandles] is what the short-lived handles leave; [dialect] what [gooseSetup]
    answered when it ran. *)
Record process (D : Type) := mkProcess { database : D; dialect : option (option string); setups : nat; openHandles : Z; openPools : Z }.
Arguments mkProcess {D}. Arguments database {D}. Arguments dialect {D}. Arguments setups {D}. Arguments openHandles {D}. Arguments openPools {D}.

(** An error with the words it is wrapped in. *)
Inductive db_error := Because (why : string) (cause : string).

Section Migrations.
Context {D : Type} `{DR : Drivers D}.
Definition Migration (A : Type) : Type := Program (process D) db_error A.

(** The driver's part of a call. *)
Definition asking {A} (f : D -> A * D) : Migration A :=
  fun p => let '(a, d) := f (database p) in (Ok a, mkProcess d (dialect p) (setups p) (openHandles p) (openPools p)).
Definition handles (n : Z) : Migration unit := fun p => (Ok tt, mkProcess (database p) (dialect p) (setups p) (openHandles p + n) (openPools p)).
Definition pools (n : Z) : Migration unit := fun p => (Ok tt, mkProcess (database p) (dialect p) (setups p) (openHandles p) (openPools p + n)).
Definition or_fail (why : string) (e : option string) : Migration unit := match e with None => done tt | Some e => fail (Because why e) end.

Definition gooseSetup : Migration unit := fun p =>
  match dialect p with
  | Some e => or_fail "set goose dialect" e p
  | None =>
      let e := goose_SetDialect "postgres" in
      or_fail "set goose dialect" e (mkProcess (database p) (Some e) (S (setups p)) (openHandles p) (openPools p))
  end.
Definition openForMigration (dsn : string) : Migration unit :=
  gooseSetup ;; or_fail "open migration connection" (sql_Open dsn) ;; handles 1.

Definition Up (dsn : string) : Migration unit :=
  openForMigration dsn ;;
  finally (do e <- asking (goose_Up dsn migrationsDir) ; or_fail "apply migrations" e) (handles (-1)).
Definition DownTo (dsn : string) (version : Z) : Migration unit :=
  openForMigration dsn ;;
  finally (do e <- asking (goose_DownTo dsn migrationsDir version) ; or_fail "roll back migrations" e) (handles (-1)).
Definition Version (dsn : string) : Migration Z :=
  openForMigration dsn ;;
  finally (do r <- asking (goose_Version dsn) ; match r with Ok v => done v | Err e => fail (Because "read schema version" e) end) (handles (-1)).
(** The pool is the caller's when it is returned. *)
Definition Open (dsn : string) : Migration unit :=
  or_fail "open pool" (pgxpool_New dsn) ;; pools 1 ;;
  do e <- asking (fun d => (pool_Ping dsn d, d)) ;
  match e with None => done tt | Some e => pools (-1) ;; fail (Because "ping database" e) end.

(** What a process asks of the package. *)
Inductive request := RUp (dsn : string) | RDownTo (dsn : string) (version : Z) | RVersion (dsn : string) | ROpen (dsn : string).
Definition served (r : request) : Migration unit :=
  match r with RUp dsn => Up dsn | RDownTo dsn v => DownTo dsn v | RVersion dsn => Version dsn ;; done tt | ROpen dsn => Open dsn end.
Definition serving (rs : list request) (p : process D) : process D := foldl (fun p r => snd (served r p)) p rs.

(* ------------------------------------------------------------------ *)
(** ** The handles *)

Lemma or_fail_state why e (p : process D) : snd (or_fail why e p) = p.
Proof. by destruct e. Qed.
Definition settled (p : process D) : Prop := setups p = (if dialect p then 1 else 0)%nat.
Definition keeps_handles (n : Z) (p p' : process D) : Prop := openHandles p' = openHandles p + n /\ openPools p' = openPools p /\ (settled p -> settled p').
Lemma gooseSetup_keeps p : keeps_handles 0 p (snd (gooseSetup p)).
Proof.
  unfold gooseSetup, keeps_handles, settled. destruct (dialect p) eqn:Ed; rewrite or_fail_state; cbn.
  - rewrite Ed. split; [lia|done].
  - split; [lia|]. split; [done|]. by intros ->.
Qed.
(** Opening leaves one handle open when it succeeds and none when it does not. *)
Lemma openForMigration_keeps dsn p : match openForMigration dsn p with (Ok _, p') => keeps_handles 1 p p' | (Err _, p') => keeps_handles 0 p p' end.
Proof.
  unfold openForMigration, andThen. pose proof (gooseSetup_keeps p) as Hg. destruct (gooseSetup p) as [[[]|e] p1]; cbn in Hg; [|done].
  destruct (sql_Open dsn); cbn; [done|]. destruct Hg as (H1 & H2 & H3). unfold keeps_handles. cbn. split; [lia|done].
Qed.
Lemma migration_keeps {A} dsn (m : Migration A) p : (forall p, keeps_handles 0 p (snd (m p))) ->
  keeps_handles 0 p (snd (andThen (openForMigration dsn) (fun _ => finally m (handles (-1))) p)).
Proof.
  intros Hm. unfold andThen, finally. pose proof (openForMigration_keeps dsn p) as Ho. destruct (openForMigration dsn p) as [[[]|e] p1]; [|exact Ho].
  pose proof (Hm p1) as H1. destruct (m p1) as [r p2]. cbn in *. destruct Ho as (O1 & O2 & O3), H1 as (P1 & P2 & P3).
  unfold keeps_handles, settled in *. cbn. split; [lia|]. split; [congruence|auto].
Qed.
Lemma asked_keeps {A C} (f : D -> A * D) (k : A -> Migration C) p : (forall a p, snd (k a p) = p) -> keeps_handles 0 p (snd (andThen (asking f) k p)).
Proof. intros Hk. unfold andThen, asking. destruct (f (database p)) as [a d]. rewrite Hk. unfold keeps_handles. cbn. split; [lia|done]. Qed.

(** Whatever a process asks, in any order and whatever fails, the library's globals are set
    at most once, and every migration handle is closed again. *)
Theorem migrations_tidy (rs : list request) (p : process D) : settled p ->
  settled (serving rs p) /\ openHandles (serving rs p) = openHandles p.
Proof.
  revert p. induction rs as [|r rs IH]; intros p Hp; [done|]. assert (Hstep : openHandles (snd (served r p)) = openHandles p /\ (settled p -> settled (snd (served r p)))).
  { assert (Hk : forall q, keeps_handles 0 p q -> openHandles q = openHandles p /\ (settled p -> settled q)) by (intros q (H1 & _ & H3); split; [lia|done]).
    destruct r as [dsn|dsn v|dsn|dsn]; cbn [served].
    - apply Hk, migration_keeps. intros q. apply asked_keeps. intros a q'. apply or_fail_state.
    - apply Hk, migration_keeps. intros q. apply asked_keeps. intros a q'. apply or_fail_state.
    - assert (Es : snd (andThen (Version dsn) (fun _ => done tt) p) = snd (Version dsn p)) by (unfold andThen; by destruct (Version dsn p) as [[] ?]).
      rewrite Es. apply Hk, migration_keeps. intros q. apply asked_keeps. by intros [].
    - unfold Open, andThen, asking. destruct (pgxpool_New dsn); cbn; [done|]. by destruct (pool_Ping dsn (database p)). }
  destruct Hstep as [H1 H2]. specialize (IH _ (H2 Hp)). cbn [serving foldl] in *. fold (serving rs (snd (served r p))) in IH |- *. rewrite <- H1. exact IH.
Qed.
(** A pool is left open exactly by an [Open] that answers. *)
Theorem Open_pools (dsn : string) (p : process D) :
  openPools (snd (Open dsn p)) = openPools p + match fst (Open dsn p) with Ok _ => 1 | Err _ => 0 end.
Proof. unfold Open, andThen, asking. destruct (pgxpool_New dsn); cbn; [lia|]. destruct (pool_Ping dsn (database p)); cbn; lia. Qed.
End Migrations.
