(* ===== verification/Viewer.v ===== *)
(** The live map page ([internal/server/static/map.html]): the script a family member's
    browser runs on what [GET /v1/positions] and the stream say.  Its variables are the
    record [viewer], its functions programs on it; an exception ends a program and keeps
    what was done before it.  What a person reads is [drawing], the status line and the
    markers; a token in the page's address is a [Watch] as it loads.  The Leaflet layer,
    the layout and the paint are left out, and so is a device id that is the name of a property every JavaScript object inherits.  The engine's own
    functions are the class [Browser]. *)

From Stdlib Require Import ZArith Lia Bool String Ascii List.
From stdpp Require Import base option list strings gmap.
From S2P Require Import Prelude GoStrings Json Programs.
Local Open Scope string_scope.
Local Open Scope Z_scope.
Local Open Scope program_scope.

(** [JSON.parse] ([None]: it throws; an object has each key once), [String] of a value
    that is not a string, [toLowerCase], [trim], and [<] on strings. *)
Class Browser := {
  JSON_parse : string -> option json;
  String_of : json -> string;
  toLowerCase : string -> string;
  trim : string -> string;
  js_less : string -> string -> bool }.

(* ------------------------------------------------------------------ *)
(** ** Values *)

Definition STATE_TOKENS : list string := ["no-position"; "live"; "recent"; "stale"].
Definition STATE_TEXT (token : string) : string :=
  if String.eqb token "no-position" then "no position recorded"
  else if String.eqb token "live" then "live now"
  else if String.eqb token "recent" then "seen recently"
  else if String.eqb token "stale" then "not seen lately"
  else "".
Definition MSG_NO_DEVICES : string := "no devices in this family".
Definition MSG_REFUSED : string := "viewer token refused".
Definition MSG_UNCONFIRMED : string := "(last known - unconfirmed)".
Definition stateText (token : string) : string := let t := STATE_TEXT token in if String.eqb t "" then token else t.

Definition property (j : json) (name : string) : option json :=
  match j with JObj fields => option_map snd (List.find (fun f => String.eqb (fst f) name) fields) | _ => None end.
(** A value's truth; [undefined] is [None]. *)
Definition truthy (j : option json) : bool :=
  match j with
  | None | Some JNull => false
  | Some (JBool b) => b
  | Some (JInt z) => negb (z =? 0)
  | Some (JFloat f) => negb (f_eqb f (f64 0) || f_isNaN f)
  | Some (JStr s) => negb (String.eqb s "")
  | Some _ => true
  end.
(** A property that is a string and not the empty one. *)
Definition word (j : option json) : option string := match j with Some (JStr s) => if String.eqb s "" then None else Some s | _ => None end.
(** [isFiniteNumber], with the number. *)
Definition finite (f : float64) : option float64 := if f_isNaN f || f_isInf f then None else Some f.
Definition finiteNumber (j : option json) : option float64 :=
  match j with Some (JInt z) => finite (f64 z) | Some (JFloat f) => finite f | _ => None end.

(* ------------------------------------------------------------------ *)
(** ** The page's variables *)

Record device := mkDevice { v_id : string; v_name : json; v_state : string; v_located : bool; v_note : string }.
Record marker := mkMarker { m_lat : float64; m_lon : float64; m_tooltip : string }.
(** [devices], [markers], [describedByStream], [deviceSetKnown] and the position the map
    was framed on, once ([fitted]). *)
Record family := mkFamily {
  devices : gmap string device; markers : gmap string marker; describedByStream : gmap string unit; deviceSetKnown : bool; fitted : option (float64 * float64) }.
(** [everOpened], [interrupted], [interruptedWhy]. *)
Record health := mkHealth { everOpened : bool; interrupted : bool; interruptedWhy : string }.
(** [receivedCount], [rejectedCount], [lastRejection]. *)
Record counts := mkCounts { receivedCount : Z; rejectedCount : Z; lastRejection : string }.
(** [watching], [failure], [failureAction]. *)
Record attempt := mkAttempt { watching : bool; failure : string; failureAction : string }.

(** What [render] puts on the page: the rows of both lists, whether the second has its
    heading, the figures (nothing when hidden) and the panel's state. *)
Record row := mkRow { w_id : string; w_state : string; w_name : string; w_words : string; w_note : option string; w_mark : option string }.
Record drawing := mkDrawing {
  dw_located : list row; dw_unlocated : list row; dw_heading : bool; dw_count : option string; dw_rejected : option string; dw_detail : option string;
  dw_state : string; dw_text : string; dw_action : string }.
(** [source] is the number of the watch it was opened by. *)
Record viewer := mkViewer {
  fam : family; hlt : health; cnt : counts; att : attempt; source : option nat; watches : nat; status : string * string; drawn : drawing }.

Definition no_family : family := mkFamily ∅ ∅ ∅ false None.
Definition loaded : viewer :=
  mkViewer no_family (mkHealth false false "") (mkCounts 0 0 "") (mkAttempt false "" "") None 0 ("Enter a viewer token", "idle")
    (mkDrawing [] [] false None None None "idle" "Enter a viewer token" "Then choose Watch").

Definition on_family (f : family -> family) (v : viewer) : viewer := mkViewer (f (fam v)) (hlt v) (cnt v) (att v) (source v) (watches v) (status v) (drawn v).
Definition set_health (h : health) (v : viewer) : viewer := mkViewer (fam v) h (cnt v) (att v) (source v) (watches v) (status v) (drawn v).
Definition set_counts (c : counts) (v : viewer) : viewer := mkViewer (fam v) (hlt v) c (att v) (source v) (watches v) (status v) (drawn v).
Definition set_attempt (t : attempt) (v : viewer) : viewer := mkViewer (fam v) (hlt v) (cnt v) t (source v) (watches v) (status v) (drawn v).
Definition set_source (s : option nat) (v : viewer) : viewer := mkViewer (fam v) (hlt v) (cnt v) (att v) s (watches v) (status v) (drawn v).
Definition set_status (s : string * string) (v : viewer) : viewer := mkViewer (fam v) (hlt v) (cnt v) (att v) (source v) (watches v) s (drawn v).
Definition set_drawn (d : drawing) (v : viewer) : viewer := mkViewer (fam v) (hlt v) (cnt v) (att v) (source v) (watches v) (status v) d.
Definition set_devices (ds : gmap string device) (f : family) : family := mkFamily ds (markers f) (describedByStream f) (deviceSetKnown f) (fitted f).
Definition set_markers (ms : gmap string marker) (f : family) : family := mkFamily (devices f) ms (describedByStream f) (deviceSetKnown f) (fitted f).

(** An exception of the script. *)
Inductive js_error := NotAFunction.
Definition Script : Type := Program viewer js_error unit.
Definition doing (f : viewer -> viewer) : Script := fun v => (Ok tt, f v).

Section Page.
Context `{F : FloatJson} `{B : Browser}.

(* ------------------------------------------------------------------ *)
(** ** Drawing *)

Definition name_text (j : json) : string := match j with JStr s => s | j => String_of j end.
Definition label (interrupted : bool) (d : device) : string :=
  name_text (v_name d) ++ " - " ++ stateText (v_state d) ++ (if interrupted then " " ++ MSG_UNCONFIRMED else "").

Definition panelState (v : viewer) : string :=
  if negb (String.eqb (failure (att v)) "") then "error"
  else if negb (watching (att v)) then "idle"
  else if negb (deviceSetKnown (fam v)) then "loading"
  else if (size (devices (fam v)) =? 0)%nat then "empty"
  else "ready".
(** [renderPanelState]: the state, its text and its action. *)
Definition panel (v : viewer) : string * string * string :=
  let s := panelState v in
  let '(text, action) :=
    if String.eqb s "error" then (failure (att v), failureAction (att v))
    else if String.eqb s "idle" then ("Enter a viewer token", "Then choose Watch")
    else if String.eqb s "loading" then ("Connecting to your family", "Choose Watch again to retry")
    else if String.eqb s "empty" then (MSG_NO_DEVICES, "Enrol a phone to see it here")
    else ("Watching your family", if interrupted (hlt v) then "Feed interrupted" else "Live from your server") in
  (s, text, action).

Definition name_is_text (d : device) : bool := match v_name d with JStr _ => true | _ => false end.
(** The comparison of [render]'s sort. *)
Definition listed_before (a b : string * device) : bool :=
  let an := toLowerCase (name_text (v_name (snd a))) in
  let bn := toLowerCase (name_text (v_name (snd b))) in
  if negb (String.eqb an bn) then js_less an bn else js_less (fst a) (fst b).
Definition in_order (v : viewer) : list device := map snd (stable_sort listed_before (map_to_list (devices (fam v)))).

Definition row_of (interrupted : bool) (d : device) : row :=
  mkRow (v_id d) (v_state d) (name_text (v_name d)) (stateText (v_state d))
        (if String.eqb (v_note d) "" then None else Some (v_note d)) (if interrupted then Some MSG_UNCONFIRMED else None).
Definition draw (v : viewer) : drawing :=
  let ds := in_order v in
  let rows p := map (row_of (interrupted (hlt v))) (List.filter p ds) in
  let unlocatedCount := Z.of_nat (length (List.filter (fun d => negb (v_located d)) ds)) in
  let all := Z.of_nat (length ds) in
  let c := cnt v in
  let rejects (text : string) := if 0 <? rejectedCount c then Some text else None in
  let '(s, text, action) := panel v in
  mkDrawing (rows v_located) (rows (fun d => negb (v_located d))) (0 <? unlocatedCount)
    (if 0 <? all then Some (Itoa (all - unlocatedCount) ++ " of " ++ Itoa all ++ " on map, " ++ Itoa unlocatedCount ++ " without position") else None)
    (rejects (Itoa (rejectedCount c) ++ " of " ++ Itoa (receivedCount c) ++ " updates unreadable"))
    (rejects ("latest: " ++ lastRejection c))
    s text action.

(** The tooltips of the located devices' markers. *)
Definition retip (interrupted : bool) (ms : gmap string marker) (d : device) : gmap string marker :=
  if v_located d then
    match ms !! v_id d with Some m => <[v_id d := mkMarker (m_lat m) (m_lon m) (label interrupted d)]> ms | None => ms end
  else ms.
(** The sort asks every name for its lower case when there are two or more. *)
Definition sort_throws (v : viewer) : bool :=
  let ds := map snd (map_to_list (devices (fam v))) in (1 <? length ds)%nat && negb (forallb name_is_text ds).
Definition render : Script := fun v =>
  if sort_throws v then (Err NotAFunction, v)
  else (Ok tt, set_drawn (draw v) (on_family (fun f => set_markers (foldl (retip (interrupted (hlt v))) (markers f) (in_order v)) f) v)).

(* ------------------------------------------------------------------ *)
(** ** The small steps *)

Definition setStatus (text health : string) : viewer -> viewer := set_status (text, health).
Definition received (v : viewer) : viewer :=
  set_counts (mkCounts (receivedCount (cnt v) + 1) (rejectedCount (cnt v)) (lastRejection (cnt v))) v.
Definition rejecting (why : string) (v : viewer) : viewer := set_counts (mkCounts (receivedCount (cnt v)) (rejectedCount (cnt v) + 1) why) v.
Definition reject (why : string) : Script := doing (rejecting why) ;; render.
Definition markInterrupted (why : string) : Script :=
  doing (fun v => setStatus "connection interrupted" "error" (set_health (mkHealth (everOpened (hlt v)) true why) v)) ;; render.
Definition markHealthy (text : string) : Script :=
  doing (fun v => setStatus text "live" (set_health (mkHealth (everOpened (hlt v)) false "") v)) ;; render.
Definition failing (reason action : string) (v : viewer) : viewer := set_attempt (mkAttempt (watching (att v)) reason action) v.
Definition clearFailure : viewer -> viewer := failing "" "".

Definition ensureDevice (id : string) (name : option json) (f : family) : family :=
  match devices f !! id with
  | None => set_devices (<[id := mkDevice id (match name with Some n => if truthy name then n else JStr id | None => JStr id end) "no-position" false ""]> (devices f)) f
  | Some d =>
      match name with
      | Some n => if truthy name then set_devices (<[id := mkDevice (v_id d) n (v_state d) (v_located d) (v_note d)]> (devices f)) f else f
      | None => f
      end
  end.
Definition described (id : string) (f : family) : family := mkFamily (devices f) (markers f) (<[id := tt]> (describedByStream f)) (deviceSetKnown f) (fitted f).
(** What a device is said to be, where it is, and why not. *)
Definition settle (id state : string) (located : bool) (note : string) (f : family) : family :=
  set_devices (alter (fun d => mkDevice (v_id d) (v_name d) state located note) id (devices f)) f.
Definition restate (id state : string) (f : family) : family :=
  set_devices (alter (fun d => mkDevice (v_id d) (v_name d) state (v_located d) (v_note d)) id (devices f)) f.
Definition removeMarker (id : string) (f : family) : family := set_markers (delete id (markers f)) f.
Definition placeMarker (interrupted : bool) (id : string) (lat lon : float64) (f : family) : family :=
  match devices f !! id with
  | None => f
  | Some d => mkFamily (devices f) (<[v_id d := mkMarker lat lon (label interrupted d)]> (markers f)) (describedByStream f) (deviceSetKnown f)
                (match fitted f with None => Some (lat, lon) | at_ => at_ end)
  end.
(** A device at a place, with the marker's label as the connection stands. *)
Definition put (id state : string) (lat lon : float64) (v : viewer) : viewer :=
  on_family (fun f => placeMarker (interrupted (hlt v)) id lat lon (settle id state true "" f)) v.
Definition unreadable_note : string := "- position not readable".

(* ------------------------------------------------------------------ *)
(** ** Events and replies *)

Definition state_word (j : option json) : option string := match j with Some (JStr s) => List.find (String.eqb s) STATE_TOKENS | _ => None end.
Definition error_reason (data : string) : string :=
  match JSON_parse data with
  | Some e => match word (property e "message") with Some why => why | None => "the server cannot read this family" end
  | None => "the server cannot read this family"
  end.

Definition onStreamEvent (type data : string) : Script :=
  if String.eqb type "error" then markInterrupted (error_reason data)
  else
    doing received ;;
    if negb (String.eqb type "position") && negb (String.eqb type "presentation") then reject "unknown event type"
    else
      match JSON_parse data with
      | None => reject "unreadable event data"
      | Some p =>
          match word (property p "device_id") with
          | None => reject "event names no device"
          | Some id =>
              match state_word (property p "presentation") with
              | None => reject "unknown state word"
              | Some state =>
                  doing (on_family (described id ∘ ensureDevice id (property p "device_name"))) ;;
                  let settled : Script := fun v =>
                    if interrupted (hlt v) then markHealthy "live" v else (doing (setStatus "live" "live") ;; render)%program v in
                  if String.eqb type "position" then
                    match finiteNumber (property p "lat"), finiteNumber (property p "lon") with
                    | Some lat, Some lon => doing (put id state lat lon) ;; settled
                    | _, _ => doing (on_family (removeMarker id ∘ settle id state false unreadable_note)) ;; reject "coordinate not readable"
                    end
                  else if String.eqb state "no-position" then
                    doing (on_family (removeMarker id ∘ settle id "no-position" false "")) ;; settled
                  else doing (on_family (restate id state)) ;; settled
              end
          end
      end.

(** One entry of the positions. *)
Definition applyEntry (e : json) : Script :=
  doing received ;;
  match word (property e "device_id") with
  | None => reject "a positions row names no device"
  | Some id =>
      match state_word (property e "presentation") with
      | None => reject "unknown state word"
      | Some state =>
          doing (on_family (ensureDevice id (property e "device_name"))) ;;
          doing (fun v =>
            if bool_decide (is_Some (describedByStream (fam v) !! id)) then v
            else if String.eqb state "no-position" then on_family (removeMarker id ∘ settle id "no-position" false "") v
            else match finiteNumber (property e "lat"), finiteNumber (property e "lon") with
                 | Some lat, Some lon => put id state lat lon v
                 | _, _ => on_family (settle id state false unreadable_note) v
                 end)
      end
  end.
Definition set_known (f : family) : family := mkFamily (devices f) (markers f) (describedByStream f) true (fitted f).
Definition applyPositions (entries : json) : Script :=
  match (match entries with JStr text => JSON_parse text | j => Some j end) with
  | None => doing received ;; reject "unreadable positions reply"
  | Some (JArr l) => doing (on_family set_known) ;; each applyEntry l ;; render
  | Some _ => doing received ;; reject "positions reply is not a list"
  end.

(* ------------------------------------------------------------------ *)
(** ** A watch *)

Definition reset (v : viewer) : viewer :=
  clearFailure (mkViewer no_family (mkHealth false false "") (mkCounts 0 0 "") (att v) None (watches v) (status v) (drawn v)).
Definition refused (detail : string) : Script :=
  doing (fun v => failing MSG_REFUSED "Check the token, then choose Watch"
                    (setStatus (MSG_REFUSED ++ (if String.eqb detail "" then "" else " (" ++ detail ++ ")")) "error" (set_source None v))) ;; render.
Definition unreachable (detail : string) : Script :=
  doing (fun v => failing "Could not reach the server" (if String.eqb detail "" then "Check the server, then choose Watch" else detail)
                    (setStatus "could not reach the server" "error" v)) ;; render.
(** The click up to the request and the connection it makes, which is the watch's own. *)
Definition watch (token : string) : Script :=
  let tok := trim token in
  doing (fun v => set_attempt (mkAttempt true "" "") (reset v)) ;;
  if String.eqb tok "" then refused "no token given"
  else
    doing (setStatus "connecting" "idle") ;; render ;;
    doing (fun v => mkViewer (fam v) (hlt v) (cnt v) (att v) (Some (S (watches v))) (S (watches v)) (status v) (drawn v)).

(** What becomes of the request for the positions: an answer with its body when it is
    JSON, or none. *)
Inductive reply := Answered (status : Z) (body : option json) | Unanswered.
Definition check_the_server : Script := unreachable "Check the server, then choose Watch".
(** A promise's [catch]. *)
Definition caught (m : Script) : Script := fun v => match m v with (Ok _, v) => (Ok tt, v) | (Err _, v) => check_the_server v end.
Definition on_reply (r : reply) : Script :=
  match r with
  | Unanswered => check_the_server
  | Answered code body =>
      if (code =? 401) || (code =? 403) then caught (refused ("HTTP " ++ Itoa code))
      else if negb ((200 <=? code) && (code <=? 299)) then caught (unreachable "The server refused to list devices")
      else match body with
           | None => check_the_server
           | Some JNull => done tt
           | Some entries => caught (applyPositions entries)
           end
  end.

(** What can happen to the page: the button, the reply of a watch, what the connection of
    a watch does, and the two functions handed to the page's tester. *)
Inductive happening :=
| Watch (token : string)
| Replied (r : reply)
| Opened (watch : nat)
| Told (watch : nat) (type data : string)
| Lost (watch : nat)
| Handed (type data : string)
| HandedPositions (entries : json).
Definition if_current (n : nat) (m : Script) : Script := fun v => if bool_decide (source v = Some n) then m v else (Ok tt, v).
Definition happens (h : happening) : Script :=
  match h with
  | Watch token => watch token
  | Replied r => on_reply r
  | Opened n => if_current n (doing (fun v => set_health (mkHealth true (interrupted (hlt v)) (interruptedWhy (hlt v))) v) ;; markHealthy "live")
  | Told n type data => if_current n (onStreamEvent type data)
  | Lost n => if_current n (fun v => markInterrupted (if everOpened (hlt v) then "the live connection dropped" else "the live connection could not open") v)
  | Handed type data => onStreamEvent type data
  | HandedPositions entries => applyPositions entries
  end.
Definition after (h : happening) (v : viewer) : viewer := snd (happens h v).
(** The page after a history; an exception ends the step it is met in. *)
Definition history (hs : list happening) (v : viewer) : viewer := foldl (fun v h => after h v) v hs.
End Page.
