(* ===== verification/ViewerSpec.v ===== *)
(** What a reader of the live map page can rely on: the page's variables are well formed
    whatever happens to it, what is drawn is what is held, an event costs at most itself,
    an interruption marks every row, and - fed by a session of the server's stream - the
    page says of every device what the published function says. *)

From Stdlib Require Import ZArith Lia Bool String Ascii List SpecFloat Sorted.
From stdpp Require Import base option list strings gmap sorting.
From S2P Require Import Prelude GoTime Presentation GoStrings Calendar Database StoreFix StoreEntities.
From S2P Require Import StoreReads Auth Json Server ServerSpec Stream StreamSpec.
From S2P Require Import Programs Viewer.
Local Open Scope string_scope.
Local Open Scope Z_scope.

Section ViewerSpec.
Context `{F : FloatJson} `{B : Browser}.

(* ------------------------------------------------------------------ *)
(** ** Redrawing *)

(** Where the markers are, and all of a page but its labels and its drawing. *)
Definition places (f : family) : gmap string (float64 * float64) := (fun m => (m_lat m, m_lon m)) <$> markers f.
Definition family_core (f : family) := (devices f, places f, describedByStream f, deviceSetKnown f, fitted f).
Definition core (v : viewer) := (family_core (fam v), hlt v, cnt v, att v, source v, watches v, status v).

Lemma retip_places i ds : forall ms, (fun m => (m_lat m, m_lon m)) <$> foldl (retip i) ms ds = (fun m => (m_lat m, m_lon m)) <$> ms.
Proof.
  induction ds as [|d ds IH]; intros ms; [done|]. cbn [foldl]. rewrite IH. unfold retip. destruct (v_located d); [|done].
  destruct (ms !! v_id d) as [m|] eqn:E; [|done]. rewrite fmap_insert. apply insert_id. by rewrite lookup_fmap, E.
Qed.
Lemma render_core v : core (snd (render v)) = core v.
Proof. unfold render. destruct (sort_throws v); [done|]. unfold core, family_core, places. simpl. by rewrite retip_places. Qed.
Lemma draw_core v v' : core v' = core v -> draw v' = draw v.
Proof.
  unfold core, family_core. intros [= E1 _ _ E2 _ E3 E4 E5 _ _ _]. unfold draw, in_order, panel, panelState. by rewrite E1, E2, E3, E4, E5.
Qed.
Lemma render_drawn v : fst (render v) = Ok tt -> drawn (snd (render v)) = draw (snd (render v)).
Proof. intros H. rewrite (draw_core v) by apply render_core. revert H. unfold render. by destruct (sort_throws v). Qed.

(** A script that ends in a drawing of what is then held. *)
Definition draws (m : Script) : Prop := forall v, fst (m v) = Ok tt -> drawn (snd (m v)) = draw (snd (m v)).
Lemma draws_after (m k : Script) : draws k -> draws (andThen m (fun _ => k)).
Proof. intros Hk v. unfold andThen. destruct (m v) as [[[]|e] v1]; [apply Hk|done]. Qed.
Lemma draws_render : draws render.
Proof. intros v. apply render_drawn. Qed.

(* ------------------------------------------------------------------ *)
(** ** Well-formed pages *)

Definition device_ok (f : family) (id : string) (d : device) : Prop :=
  v_id d = id /\ id <> "" /\ v_state d ∈ STATE_TOKENS /\ truthy (Some (v_name d)) = true /\ (v_located d = true -> is_Some (places f !! id)).
Record family_ok (f : family) : Prop := {
  ok_device : forall id d, devices f !! id = Some d -> device_ok f id d;
  ok_place : forall id, is_Some (places f !! id) -> is_Some (devices f !! id) /\ is_Some (fitted f);
  ok_described : forall id, is_Some (describedByStream f !! id) -> is_Some (devices f !! id) }.
(** Why an attempt may have ended, and what to do then. *)
Definition failures : list (string * string) :=
  [("", ""); (MSG_REFUSED, "Check the token, then choose Watch"); ("Could not reach the server", "Check the server, then choose Watch");
   ("Could not reach the server", "The server refused to list devices")].
Record page_ok (v : viewer) : Prop := {
  ok_family : family_ok (fam v);
  ok_counts : 0 <= rejectedCount (cnt v) <= receivedCount (cnt v);
  ok_why : interrupted (hlt v) = false -> interruptedWhy (hlt v) = "";
  ok_source : forall n, source v = Some n -> n = watches v;
  ok_failure : (failure (att v), failureAction (att v)) ∈ failures }.

Lemma family_ok_core f f' : family_core f' = family_core f -> family_ok f -> family_ok f'.
Proof.
  unfold family_core. intros [= E1 E2 E3 _ E4] [H1 H2 H3]. unfold device_ok in *.
  split; unfold device_ok; rewrite ?E1, ?E2, ?E3, ?E4; done.
Qed.
Lemma page_ok_core v v' : core v' = core v -> page_ok v -> page_ok v'.
Proof.
  unfold core. intros [= E1 E2 E3 E4 E5 E6 E7 E8 E9 E10] [H1 H2 H3 H4 H5].
  split; rewrite ?E6, ?E7, ?E8, ?E9, ?E10; try done. eapply family_ok_core; [|exact H1]. unfold family_core. by rewrite E1, E2, E3, E4, E5.
Qed.

(** A change to one device leaves what it says of the others. *)
Definition touches (id : string) (f f' : family) : Prop :=
  (forall j, j <> id -> devices f' !! j = devices f !! j /\ places f' !! j = places f !! j /\ describedByStream f' !! j = describedByStream f !! j) /\
  (is_Some (fitted f) -> is_Some (fitted f')) /\ deviceSetKnown f' = deviceSetKnown f.
Lemma touches_refl id f : touches id f f.
Proof. done. Qed.
Lemma touches_trans id f g h : touches id f g -> touches id g h -> touches id f h.
Proof.
  intros (H1 & F1 & K1) (H2 & F2 & K2). split; [|split; [auto|congruence]]. intros j Hj. specialize (H1 j Hj). specialize (H2 j Hj). intuition congruence.
Qed.
Lemma touches_ok id f f' : family_ok f -> touches id f f' ->
  (forall d, devices f' !! id = Some d -> device_ok f' id d) ->
  (is_Some (places f' !! id) -> is_Some (fitted f')) ->
  is_Some (devices f' !! id) -> family_ok f'.
Proof.
  intros [H1 H2 H3] (Ht & Hf & _) Hd Hp Hs. split.
  - intros j d Hj. destruct (decide (j = id)) as [->|Hne]; [by apply Hd|]. destruct (Ht j Hne) as (E1 & E2 & _).
    rewrite E1 in Hj. unfold device_ok. rewrite E2. by apply H1.
  - intros j Hj. destruct (decide (j = id)) as [->|Hne]; [by split; [|apply Hp]|]. destruct (Ht j Hne) as (E1 & E2 & _).
    rewrite E2 in Hj. rewrite E1. destruct (H2 j Hj). auto.
  - intros j Hj. destruct (decide (j = id)) as [->|Hne]; [done|]. destruct (Ht j Hne) as (E1 & _ & E3). rewrite E1. apply H3. by rewrite <- E3.
Qed.

(** What [ensureDevice] makes of a name. *)
Definition given_name (id : string) (name : option json) (old : option json) : json :=
  match name with Some n => if truthy name then n else default (JStr id) old | None => default (JStr id) old end.
Lemma ensureDevice_spec id name f :
  touches id f (ensureDevice id name f) /\ places (ensureDevice id name f) = places f /\
  describedByStream (ensureDevice id name f) = describedByStream f /\ fitted (ensureDevice id name f) = fitted f /\
  devices (ensureDevice id name f) !! id = Some
    match devices f !! id with
    | None => mkDevice id (given_name id name None) "no-position" false ""
    | Some d => mkDevice (v_id d) (given_name id name (Some (v_name d))) (v_state d) (v_located d) (v_note d)
    end.
Proof.
  unfold ensureDevice, given_name. destruct (devices f !! id) as [d|] eqn:Ed.
  - destruct name as [n|]; [destruct (truthy (Some n)) eqn:En|]; cbn [set_devices devices places describedByStream fitted markers deviceSetKnown default];
      rewrite ?lookup_insert_eq, ?Ed; (split; [|by destruct d]); try apply touches_refl. split; [|done]. intros j Hj. cbn. by rewrite lookup_insert_ne.
  - cbn [set_devices devices describedByStream fitted]. rewrite lookup_insert_eq. split; [|by destruct name].
    split; [|done]. intros j Hj. cbn. by rewrite lookup_insert_ne.
Qed.
Lemma truthy_given id name old : id <> "" -> truthy (Some (default (JStr id) old)) = true -> truthy (Some (given_name id name old)) = true.
Proof. intros Hid Ho. unfold given_name. destruct name as [n|]; [|done]. by destruct (truthy (Some n)) eqn:E. Qed.
Lemma truthy_id id : id <> "" -> truthy (Some (JStr id)) = true.
Proof. intros Hid. cbn. by destruct (String.eqb_spec id ""). Qed.
Lemma ensureDevice_ok id name f : id <> "" -> family_ok f -> family_ok (ensureDevice id name f).
Proof.
  intros Hid Hf. destruct (ensureDevice_spec id name f) as (Ht & Ep & _ & Ef & Ed).
  apply (touches_ok id f); [done|done| | |by rewrite Ed].
  - intros d. rewrite Ed. intros [= <-]. unfold device_ok. rewrite Ep. destruct (devices f !! id) as [d0|] eqn:E0; cbn [v_id v_state v_name v_located].
    + destruct (ok_device f Hf id d0 E0) as (H1 & H2 & H3 & H4 & H5). split; [done|]. split; [done|]. split; [done|]. split; [|done]. by apply truthy_given.
    + split; [done|]. split; [done|]. split; [|by split; [apply truthy_given; [|apply truthy_id]|]]. unfold STATE_TOKENS. set_solver.
  - rewrite Ep, Ef. intros Hp. exact (proj2 (ok_place f Hf id Hp)).
Qed.

Lemma described_spec id f : touches id f (described id f) /\ devices (described id f) = devices f /\ places (described id f) = places f /\
  fitted (described id f) = fitted f /\ describedByStream (described id f) !! id = Some tt.
Proof.
  unfold described. cbn. rewrite lookup_insert_eq. split; [|done]. split; [|done]. intros j Hj. cbn. by rewrite lookup_insert_ne.
Qed.
Lemma described_ok id f : is_Some (devices f !! id) -> family_ok f -> family_ok (described id f).
Proof.
  intros Hs Hf. destruct (described_spec id f) as (Ht & Ed & Ep & Ef & _). apply (touches_ok id f); [done|done| | |by rewrite Ed].
  - intros d. unfold device_ok. rewrite Ed, Ep. apply (ok_device f Hf).
  - rewrite Ep, Ef. intros Hp. exact (proj2 (ok_place f Hf id Hp)).
Qed.

(** What an accepted event or row makes of the device it names. *)
Definition settled_as (id state : string) (located : bool) (note : string) (f f' : family) : Prop :=
  touches id f f' /\ describedByStream f' = describedByStream f /\
  exists d, devices f !! id = Some d /\ devices f' !! id = Some (mkDevice (v_id d) (v_name d) state located note).
Lemma settle_spec id state located note f : is_Some (devices f !! id) ->
  settled_as id state located note f (settle id state located note f) /\ places (settle id state located note f) = places f.
Proof.
  intros [d Hd]. split; [|done]. split; [|split; [done|exists d; split; [done|]; cbn; by rewrite lookup_alter_eq, Hd]].
  split; [|done]. intros j Hj. cbn. by rewrite lookup_alter_ne.
Qed.
Lemma settled_ok id state located note f f' : state ∈ STATE_TOKENS -> family_ok f -> settled_as id state located note f f' ->
  (located = true -> is_Some (places f' !! id)) -> (is_Some (places f' !! id) -> is_Some (fitted f')) -> family_ok f'.
Proof.
  intros Hst Hf (Ht & _ & d & Ed & Ed') Hl Hp. apply (touches_ok id f); [done|done| |done|by rewrite Ed'].
  intros d'. rewrite Ed'. intros [= <-]. destruct (ok_device f Hf id d Ed) as (H1 & H2 & _ & H4 & _). unfold device_ok. done.
Qed.
Lemma removed_spec id state note f : is_Some (devices f !! id) ->
  settled_as id state false note f (removeMarker id (settle id state false note f)) /\ places (removeMarker id (settle id state false note f)) !! id = None.
Proof.
  intros Hs. destruct (settle_spec id state false note f Hs) as [(Ht & Ek & d & Ed & Ed') _]. split.
  - split; [|split; [done|by exists d]]. destruct Ht as (H1 & H2). split; [|done].
    intros j Hj. destruct (H1 j Hj) as (E1 & E2 & E3). split; [done|]. split; [|done]. rewrite <- E2. unfold places, removeMarker. cbn.
    by rewrite !lookup_fmap, lookup_delete_ne.
  - unfold places, removeMarker. cbn. by rewrite lookup_fmap, lookup_delete_eq.
Qed.
Lemma removed_ok id state note f : state ∈ STATE_TOKENS -> family_ok f -> is_Some (devices f !! id) ->
  family_ok (removeMarker id (settle id state false note f)).
Proof.
  intros Hst Hf Hs. destruct (removed_spec id state note f Hs) as [H1 H2]. apply (settled_ok id state false note f); [done|done|done|done|].
  rewrite H2. by intros [? ?].
Qed.
Lemma put_spec id state lat lon v : family_ok (fam v) -> is_Some (devices (fam v) !! id) ->
  settled_as id state true "" (fam v) (fam (put id state lat lon v)) /\ places (fam (put id state lat lon v)) !! id = Some (lat, lon) /\
  is_Some (fitted (fam (put id state lat lon v))).
Proof.
  intros Hf Hs. destruct (settle_spec id state true "" (fam v) Hs) as [(Ht & Ek & d & Ed & Ed') _]. unfold put, placeMarker. cbn [fam on_family].
  rewrite Ed'. cbn [v_id]. destruct (ok_device _ Hf id d Ed) as (-> & _). unfold places. cbn [devices markers describedByStream deviceSetKnown fitted].
  rewrite lookup_fmap, lookup_insert_eq. split; [|split; [done|by destruct (fitted (settle id state true "" (fam v))); eexists]].
  split; [|split; [done|exists d; split; [done|]]].
  - destruct Ht as (H1 & H2 & H3). split; [|split; [by cbn; intros; destruct (fitted (fam v)); eexists|done]].
    intros j Hj. destruct (H1 j Hj) as (E1 & E2 & E3). split; [done|]. split; [|done]. rewrite <- E2. unfold places. cbn. by rewrite !lookup_fmap, lookup_insert_ne.
  - exact Ed'.
Qed.
Lemma restate_spec id state f : is_Some (devices f !! id) -> exists d, devices f !! id = Some d /\ settled_as id state (v_located d) (v_note d) f (restate id state f).
Proof.
  intros [d Hd]. exists d. split; [done|]. split; [|split; [done|exists d; split; [done|]; cbn; by rewrite lookup_alter_eq, Hd]].
  split; [|done]. intros j Hj. cbn. by rewrite lookup_alter_ne.
Qed.
Lemma restate_ok id state f : state ∈ STATE_TOKENS -> family_ok f -> is_Some (devices f !! id) -> family_ok (restate id state f).
Proof.
  intros Hst Hf Hs. destruct (restate_spec id state f Hs) as (d & Ed & H). eapply settled_ok; [exact Hst|exact Hf|exact H| |].
  - intros Hl. by apply (ok_device f Hf id d Ed).
  - intros Hp. exact (proj2 (ok_place f Hf id Hp)).
Qed.

(* ------------------------------------------------------------------ *)
(** ** Events *)

(** The device an event of the stream is read as speaking of, with the name it gives and
    the state: nothing when the page refuses it. *)
Definition spoken (p : json) : option (string * option json * string) :=
  match word (property p "device_id"), state_word (property p "presentation") with
  | Some id, Some state => Some (id, property p "device_name", state)
  | _, _ => None
  end.
Definition reads (type data : string) : option (string * option json * string) :=
  if String.eqb type "position" || String.eqb type "presentation" then match JSON_parse data with Some p => spoken p | None => None end
  else None.
Definition healthy (v : viewer) : viewer :=
  if interrupted (hlt v) then setStatus "live" "live" (set_health (mkHealth (everOpened (hlt v)) false "") v) else setStatus "live" "live" v.
Definition known_as (id : string) (name : option json) (v : viewer) : viewer := on_family (described id ∘ ensureDevice id name) v.

Definition readable_place (data : string) : bool :=
  match JSON_parse data with
  | Some p => match finiteNumber (property p "lat"), finiteNumber (property p "lon") with Some _, Some _ => true | _, _ => false end
  | None => false
  end.

(** An event's effect before the page is drawn again. *)
Inductive event_effect (type data : string) (v : viewer) : viewer -> Prop :=
| refused_event why : reads type data = None -> event_effect type data v (rejecting why (received v))
| placed_event id name state lat lon : reads type data = Some (id, name, state) ->
    event_effect type data v (healthy (put id state lat lon (known_as id name (received v))))
| unplaced_event id name state : reads type data = Some (id, name, state) -> type = "position" -> readable_place data = false ->
    event_effect type data v (rejecting "coordinate not readable" (on_family (removeMarker id ∘ settle id state false unreadable_note) (known_as id name (received v))))
| unlocated_event id name : reads type data = Some (id, name, "no-position") ->
    event_effect type data v (healthy (on_family (removeMarker id ∘ settle id "no-position" false "") (known_as id name (received v))))
| restated_event id name state : reads type data = Some (id, name, state) ->
    event_effect type data v (healthy (on_family (restate id state) (known_as id name (received v)))).

Lemma state_word_token j s : state_word j = Some s -> j = Some (JStr s) /\ s ∈ STATE_TOKENS.
Proof.
  unfold state_word. destruct j as [[]|]; try done. intros H. apply find_some in H as [H1 H2].
  apply String.eqb_eq in H2 as ->. split; [done|]. by apply list_elem_of_In.
Qed.
Lemma word_text j s : word j = Some s -> j = Some (JStr s) /\ s <> "".
Proof. unfold word. destruct j as [[]|]; try done. destruct (String.eqb_spec s0 ""); [done|]. by intros [= <-]. Qed.
Lemma reads_ok type data id name state : reads type data = Some (id, name, state) -> id <> "" /\ state ∈ STATE_TOKENS.
Proof.
  unfold reads, spoken. destruct (_ || _); [|done]. destruct (JSON_parse data) as [p|]; [|done].
  destruct (word _) as [i|] eqn:Ei; [|done]. destruct (state_word _) as [s|] eqn:Es; [|done]. intros [= <- _ <-].
  split; [by destruct (word_text _ _ Ei)|by destruct (state_word_token _ _ Es)].
Qed.

Lemma onStreamEvent_effect type data v : type <> "error" ->
  exists v1, event_effect type data v v1 /\ onStreamEvent type data v = render v1.
Proof.
  intros Hne. unfold onStreamEvent. destruct (String.eqb_spec type "error"); [done|]. cbv beta iota delta [andThen doing].
  set (v0 := received v). destruct (negb (String.eqb type "position") && negb (String.eqb type "presentation")) eqn:Et.
  { eexists. split; [apply refused_event|reflexivity]. unfold reads. by rewrite <- negb_orb in Et; apply negb_true_iff in Et as ->. }
  rewrite <- negb_orb in Et. apply negb_false_iff in Et.
  assert (Er : reads type data = match JSON_parse data with Some p => spoken p | None => None end) by (unfold reads; by rewrite Et).
  destruct (JSON_parse data) as [p|] eqn:Ep; [|eexists; split; [by apply refused_event|reflexivity]]. unfold spoken in Er.
  destruct (word (property p "device_id")) as [id|]; [|eexists; split; [by apply refused_event|reflexivity]].
  destruct (state_word (property p "presentation")) as [state|]; [|eexists; split; [by apply refused_event|reflexivity]].
  assert (Eh : forall w, (if interrupted (hlt w) then markHealthy "live" w
    else match setStatus "live" "live" w with s => render s end) = render (healthy w)).
  { intros w. unfold healthy. by destruct (interrupted (hlt w)). }
  destruct (String.eqb_spec type "position") as [Hty|_].
  - assert (Hun : readable_place data = false -> event_effect type data v (rejecting "coordinate not readable" (on_family (removeMarker id ∘ settle id state false unreadable_note)
                     (known_as id (property p "device_name") (received v))))) by by intros; eapply unplaced_event.
    unfold readable_place in Hun. rewrite Ep in Hun. destruct (finiteNumber (property p "lat")) as [lat|]; [destruct (finiteNumber (property p "lon")) as [lon|]|].
    + eexists. split; [by apply (placed_event type data v id (property p "device_name") state lat lon)|]. etrans; [|apply Eh]. reflexivity.
    + eexists. split; [by apply Hun|reflexivity].
    + eexists. split; [by apply Hun|reflexivity].
  - destruct (String.eqb_spec state "no-position") as [->|].
    + eexists; split; [by eapply unlocated_event|etrans; [|apply Eh]; reflexivity].
    + eexists; split; [by eapply restated_event|etrans; [|apply Eh]; reflexivity].
Qed.

(** What an accepted event leaves of the device it names. *)
Record tells (id : string) (name : option json) (state : string) (f f' : family) : Prop := {
  tells_ok : family_ok f';
  tells_touches : touches id f f';
  tells_described : describedByStream f' !! id = Some tt;
  tells_device : exists d, devices f' !! id = Some d /\ v_state d = state /\ v_name d = given_name id name (v_name <$> devices f !! id) }.

Lemma known_as_spec id name v : id <> "" -> family_ok (fam v) -> let f := fam (known_as id name v) in
  family_ok f /\ touches id (fam v) f /\ describedByStream f !! id = Some tt /\
  exists d, devices f !! id = Some d /\ v_name d = given_name id name (v_name <$> devices (fam v) !! id).
Proof.
  intros Hid Hf f. subst f. unfold known_as. cbn [fam on_family]. unfold compose.
  destruct (ensureDevice_spec id name (fam v)) as (T1 & _ & _ & _ & E1). set (g := ensureDevice id name (fam v)) in *.
  destruct (described_spec id g) as (T2 & E2 & _ & _ & E3).
  split; [|split; [by eapply touches_trans|split; [done|]]].
  - apply described_ok; [by rewrite E1|by apply ensureDevice_ok].
  - rewrite E2, E1. eexists. split; [done|]. by destruct (devices (fam v) !! id).
Qed.
Lemma tells_settled id name state located note v f' : id <> "" -> family_ok (fam v) -> family_ok f' ->
  settled_as id state located note (fam (known_as id name v)) f' -> tells id name state (fam v) f'.
Proof.
  intros Hid Hf Hf' (T2 & E2 & d & Ed & Ed'). destruct (known_as_spec id name v Hid Hf) as (Hk & T1 & Es & d0 & Ed0 & En).
  split; [done|by eapply touches_trans|by rewrite E2|]. rewrite Ed' in *. eexists. split; [done|]. split; [done|].
  rewrite <- En. rewrite Ed in Ed0. by injection Ed0 as ->.
Qed.
Lemma healthy_fam v : fam (healthy v) = fam v.
Proof. unfold healthy. by destruct (interrupted (hlt v)). Qed.

(** The rest of a page: what no event changes. *)
Definition frame (v : viewer) := (att v, source v, watches v).
Lemma effect_tells type data v v1 id name state : page_ok v -> event_effect type data v v1 -> reads type data = Some (id, name, state) ->
  tells id name state (fam v) (fam v1) /\ frame v1 = frame v /\ receivedCount (cnt v1) = receivedCount (cnt v) + 1 /\
  (hlt v1 = mkHealth (everOpened (hlt v)) false "" /\ cnt v1 = cnt (received v) /\ status v1 = ("live", "live") \/
   hlt v1 = hlt v /\ cnt v1 = cnt (rejecting "coordinate not readable" (received v)) /\ status v1 = status v /\ type = "position" /\ readable_place data = false).
Proof.
  intros Hok He Er. pose proof (reads_ok _ _ _ _ _ Er) as [Hid Hst]. pose proof (ok_family v Hok) as Hf.
  assert (Hf0 : family_ok (fam (received v))) by exact Hf.
  destruct (known_as_spec id name (received v) Hid Hf0) as (Hk & _ & _ & d0 & Ed0 & _).
  assert (Hs : is_Some (devices (fam (known_as id name (received v))) !! id)) by by rewrite Ed0.
  assert (Hh : forall w, hlt w = hlt v -> cnt w = cnt (received v) -> frame w = frame v ->
    frame (healthy w) = frame v /\ receivedCount (cnt (healthy w)) = receivedCount (cnt v) + 1 /\
    (hlt (healthy w) = mkHealth (everOpened (hlt v)) false "" /\ cnt (healthy w) = cnt (received v) /\ status (healthy w) = ("live", "live") \/
     hlt (healthy w) = hlt v /\ cnt (healthy w) = cnt (rejecting "coordinate not readable" (received v)) /\ status (healthy w) = status v /\ type = "position" /\ readable_place data = false)).
  { intros w E1 E2 E3. pose proof (ok_why v Hok) as Hw. unfold healthy. rewrite E1. destruct (interrupted (hlt v)) eqn:Ei.
    - split; [exact E3|]. cbn [cnt setStatus set_status set_health]. rewrite E2. split; [done|]. left. done.
    - split; [exact E3|]. cbn [cnt setStatus set_status hlt status]. rewrite E2, E1. split; [done|]. left. split; [|done].
      destruct (hlt v) as [a b c] eqn:Eh. cbn in *. by rewrite Ei, Hw. }
  destruct He as [why E|id' name' state' lat lon E|id' name' state' E Ety Epl|id' name' E|id' name' state' E]; rewrite E in Er; try discriminate Er; injection Er as -> -> <-.
  - destruct (put_spec id state' lat lon _ Hk Hs) as (S1 & S2 & S3). rewrite healthy_fam. split; [|by apply Hh].
    eapply (tells_settled id name state' true "" (received v)); [done|done| |exact S1]. eapply settled_ok; [done|exact Hk|exact S1|by rewrite S2|done].
  - destruct (removed_spec id state' unreadable_note _ Hs) as [S1 _]. cbn [fam rejecting set_counts on_family]. split; [|by auto 8].
    eapply (tells_settled id name state' false unreadable_note (received v)); [done|done| |exact S1]. by apply removed_ok.
  - destruct (removed_spec id "no-position" "" _ Hs) as [S1 _]. rewrite healthy_fam. split; [|by apply Hh].
    eapply (tells_settled id name "no-position" false "" (received v)); [done|done| |exact S1]. by apply removed_ok.
  - destruct (restate_spec id state' _ Hs) as (d & _ & S1). rewrite healthy_fam. split; [|by apply Hh].
    eapply (tells_settled id name state' (v_located d) (v_note d) (received v)); [done|done| |exact S1]. by apply restate_ok.
Qed.
Lemma effect_refused type data v v1 : event_effect type data v v1 -> reads type data = None -> exists why, v1 = rejecting why (received v).
Proof. intros [why E|? ? ? ? ? E|? ? ? E _ _|? ? E|? ? ? E] Er; [by exists why|congruence..]. Qed.

(* ------------------------------------------------------------------ *)
(** ** Whatever happens *)

Definition names_text (v : viewer) : Prop := forall id d, devices (fam v) !! id = Some d -> name_is_text d = true.
(** A payload whose name, if it has one, is a string. *)
Definition named_text (p : json) : Prop :=
  forall n, property p "device_name" = Some n -> truthy (Some n) = true -> exists s, n = JStr s.
Definition positions_in (j : json) : option json := match j with JStr text => JSON_parse text | j => Some j end.
Definition rows_named (j : json) : Prop := forall l, positions_in j = Some (JArr l) -> Forall named_text l.
Definition well_named (h : happening) : Prop :=
  match h with
  | Told _ _ data | Handed _ data => forall p, JSON_parse data = Some p -> named_text p
  | Replied (Answered _ (Some j)) | HandedPositions j => rows_named j
  | _ => True
  end.

Lemma names_text_sorts v : names_text v -> sort_throws v = false.
Proof.
  intros Hn. unfold sort_throws. rewrite (proj2 (forallb_forall _ _)), andb_false_r; [done|].
  intros d Hd%list_elem_of_In. apply list_elem_of_fmap in Hd as ([id d'] & -> & Hd). apply elem_of_map_to_list in Hd. by apply (Hn id).
Qed.
Lemma given_text id p old : named_text p -> (forall j, old = Some j -> exists s, j = JStr s) ->
  exists s, given_name id (property p "device_name") old = JStr s.
Proof.
  intros Hp Ho. assert (Hd : exists s, default (JStr id) old = JStr s) by (destruct old as [j|]; [by apply Ho|by exists id]).
  unfold given_name. destruct (property p "device_name") as [n|] eqn:E; [|done]. destruct (truthy (Some n)) eqn:En; [by apply Hp|done].
Qed.

(** The invariant; with the flag, that every name is a string. *)
Definition inv (text : bool) (v : viewer) : Prop := page_ok v /\ (text = true -> names_text v).
Lemma inv_core text v v' : core v' = core v -> inv text v -> inv text v'.
Proof.
  intros E [H1 H2]. split; [by eapply page_ok_core|]. intros Ht. unfold core, family_core in E. injection E as E _. intros id d. rewrite E. by apply H2.
Qed.
Definition goes (text : bool) (m : Script) : Prop :=
  forall v, inv text v -> inv text (snd (m v)) /\ (text = true -> fst (m v) = Ok tt).

Lemma goes_doing text f : (forall v, inv text v -> inv text (f v)) -> goes text (doing f).
Proof. intros H v Hv. split; [by apply H|done]. Qed.
Lemma goes_then text (m k : Script) : goes text m -> goes text k -> goes text (andThen m (fun _ => k)).
Proof.
  intros Hm Hk v Hv. unfold andThen. specialize (Hm v Hv). destruct (m v) as [[[]|e] v1]; cbn in Hm; destruct Hm as [Hi Ho]; [by apply Hk|]. split; [exact Hi|]. intros Ht. discriminate (Ho Ht).
Qed.
Lemma goes_render text : goes text render.
Proof.
  intros v Hv. split; [eapply inv_core; [apply render_core|done]|]. intros Ht. unfold render. by rewrite (names_text_sorts v) by by apply Hv.
Qed.
Lemma goes_shows text f : (forall v, inv text v -> inv text (f v)) -> goes text (andThen (doing f) (fun _ => render)).
Proof. intros H. apply goes_then; [by apply goes_doing|apply goes_render]. Qed.
Lemma goes_each {A} text (m : A -> Script) l : Forall (fun x => goes text (m x)) l -> goes text (each m l).
Proof. induction 1; [by intros v Hv|by apply goes_then]. Qed.
Lemma goes_known text v (m : Script) : (inv text v -> goes text m) -> inv text v -> inv text (snd (m v)) /\ (text = true -> fst (m v) = Ok tt).
Proof. intros H Hv. by apply H. Qed.

(** A page whose family alone is changed, to one that names its devices as it should. *)
Definition keeps_family (text : bool) (f f' : family) : Prop :=
  family_ok f' /\ (text = true -> (forall id d, devices f !! id = Some d -> name_is_text d = true) ->
                                   forall id d, devices f' !! id = Some d -> name_is_text d = true).
Lemma inv_rest text v v' : inv text v -> keeps_family text (fam v) (fam v') ->
  0 <= rejectedCount (cnt v') <= receivedCount (cnt v') -> (interrupted (hlt v') = false -> interruptedWhy (hlt v') = "") -> frame v' = frame v -> inv text v'.
Proof.
  intros [[H1 H2 H3 H4 H5] H6] [K1 K2] Hc Hw [= E1 E2 E3]. split; [split; rewrite ?E1, ?E2, ?E3; done|]. intros Ht. exact (K2 Ht (H6 Ht)).
Qed.
Lemma inv_same_family text v v' : inv text v -> fam v' = fam v ->
  0 <= rejectedCount (cnt v') <= receivedCount (cnt v') -> (interrupted (hlt v') = false -> interruptedWhy (hlt v') = "") -> frame v' = frame v -> inv text v'.
Proof. intros Hv E. apply inv_rest; [done|]. rewrite E. split; [exact (ok_family _ (proj1 Hv))|by intros _ H]. Qed.
Lemma tells_names text id name state f f' : tells id name state f f' ->
  (text = true -> forall old, (forall j, old = Some j -> exists s, j = JStr s) -> exists s, given_name id name old = JStr s) -> keeps_family text f f'.
Proof.
  intros [H1 (H2 & _) _ (d0 & E0 & _ & En)] Hn. split; [done|]. intros Ht Hf j d Hj. destruct (decide (j = id)) as [->|Hne].
  - rewrite E0 in Hj. injection Hj as <-. unfold name_is_text. rewrite En. destruct (Hn Ht (v_name <$> devices f !! id)) as [s ->]; [|done].
    intros n. destruct (devices f !! id) as [d1|] eqn:E1; [|done]. intros [= <-]. specialize (Hf id d1 E1). unfold name_is_text in Hf. destruct (v_name d1); try done. by eexists.
  - destruct (H2 j Hne) as (E1 & _). rewrite E1 in Hj. by apply (Hf j).
Qed.

Lemma spoken_data type data id name state : reads type data = Some (id, name, state) -> exists p, JSON_parse data = Some p /\ name = property p "device_name".
Proof.
  unfold reads, spoken. destruct (_ || _); [|done]. destruct (JSON_parse data) as [p|]; [|done]. intros H. exists p. split; [done|].
  destruct (word _); [|done]. destruct (state_word _); [|done]. by injection H.
Qed.
Lemma inv_received text v : inv text v -> inv text (received v).
Proof. intros Hv. pose proof (ok_counts _ (proj1 Hv)). apply (inv_same_family text v); try done; [cbn; lia|apply (ok_why _ (proj1 Hv))]. Qed.
Lemma inv_rejecting text why v : inv text v -> rejectedCount (cnt v) < receivedCount (cnt v) -> inv text (rejecting why v).
Proof. intros Hv Hlt. pose proof (ok_counts _ (proj1 Hv)). apply (inv_same_family text v); try done; [cbn; lia|apply (ok_why _ (proj1 Hv))]. Qed.
Lemma inv_rejected text why v : inv text v -> inv text (rejecting why (received v)).
Proof. intros Hv. pose proof (ok_counts _ (proj1 Hv)). apply inv_rejecting; [by apply inv_received|cbn; lia]. Qed.
Lemma inv_health text h v : inv text v -> (interrupted h = false -> interruptedWhy h = "") -> inv text (set_health h v).
Proof. intros Hv Hh. by apply (inv_same_family text v); [| |apply (ok_counts _ (proj1 Hv))| |]. Qed.
Lemma inv_status text s v : inv text v -> inv text (set_status s v).
Proof. intros Hv. by apply (inv_same_family text v); [| |apply (ok_counts _ (proj1 Hv))|apply (ok_why _ (proj1 Hv))|]. Qed.

Lemma goes_markInterrupted text why : goes text (markInterrupted why).
Proof. apply goes_shows. intros v Hv. by apply inv_status, inv_health. Qed.
Lemma goes_markHealthy text t : goes text (markHealthy t).
Proof. apply goes_shows. intros v Hv. by apply inv_status, inv_health. Qed.

Lemma goes_onStreamEvent text type data : (text = true -> forall p, JSON_parse data = Some p -> named_text p) -> goes text (onStreamEvent type data).
Proof.
  intros Hn v Hv. destruct (decide (type = "error")) as [->|Hne]; [by apply goes_markInterrupted|].
  destruct (onStreamEvent_effect type data v Hne) as (v1 & He & ->). apply goes_render.
  destruct (reads type data) as [[[id name] state]|] eqn:Er.
  - destruct (effect_tells _ _ _ _ _ _ _ (proj1 Hv) He Er) as (Ht & Ef & _ & Hc). pose proof (ok_counts _ (proj1 Hv)) as Hcnt.
    apply (inv_rest text v); [done| | | |done].
    + eapply tells_names; [exact Ht|]. intros Htx old Ho. destruct (spoken_data _ _ _ _ _ Er) as (p & Ep & ->). by apply given_text; [apply Hn|].
    + destruct Hc as [(_ & -> & _)|(_ & -> & _)]; cbn; lia.
    + destruct Hc as [(-> & _)|(-> & _)]; [done|apply (ok_why _ (proj1 Hv))].
  - destruct (effect_refused _ _ _ _ He Er) as [why ->]. by apply inv_rejected.
Qed.

(** A row of the positions: what the stream has described keeps its state. *)
Record enters (id : string) (name : option json) (f f' : family) : Prop := {
  enters_ok : family_ok f';
  enters_touches : touches id f f';
  enters_described : describedByStream f' = describedByStream f;
  enters_device : exists d, devices f' !! id = Some d /\ v_name d = given_name id name (v_name <$> devices f !! id) /\
    (is_Some (describedByStream f !! id) -> v_state <$> devices f !! id = Some (v_state d)) }.
Lemma applyEntry_effect e v : page_ok v ->
  match spoken e with
  | None => exists why, applyEntry e v = render (rejecting why (received v))
  | Some (id, name, state) => exists v', applyEntry e v = (Ok tt, v') /\ enters id name (fam v) (fam v') /\ name = property e "device_name" /\
      cnt v' = cnt (received v) /\ hlt v' = hlt v /\ frame v' = frame v
  end.
Proof.
  intros Hok. unfold applyEntry, spoken. destruct (word _) as [id|] eqn:Ei; [|by eexists]. destruct (state_word _) as [state|] eqn:Es; [|by eexists].
  apply word_text in Ei as [_ Hid]. apply state_word_token in Es as [_ Hst]. eexists. split; [reflexivity|].
  set (name := property e "device_name"). pose proof (ok_family v Hok) as Hf. set (v1 := on_family (ensureDevice id name) (received v)).
  destruct (ensureDevice_spec id name (fam v)) as (T1 & P1 & D1 & F1 & E1). pose proof (ensureDevice_ok id name (fam v) Hid Hf) as Hf1.
  change (ensureDevice id name (fam v)) with (fam v1) in *. assert (Hs : is_Some (devices (fam v1) !! id)) by by rewrite E1.
  assert (Hgo : forall v', family_ok (fam v') -> touches id (fam v1) (fam v') -> describedByStream (fam v') = describedByStream (fam v1) ->
     (exists d, devices (fam v') !! id = Some d /\ v_name <$> devices (fam v1) !! id = Some (v_name d)) -> ~ is_Some (describedByStream (fam v) !! id) ->
     enters id name (fam v) (fam v')).
  { intros v' G1 G2 G3 (d & Ed & En) G4. split; [done|by eapply touches_trans|by rewrite G3|]. exists d. split; [done|]. split; [|done].
    rewrite E1 in En. cbn in En. injection En as <-. by destruct (devices (fam v) !! id). }
  assert (Hset : forall loc note v', ~ is_Some (describedByStream (fam v) !! id) -> settled_as id state loc note (fam v1) (fam v') -> family_ok (fam v') -> enters id name (fam v) (fam v')).
  { intros loc note v' G4 (G1 & G2 & d & Ed & Ed') G3. apply Hgo; try done. rewrite Ed', Ed. by eexists. }
  cbv delta [doing]. cbv beta iota zeta. cbn [fst snd].
  case_bool_decide as Hd.
  - split; [|done]. split; [done|done|done|]. rewrite E1. eexists. split; [done|]. split; [by destruct (devices (fam v) !! id)|].
    rewrite D1 in Hd. intros _. destruct (ok_described _ Hf id Hd) as [d Ed]. by rewrite Ed.
  - rewrite D1 in Hd. destruct (String.eqb_spec state "no-position") as [->|].
    + split; [|done]. destruct (removed_spec id "no-position" "" _ Hs) as [S1 _]. eapply Hset; [done|exact S1|]. by apply removed_ok.
    + destruct (finiteNumber (property e "lat")) as [lat|]; [destruct (finiteNumber (property e "lon")) as [lon|]|]; (split; [|done]).
      * destruct (put_spec id state lat lon v1 Hf1 Hs) as (S1 & S2 & S3). eapply Hset; [done|exact S1|]. eapply settled_ok; [done|exact Hf1|exact S1|by rewrite S2|done].
      * destruct (settle_spec id state false unreadable_note _ Hs) as [S1 S2]. eapply Hset; [done|exact S1|]. eapply settled_ok; [done|exact Hf1|exact S1|done|].
        cbn [fam on_family]. rewrite S2. intros Hp. exact (proj2 (ok_place _ Hf1 id Hp)).
      * destruct (settle_spec id state false unreadable_note _ Hs) as [S1 S2]. eapply Hset; [done|exact S1|]. eapply settled_ok; [done|exact Hf1|exact S1|done|].
        cbn [fam on_family]. rewrite S2. intros Hp. exact (proj2 (ok_place _ Hf1 id Hp)).
Qed.

Lemma goes_applyEntry text e : (text = true -> named_text e) -> goes text (applyEntry e).
Proof.
  intros Hn v Hv. pose proof (applyEntry_effect e v (proj1 Hv)) as He. pose proof (ok_counts _ (proj1 Hv)) as Hcnt.
  destruct (spoken e) as [[[id name] state]|].
  - destruct He as (v' & -> & [E1 E2 _ (d & Ed & En & _)] & -> & Ec & Eh & Ef). split; [|done]. cbn [snd].
    apply (inv_rest text v); [done| |rewrite Ec; cbn; lia|rewrite Eh; apply (ok_why _ (proj1 Hv))|done].
    split; [done|]. intros Ht Hf j d' Hj. destruct (decide (j = id)) as [->|Hne].
    + rewrite Ed in Hj. injection Hj as <-. unfold name_is_text. rewrite En. destruct (given_text id e (v_name <$> devices (fam v) !! id) (Hn Ht)) as [s ->]; [|done].
      intros n. destruct (devices (fam v) !! id) as [d1|] eqn:E0; [|done]. intros [= <-]. specialize (Hf id d1 E0). unfold name_is_text in Hf. destruct (v_name d1); try done. by eexists.
    + destruct E2 as (E2 & _). destruct (E2 j Hne) as (E3 & _). rewrite E3 in Hj. by apply (Hf j).
  - destruct He as [why ->]. apply goes_render. by apply inv_rejected.
Qed.
Lemma inv_known text v : inv text v -> inv text (on_family set_known v).
Proof.
  intros Hv. apply (inv_rest text v); [done| |apply (ok_counts _ (proj1 Hv))|apply (ok_why _ (proj1 Hv))|done].
  split; [|done]. destruct Hv as [[[H1 H2 H3] _] _]. by split.
Qed.
Lemma goes_applyPositions text j : (text = true -> rows_named j) -> goes text (applyPositions j).
Proof.
  intros Hn. assert (Hr : forall why, goes text (andThen (doing received) (fun _ => reject why))).
  { intros why v Hv. apply goes_render. by apply inv_rejected. }
  unfold applyPositions. unfold rows_named, positions_in in Hn. destruct (match j with JStr text => JSON_parse text | j => Some j end) as [[]|]; try apply Hr.
  apply goes_then; [by apply goes_doing, inv_known|]. apply goes_then; [|apply goes_render].
  apply goes_each, Forall_forall. intros e He. apply goes_applyEntry. intros Ht. specialize (Hn Ht _ eq_refl). rewrite Forall_forall in Hn. by apply Hn.
Qed.

Lemma inv_failing text reason action v : (reason, action) ∈ failures -> inv text v -> inv text (failing reason action v).
Proof. intros Hr [[H1 H2 H3 H4 H5] H6]. done. Qed.
Lemma goes_unreachable text detail : ("Could not reach the server", detail) ∈ failures -> goes text (unreachable detail).
Proof.
  intros Hd. apply goes_shows. intros v Hv. apply inv_failing; [|by apply inv_status]. destruct (String.eqb_spec detail ""); [|done]. unfold failures. set_solver.
Qed.
Lemma goes_check_the_server text : goes text check_the_server.
Proof. apply goes_unreachable. unfold failures. set_solver. Qed.
Lemma goes_refused text detail : goes text (refused detail).
Proof. apply goes_shows. intros v Hv. apply inv_failing; [unfold failures; set_solver|]. apply inv_status. destruct Hv as [[H1 H2 H3 H4 H5] H6]. done. Qed.
Lemma goes_caught text m : goes text m -> goes text (caught m).
Proof.
  intros Hm v Hv. unfold caught. specialize (Hm v Hv). destruct (m v) as [[[]|e] v1]; [done|]. apply goes_check_the_server. apply Hm.
Qed.
Lemma page_ok_fresh a s w st d : (failure a, failureAction a) ∈ failures -> (forall n, s = Some n -> n = w) ->
  page_ok (mkViewer no_family (mkHealth false false "") (mkCounts 0 0 "") a s w st d).
Proof.
  intros Ha Hs. split; try done. split; cbn; unfold places; cbn; try done; intros id; rewrite ?fmap_empty, ?lookup_empty; try done; by intros [? ?].
Qed.
Lemma goes_watch text token : goes text (watch token).
Proof.
  apply goes_then; [apply goes_doing; intros v Hv; split; [apply page_ok_fresh; [unfold failures; set_solver|done]|by intros _ id d]|].
  destruct (String.eqb (trim token) ""); [apply goes_refused|].
  apply goes_then; [apply goes_doing; intros v Hv; by apply inv_status|]. apply goes_then; [apply goes_render|].
  apply goes_doing. intros v [[H1 H2 H3 H4 H5] H6]. split; [split; try done|done]. by intros n [= <-].
Qed.
Lemma goes_reply text r : (text = true -> well_named (Replied r)) -> goes text (on_reply r).
Proof.
  intros Hn. destruct r as [code body|]; [|apply goes_check_the_server]. cbn [on_reply].
  destruct (_ || _); [apply goes_caught, goes_refused|]. destruct (negb _); [apply goes_caught, goes_unreachable; unfold failures; set_solver|].
  destruct body as [j|]; [|apply goes_check_the_server]. destruct j; try (apply goes_caught, goes_applyPositions; exact Hn). intros v Hv. done.
Qed.
Lemma goes_current text n m : goes text m -> goes text (if_current n m).
Proof. intros Hm v Hv. unfold if_current. case_bool_decide; [by apply Hm|done]. Qed.
Lemma goes_happens text h : (text = true -> well_named h) -> goes text (happens h).
Proof.
  intros Hn. destruct h as [token|r|n|n type data|n|type data|j]; cbn [happens].
  - apply goes_watch.
  - by apply goes_reply.
  - apply goes_current, goes_then; [|apply goes_markHealthy]. apply goes_doing. intros v Hv. apply inv_health; [done|apply (ok_why _ (proj1 Hv))].
  - by apply goes_current, goes_onStreamEvent.
  - apply goes_current. intros v. apply goes_markInterrupted.
  - by apply goes_onStreamEvent.
  - by apply goes_applyPositions.
Qed.
Lemma inv_loaded text : inv text loaded.
Proof. split; [apply page_ok_fresh; [unfold failures; set_solver|done]|by intros _ id d]. Qed.
Lemma history_inv text hs : (text = true -> Forall well_named hs) -> forall v, inv text v -> inv text (history hs v).
Proof.
  induction hs as [|h hs IH]; [done|]. intros Hn v Hv. apply IH; [intros Ht; by apply (Forall_inv_tail (Hn Ht))|]. apply goes_happens; [|done].
  intros Ht. exact (Forall_inv (Hn Ht)).
Qed.

(* ------------------------------------------------------------------ *)
(** ** What is drawn *)

Lemma draws_onStreamEvent type data : draws (onStreamEvent type data).
Proof.
  intros v. destruct (decide (type = "error")) as [->|Hne]; [apply render_drawn|].
  destruct (onStreamEvent_effect type data v Hne) as (v1 & _ & ->). apply render_drawn.
Qed.
Lemma draws_applyPositions j : draws (applyPositions j).
Proof.
  unfold applyPositions. destruct (match j with JStr text => JSON_parse text | j => Some j end) as [[]|]; repeat apply draws_after; apply draws_render.
Qed.
Lemma draws_unreachable detail : draws (unreachable detail).
Proof. apply draws_after, draws_render. Qed.
Lemma draws_refused detail : draws (refused detail).
Proof. apply draws_after, draws_render. Qed.
Lemma draws_caught m : draws m -> draws (caught m).
Proof.
  intros Hm v. unfold caught. specialize (Hm v). destruct (m v) as [[[]|e] v1]; [by intros _; apply Hm|]. apply draws_unreachable.
Qed.
Lemma draws_watch token : draws (watch token).
Proof.
  apply draws_after. destruct (String.eqb (trim token) ""); [apply draws_refused|]. apply draws_after. intros v. unfold andThen, doing.
  pose proof (render_drawn v) as Hr. destruct (render v) as [[[]|e] v1]; [|done]. intros _. exact (Hr eq_refl).
Qed.

(** A step that met no exception leaves the page drawn as it is, if it was. *)
Lemma happens_drawn h v : drawn v = draw v -> fst (happens h v) = Ok tt -> drawn (snd (happens h v)) = draw (snd (happens h v)).
Proof.
  intros Hv. assert (Hcur : forall n m, draws m -> fst (if_current n m v) = Ok tt -> drawn (snd (if_current n m v)) = draw (snd (if_current n m v))).
  { intros n m Hm. unfold if_current. case_bool_decide; [apply Hm|done]. }
  destruct h as [token|r|n|n type data|n|type data|j]; cbn [happens].
  - apply draws_watch.
  - destruct r as [code body|]; [|apply draws_unreachable]. cbn [on_reply].
    destruct (_ || _); [apply draws_caught, draws_refused|]. destruct (negb _); [apply draws_caught, draws_unreachable|].
    destruct body as [j|]; [|apply draws_unreachable]. destruct j; try apply draws_caught, draws_applyPositions. done.
  - apply Hcur. apply draws_after, draws_after, draws_render.
  - apply Hcur, draws_onStreamEvent.
  - apply Hcur. intros w. apply (draws_after (doing _) _ draws_render).
  - apply draws_onStreamEvent.
  - apply draws_applyPositions.
Qed.
Lemma drawn_history hs : Forall well_named hs -> forall v, inv true v -> drawn v = draw v -> drawn (history hs v) = draw (history hs v).
Proof.
  induction 1 as [|h hs Hh Hhs IH]; [done|]. intros v Hv Hd. destruct (goes_happens true h (fun _ => Hh) v Hv) as [Hi Ho].
  apply IH; [exact Hi|]. apply happens_drawn; [done|by apply Ho].
Qed.
Lemma loaded_drawn : drawn loaded = draw loaded.
Proof. reflexivity. Qed.

(** The rows: one for each device, in the list of its kind. *)
Lemma in_order_ids v : map fst (stable_sort listed_before (map_to_list (devices (fam v)))) ≡ₚ map fst (map_to_list (devices (fam v))).
Proof. by rewrite stable_sort_perm. Qed.
Lemma elem_of_in_order v d : page_ok v -> d ∈ in_order v <-> devices (fam v) !! v_id d = Some d.
Proof.
  intros Hok. unfold in_order. rewrite list_elem_of_fmap. setoid_rewrite stable_sort_perm. split.
  - intros ([id d'] & -> & Hd%elem_of_map_to_list). cbn. by destruct (ok_device _ (ok_family v Hok) id d' Hd) as (-> & _).
  - intros Hd. exists (v_id d, d). split; [done|]. by apply elem_of_map_to_list.
Qed.
Definition rows_of (d : drawing) : list row := (dw_located d ++ dw_unlocated d)%list.
Definition row_of_viewer (v : viewer) (d : device) : row := row_of (interrupted (hlt v)) d.
Lemma draw_lists v : dw_located (draw v) = map (row_of_viewer v) (List.filter v_located (in_order v)) /\
  dw_unlocated (draw v) = map (row_of_viewer v) (List.filter (fun d => negb (v_located d)) (in_order v)).
Proof. unfold draw. by destruct (panel v) as [[s text] action]. Qed.
Lemma elem_of_rows v r : page_ok v -> r ∈ rows_of (draw v) <-> exists d, devices (fam v) !! w_id r = Some d /\ r = row_of_viewer v d.
Proof.
  intros Hok. unfold rows_of. destruct (draw_lists v) as [-> ->]. rewrite elem_of_app, !list_elem_of_fmap. setoid_rewrite elem_of_filter_b. setoid_rewrite elem_of_in_order; [|done..]. split.
  - intros [(d & -> & Hd & _)|(d & -> & Hd & _)]; by exists d.
  - intros (d & Hd & ->). destruct (v_located d) eqn:El; [left|right]; exists d; rewrite El; done.
Qed.
Lemma rows_distinct v : page_ok v -> NoDup (map w_id (rows_of (draw v))).
Proof.
  intros Hok. assert (Hn : NoDup (map v_id (in_order v))).
  { assert (E : map v_id (in_order v) = map fst (stable_sort listed_before (map_to_list (devices (fam v))))).
    { unfold in_order. rewrite map_map. apply map_ext_in. intros [id d] Hd%list_elem_of_In. rewrite stable_sort_perm in Hd. apply elem_of_map_to_list in Hd. cbn [fst snd].
      by destruct (ok_device _ (ok_family v Hok) id d Hd) as (-> & _). }
    rewrite E, in_order_ids. apply NoDup_fst_map_to_list. }
  unfold rows_of. destruct (draw_lists v) as [-> ->]. rewrite map_app, !map_map. cbn [w_id row_of_viewer row_of]. apply NoDup_app.
  split; [by apply NoDup_map_filter|]. split; [|by apply NoDup_map_filter].
  intros i (d & -> & [Hd El]%elem_of_filter_b)%list_elem_of_fmap (d' & Ei & [Hd' El']%elem_of_filter_b)%list_elem_of_fmap.
  apply elem_of_in_order in Hd, Hd'; [|done..]. rewrite Ei in Hd. rewrite Hd in Hd'. injection Hd' as ->. by rewrite El in El'.
Qed.

Lemma draw_panel v : dw_state (draw v) = panelState v.
Proof. unfold draw, panel. by match goal with |- context [if String.eqb ?s ?t then ?x else ?y] => destruct (if String.eqb s t then x else y) end. Qed.
Lemma draw_claims v : page_ok v -> interrupted (hlt v) = true -> dw_action (draw v) <> "Live from your server".
Proof.
  intros Hok Hi. unfold draw, panel. rewrite Hi. destruct (String.eqb (panelState v) "error").
  - pose proof (ok_failure v Hok) as Hf. cbn [dw_action]. intros E. rewrite E in Hf. unfold failures in Hf.
    repeat (apply elem_of_cons in Hf as [Hf|Hf]; [discriminate Hf|]). by apply elem_of_nil in Hf.
  - by repeat match goal with |- context [if ?b then _ else _] => destruct b end.
Qed.

(* ------------------------------------------------------------------ *)
(** ** The page's properties *)

(** C22: whatever happens to the page - any clicks, replies, events, losses and hand-fed
    inputs, in any order, with any text in them and whatever exceptions the script meets -
    its variables stay of their type: a device is kept under its own id, which is not
    empty, with a name that is not empty and one of the four state words; a device on the
    map has a marker, a marker and a description by the stream belong to a device that is
    held; no more is rejected than was received; the connection listened to is the last
    one opened; and a failure is one of three, with its action to take. *)
Theorem viewer_well_formed (hs : list happening) : page_ok (history hs loaded).
Proof. apply (history_inv false hs); [done|apply inv_loaded]. Qed.

(** C26: what a person reads is what the page holds.  After any history whose device names
    are strings no step throws, and the two lists together have exactly one row for each
    device held, in the list of those on the map exactly when it is located - and then it
    has a marker - with the wording of its own state and the unconfirmed mark exactly when
    the connection is interrupted; the panel is in the one state the page is in, and
    counts its rejects exactly when there are any. *)
Theorem page_shows_what_it_holds (hs : list happening) : Forall well_named hs ->
  let v := history hs loaded in
  (forall h, well_named h -> fst (happens h v) = Ok tt) /\
  NoDup (map w_id (rows_of (drawn v))) /\
  (forall r, r ∈ rows_of (drawn v) <-> exists d, devices (fam v) !! w_id r = Some d /\ r = row_of (interrupted (hlt v)) d) /\
  (forall id d, devices (fam v) !! id = Some d -> v_located d = true ->
     row_of (interrupted (hlt v)) d ∈ dw_located (drawn v) /\ is_Some (markers (fam v) !! id)) /\
  dw_state (drawn v) = panelState v /\
  (is_Some (dw_rejected (drawn v)) <-> 0 < rejectedCount (cnt v)).
Proof.
  intros Hn v. pose proof (history_inv true hs (fun _ => Hn) loaded (inv_loaded true)) as Hi. fold v in Hi.
  pose proof (drawn_history hs Hn loaded (inv_loaded true) loaded_drawn) as Hd. fold v in Hd. clearbody v. destruct Hi as [Hok Ht]. rewrite Hd.
  split; [intros h Hh; apply (goes_happens true h (fun _ => Hh)); done|]. split; [by apply rows_distinct|]. split; [by intros r; apply elem_of_rows|].
  split; [|split; [apply draw_panel|]].
  - intros id d Ed El. pose proof (ok_device _ (ok_family v Hok) id d Ed) as (Ei & _ & _ & _ & Hp). split.
    + destruct (draw_lists v) as [-> _]. apply list_elem_of_fmap. exists d. split; [done|]. apply elem_of_filter_b. split; [|done].
      apply elem_of_in_order; [done|]. by rewrite Ei.
    + specialize (Hp El). unfold places in Hp. rewrite lookup_fmap in Hp. by apply fmap_is_Some in Hp.
  - unfold draw. destruct (panel v) as [[s text] action]. cbn [dw_rejected]. destruct (Z.ltb_spec 0 (rejectedCount (cnt v))); split; intros Hx; first [done|lia|by eexists|by destruct Hx].
Qed.

Definition marked (r : row) : row := mkRow (w_id r) (w_state r) (w_name r) (w_words r) (w_note r) (Some MSG_UNCONFIRMED).
(** C24: an interruption never freezes a live map.  When the connection the page listens to
    is lost, or the server says over it that it cannot read, the page keeps every device,
    its state and its marker's place, and draws the rows it drew, each now with the
    unconfirmed mark; the status says the connection is interrupted, and no panel still
    claims to be live. *)
Theorem interruption_marks (hs : list happening) (n : nat) (h : happening) :
  Forall well_named hs -> source (history hs loaded) = Some n -> (h = Lost n \/ exists data, h = Told n "error" data) -> well_named h ->
  let v := history hs loaded in let v' := after h v in
  rows_of (drawn v') = map marked (rows_of (drawn v)) /\ devices (fam v') = devices (fam v) /\ places (fam v') = places (fam v) /\
  status v' = ("connection interrupted", "error") /\ dw_action (drawn v') <> "Live from your server".
Proof.
  intros Hn Hs Hh Hw v v'. pose proof (history_inv true hs (fun _ => Hn) loaded (inv_loaded true)) as Hi. fold v in Hi, Hs.
  pose proof (drawn_history hs Hn loaded (inv_loaded true) loaded_drawn) as Hd. fold v in Hd. clearbody v.
  assert (Hex : exists why, happens h v = markInterrupted why v).
  { destruct Hh as [->|[data ->]]; cbn [happens]; unfold if_current; rewrite Hs, bool_decide_true by done; by eexists. }
  destruct Hex as [why Hex]. destruct (goes_happens true h (fun _ => Hw) v Hi) as [_ Ho]. specialize (Ho eq_refl).
  assert (Hd' : drawn v' = draw v') by by apply happens_drawn. unfold after in v'. subst v'. rewrite Hex in *. clear Hex Ho Hs Hh Hw.
  unfold markInterrupted, andThen, doing in *. set (v1 := setStatus _ _ _) in *. pose proof (render_core v1) as Hc. set (v2 := snd (render v1)) in *. clearbody v2.
  rewrite Hd', Hd, (draw_core v1 v2 Hc). unfold core, family_core in Hc. injection Hc as -> E1 _ _ _ _ _ _ _ _ ->.
  split; [|split; [done|split; [exact E1|split; [done|]]]].
  - unfold rows_of. destruct (draw_lists v1) as [-> ->], (draw_lists v) as [-> ->]. rewrite <- map_app, <- map_app, map_map. done.
  - apply draw_claims; [|done]. by eapply (inv_status true), inv_health.
Qed.

(** C23: an event costs at most itself.  After any history, whatever event a page is
    handed - any type but the server's own [error], any text - it is counted once, and the
    attempt, the connection and the watch stay; an event the page cannot read changes
    nothing it holds, no state, place, health or status, and is counted as refused; one it
    reads gives the device it names the state it carries and leaves every other device
    and marker where it was, and either the page is live again or - when its place is not
    a finite number - the event is counted as refused and the health stays. *)
Theorem event_contained (hs : list happening) (type data : string) : type <> "error" ->
  let v := history hs loaded in let v' := after (Handed type data) v in
  receivedCount (cnt v') = receivedCount (cnt v) + 1 /\ frame v' = frame v /\
  match reads type data with
  | None => family_core (fam v') = family_core (fam v) /\ hlt v' = hlt v /\ status v' = status v /\ rejectedCount (cnt v') = rejectedCount (cnt v) + 1
  | Some (id, name, state) =>
      (forall j, j <> id -> devices (fam v') !! j = devices (fam v) !! j /\ places (fam v') !! j = places (fam v) !! j) /\
      (exists d, devices (fam v') !! id = Some d /\ v_state d = state /\ v_name d = given_name id name (v_name <$> devices (fam v) !! id)) /\
      (interrupted (hlt v') = false /\ status v' = ("live", "live") /\ rejectedCount (cnt v') = rejectedCount (cnt v) \/
       hlt v' = hlt v /\ status v' = status v /\ rejectedCount (cnt v') = rejectedCount (cnt v) + 1)
  end.
Proof.
  intros Hne v v'. destruct (history_inv false hs ltac:(done) loaded (inv_loaded false)) as [Hok _]. fold v in Hok. clearbody v.
  destruct (onStreamEvent_effect type data v Hne) as (v1 & He & E). unfold after in v'. cbn [happens] in v'. subst v'. rewrite E.
  pose proof (render_core v1) as Hc. set (v2 := snd (render v1)) in *. clearbody v2. unfold frame.
  unfold core in Hc. injection Hc as E1 E2 E3 E4 E5 E6 E7 E8 E9 E10 E11. unfold family_core. rewrite E1, E2, E3, E4, E5, E6, E7, E8, E9, E10, E11.
  destruct (reads type data) as [[[id name] state]|] eqn:Er.
  - destruct (effect_tells _ _ _ _ _ _ _ Hok He Er) as ([_ (Ht & _) _ Hd] & Ef & Hr & Hc). split; [done|]. split; [exact Ef|].
    split; [|split; [exact Hd|]].
    + intros j Hj. destruct (Ht j Hj) as (H1 & H2 & _). done.
    + destruct Hc as [(-> & -> & ->)|(-> & -> & -> & _)]; auto.
  - destruct (effect_refused _ _ _ _ He Er) as [why ->]. done.
Qed.

End ViewerSpec.

(* ------------------------------------------------------------------ *)
(** ** Witnesses *)

#[local] Existing Instance ascii_unicode.
(** Integers as floats, and a browser that reads them. *)
#[local] Instance whole_floats : FloatJson := {|
  float_json := fun f => match f with
                         | S754_finite s m e => Itoa ((if s then -1 else 1) * (if 0 <=? e then Zpos m * 2 ^ e else Zpos m / 2 ^ (- e)))
                         | _ => "0"
                         end;
  ParseFloat := fun t => match ParseInt t with Ok n => Some (f64 n) | Err _ => None end |}.
Fixpoint floats_read (j : json) : json :=
  match j with
  | JNumber t => match ParseFloat t with Some f => JFloat f | None => JNull end
  | JArr l => JArr (map floats_read l)
  | JObj fields => JObj (map (fun f => (fst f, floats_read (snd f))) fields)
  | j => j
  end.
#[local] Instance plain_browser : Browser := {|
  JSON_parse := fun text => option_map floats_read (Unmarshal text);
  String_of := fun _ => "";
  toLowerCase := ToLower;
  trim := TrimSpace;
  js_less := str_ltb |}.

Definition text_name (p : json) : bool :=
  match property p "device_name" with Some (JStr _) | None => true | Some n => negb (truthy (Some n)) end.
Lemma text_name_named p : text_name p = true -> named_text p.
Proof. unfold text_name, named_text. intros Hp n En Ht. rewrite En in Hp. destruct n; rewrite ?Ht in Hp; try discriminate Hp. by eexists. Qed.

Definition said (name : string) (id state : string) : string :=
  default "" (Marshal (JObj [("device_id", JStr id); ("device_name", JStr name); ("presentation", JStr state); ("lat", JInt 5); ("lon", JInt 5)])).
Definition two_phones : list happening :=
  [Watch "t"; Replied (Answered 200 (Some (JArr []))); Opened 1; Told 1 "position" (said "Zoe" "1" "live"); Told 1 "presentation" (said "amy" "2" "stale");
   Told 1 "position" "{"].
Lemma two_phones_named : Forall well_named two_phones.
Proof.
  assert (Ht : forall n type data, match JSON_parse data with Some p => text_name p | None => true end = true -> well_named (Told n type data)).
  { intros n type data Hd p Hp. rewrite Hp in Hd. by apply text_name_named. }
  apply Forall_cons; split; [exact I|]. apply Forall_cons; split; [intros l [= <-]; constructor|]. apply Forall_cons; split; [exact I|].
  repeat (apply Forall_cons; split; [apply Ht; vm_compute; reflexivity|]). constructor.
Qed.
Example two_phones_drawn : let d := drawn (history two_phones loaded) in
  (map (fun r => (w_id r, w_words r)) (dw_located d), map (fun r => (w_id r, w_words r)) (dw_unlocated d), dw_count d, dw_rejected d, dw_detail d, dw_action d) =
  ([("1", "live now")], [("2", "not seen lately")], Some "1 of 2 on map, 1 without position", Some "1 of 3 updates unreadable",
   Some "latest: unreadable event data", "Live from your server").
Proof. vm_compute. reflexivity. Qed.

Lemma page_shows_what_it_holds_witness :
  let v := history two_phones loaded in
  fst (happens (Lost 1) v) = Ok tt /\ NoDup (map w_id (rows_of (drawn v))) /\ dw_state (drawn v) = "ready" /\ is_Some (dw_rejected (drawn v)).
Proof.
  destruct (page_shows_what_it_holds two_phones two_phones_named) as (H1 & H2 & _ & _ & H3 & H4).
  split; [by apply H1|]. split; [exact H2|]. split; [exact H3|]. apply H4. vm_compute. reflexivity.
Defined.
Lemma interruption_marks_witness :
  let v := history two_phones loaded in let v' := after (Told 1 "error" "{}") v in
  rows_of (drawn v') = map marked (rows_of (drawn v)) /\ status v' = ("connection interrupted", "error").
Proof.
  destruct (interruption_marks two_phones 1 (Told 1 "error" "{}") two_phones_named) as (H1 & _ & _ & H2 & _); [reflexivity|right; by exists "{}"| |by split].
  intros p [= <-]. by apply text_name_named.
Defined.
Lemma event_contained_witness :
  let v := history two_phones loaded in let v' := after (Handed "presentation" (said "amy" "2" "live")) v in
  receivedCount (cnt v') = 4 /\ devices (fam v') !! "1" = devices (fam v) !! "1" /\ exists d, devices (fam v') !! "2" = Some d /\ v_state d = "live".
Proof.
  destruct (event_contained two_phones "presentation" (said "amy" "2" "live")) as (H1 & _ & H2); [done|].
  assert (E : reads "presentation" (said "amy" "2" "live") = Some ("2", Some (JStr "amy"), "live")) by (vm_compute; reflexivity).
  rewrite E in H2. destruct H2 as (H2 & (d & H3 & H4 & _) & _). split; [exact H1|]. split; [exact (proj1 (H2 "1" ltac:(discriminate)))|exists d; split; assumption].
Defined.

(* ------------------------------------------------------------------ *)
(** ** Where the page does less than it means to *)

(** A name that is not a string stops every later drawing of two devices: the rows stay
    what they were while the page holds newer states and calls itself live. *)
Definition numbered : list happening :=
  (two_phones ++ [Told 1 "presentation" (default "" (Marshal (JObj [("device_id", JStr "2"); ("device_name", JInt 7); ("presentation", JStr "live")])));
                  Told 1 "presentation" (said "" "1" "stale")])%list.
Lemma numbered_name_freezes :
  map (fun r => (w_id r, w_state r)) (rows_of (drawn (history numbered loaded))) = [("1", "live"); ("2", "stale")] /\
  map (fun kv => (fst kv, v_state (snd kv))) (map_to_list (devices (fam (history numbered loaded)))) ≡ₚ [("1", "stale"); ("2", "live")] /\
  status (history numbered loaded) = ("live", "live") /\
  fst (happens (Lost 1) (history numbered loaded)) = Err NotAFunction.
Proof.
  split; [vm_compute; reflexivity|]. split; [|split; [vm_compute; reflexivity|vm_compute; reflexivity]].
  vm_compute. first [reflexivity|apply Permutation_swap].
Qed.

(** The answer to the request of a watch that was given up ends the one that replaced it. *)
Lemma old_answer_ends_new_watch :
  let before := history [Watch "wrong"; Watch "right"; Opened 2; Told 2 "position" (said "Zoe" "1" "live")] loaded in
  let after_it := after (Replied (Answered 401 None)) before in
  (source before, status before, dw_state (drawn before)) = (Some 2%nat, ("live", "live"), "loading") /\
  (source after_it, status after_it, dw_state (drawn after_it)) = (None, ("viewer token refused (HTTP 401)", "error"), "error").
Proof. vm_compute. split; reflexivity. Qed.
