(* ===== verification/EndToEnd.v ===== *)
(** The server's live stream and the map page together: a page that is handed the events of
    a session of the stream, with answers to its requests for the positions arriving at
    any time beside them, holds what the stream announced.  Once a connection has read, an
    outage that is over leaves the page unmarked with what the published function says of
    every device; on a resumed connection that has not read, [resumed_outage_ends] says
    when it does. *)

From Stdlib Require Import ZArith Lia Bool String Ascii List SpecFloat Sorted.
From stdpp Require Import base option list strings gmap sorting.
From S2P Require Import Prelude GoTime Presentation GoStrings Calendar Database StoreFix StoreEntities.
From S2P Require Import StoreReads Auth Json Dispatcher Notify Server ServerSpec.
From S2P Require Import Stream StreamSpec Programs Viewer ViewerSpec.
Local Open Scope string_scope.
Local Open Scope Z_scope.

Section EndToEnd.
Context `{G : PostGIS} `{U : Unicode} `{F : FloatJson} `{X : SHA256} `{B : Browser}.

(* ------------------------------------------------------------------ *)
(** ** Fed by the server's stream *)

(** The text of an event's data, and the happening it is to the page. *)
Definition data_text (e : event) : string := default "" (Marshal (e_data e)).
Definition told_of (e : event) : string * string := (e_name e, data_text e).
(** What of a history came over a watch's connection. *)
Definition heard_over (n : nat) (hs : list happening) : list (string * string) :=
  omap (fun h => match h with Told m type data => if bool_decide (m = n) then Some (type, data) else None | _ => None end) hs.
(** What may go on beside the stream without ending the watch: answers that list the
    positions or fail, in any number and at any time, and events of other connections. *)
Definition beside (n : nat) (h : happening) : Prop :=
  match h with
  | Replied (Answered code _) => code <> 401 /\ code <> 403
  | Replied Unanswered | HandedPositions _ => True
  | Told _ _ _ => True
  | Lost m | Opened m => m <> n
  | Watch _ | Handed _ _ => False
  end.

(** A payload as JavaScript has it: every number is a float. *)
Fixpoint js_value (j : json) : json :=
  match j with
  | JInt z => JFloat (f64 z)
  | JArr l => JArr (map js_value l)
  | JObj fields => JObj (map (fun f => (fst f, js_value (snd f))) fields)
  | j => j
  end.
(** [JSON.parse] reads back what an event carries. *)
Definition parsed (e : event) : Prop := e_name e = eventError \/ JSON_parse (data_text e) = Some (js_value (e_data e)).
Lemma property_js_value j name : property (js_value j) name = option_map js_value (property j name).
Proof.
  destruct j as [| | | | | | |l|fields]; try done. cbn [js_value property]. induction fields as [|[k x] fields IH]; [done|].
  cbn [map List.find fst snd]. by destruct (String.eqb k name).
Qed.
Lemma js_value_reads j : word (option_map js_value j) = word j /\ state_word (option_map js_value j) = state_word j /\
  finiteNumber (option_map js_value j) = finiteNumber j.
Proof. by destruct j as [[]|]. Qed.
(** An event of the server's: the error, or one that announces a device's state. *)
Definition announcement (e : event) : Prop :=
  e_name e = eventError /\ announces e = None \/
  (e_name e = eventPosition /\ is_Some (finiteNumber (property (e_data e) "lat")) /\ is_Some (finiteNumber (property (e_data e) "lon")) \/
   e_name e = eventPresentation) /\ exists id state, announces e = Some (id, state) /\ id <> "" /\ state ∈ STATE_TOKENS.

Lemma announcement_read e : parsed e -> announcement e ->
  e_name e = eventError /\ announces e = None \/
  e_name e <> "error" /\ exists id name state, announces e = Some (id, state) /\ reads (e_name e) (data_text e) = Some (id, name, state) /\
    (e_name e = "position" -> readable_place (data_text e) = true).
Proof.
  intros Hp [[H1 H2]|(Hn & id & state & Ha & Hid & Hst)]; [by left|]. right.
  assert (Hne : e_name e <> "error") by (by destruct Hn as [(-> & _)| ->]). split; [done|]. exists id, (option_map js_value (property (e_data e) "device_name")), state. split; [done|].
  destruct Hp as [Hp|Hp]; [done|]. unfold reads, spoken. replace (String.eqb (e_name e) "position" || String.eqb (e_name e) "presentation") with true by (by destruct Hn as [(-> & _)| ->]).
  unfold readable_place. rewrite Hp, !property_js_value. destruct (js_value_reads (property (e_data e) "device_id")) as (-> & _ & _).
  destruct (js_value_reads (property (e_data e) "presentation")) as (_ & -> & _), (js_value_reads (property (e_data e) "lat")) as (_ & _ & ->).
  destruct (js_value_reads (property (e_data e) "lon")) as (_ & _ & ->). unfold announces in Ha.
  change (field "device_id" (e_data e)) with (property (e_data e) "device_id") in Ha. change (field "presentation" (e_data e)) with (property (e_data e) "presentation") in Ha.
  destruct (property (e_data e) "device_id") as [[]|]; try done. destruct (property (e_data e) "presentation") as [[]|]; try done. injection Ha as -> ->.
  split; [|destruct Hn as [(_ & [x ->] & [y ->])| ->]; done].
  unfold word. destruct (String.eqb_spec id ""); [done|]. unfold state_word. unfold STATE_TOKENS in *.
  repeat (apply elem_of_cons in Hst as [->|Hst]; [done|]). by apply elem_of_nil in Hst.
Qed.

(** What the page holds while it follows watch [n]: of every device of [m], which the
    stream has described, its state there; and whether it is interrupted. *)
Record follows (n : nat) (m : gmap string string) (b : bool) (v : viewer) : Prop := {
  follows_source : source v = Some n;
  follows_health : interrupted (hlt v) = b;
  follows_states : forall id st, m !! id = Some st -> is_Some (describedByStream (fam v) !! id) /\ v_state <$> devices (fam v) !! id = Some st }.
Definition following (n : nat) (m : gmap string string) (b : bool) (v : viewer) : Prop := inv false v /\ follows n m b v.
Lemma following_core n m b v v' : core v' = core v -> following n m b v -> following n m b v'.
Proof.
  intros E [H1 [H2 H3 H4]]. split; [by eapply inv_core|]. unfold core, family_core in E. injection E as E1 _ E2 _ _ E3 _ _ E4 _ _.
  split; rewrite ?E1, ?E2, ?E3, ?E4; done.
Qed.
Definition keeps (P : viewer -> Prop) (m : Script) : Prop := forall v, P v -> P (snd (m v)).
Lemma keeps_then (P : viewer -> Prop) (m k : Script) : keeps P m -> keeps P k -> keeps P (andThen m (fun _ => k)).
Proof. intros Hm Hk v Hv. unfold andThen. specialize (Hm v Hv). destruct (m v) as [[[]|e] v1]; [by apply Hk|done]. Qed.
Lemma keeps_each {A} (P : viewer -> Prop) (m : A -> Script) l : (forall x, keeps P (m x)) -> keeps P (each m l).
Proof. intros Hm. induction l as [|x l IH]; [by intros v|by apply keeps_then]. Qed.
Lemma keeps_render n m b : keeps (following n m b) render.
Proof. intros v. apply following_core, render_core. Qed.
Lemma keeps_shows n m b f : (forall v, following n m b v -> following n m b (f v)) -> keeps (following n m b) (andThen (doing f) (fun _ => render)).
Proof. intros H. apply keeps_then; [exact H|apply keeps_render]. Qed.

(** A reply touches what the stream has described only to see that it is there. *)
Lemma keeps_entry n m b e : keeps (following n m b) (applyEntry e).
Proof.
  intros v [Hi [H1 H2 H3]]. split; [apply goes_applyEntry; done|]. pose proof (applyEntry_effect e v (proj1 Hi)) as He.
  destruct (spoken e) as [[[id name] state]|].
  - destruct He as (v' & -> & [_ (Ht & _) Hd (d & Ed & _ & Es)] & _ & _ & Eh & Ef). cbn [snd]. injection Ef as _ Ef _. split; [by rewrite Ef|by rewrite Eh|].
    intros j st Hj. destruct (H3 j st Hj) as [Hk Hst]. rewrite Hd. split; [done|]. destruct (decide (j = id)) as [->|Hne].
    + rewrite Ed. cbn. rewrite <- Hst. by rewrite (Es Hk).
    + destruct (Ht j Hne) as (-> & _). done.
  - destruct He as [why ->]. pose proof (render_core (rejecting why (received v))) as E. unfold core, family_core in E.
    injection E as E1 _ E2 _ _ E3 _ _ E4 _ _. split; rewrite ?E1, ?E2, ?E3, ?E4; done.
Qed.
Lemma following_same n m b v v' : following n m b v -> inv false v' -> fam v' = fam v -> hlt v' = hlt v -> source v' = source v -> following n m b v'.
Proof. intros [_ [H1 H2 H3]] Hi E1 E2 E3. split; [done|]. split; rewrite ?E1, ?E2, ?E3; done. Qed.
Lemma keeps_positions n m b j : keeps (following n m b) (applyPositions j).
Proof.
  assert (Hr : forall why, keeps (following n m b) (andThen (doing received) (fun _ => reject why))).
  { intros why v Hv. apply keeps_render. apply (following_same n m b v); [done|apply inv_rejected; apply Hv|done..]. }
  unfold applyPositions. destruct (match j with JStr text => JSON_parse text | j => Some j end) as [[]|]; try apply Hr.
  apply keeps_then; [intros v [Hi [H1 H2 H3]]; split; [by apply inv_known|done]|]. apply keeps_then; [|apply keeps_render].
  apply keeps_each. intros e. apply keeps_entry.
Qed.
Lemma keeps_unreachable n m b detail : ("Could not reach the server", detail) ∈ failures -> keeps (following n m b) (unreachable detail).
Proof.
  intros Hd. apply keeps_shows. intros v Hv. apply (following_same n m b v); [done| |done..].
  apply inv_failing; [|apply inv_status; apply Hv]. destruct (String.eqb_spec detail ""); [|done]. unfold failures. set_solver.
Qed.
Lemma keeps_reply n m b r : beside n (Replied r) -> keeps (following n m b) (on_reply r).
Proof.
  assert (Hck : keeps (following n m b) check_the_server) by (apply keeps_unreachable; unfold failures; set_solver).
  assert (Hc : forall k, keeps (following n m b) k -> keeps (following n m b) (caught k)).
  { intros k Hk v Hv. unfold caught. specialize (Hk v Hv). destruct (k v) as [[[]|e] v1]; [done|by apply Hck]. }
  intros Hb. destruct r as [code body|]; [|done]. destruct Hb as [Hb1 Hb2]. cbn [on_reply].
  rewrite (proj2 (Z.eqb_neq _ _) Hb1), (proj2 (Z.eqb_neq _ _) Hb2). cbn [orb].
  destruct (negb _); [apply Hc, keeps_unreachable; unfold failures; set_solver|].
  destruct body as [j|]; [|done]. destruct j; try apply Hc, keeps_positions. by intros v.
Qed.

(** An event of the watch's own connection. *)
Lemma told_follows n m b e v : parsed e -> announcement e -> following n m b v ->
  following n (hear m e) (bool_decide (e_name e = "error")) (snd (onStreamEvent (e_name e) (data_text e) v)).
Proof.
  intros Hp Ha [Hi [H1 H2 H3]]. split; [apply goes_onStreamEvent; done|]. unfold hear.
  destruct (announcement_read e Hp Ha) as [[-> ->]|(Hne & id & name & st & -> & Er & Hpl)].
  - cbn [onStreamEvent]. pose proof (keeps_render n m true) as Hk. unfold markInterrupted, andThen, doing. apply Hk. split; [by apply inv_status, inv_health|done].
  - rewrite bool_decide_false by done. destruct (onStreamEvent_effect _ (data_text e) v Hne) as (v1 & He & ->).
    destruct (effect_tells _ _ _ _ _ _ _ (proj1 Hi) He Er) as ([_ (Ht & _) Hk (d & Ed & Es & _)] & Ef & _ & Hc).
    assert (Eh : interrupted (hlt v1) = false).
    { destruct Hc as [(-> & _)|(_ & _ & _ & Hty & Hbad)]; [done|]. rewrite (Hpl Hty) in Hbad. done. }
    injection Ef as _ Ef _. pose proof (render_core v1) as E. unfold core, family_core in E. injection E as E1 _ E2 _ _ E3 _ _ E4 _ _.
    split; rewrite ?E1, ?E2, ?E3, ?E4; [by rewrite Ef|done|]. intros j s. destruct (decide (j = id)) as [->|Hj].
    + rewrite lookup_insert_eq. intros [= <-]. rewrite Hk, Ed. cbn. by rewrite Es.
    + rewrite lookup_insert_ne by done. destruct (Ht j Hj) as (-> & _ & ->). apply H3.
Qed.

(* ------------------------------------------------------------------ *)
(** ** What a session sends *)

Definition addressed (db : DB) : Prop := forall d, d ∈ Database.devices db -> dev_id d <> "".
Lemma polled_addressed c (w : World) s : addressed (w_db w) -> s ∈ polled c w -> ds_DeviceID s <> "".
Proof.
  intros Ha. rewrite polled_perm. unfold familyDeviceStatesSQL. intros (d & -> & Hd)%list_elem_of_fmap. apply elem_of_filter_b in Hd as [Hd _].
  by apply Ha.
Qed.
Lemma token_known v : token v ∈ STATE_TOKENS.
Proof. unfold STATE_TOKENS. destruct v; cbn; set_solver. Qed.
Lemma announcement_position at_ since win s : state_ok s -> ds_DeviceID s <> "" -> arrived since s = true -> announcement (position_event at_ win s).
Proof.
  intros Hs Hid Ha. right. split; [left|exists (ds_DeviceID s), (value_at at_ win s); split; [by apply announces_position|split; [done|apply token_known]]].
  split; [done|]. destruct Hs as [Hc Hf]. unfold arrived in Ha. unfold position_event, entryFor. cbn [e_data].
  destruct (ds_Current s) as [p|]; [|done]. destruct (ds_LastContact s) as [lc|]; [|by destruct (proj1 Hc ltac:(eauto))].
  rewrite bool_decide_false by apply Evaluate_contact. destruct (Hf p eq_refl) as (Hlat & Hlon & _). unfold isNotFinite in *.
  cbn. unfold finite. rewrite Hlat, Hlon. split; by eexists.
Qed.
Lemma announcement_presentation at_ win s : state_ok s -> ds_DeviceID s <> "" -> announcement (presentation_event at_ win s).
Proof.
  intros Hs Hid. right. split; [by right|]. exists (ds_DeviceID s), (value_at at_ win s). split; [by apply announces_presentation|split; [done|apply token_known]].
Qed.

(** Whether the last event told is the error. *)
Definition told_error (b : bool) (evs : list event) : bool := foldl (fun _ e => bool_decide (e_name e = "error")) b evs.
Lemma told_no_error evs b : Forall (fun e => e_name e <> "error") evs -> told_error b evs = match evs with [] => b | _ => false end.
Proof.
  intros He. destruct evs as [|e evs] using rev_ind; [done|]. clear IHevs. unfold told_error. rewrite foldl_app. cbn.
  apply Forall_app in He as [_ He]. rewrite bool_decide_false by exact (Forall_inv He). by destruct evs.
Qed.

(** A connection between two passes that has no resume sweep to do: a pass of it has read,
    or its stream is fresh. *)
Definition settled (c : streamConn) : Prop := c_swept c = true \/ c_resuming c = false /\ c_since c = zero_time.
Lemma settled_plain c : settled c -> c_swept c = true \/ c_resuming c = false.
Proof. intros [?|[? _]]; auto. Qed.
Lemma fresh_settled fam win alive : settled (newConn fam win zero_time false alive).
Proof. by right. Qed.
Lemma settled_outage c : settled c -> c_degraded c = true -> states_all c.
Proof. intros [Hs|[H1 H2]] Hd; [by left|]. destruct (c_swept c) eqn:E; [by left|by right]. Qed.
Definition sends (c c' : streamConn) : Prop :=
  exists evs, c_out c' = (c_out c ++ evs)%list /\ Forall announcement evs /\ told_error (c_degraded c) evs = c_degraded c'.
Lemma sends_trans a b c : sends a b -> sends b c -> sends a c.
Proof.
  intros (e1 & E1 & F1 & D1) (e2 & E2 & F2 & D2). exists (e1 ++ e2)%list. split; [by rewrite E2, E1, app_assoc|]. split; [by apply Forall_app|].
  unfold told_error in *. by rewrite foldl_app, D1, D2.
Qed.

Lemma announced_events at_ c (w : World) owed : readable (w_db w) -> addressed (w_db w) -> (forall s, s ∈ owed -> s ∈ polled c w) ->
  Forall (fun e => announcement e /\ e_name e <> "error")
    (map (position_event at_ (c_windows c)) (List.filter (arrived (c_since c)) (polled c w)) ++ map (presentation_event at_ (c_windows c)) owed)%list.
Proof.
  intros Hr Ha Ho. destruct (readable_polled c w Hr) as [Hok _]. rewrite Forall_forall in Hok.
  apply Forall_app. split; apply Forall_map, Forall_forall; intros s Hs; (split; [|done]).
  - apply elem_of_filter_b in Hs as [Hs Har]. eapply announcement_position; [by apply Hok|by eapply polled_addressed|exact Har].
  - apply Ho in Hs. apply announcement_presentation; [by apply Hok|by eapply polled_addressed].
Qed.
Lemma announced_only at_ c (w : World) owed : readable (w_db w) -> addressed (w_db w) -> (forall s, s ∈ owed -> s ∈ polled c w) ->
  Forall announcement
    (map (position_event at_ (c_windows c)) (List.filter (arrived (c_since c)) (polled c w)) ++ map (presentation_event at_ (c_windows c)) owed)%list.
Proof. intros Hr Ha Ho. eapply Forall_impl; [by apply announced_events|]. by intros ? [? _]. Qed.

(** Whatever the connection, a pass appends announcements. *)
Definition appends (c c' : streamConn) : Prop :=
  c_familyID c' = c_familyID c /\ c_windows c' = c_windows c /\ c_resuming c' = c_resuming c /\
  exists evs, c_out c' = (c_out c ++ evs)%list /\ Forall announcement evs.
Lemma appends_refl c : appends c c.
Proof. repeat (split; [done|]). exists []. by rewrite app_nil_r. Qed.
Lemma appends_trans a b c : appends a b -> appends b c -> appends a c.
Proof.
  intros (F1 & W1 & R1 & e1 & E1 & A1) (F2 & W2 & R2 & e2 & E2 & A2). split; [congruence|]. split; [congruence|]. split; [congruence|].
  exists (e1 ++ e2)%list. split; [by rewrite E2, E1, app_assoc|by apply Forall_app].
Qed.
Lemma failed_appends c c' : read_failed c c' -> appends c c'.
Proof.
  intros [[-> _]|(E1 & _ & Q1 & Q2 & _ & Q4 & _)]; [apply appends_refl|]. cbn [set_degraded c_familyID c_windows c_resuming] in *.
  repeat (split; [done|]). eexists. split; [exact E1|]. apply Forall_singleton. by left.
Qed.
Lemma pass_appends at_ c (w : World) c' : readable (w_db w) -> addressed (w_db w) -> fst (poll at_ c w) = (true, c') -> appends c c'.
Proof.
  intros Hr Ha E. destruct (readable_polled c w Hr) as [Hok _]. destruct (poll at_ c w) as [out w'] eqn:Ep. simpl in E. subst out.
  destruct (FamilyDeviceStates (c_familyID c) w) as [[states|e] w1] eqn:Eq; [|eapply failed_appends, (poll_unread at_ c w _ w' e w1 Eq Ep eq_refl)].
  destruct (poll_read at_ c w _ w' states w1 Hok Eq Ep eq_refl) as (Edb & [(e & w2 & _ & E1 & _ & E3 & E4 & E5 & _)|(owed & w2 & Eo & Hs)]); cbn [snd] in *.
  - repeat (split; [done|]). eexists. split; [exact E1|]. apply Forall_app. split; [|apply Forall_singleton; by left].
    pose proof (announced_only at_ c w [] Hr Ha ltac:(by intros s ?%elem_of_nil)) as Hn. cbn [map] in Hn. by rewrite app_nil_r in Hn.
  - apply (owes_because _ _ _ _ _ _ Hr Edb) in Eo. destruct Hs as (E1 & _ & _ & _ & _ & _ & E7 & E8 & E9). repeat (split; [done|]).
    eexists. split; [exact E1|]. apply announced_only; [done|done|]. intros s Hs. rewrite Eo in Hs. apply elem_of_filter_b in Hs as [Hs _].
    revert Hs. unfold sortDeviceStates. by rewrite stable_sort_perm.
Qed.

(** What a poll needs of the database it meets: a family that is not empty. *)
Definition serves (fam : string) (p : Time * World) : Prop :=
  readable (w_db (snd p)) /\ addressed (w_db (snd p)) /\ listed fam (snd p) <> [].
(** The read of the family does not fail. *)
Definition reads_family (fam : string) (w : World) : Prop := exists states w1, FamilyDeviceStates fam w = (Ok states, w1).

(** A session, pass by pass. *)
Lemma session_each (P : streamConn -> Prop) (R : streamConn -> streamConn -> Prop) polls :
  (forall c, R c c) -> (forall a b c, R a b -> R b c -> R a c) ->
  (forall at_ (w : World) c c', (at_, w) ∈ polls -> P c -> fst (poll at_ c w) = (true, c') -> P c' /\ R c c') ->
  forall c c', P c -> session polls c = (true, c') -> P c' /\ R c c'.
Proof.
  intros Hrefl Htrans. induction polls as [|[at_ w] rest IH]; intros Hstep c c' Hc E; simpl in E; [injection E as <-; auto|].
  destruct (fst (poll at_ c w)) as [[] c1] eqn:E1; [|discriminate]. destruct (Hstep at_ w c c1 ltac:(by left) Hc E1) as [H1 R1].
  destruct (IH ltac:(intros; eapply Hstep; [by right|done|done]) c1 c' H1 E) as [H2 R2]. eauto.
Qed.
Lemma session_appends fam polls c c' : Forall (serves fam) polls -> session polls c = (true, c') -> appends c c'.
Proof.
  rewrite Forall_forall. intros Hp E. apply (session_each (fun _ => True) appends polls appends_refl appends_trans) in E; [by destruct E| |done].
  intros at_ w c0 c1 Hin _ E1. destruct (Hp _ Hin) as (Hr & Ha & _). split; [done|by eapply pass_appends].
Qed.
Lemma sends_refl c : sends c c.
Proof. exists []. by rewrite app_nil_r. Qed.

(** A pass that reads on a settled connection. *)
Lemma sent_settled at_ (w : World) owed c c' : pass_sent at_ w owed c c' -> settled c'.
Proof. intros (_ & _ & H1 & _). by left. Qed.
Lemma failed_settled c c' : read_failed c c' -> settled c -> settled c'.
Proof.
  intros [[-> _]|(_ & E2 & _ & _ & _ & Q4 & Q5 & _)]; [done|]. cbn [set_degraded c_resuming c_swept] in *. unfold settled. by rewrite E2, Q4, Q5.
Qed.
(** One that states every device of a family that is not empty ends the outage. *)
Lemma pass_states_all at_ c (w : World) c' : states_all c -> readable (w_db w) -> addressed (w_db w) -> listed (c_familyID c) w <> [] ->
  pass_sent at_ w (owed_by c (sortDeviceStates (polled c w)) at_ (map ds_DeviceID (List.filter (arrived (c_since c)) (polled c w)))) c c' ->
  exists evs, c_out c' = (c_out c ++ evs)%list /\ Forall announcement evs /\ forall b, told_error b evs = false.
Proof.
  intros Hc Hr Ha Hne (E1 & _). destruct (readable_polled c w Hr) as [Hok Hn]. destruct (sent_and_owed c (polled c w) at_ Hn) as (_ & HL & Hout).
  set (sent := List.filter _ _) in *. set (owed := owed_by _ _ _ _) in *.
  pose proof (announced_events at_ c w owed Hr Ha ltac:(intros s Hs; apply HL, elem_of_app; by right)) as Hev. fold sent in Hev.
  eexists. split; [exact E1|]. split; [eapply Forall_impl; [exact Hev|]; by intros ? [? _]|]. intros b.
  rewrite told_no_error by (eapply Forall_impl; [exact Hev|]; by intros ? [_ ?]). clear Hev E1.
  destruct (sent ++ owed)%list as [|x l] eqn:Eso; [|by destruct sent, owed]. exfalso.
  destruct (polled c w) as [|s rest] eqn:Epol; [apply Hne; apply Permutation_nil; rewrite <- polled_ids, Epol; done|].
  destruct (Hout s ltac:(by left) ltac:(by intros ?%elem_of_nil)) as [H1 H2].
  by rewrite (states_all_owed at_ c s Hc (Forall_inv Hok) H1) in H2.
Qed.
Lemma pass_sends at_ c (w : World) c' : settled c -> readable (w_db w) -> addressed (w_db w) -> listed (c_familyID c) w <> [] ->
  fst (poll at_ c w) = (true, c') -> settled c' /\ c_familyID c' = c_familyID c /\ sends c c'.
Proof.
  intros Hc Hr Ha Hne E. destruct (readable_polled c w Hr) as [Hok Hn]. destruct (poll at_ c w) as [out w'] eqn:Ep. simpl in E. subst out.
  destruct (poll_cases at_ c w _ w' (settled_plain c Hc) Hok Ep eq_refl) as [Hf|Hs]; cbn [snd] in *.
  - split; [by eapply failed_settled|]. destruct Hf as [[-> Hd]|(E1 & _ & Q1 & _ & _ & _ & _ & _ & _ & Q8)]; [split; [done|apply sends_refl]|].
    split; [done|]. eexists. split; [exact E1|]. split; [|by rewrite Q8]. apply Forall_singleton. by left.
  - split; [by eapply sent_settled|]. split; [apply Hs|]. assert (Hd' : c_degraded c' = false) by apply Hs.
    destruct (c_degraded c) eqn:Ed.
    + destruct (pass_states_all at_ c w c' (settled_outage c Hc Ed) Hr Ha Hne Hs) as (evs & E1 & A1 & T1). exists evs. split; [done|]. split; [done|].
      by rewrite Hd', T1.
    + destruct Hs as (E1 & _). destruct (sent_and_owed c (polled c w) at_ Hn) as (_ & HL & _). set (owed := owed_by _ _ _ _) in *.
      pose proof (announced_events at_ c w owed Hr Ha ltac:(intros s Hs; apply HL, elem_of_app; by right)) as Hev.
      eexists. split; [exact E1|]. split; [eapply Forall_impl; [exact Hev|]; by intros ? [? _]|].
      rewrite told_no_error, Hd', Ed by (eapply Forall_impl; [exact Hev|]; by intros ? [_ ?]). by case_match.
Qed.
Lemma session_sends fam polls c c' : settled c -> c_familyID c = fam -> Forall (serves fam) polls -> session polls c = (true, c') ->
  settled c' /\ sends c c'.
Proof.
  rewrite Forall_forall. intros Hc Ef Hp E.
  apply (session_each (fun c => settled c /\ c_familyID c = fam) sends polls sends_refl sends_trans) in E; [tauto| |done].
  intros at_ w c0 c1 Hin [H0 F0] E1. destruct (Hp _ Hin) as (Hr & Ha & Hne). cbn [snd] in *. rewrite <- F0 in Hne.
  destruct (pass_sends at_ c0 w c1 H0 Hr Ha Hne E1) as (H1 & F1 & S1). split; [split; [done|congruence]|done].
Qed.

(** ** What a session says once a pass has stated everything *)

(** A pass that reads, on a connection with no sweep to do. *)
Lemma pass_reads at_ c (w : World) c' : settled c \/ states_all c -> readable (w_db w) -> reads_family (c_familyID c) w -> fst (poll at_ c w) = (true, c') ->
  pass_sent at_ w (owed_by c (sortDeviceStates (polled c w)) at_ (map ds_DeviceID (List.filter (arrived (c_since c)) (polled c w)))) c c'.
Proof.
  intros Hc Hr (states & w1 & Eq) E. destruct (readable_polled c w Hr) as [Hok _]. destruct (poll at_ c w) as [out w'] eqn:Ep. simpl in E. subst out.
  assert (Hplain : c_swept c = true \/ c_resuming c = false) by (destruct Hc; [by apply settled_plain|by apply states_all_plain]).
  assert (Hs : negb (c_swept c) && c_resuming c = false) by (destruct Hplain as [-> | ->]; [done|apply andb_false_r]).
  destruct (poll_read at_ c w _ w' states w1 Hok Eq Ep eq_refl) as (_ & [(e & w2 & Ew & _)|(owed & w2 & Ew & Hp)]);
    unfold owes, owed_query in Ew; rewrite Hs in Ew; [discriminate Ew|]. by injection Ew as <- _.
Qed.
Lemma session_snoc polls at_ (w : World) : forall c c', session (polls ++ [(at_, w)])%list c = (true, c') ->
  exists c1, session polls c = (true, c1) /\ fst (poll at_ c1 w) = (true, c').
Proof.
  induction polls as [|[at1 w1] rest IH]; intros c c' E; simpl in E.
  - exists c. split; [done|]. destruct (fst (poll at_ c w)) as [[] c1]; [by injection E as <-|discriminate].
  - simpl. destruct (fst (poll at1 c w1)) as [[] c1]; [by apply IH|discriminate].
Qed.

(** Once a device was told, it stays told while it is in the family. *)
Definition tracks (id : string) (c : streamConn) : Prop := c_swept c = true /\ told id c.
Lemma pass_tracks id at_ c (w : World) c' : tracks id c -> readable (w_db w) -> id ∈ listed (c_familyID c) w -> fst (poll at_ c w) = (true, c') -> tracks id c'.
Proof.
  intros [Hs Ht] Hr Hid E. destruct (readable_polled c w Hr) as [Hok Hn]. destruct (poll at_ c w) as [out w'] eqn:Ep. simpl in E. subst out.
  destruct (poll_cases at_ c w _ w' (or_introl Hs) Hok Ep eq_refl) as [Hf|Hp]; cbn [snd] in *.
  - split; [|by eapply failed_told]. destruct Hf as [[-> _]|(_ & _ & _ & _ & _ & _ & Q5 & _)]; [done|]. by rewrite Q5.
  - split; [apply Hp|]. eapply sent_told; eauto.
Qed.
Lemma session_tracks_device fam id polls c c' : tracks id c -> c_familyID c = fam ->
  Forall (fun p => serves fam p /\ id ∈ listed fam (snd p)) polls -> session polls c = (true, c') -> tracks id c'.
Proof.
  rewrite Forall_forall. intros Ht Ef Hp E.
  apply (session_each (fun c => tracks id c /\ c_familyID c = fam) (fun _ _ => True) polls ltac:(done) ltac:(done)) in E; [tauto| |done].
  intros at_ w c0 c1 Hin [H0 F0] E1. destruct (Hp _ Hin) as ((Hr & Ha & _) & Hid). cbn [snd] in *. rewrite <- F0 in Hid.
  split; [split; [by eapply pass_tracks|]|done]. destruct (pass_appends at_ c0 w c1 Hr Ha E1) as (F1 & _). congruence.
Qed.

(* ------------------------------------------------------------------ *)
(** ** Fed *)

Lemma fed_follows n hs : forall es m b v, Forall (beside n) hs -> heard_over n hs = map told_of es -> Forall parsed es -> Forall announcement es ->
  following n m b v -> following n (foldl hear m es) (told_error b es) (history hs v).
Proof.
  induction hs as [|h hs IH]; intros es m b v Hb Hh Hp Ha Hv; [by destruct es|]. apply Forall_cons in Hb as [Hb Hbs].
  change (history (h :: hs) v) with (history hs (after h v)). unfold after.
  assert (Hskip : following n m b (snd (happens h v)) -> heard_over n hs = map told_of es -> following n (foldl hear m es) (told_error b es) (history hs (snd (happens h v)))).
  { intros Hv' Hh'. by apply IH. }
  assert (Hother : forall k m', k <> n -> snd (if_current k m' v) = v).
  { intros k m' Hk. unfold if_current. rewrite (follows_source _ _ _ _ (proj2 Hv)), bool_decide_false by congruence. done. }
  destruct h as [token|r|k|k type data|k|type data|j]; try done.
  - apply Hskip; [by apply keeps_reply|done].
  - apply Hskip; [|done]. cbn [happens]. by rewrite Hother.
  - unfold heard_over in Hh. cbn [omap list_omap] in Hh. destruct (decide (k = n)) as [->|Hk].
    + rewrite bool_decide_true in Hh by done. destruct es as [|e es]; [done|]. cbn [map] in Hh. injection Hh as E1 E2 Hh.
      apply Forall_cons in Hp as [Hp Hps]. apply Forall_cons in Ha as [Ha Has]. apply (IH es); try done.
      cbn [happens]. unfold if_current. rewrite (bool_decide_true (source v = Some n)) by exact (follows_source _ _ _ _ (proj2 Hv)). rewrite E1, E2. by eapply told_follows.
    + rewrite bool_decide_false in Hh by done. apply Hskip; [|done]. cbn [happens]. by rewrite Hother.
  - apply Hskip; [|done]. cbn [happens]. by rewrite Hother.
  - apply Hskip; [by apply keeps_positions|done].
Qed.

(** The opening of the watch's connection, the first time or again. *)
Lemma open_follows n v : inv false v -> source v = Some n -> following n ∅ false (after (Opened n) v).
Proof.
  intros Hi Hs. unfold after. cbn [happens]. unfold if_current. rewrite bool_decide_true by done.
  unfold andThen at 1, doing. cbv beta iota. unfold markHealthy, andThen, doing. cbv beta iota. apply keeps_render.
  split; [|done]. apply inv_status, inv_health; [|done]. apply inv_health; [done|]. exact (ok_why _ (proj1 Hi)).
Qed.
(** What may go on between the click of Watch and the opening: the watch's connection may
    open, say anything and be lost any number of times. *)
Definition amid (h : happening) : Prop :=
  match h with
  | Replied (Answered code _) => code <> 401 /\ code <> 403
  | Watch _ | Handed _ _ => False
  | _ => True
  end.
Lemma event_source type data v : page_ok v -> source (snd (onStreamEvent type data v)) = source v.
Proof.
  intros Hok. assert (Hr : forall w, source (snd (render w)) = source w).
  { intros w. pose proof (render_core w) as E. unfold core in E. by injection E. }
  destruct (decide (type = "error")) as [->|Hne].
  - unfold onStreamEvent. rewrite String.eqb_refl. unfold markInterrupted, andThen, doing. cbv beta iota. by rewrite Hr.
  - destruct (onStreamEvent_effect type data v Hne) as (v1 & He & ->). rewrite Hr. destruct (reads type data) as [[[id name] state]|] eqn:Er.
    + destruct (effect_tells _ _ _ _ _ _ _ Hok He Er) as (_ & Ef & _). unfold frame in Ef. by injection Ef.
    + destruct (effect_refused _ _ _ _ He Er) as [why ->]. done.
Qed.
Lemma amid_source n h v : amid h -> inv false v -> source v = Some n -> source (after h v) = Some n.
Proof.
  intros Ha Hi Hs. assert (Hv : following n ∅ (interrupted (hlt v)) v) by done. assert (Hr : forall w, source (snd (render w)) = source w).
  { intros w. pose proof (render_core w) as E. unfold core in E. by injection E. }
  assert (Hc : forall k m, source (snd (m v)) = source v -> source (snd (if_current k m v)) = Some n).
  { intros k m Hm. unfold if_current. destruct (bool_decide _); [by rewrite Hm|done]. }
  unfold after. destruct h as [token|r|k|k type data|k|type data|j]; try done; cbn [happens].
  - apply (keeps_reply n ∅ (interrupted (hlt v)) r Ha v Hv).
  - apply Hc. unfold markHealthy, andThen, doing. cbv beta iota. by rewrite Hr.
  - apply Hc, event_source, Hi.
  - apply Hc. unfold markInterrupted, andThen, doing. cbv beta iota. by rewrite Hr.
  - apply (keeps_positions n ∅ (interrupted (hlt v)) j v Hv).
Qed.
Lemma amid_history n hs : forall v, Forall amid hs -> inv false v -> source v = Some n -> inv false (history hs v) /\ source (history hs v) = Some n.
Proof.
  intros v Ha Hi Hs. split; [by apply history_inv|]. revert v Hi Hs. induction Ha as [|h hs Ha Hhs IH]; intros v Hi Hs; [done|].
  change (history (h :: hs) v) with (history hs (after h v)). apply IH; [by apply (history_inv false [h])|by apply amid_source].
Qed.

(** A click of Watch with a token, what goes on after it, and the opening of the watch's
    connection. *)
Lemma watch_source token v : trim token <> "" -> source (after (Watch token) v) = Some (S (watches v)).
Proof.
  intros Ht. unfold after. cbn [happens]. unfold watch. destruct (String.eqb_spec (trim token) ""); [done|].
  unfold andThen, doing. cbn [render sort_throws]. done.
Qed.
Lemma watch_follows token earlier v : inv false v -> trim token <> "" -> Forall amid earlier ->
  following (S (watches v)) ∅ false (history (Watch token :: earlier ++ [Opened (S (watches v))])%list v).
Proof.
  intros Hi Ht Ha. change (history (Watch token :: earlier ++ [Opened (S (watches v))])%list v) with (history (earlier ++ [Opened (S (watches v))])%list (after (Watch token) v)).
  unfold history. rewrite foldl_app. destruct (amid_history (S (watches v)) earlier (after (Watch token) v) Ha) as [H1 H2]; [by apply goes_watch|by apply watch_source|].
  by apply open_follows.
Qed.

(** A page with any past on which Watch is chosen, and whose connection - after any
    number of earlier ones of the same watch - opens and then says what a session's
    watcher was sent, with other things beside it. *)
Definition next_watch (past : list happening) : nat := S (watches (history past loaded)).
Record fed (c : streamConn) (past : list happening) (tok : string) (earlier hs : list happening) : Prop := {
  fed_tokenen : trim tok <> "";
  fed_named : Forall well_named (past ++ earlier ++ hs);
  fed_amid : Forall amid earlier;
  fed_beside : Forall (beside (next_watch past)) hs;
  fed_told : heard_over (next_watch past) hs = map told_of (c_out c);
  fed_parsed : Forall parsed (c_out c) }.
Definition page_fed (past : list happening) (tok : string) (earlier hs : list happening) : viewer :=
  history (past ++ Watch tok :: earlier ++ Opened (next_watch past) :: hs)%list loaded.

(** The row a page that follows draws of a device the stream described. *)
Definition says (v : viewer) (id st : string) (mark : option string) : Prop :=
  exists r, r ∈ rows_of (drawn v) /\ w_id r = id /\ w_state r = st /\ w_words r = stateText st /\ w_mark r = mark.
Lemma fed_following c past tok earlier hs : fed c past tok earlier hs -> Forall announcement (c_out c) ->
  let v := page_fed past tok earlier hs in inv true v /\ drawn v = draw v /\ follows (next_watch past) (view (c_out c)) (told_error false (c_out c)) v.
Proof.
  intros [Ht Hn Hm Hb Hh Hp] Ha v. rewrite !Forall_app in Hn. destruct Hn as (Hnp & Hne & Hnh). set (n := next_watch past) in *.
  assert (Hall : Forall well_named (past ++ Watch tok :: earlier ++ Opened n :: hs)%list).
  { apply Forall_app; split; [done|]. apply Forall_cons; split; [done|]. apply Forall_app; split; [done|]. by apply Forall_cons. }
  pose proof (history_inv true _ (fun _ => Hall) loaded (inv_loaded true)) as Hi. pose proof (drawn_history _ Hall loaded (inv_loaded true) loaded_drawn) as Hdr.
  split; [exact Hi|]. split; [exact Hdr|].
  assert (Es : (past ++ Watch tok :: earlier ++ Opened n :: hs)%list = (past ++ (Watch tok :: earlier ++ [Opened n]) ++ hs)%list).
  { cbn [app]. by rewrite <- app_assoc. }
  unfold v, page_fed. fold n. rewrite Es. unfold history. rewrite !foldl_app. apply (fed_follows n hs (c_out c) ∅ false); try done.
  apply (watch_follows tok earlier (history past loaded)); [apply history_inv; [done|apply inv_loaded]|done|done].
Qed.
Lemma follows_says n m b v id st : inv true v -> drawn v = draw v -> follows n m b v -> m !! id = Some st ->
  says v id st (if b then Some MSG_UNCONFIRMED else None).
Proof.
  intros Hi Hdr [_ H2 H3] Hst. destruct (H3 id st Hst) as [_ Hdev].
  destruct (devices (fam v) !! id) as [d|] eqn:Ed; [|done]. cbn in Hdev. injection Hdev as <-.
  pose proof (ok_device _ (ok_family v (proj1 Hi)) id d Ed) as (Eid & _).
  exists (row_of_viewer v d). unfold row_of_viewer, row_of. cbn [w_id w_state w_words w_mark]. rewrite H2. split; [|done].
  rewrite Hdr. apply elem_of_rows; [apply Hi|]. exists d. cbn [w_id row_of_viewer row_of]. rewrite Eid. split; [done|]. unfold row_of_viewer, row_of. by rewrite H2, Eid.
Qed.

(** C8: the page is what the stream says.  Take any session of a fresh stream over a
    family that is not empty - any number of polls in any databases, some of which may
    fail - and hand what the watcher was sent to a page with any past, on which Watch was
    chosen, in the order it was sent; before it the watch's connection may have opened,
    spoken and dropped any number of times, and beside it answers to requests for the
    positions, old or new, and events of connections given up may arrive at any time.
    Then the page calls itself interrupted exactly while the server's last read failed,
    and it draws one row for each device the stream described, with the state last
    announced, in its words, marked unconfirmed exactly then: the stream wins, however
    late an answer is. *)
Theorem page_follows_stream (family : string) (win : Windows) (alive : nat -> bool) (polls : list (Time * World)) (c : streamConn)
    (past : list happening) (tok : string) (earlier hs : list happening) :
  session polls (newConn family win zero_time false alive) = (true, c) -> Forall (serves family) polls -> fed c past tok earlier hs ->
  let v := page_fed past tok earlier hs in
  interrupted (hlt v) = c_degraded c /\
  forall id st, view (c_out c) !! id = Some st -> says v id st (if c_degraded c then Some MSG_UNCONFIRMED else None).
Proof.
  intros E Hs Hf v. destruct (session_sends family polls _ c (fresh_settled _ _ _) eq_refl Hs E) as (_ & evs & Eo & Ha & Hd).
  cbn [newConn c_out c_degraded app] in Eo, Hd. rewrite <- Eo in Ha, Hd.
  destruct (fed_following c past tok earlier hs Hf Ha) as (Hi & Hdr & Hfo). fold v in Hi, Hdr, Hfo. rewrite Hd in Hfo.
  split; [exact (follows_health _ _ _ _ Hfo)|]. intros id st Hst. exact (follows_says _ _ _ v id st Hi Hdr Hfo Hst).
Qed.

(** From a pass that states everything on: nothing left open at a last pass that reads,
    and the devices that were in the family at both, and between, told as they are. *)
Lemma session_recovers fam at1 (w1 : World) later at_ (w : World) c0 c :
  states_all c0 -> c_familyID c0 = fam -> session ((at1, w1) :: later) c0 = (true, c) -> last ((at1, w1) :: later) = Some (at_, w) ->
  Forall (serves fam) ((at1, w1) :: later) -> reads_family fam w1 -> reads_family fam w ->
  (exists evs, c_out c = (c_out c0 ++ evs)%list /\ Forall announcement evs /\ forall b, told_error b evs = false) /\
  forall s, s ∈ familyDeviceStatesSQL fam (w_db w) -> (forall p, p ∈ (at1, w1) :: later -> ds_DeviceID s ∈ listed fam (snd p)) ->
    view (c_out c) !! ds_DeviceID s = Some (value_at at_ (c_windows c0) s).
Proof.
  intros Hall Ef E Hlast Hsv Hr1 Hr. cbn [session] in E. destruct (fst (poll at1 c0 w1)) as [[] c1] eqn:E1; [|discriminate].
  apply Forall_cons in Hsv as [(Hrd & Had & Hne) Hsv]. cbn [snd] in *. rewrite <- Ef in Hr1, Hne.
  pose proof (pass_reads at1 c0 w1 c1 (or_intror Hall) Hrd Hr1 E1) as Hsent.
  destruct (pass_states_all at1 c0 w1 c1 Hall Hrd Had Hne Hsent) as (evs1 & Eo1 & A1 & T1).
  destruct (pass_appends at1 c0 w1 c1 Hrd Had E1) as (F1 & W1 & _). pose proof (sent_settled _ _ _ _ _ Hsent) as Hset.
  destruct (session_sends fam later c1 c Hset ltac:(congruence) Hsv E) as (_ & evs2 & Eo2 & A2 & D2).
  destruct (session_appends fam later c1 c Hsv E) as (F2 & W2 & _).
  destruct (readable_polled c0 w1 Hrd) as [Hok Hnd].
  assert (Htr1 : forall id, id ∈ listed (c_familyID c0) w1 -> tracks id c1).
  { intros id Hid. split; [apply Hsent|]. by eapply sent_told; [exact Hok|exact Hnd|exact Hsent|exact Hid|left]. }
  assert (Hrw : readable (w_db w)).
  { apply last_Some_elem_of in Hlast. apply elem_of_cons in Hlast as [[= _ ->]|Hin]; [done|]. rewrite Forall_forall in Hsv. apply (Hsv _ Hin). }
  (* the last pass read *)
  assert (Hl : c_degraded c = false /\ c_prevAt c = at_ /\ c_prev c = observations (sortDeviceStates (polled c w))).
  { destruct later as [|p0 rest _] using rev_ind.
    - injection Hlast as -> ->. injection E as <-. destruct Hsent as (_ & _ & _ & S4 & S5 & S6 & _). unfold polled in *. by rewrite F1.
    - rewrite app_comm_cons, last_snoc in Hlast. injection Hlast as ->. apply session_snoc in E as (c2 & E2 & E3).
      apply Forall_app in Hsv as [Hsv _]. destruct (session_sends fam rest c1 c2 Hset ltac:(congruence) Hsv E2) as (Hset2 & _).
      destruct (session_appends fam rest c1 c2 Hsv E2) as (F3 & _). assert (Ef2 : c_familyID c2 = fam) by congruence. rewrite <- Ef2 in Hr.
      destruct (pass_reads at_ c2 w c (or_introl Hset2) Hrw Hr E3) as (_ & _ & _ & S4 & S5 & S6 & S7 & _). unfold polled in *. by rewrite S7. }
  destruct Hl as (Hdeg & Hat & Hprev). split.
  - exists (evs1 ++ evs2)%list. split; [by rewrite Eo2, Eo1, app_assoc|]. split; [by apply Forall_app|]. intros b.
    assert (Hd1 : c_degraded c1 = false) by apply Hsent. unfold told_error in *. rewrite foldl_app, T1. rewrite Hd1, Hdeg in D2. exact D2.
  - intros s Hin Hls. assert (Hid1 : ds_DeviceID s ∈ listed (c_familyID c0) w1) by (rewrite Ef; apply (Hls (at1, w1)); by left).
    assert (Htr : tracks (ds_DeviceID s) c).
    { eapply (session_tracks_device fam _ later c1 c (Htr1 _ Hid1)); [congruence| |exact E]. rewrite Forall_forall in *.
      intros p Hp. split; [by apply Hsv|]. apply Hls. by right. }
    rewrite <- W1, <- W2. apply (told_value at_ w c s (proj2 Htr)); try done. congruence.
Qed.

(** C7: an outage ends on the page too.  Take any connection of the stream - fresh, or
    resumed at any cursor - whose watcher stays, over a family that is not empty, at a
    moment when it has an outage open, or when it is fresh and has read nothing yet; a
    resumed one must have got through one pass that read (of those that have not,
    [resumed_outage_ends] speaks).  If the next poll can read the database, and so can
    the last of any number of polls after it, whatever failed in between, then after what
    was sent the page - with any past, fed as above - is not interrupted, and draws every
    device that was in the family at each of these polls with the published function's
    value at the last, unmarked.  With no polls after the first these are all the devices
    of the family. *)
Theorem page_recovers (family : string) (win : Windows) (cursor : Time) (resuming : bool) (alive : nat -> bool)
    (before later : list (Time * World)) (at1 at_ : Time) (w1 w : World) (c0 c : streamConn)
    (past : list happening) (tok : string) (earlier hs : list happening) :
  session before (newConn family win cursor resuming alive) = (true, c0) ->
  c_swept c0 = true \/ resuming = false /\ cursor = zero_time ->
  c_degraded c0 = true \/ c_swept c0 = false ->
  session ((at1, w1) :: later) c0 = (true, c) -> last ((at1, w1) :: later) = Some (at_, w) ->
  Forall (serves family) (before ++ (at1, w1) :: later) -> reads_family family w1 -> reads_family family w ->
  fed c past tok earlier hs ->
  let v := page_fed past tok earlier hs in
  interrupted (hlt v) = false /\
  forall s, s ∈ familyDeviceStatesSQL family (w_db w) -> (forall p, p ∈ (at1, w1) :: later -> ds_DeviceID s ∈ listed family (snd p)) ->
    says v (ds_DeviceID s) (token (Evaluate at_ (ds_LastContact s) win)) None.
Proof.
  intros E0 Hset Hdeg E Hlast Hsv Hr1 Hr Hf v. apply Forall_app in Hsv as [Hsb Hsl].
  destruct (session_appends family before _ c0 Hsb E0) as (F0 & W0 & _ & evs0 & Eo0 & A0). cbn [newConn c_familyID c_windows c_out app] in *.
  assert (Hall : states_all c0).
  { destruct (c_swept c0) eqn:Esw; [left; by destruct Hdeg|]. right. split; [done|]. destruct Hset as [?|[-> ->]]; [done|].
    destruct (session_sends family before _ c0 (fresh_settled _ _ _) eq_refl Hsb E0) as ([Hs|Hs] & _); [congruence|done]. }
  destruct (session_recovers family at1 w1 later at_ w c0 c Hall F0 E Hlast Hsl Hr1 Hr) as ((evs & Eo & Ha & Ht) & Hview).
  assert (Hann : Forall announcement (c_out c)) by (rewrite Eo, Eo0; by apply Forall_app).
  destruct (fed_following c past tok earlier hs Hf Hann) as (Hi & Hdr & Hfo). fold v in Hi, Hdr, Hfo.
  assert (Hte : told_error false (c_out c) = false) by (rewrite Eo; unfold told_error in *; by rewrite foldl_app, Ht).
  rewrite Hte in Hfo. split; [exact (follows_health _ _ _ _ Hfo)|]. intros s Hin Hls. apply (follows_says _ _ false v _ _ Hi Hdr Hfo).
  rewrite (Hview s Hin Hls). unfold value_at. by rewrite W0.
Qed.

(* ------------------------------------------------------------------ *)
(** ** A resumed connection that has not read *)

(** Until a pass reads, a resumed connection keeps its cursor instant, and says the error
    last when it said anything. *)
Definition unread (fam : string) (win : Windows) (cursor : Time) (c : streamConn) : Prop :=
  c_swept c = false -> c_familyID c = fam /\ c_windows c = win /\ c_resuming c = true /\ c_cursorInstant c = cursor.
Lemma newConn_unread fam win cursor alive : unread fam win cursor (newConn fam win cursor true alive).
Proof. done. Qed.
Lemma pass_unread fam win cursor at_ c (w : World) c' : readable (w_db w) -> addressed (w_db w) -> unread fam win cursor c ->
  fst (poll at_ c w) = (true, c') -> unread fam win cursor c' /\ (c_swept c' = false -> c_swept c = false /\ sends c c').
Proof.
  intros Hr Ha Hc E. destruct (readable_polled c w Hr) as [Hok _]. destruct (poll at_ c w) as [out w'] eqn:Ep. simpl in E. subst out.
  destruct (FamilyDeviceStates (c_familyID c) w) as [[states|e] w1] eqn:Eq.
  - destruct (poll_read at_ c w _ w' states w1 Hok Eq Ep eq_refl) as (_ & [(e & w2 & _ & E1 & E2 & E3 & E4 & E5 & E6 & E7)|(owed & w2 & _ & Hs)]); cbn [snd] in *.
    + split; [unfold unread; by rewrite E3, E4, E5, E6, E7|]. intros Hsw. split; [congruence|]. eexists. split; [exact E1|]. split.
      * apply Forall_app. split; [|apply Forall_singleton; by left].
        pose proof (announced_only at_ c w [] Hr Ha ltac:(by intros s ?%elem_of_nil)) as Hn. cbn [map] in Hn. by rewrite app_nil_r in Hn.
      * unfold told_error. by rewrite foldl_app, E2.
    + assert (Hsw : c_swept c' = true) by apply Hs. unfold unread. by rewrite Hsw.
  - pose proof (poll_unread at_ c w _ w' e w1 Eq Ep eq_refl) as [[Es _]|(E1 & _ & Q1 & Q2 & Q3 & Q4 & Q5 & _ & _ & Q8)]; cbn [snd] in *; [subst c'|].
    + split; [done|]. intros Hsw. split; [done|apply sends_refl].
    + cbn [set_degraded c_familyID c_windows c_cursorInstant c_resuming c_swept c_degraded] in *.
      split; [unfold unread; by rewrite Q1, Q2, Q3, Q4, Q5|]. intros Hsw. split; [congruence|]. eexists. split; [exact E1|].
      split; [apply Forall_singleton; by left|by rewrite Q8].
Qed.
Lemma session_unread fam win cursor polls c c' : Forall (serves fam) polls -> unread fam win cursor c -> session polls c = (true, c') -> c_swept c' = false ->
  unread fam win cursor c' /\ sends c c'.
Proof.
  rewrite Forall_forall. intros Hp Hc E Hsw.
  apply (session_each (unread fam win cursor) (fun a b => c_swept b = false -> c_swept a = false /\ sends a b) polls) in E; [|intros a Ha|..|done].
  - destruct E as [H1 H2]. split; [done|by apply H2].
  - split; [done|apply sends_refl].
  - intros a b d Hab Hbd Hd. destruct (Hbd Hd) as [Hb S2]. destruct (Hab Hb) as [Ha S1]. split; [done|by eapply sends_trans].
  - intros at_ w c0 c1 Hin H0 E1. destruct (Hp _ Hin) as (Hr & Ha & _). by eapply pass_unread.
Qed.

Lemma none_owed {A} (P : A -> bool) l : List.filter P l = [] <-> forall x, x ∈ l -> P x = false.
Proof.
  split.
  - intros E x Hx. apply not_true_iff_false. intros HP. assert (Hin : x ∈ List.filter P l) by by apply elem_of_filter_b. rewrite E in Hin. by apply elem_of_nil in Hin.
  - apply filter_none.
Qed.
(** What the pass that reads at last sends: nothing, exactly when no device has news. *)
Definition no_news (at_ cursor since : Time) (win : Windows) (db : DB) (s : DeviceState) : Prop :=
  arrived since s = false /\
  exists t, contact_as_of db (ds_DeviceID s) (timestamptz cursor) = Some t /\ Evaluate cursor (Some t) win = Evaluate at_ (ds_LastContact s) win.
Lemma first_read_silent at_ c (w : World) c' fam win cursor : unread fam win cursor c -> c_swept c = false -> readable (w_db w) -> addressed (w_db w) ->
  fst (poll at_ c w) = (true, c') -> c_degraded c' = false ->
  exists evs, c_out c' = (c_out c ++ evs)%list /\ Forall announcement evs /\ (forall b, told_error b evs = match evs with [] => b | _ => false end) /\
    (evs = [] <-> forall s, s ∈ familyDeviceStatesSQL fam (w_db w) -> no_news at_ cursor (c_since c) win (w_db w) s).
Proof.
  intros Hu Hsw Hr Ha E Hd. destruct (Hu Hsw) as (Ef & Ew & Er & Ec). destruct (readable_polled c w Hr) as [Hok Hn].
  destruct (poll at_ c w) as [out w'] eqn:Ep. simpl in E. subst out.
  destruct (FamilyDeviceStates (c_familyID c) w) as [[states|e] w1] eqn:Eq.
  2: { pose proof (poll_unread at_ c w _ w' e w1 Eq Ep eq_refl) as [[Es Hbad]|(_ & _ & _ & _ & _ & _ & _ & _ & _ & Hbad)]; cbn [snd set_degraded c_degraded] in *; congruence. }
  destruct (poll_read at_ c w _ w' states w1 Hok Eq Ep eq_refl) as (Edb & [(e & w2 & _ & _ & Hbad & _)|(owed & w2 & Eo & Hs)]); cbn [snd] in *; [congruence|].
  apply (owes_because _ _ _ _ _ _ Hr Edb) in Eo. cbv zeta in Eo. destruct Hs as (E1 & _). eexists. split; [exact E1|].
  assert (Hsort : forall s, s ∈ sortDeviceStates (polled c w) <-> s ∈ polled c w) by (intros s; unfold sortDeviceStates; by rewrite stable_sort_perm).
  assert (Ho : forall s, s ∈ owed -> s ∈ polled c w) by (intros s Hs; rewrite Eo in Hs; apply elem_of_filter_b in Hs as [Hs _]; by apply Hsort).
  pose proof (announced_events at_ c w owed Hr Ha Ho) as Hev. split; [eapply Forall_impl; [exact Hev|]; by intros ? [? _]|].
  split; [intros b; apply told_no_error; eapply Forall_impl; [exact Hev|]; by intros ? [_ ?]|]. clear Hev E1.
  assert (Hnil : forall A B (f : A -> B) l, map f l = [] <-> l = []) by (intros ? ? f l; by destruct l).
  rewrite app_nil, !Hnil. assert (Hin : forall s, s ∈ familyDeviceStatesSQL fam (w_db w) <-> s ∈ polled c w) by (intros s; by rewrite <- Ef, <- polled_perm).
  assert (Hbecause : forall s, owed_because c (w_db w) at_ s = false <->
    exists t, contact_as_of (w_db w) (ds_DeviceID s) (timestamptz cursor) = Some t /\ Evaluate cursor (Some t) win = Evaluate at_ (ds_LastContact s) win).
  { intros s. unfold owed_because. rewrite Hsw, Er, Ec, Ew. cbn [negb andb]. destruct (contact_as_of _ _ _) as [t|]; [|split; [done|by intros (t & ? & _)]].
    rewrite negb_false_iff, bool_decide_eq_true. split; [by exists t|]. by intros (t' & [= <-] & ?). }
  split.
  - intros [Es Eow] s Hs. apply Hin in Hs. rewrite none_owed in Es. split; [by apply Es|]. apply Hbecause. rewrite Eow in Eo. symmetry in Eo.
    rewrite none_owed in Eo. specialize (Eo s (proj2 (Hsort s) Hs)). rewrite (proj2 (none_owed _ _) Es) in Eo. exact Eo.
  - intros Hall. assert (Es : List.filter (arrived (c_since c)) (polled c w) = []) by (apply none_owed; intros s Hs; by apply Hall, Hin).
    split; [exact Es|]. rewrite Eo, Es. apply none_owed. intros s Hs. apply Hsort, Hin in Hs. apply andb_false_iff. right. by apply Hbecause, Hall.
Qed.

(** C9: when an outage ends for the watcher of a resumed connection that has not read yet,
    over a family that is not empty.  The server holds it to be over at the first pass that reads everything; the page, fed
    as above, is left interrupted by that pass exactly when no device of the family has
    news - none has a fix received after the last position sent, and of each the value at
    the cursor instant, from what had been received by then, is its value now.  So a
    family that did not change keeps its map marked unconfirmed. *)
Theorem resumed_outage_ends (family : string) (win : Windows) (cursor : Time) (alive : nat -> bool) (before : list (Time * World)) (at_ : Time) (w : World)
    (c0 c : streamConn) (past : list happening) (tok : string) (earlier hs : list happening) :
  session before (newConn family win cursor true alive) = (true, c0) -> c_swept c0 = false -> c_degraded c0 = true ->
  session [(at_, w)] c0 = (true, c) -> c_degraded c = false ->
  Forall (serves family) (before ++ [(at_, w)]) -> fed c past tok earlier hs ->
  interrupted (hlt (page_fed past tok earlier hs)) = true <->
  forall s, s ∈ familyDeviceStatesSQL family (w_db w) -> no_news at_ cursor (c_since c0) win (w_db w) s.
Proof.
  intros E0 Hsw Hd0 E Hd Hsv Hf. apply Forall_app in Hsv as [Hsb Hsv]. apply Forall_singleton in Hsv as (Hr & Ha & _). cbn [snd session] in *.
  destruct (fst (poll at_ c0 w)) as [[] c1] eqn:E1; [|discriminate]. injection E as ->.
  destruct (session_unread family win cursor before _ c0 Hsb (newConn_unread _ _ _ _) E0 Hsw) as (Hu & evs0 & Eo0 & A0 & D0). cbn [newConn c_out c_degraded app] in *.
  destruct (first_read_silent at_ c0 w c family win cursor Hu Hsw Hr Ha E1 Hd) as (evs & Eo & A & D & <-).
  assert (Hann : Forall announcement (c_out c)) by (rewrite Eo, Eo0; by apply Forall_app).
  destruct (fed_following c past tok earlier hs Hf Hann) as (_ & _ & Hfo). rewrite (follows_health _ _ _ _ Hfo), Eo, Eo0.
  unfold told_error in *. rewrite foldl_app, D0, D, Hd0. by destruct evs.
Qed.
End EndToEnd.

(* ------------------------------------------------------------------ *)
(** ** Witnesses *)

#[local] Existing Instances ascii_unicode whole_floats plain_browser.

Definition unreadable : @World planar := mkWorld (watched_db at_noon) (fun _ => mkStmtEnv (LostRequest (mkPgError "57P01" "")) noon "u") 0.
Definition outage : list (Time * @World planar) := [(noon, watched at_noon); (seconds_after 1, unreadable)].
Definition after_outage : list (Time * @World planar) := (outage ++ [(seconds_after 2000, watched at_noon)])%list.
Definition sent_in (polls : list (Time * @World planar)) : streamConn := snd (session polls opened).
Definition tell (e : event) : happening := Told 1 (e_name e) (data_text e).
(** An answer that is behind: it says a device is live that the stream has made stale. *)
Definition late_answer : happening :=
  Replied (Answered 200 (Some (JArr [JObj [("device_id", JStr "d"); ("presentation", JStr "recent"); ("lat", JInt 1); ("lon", JInt 1)]]))).
Definition handed (c : streamConn) : list happening :=
  (Told 0 "position" "{}" :: late_answer :: map tell (c_out c) ++ [late_answer])%list.

Example outage_sent : map (fun e => (e_name e, announces e)) (c_out (sent_in after_outage)) =
  [("position", Some ("d", "live")); ("presentation", Some ("e", "no-position")); ("error", None);
   ("presentation", Some ("d", "stale")); ("presentation", Some ("e", "no-position"))].
Proof. vm_compute. reflexivity. Qed.
Example page_in_outage : map (fun r => (w_id r, w_words r, w_mark r)) (rows_of (drawn (page_fed [] "t" [] (handed (sent_in outage))))) =
  [("d", "live now", Some MSG_UNCONFIRMED); ("e", "no position recorded", Some MSG_UNCONFIRMED)].
Proof. vm_compute. reflexivity. Qed.
Example page_after_outage : map (fun r => (w_id r, w_words r, w_mark r)) (rows_of (drawn (page_fed [] "t" [] (handed (sent_in after_outage))))) =
  [("d", "not seen lately", None); ("e", "no position recorded", None)].
Proof. vm_compute. reflexivity. Qed.

Definition text_event (e : event) : bool := match JSON_parse (data_text e) with Some p => text_name p | None => true end.
Lemma text_events_named es : forallb text_event es = true -> Forall well_named (map tell es).
Proof.
  intros Hes. apply Forall_map, Forall_forall. intros e He p Hp. rewrite forallb_forall in Hes. specialize (Hes e (proj1 (list_elem_of_In _ _) He)).
  unfold text_event in Hes. rewrite Hp in Hes. by apply text_name_named.
Qed.
Lemma late_named : well_named late_answer.
Proof. intros l [= <-]. apply Forall_singleton. by apply text_name_named. Qed.
Lemma heard_told es : heard_over 1 (map tell es ++ [late_answer])%list = map told_of es.
Proof. unfold heard_over. induction es as [|e es IH]; [done|]. cbn in *. by rewrite IH. Qed.

Lemma handed_fed c earlier : forallb text_event (c_out c) = true -> Forall parsed (c_out c) -> Forall well_named earlier -> Forall amid earlier ->
  fed c [] "t" earlier (handed c).
Proof.
  intros Ht Hp He Ha. split; [done| |done| | |done].
  - cbn [app]. apply Forall_app; split; [done|]. unfold handed. repeat (apply Forall_cons; split; [first [exact late_named|by intros p [= <-]; apply text_name_named]|]).
    apply Forall_app. split; [by apply text_events_named|]. apply Forall_singleton, late_named.
  - unfold handed. repeat (apply Forall_cons; split; [done|]). apply Forall_app. split; [|by apply Forall_singleton]. apply Forall_map, Forall_forall. by intros.
  - unfold handed. change (next_watch []) with 1%nat. exact (heard_told (c_out c)).
Qed.
Ltac parsed_events c :=
  let x := eval vm_compute in (c_out c) in
  let E := fresh in assert (E : c_out c = x) by (vm_compute; reflexivity); rewrite E;
  repeat (apply Forall_cons; split; [first [left; reflexivity|right; vm_compute; reflexivity]|]); constructor.
Lemma outage_parsed : Forall parsed (c_out (sent_in outage)).
Proof. parsed_events (sent_in outage). Qed.
Lemma after_outage_parsed : Forall parsed (c_out (sent_in after_outage)).
Proof. parsed_events (sent_in after_outage). Qed.

Lemma watched_serves t : serves "fam" (t, watched at_noon).
Proof.
  split; [by apply watched_readable|]. split; [|by vm_compute]. cbn [snd watched calm w_db watched_db Database.devices].
  intros d Hd. repeat (apply elem_of_cons in Hd as [->|Hd]; [done|]). by apply elem_of_nil in Hd.
Qed.
Lemma unreadable_serves t : serves "fam" (t, unreadable).
Proof. destruct (watched_serves t) as (H1 & H2 & H3). split; [exact H1|]. split; [exact H2|exact H3]. Qed.

Lemma session_pair polls : fst (session polls opened) = true -> session polls opened = (true, sent_in polls).
Proof. unfold sent_in. destruct (session polls opened) as [ok c]. cbn. by intros ->. Qed.

Lemma noon_reads : reads_family "fam" (watched at_noon).
Proof.
  exists (familyDeviceStatesSQL "fam" (watched_db at_noon)), (snd (FamilyDeviceStates "fam" (watched at_noon))).
  rewrite (surjective_pairing (FamilyDeviceStates _ _)) at 1. f_equal.
Qed.

(** In the outage: the page holds what it was told and marks it. *)
Lemma page_follows_stream_witness :
  let v := page_fed [] "t" [] (handed (sent_in outage)) in
  interrupted (hlt v) = true /\
  says v "d" "live" (Some MSG_UNCONFIRMED) /\ says v "e" "no-position" (Some MSG_UNCONFIRMED).
Proof.
  assert (Hf : fed (sent_in outage) [] "t" [] (handed (sent_in outage))).
  { apply handed_fed; [vm_compute; reflexivity|exact outage_parsed|constructor|constructor]. }
  destruct (page_follows_stream "fam" wins at_home outage (sent_in outage) [] "t" [] (handed (sent_in outage))) as [Hi Hs]; [| |exact Hf|].
  - apply session_pair. vm_compute. reflexivity.
  - apply Forall_cons; split; [apply watched_serves|]. apply Forall_singleton, unreadable_serves.
  - assert (Hdeg : c_degraded (sent_in outage) = true) by (vm_compute; reflexivity). rewrite Hdeg in Hi, Hs. split; [exact Hi|].
    split; apply Hs; vm_compute; reflexivity.
Defined.

(** A watch whose connection dropped and came back with the cursor it had: the first pass
    of the new one reads, the second does not. *)
Definition resumed_polls : list (Time * @World planar) := [(seconds_after 3, watched at_noon); (seconds_after 4, unreadable)].
Definition resumed_run (polls : list (Time * @World planar)) : bool * streamConn := session polls (newConn "fam" wins noon true at_home).
Definition resumed_after : streamConn := snd (resumed_run (resumed_polls ++ [(seconds_after 2000, watched at_noon)])).
Definition before_it : list happening := (Opened 1 :: map tell (c_out (sent_in [(noon, watched at_noon)])) ++ [Lost 1])%list.

Lemma resumed_pair polls : fst (resumed_run polls) = true -> resumed_run polls = (true, snd (resumed_run polls)).
Proof. destruct (resumed_run polls) as [ok c]. cbn. by intros ->. Qed.
Example resumed_sent : map (fun e => (e_name e, announces e)) (c_out resumed_after) =
  [("presentation", Some ("e", "no-position")); ("error", None); ("presentation", Some ("d", "stale")); ("presentation", Some ("e", "no-position"))].
Proof. vm_compute. reflexivity. Qed.

Lemma resumed_parsed : Forall parsed (c_out resumed_after).
Proof. parsed_events resumed_after. Qed.

(** After it: the server's values, unmarked, on a fresh connection and on a resumed one. *)
Lemma page_recovers_witness :
  (let v := page_fed [] "t" [] (handed (sent_in after_outage)) in
   interrupted (hlt v) = false /\
   says v "d" (token (Evaluate (seconds_after 2000) (ds_LastContact phone_then) wins)) None) /\
  (let v := page_fed [] "t" before_it (handed resumed_after) in
   interrupted (hlt v) = false /\
   says v "d" (token (Evaluate (seconds_after 2000) (ds_LastContact phone_then) wins)) None).
Proof.
  assert (Hin : forall p, p ∈ [(seconds_after 2000, watched at_noon)] -> ds_DeviceID phone_then ∈ listed "fam" (snd p)).
  { intros p ->%list_elem_of_singleton. vm_compute. left. }
  split.
  - destruct (page_recovers "fam" wins zero_time false at_home outage [] (seconds_after 2000) (seconds_after 2000) (watched at_noon) (watched at_noon)
      (sent_in outage) (sent_in after_outage) [] "t" [] (handed (sent_in after_outage))) as [Hi Hs].
    + apply session_pair. vm_compute. reflexivity.
    + left. vm_compute. reflexivity.
    + left. vm_compute. reflexivity.
    + change (session [(seconds_after 2000, watched at_noon)] (sent_in outage) = (true, sent_in after_outage)). apply injective_projections; vm_compute; reflexivity.
    + reflexivity.
    + apply Forall_cons; split; [apply watched_serves|]. apply Forall_cons; split; [apply unreadable_serves|]. apply Forall_singleton, watched_serves.
    + exact noon_reads.
    + exact noon_reads.
    + apply handed_fed; [vm_compute; reflexivity|exact after_outage_parsed|constructor|constructor].
    + split; [exact Hi|]. apply (Hs phone_then); [by left|exact Hin].
  - destruct (page_recovers "fam" wins noon true at_home resumed_polls [] (seconds_after 2000) (seconds_after 2000) (watched at_noon) (watched at_noon)
      (snd (resumed_run resumed_polls)) resumed_after [] "t" before_it (handed resumed_after)) as [Hi Hs].
    + apply resumed_pair. vm_compute. reflexivity.
    + left. vm_compute. reflexivity.
    + left. vm_compute. reflexivity.
    + apply injective_projections; vm_compute; reflexivity.
    + reflexivity.
    + apply Forall_cons; split; [apply watched_serves|]. apply Forall_cons; split; [apply unreadable_serves|]. apply Forall_singleton, watched_serves.
    + exact noon_reads.
    + exact noon_reads.
    + apply handed_fed; [vm_compute; reflexivity|exact resumed_parsed| |].
      * apply Forall_cons; split; [done|]. apply Forall_app; split; [apply text_events_named; vm_compute; reflexivity|by apply Forall_singleton].
      * apply Forall_cons; split; [done|]. apply Forall_app; split; [apply Forall_map, Forall_forall; by intros|by apply Forall_singleton].
    + split; [exact Hi|]. apply (Hs phone_then); [by left|exact Hin].
Defined.

(* ------------------------------------------------------------------ *)
(** ** Where an outage does not end *)

(** A family of one phone, which reported at noon; the browser's connection drops a
    second later and comes back, with the cursor it had, to a server that cannot read on
    the first pass. *)
Definition lone_db : @DB planar := mkDB [Database.mkFamily "fam" "Family"] [phone_a] [viewer_a] at_noon [] [] [] ∅.
Definition lone : @World planar := calm lone_db noon.
Definition lone_unreadable : @World planar := mkWorld lone_db (fun _ => mkStmtEnv (LostRequest (mkPgError "57P01" "")) noon "u") 0.
Definition before_drop : streamConn := snd (session [(noon, lone)] opened).
Definition minute_of_polls : list (Time * @World planar) := map (fun n => (seconds_after (Z.of_nat n), lone)) (seq 3 60).
Definition came_back : streamConn :=
  snd (session ((seconds_after 2, lone_unreadable) :: minute_of_polls) (newConn "fam" wins noon true at_home)).
Definition page_back : viewer :=
  history (Watch "t" :: Opened 1 :: map tell (c_out before_drop) ++ Lost 1 :: Opened 1 :: map tell (c_out came_back))%list loaded.

Definition first_failed : list (Time * @World planar) := [(seconds_after 2, lone_unreadable)].
Definition back_at (at_ : Time) : streamConn := snd (resumed_run (first_failed ++ [(at_, lone)])).
Definition lone_before : list happening := (Opened 1 :: map tell (c_out before_drop) ++ [Lost 1])%list.
Lemma lone_reads w t : w_db w = lone_db -> serves "fam" (t, w).
Proof.
  intros E. unfold serves, addressed, listed. cbn [snd]. rewrite E. split; [|split; [|by vm_compute]].
  - split; [apply (bool_decide_unpack _); by vm_compute|]. intros r ->%list_elem_of_singleton. done.
  - by intros d ->%list_elem_of_singleton.
Qed.
Lemma back_fed at_ : forallb text_event (c_out (back_at at_)) = true -> Forall parsed (c_out (back_at at_)) ->
  fed (back_at at_) [] "t" lone_before (handed (back_at at_)).
Proof.
  intros Ht Hp. apply handed_fed; [done|done| |].
  - apply Forall_cons; split; [done|]. apply Forall_app; split; [apply text_events_named; vm_compute; reflexivity|by apply Forall_singleton].
  - apply Forall_cons; split; [done|]. apply Forall_app; split; [apply Forall_map, Forall_forall; by intros|by apply Forall_singleton].
Qed.

(** At the first pass that reads the phone is still live, as at the cursor: the page stays
    interrupted.  Had it been half an hour later, the phone would be stale: that is said,
    and the page is not interrupted any more. *)
Lemma resumed_outage_ends_witness :
  interrupted (hlt (page_fed [] "t" lone_before (handed (back_at (seconds_after 3))))) = true /\
  interrupted (hlt (page_fed [] "t" lone_before (handed (back_at (seconds_after 2000))))) <> true.
Proof.
  assert (Hone : forall P : DeviceState -> Prop, P (state_of lone_db phone_a) -> forall s, s ∈ familyDeviceStatesSQL "fam" lone_db -> P s)
    by (intros P HP s Hs; by apply list_elem_of_singleton in Hs as ->).
  split.
  - apply (resumed_outage_ends "fam" wins noon at_home first_failed (seconds_after 3) lone (snd (resumed_run first_failed)) (back_at (seconds_after 3))
      [] "t" lone_before (handed (back_at (seconds_after 3)))).
    + apply resumed_pair. vm_compute. reflexivity.
    + vm_compute. reflexivity.
    + vm_compute. reflexivity.
    + apply injective_projections; vm_compute; reflexivity.
    + vm_compute. reflexivity.
    + apply Forall_cons; split; [by apply lone_reads|]. by apply Forall_singleton, lone_reads.
    + apply back_fed; [vm_compute; reflexivity|parsed_events (back_at (seconds_after 3))].
    + apply Hone. split; [vm_compute; reflexivity|]. exists noon. split; vm_compute; reflexivity.
  - intros Hi. apply (resumed_outage_ends "fam" wins noon at_home first_failed (seconds_after 2000) lone (snd (resumed_run first_failed)) (back_at (seconds_after 2000))
      [] "t" lone_before (handed (back_at (seconds_after 2000)))) with (s := state_of lone_db phone_a) in Hi.
    + destruct Hi as [_ (t & Ht & Hv)]. vm_compute in Ht. injection Ht as <-. vm_compute in Hv. discriminate Hv.
    + apply resumed_pair. vm_compute. reflexivity.
    + vm_compute. reflexivity.
    + vm_compute. reflexivity.
    + apply injective_projections; vm_compute; reflexivity.
    + vm_compute. reflexivity.
    + apply Forall_cons; split; [by apply lone_reads|]. by apply Forall_singleton, lone_reads.
    + apply back_fed; [vm_compute; reflexivity|parsed_events (back_at (seconds_after 2000))].
    + by left.
Defined.

(** The outage never ends on the page: a minute of passes that read sends nothing but the
    error there was. *)
Example minute_of_silence :
  map e_name (c_out came_back) = ["error"] /\ c_degraded came_back = false /\ c_prevAt came_back = seconds_after 62 /\
  status page_back = ("connection interrupted", "error") /\
  map (fun r => (w_id r, w_words r, w_mark r)) (rows_of (drawn page_back)) = [("d", "live now", Some MSG_UNCONFIRMED)].
Proof. vm_compute. repeat split. Qed.
