(* ===== verification/PinImages.v ===== *)
(** The pin gate's report and its image and action scanners ([internal/pingate]:
    pingate.go, images.go, workflows.go): Dockerfile bases, compose services,
    workflow steps and the images workflows run in.  A scanner takes the tree and
    the report so far and extends the report, or fails on a file it cannot read.  The
    YAML library is the class [YAMLDoc]; fmt's %q is the class [GoQuote]. *)

From Stdlib Require Import ZArith Lia Bool String Ascii List Sorted.
From stdpp Require Import base option list strings gmap sorting.
From S2P Require Import Prelude GoStrings Regex Repo.
Local Open Scope string_scope.
Local Open Scope Z_scope.

Inductive ykind := YSequence | YMapping | YScalar | YAlias.
Inductive ynode := YNode (kind : ykind) (value : string) (line : Z) (content : list ynode).
Definition y_Kind (n : ynode) : ykind := let '(YNode k _ _ _) := n in k.
Definition y_Value (n : ynode) : string := let '(YNode _ v _ _) := n in v.
Definition y_Line (n : ynode) : Z := let '(YNode _ _ l _) := n in l.
Definition y_Content (n : ynode) : list ynode := let '(YNode _ _ _ c) := n in c.
(** The root of a document, if it has one, or the error's text. *)
Class YAMLDoc := { yaml_Document : string -> result string (option ynode) }.
Class GoQuote := { Quote : string -> string }.

(* ------------------------------------------------------------------ *)
(** ** The report *)

Record Clause := mkClause { cl_ID : string; cl_Summary : string }.
Definition P1 : Clause := mkClause "P1" "a container image is pinned by tag AND digest".
Definition P2 : Clause := mkClause "P2" "base images follow the same rule: a FROM line is an image reference like any other".
Definition P3 : Clause := mkClause "P3" "actions are pinned to a commit SHA with the human-readable version in a trailing comment".
Definition P4 : Clause := mkClause "P4" "dependency manifests are locked: lockfile committed, no latest, no unbounded range, node lifecycle scripts disabled unless the repo opts back in with a committed reason".
Definition P6 : Clause := mkClause "P6" "there is never a fallback: a build that cannot get exactly what it pinned stops".
Definition ConventionsFile : string := "documentation/pinning-conventions.md".

Record Violation := mkViolation { v_File : string; v_Line : Z; v_Reference : string; v_Clause : Clause; v_Why : string }.
Definition Violation_String (v : Violation) : string :=
  v_File v ++ ":" ++ Itoa (v_Line v) ++ ": " ++ v_Reference v ++ ": breaks " ++ cl_ID (v_Clause v) ++ " (" ++
  cl_Summary (v_Clause v) ++ ") of " ++ ConventionsFile ++ ": " ++ v_Why v.

Record Category := mkCategory { ct_Name : string; ct_Examined : Z; ct_Detail : string }.
Record Report := mkReport { rp_Categories : list Category; rp_Violations : list Violation }.

Definition EmptyCategories (r : Report) : list Category := List.filter (fun c => ct_Examined c =? 0) (rp_Categories r).
Definition Examined (r : Report) : Z := fold_left (fun n c => n + ct_Examined c) (rp_Categories r) 0.

Definition add_category (c : Category) (r : Report) : Report := mkReport (rp_Categories r ++ [c])%list (rp_Violations r).
Definition add_violations (vs : list Violation) (r : Report) : Report := mkReport (rp_Categories r) (rp_Violations r ++ vs)%list.

Definition scanner : Type := Tree -> Report -> result read_error Report.

Definition DemonstrationsDir : string := "internal/pingate/testdata/refusals".
Definition skipDirs : list string := [".git"; "node_modules"; "vendor"; "build"; ".gradle"; ".idea"].
Definition walk (t : Tree) (keep : string -> bool) : list string :=
  walkFiles (fun name => existsb (String.eqb name) skipDirs) (String.eqb DemonstrationsDir) t keep.

(** The files of a list in turn, each as its bytes. *)
Fixpoint each_file {S} (t : Tree) (files : list string) (step : string -> string -> S -> S) (s : S) : result read_error S :=
  match files with
  | [] => Ok s
  | rel :: files =>
      match readFile t rel with
      | Err e => Err e
      | Ok None => each_file t files step s
      | Ok (Some data) => each_file t files step (step rel data s)
      end
  end.
Definition each_lines {S} (t : Tree) (files : list string) (step : string -> list string -> S -> S) : S -> result read_error S :=
  each_file t files (fun rel data => step rel (lines_of data)).

(* ------------------------------------------------------------------ *)
(** ** Image references *)

Definition reImageRef : re := Eval vm_compute in MustCompile "^[^\s@]+:[^\s@:/]+@sha256:[0-9a-f]{64}$".
Definition reFrom : re := Eval vm_compute in MustCompile "^\s*(?i:FROM)\s+(.+)$".

Definition withDigestHint (ref : string) : string :=
  let ref := before_first ref "@" in
  if negb (Contains (Base ref) ":") then ref ++ ":<tag>@sha256:<64 hex>" else ref ++ "@sha256:<64 hex>".

Definition is_comment (line : string) : bool := HasPrefix (TrimSpace line) "#".

Section Images.
Context `{U : Unicode} `{Q : GoQuote} `{Y : YAMLDoc}.

Definition isDockerfile (rel : string) : bool :=
  let name := Base rel in
  String.eqb name "Dockerfile" || HasPrefix name "Dockerfile." || HasSuffix (ToLower name) ".dockerfile".

(** The reference of a FROM instruction: its first word that is not an option. *)
Definition from_ref (words : list string) : string :=
  match List.find (fun f => negb (HasPrefix f "--")) words with Some f => f | None => "" end.

(** The stage names the instruction declares. *)
Fixpoint declared_stages (words : list string) : list string :=
  match words with
  | w :: ((name :: _) as rest) => (if EqualFold w "AS" then [ToLower name] else []) ++ declared_stages rest
  | _ => []
  end%list.

(** What is wrong with a FROM instruction, given the stages declared so far. *)
Definition from_violation (rel : string) (n : Z) (arg : string) (stages : list string) : option Violation :=
  let ref := from_ref (Fields arg) in
  if String.eqb ref "" then Some (mkViolation rel n (TrimSpace arg) P2 "this FROM names no image at all")
  else if ContainsAny ref "$" then
    Some (mkViolation rel n ref P6 "the base image is assembled from a build argument, so this file does not state what it will build on and a caller chooses it at build time; write the reference out in full as NAME:TAG@sha256:<64 hex>")
  else if existsb (String.eqb (ToLower ref)) stages then None
  else if negb (MatchString reImageRef ref) then
    Some (mkViolation rel n ref P2 ("a base image is an image reference like any other and takes BOTH halves; write " ++ withDigestHint ref))
  else None.

Record docker_state := mkDocker { dk_stages : list string; dk_examined : Z; dk_violations : list Violation }.

(** The instruction of a line, if it is a FROM. *)
Definition from_arg (line : string) : option string :=
  if is_comment line then None else option_map (fun m => m 1%nat) (FindStringSubmatch reFrom line).

Definition docker_line (rel : string) (s : docker_state) (line : Z * string) : docker_state :=
  match from_arg (snd line) with
  | None => s
  | Some arg =>
      let stages := (dk_stages s ++ declared_stages (Fields arg))%list in
      mkDocker stages (dk_examined s + 1) (dk_violations s ++ option_list (from_violation rel (fst line) arg stages))%list
  end.

Definition docker_file (rel : string) (lines : list string) (s : Z * list Violation) : Z * list Violation :=
  let d := fold_left (docker_line rel) (numbered 1 lines) (mkDocker [] (fst s) (snd s)) in (dk_examined d, dk_violations d).

Definition scanDockerfiles : scanner := fun t r =>
  let files := walk t isDockerfile in
  match each_lines t files docker_file (0, []) with
  | Err e => Err e
  | Ok (examined, vs) =>
      Ok (add_category (mkCategory "container base images (Dockerfile FROM)" examined
            (Itoa examined ++ " FROM instruction(s) across " ++ Itoa (Z.of_nat (length files)) ++ " Dockerfile(s)")) (add_violations vs r))
  end.

(* ------------------------------------------------------------------ *)
(** ** Compose services *)

Fixpoint pairs {A} (l : list A) : list (A * A) := match l with a :: b :: l => (a, b) :: pairs l | _ => [] end.

Definition mappingValue (node : ynode) (key : string) : option ynode :=
  match y_Kind node with
  | YMapping => option_map snd (List.find (fun p => String.eqb (y_Value (fst p)) key) (pairs (y_Content node)))
  | _ => None
  end.

Definition isComposeFile (rel : string) : bool :=
  let name := ToLower (Base rel) in
  let good base := String.eqb base "compose" || String.eqb base "docker-compose" || HasPrefix base "compose." || HasPrefix base "docker-compose." in
  if HasSuffix name ".yml" then good (TrimSuffix name ".yml")
  else if HasSuffix name ".yaml" then good (TrimSuffix name ".yaml") else false.

(** The entries of a mapping by name; nothing when it is not a mapping. *)
Definition entries_of (node : option ynode) : list (string * ynode) :=
  match node with
  | Some n => match y_Kind n with YMapping => map (fun p => (y_Value (fst p), snd p)) (pairs (y_Content n)) | _ => [] end
  | None => []
  end.
Definition composeServices (root : option ynode) : list (string * ynode) :=
  match root with None => [] | Some root => entries_of (mappingValue root "services") end.

Definition service_violation (rel name : string) (image : ynode) : option Violation :=
  let ref := y_Value image in
  if Contains ref "${" || Contains ref "$(" then
    Some (mkViolation rel (y_Line image) ref P6
      ("service " ++ Quote name ++ " takes its image from an environment variable, so this file does not state what it runs; write the reference out in full"))
  else if negb (MatchString reImageRef ref) then
    Some (mkViolation rel (y_Line image) ref P1
      ("service " ++ Quote name ++ " is not built from this repository, so it pulls a published image and takes BOTH a tag and a digest; write " ++ withDigestHint ref))
  else None.

Record compose_state := mkCompose { cs_examined : Z; cs_built : Z; cs_violations : list Violation }.

Definition compose_service (rel : string) (s : compose_state) (svc : string * ynode) : compose_state :=
  match mappingValue (snd svc) "image" with
  | None => s
  | Some image =>
      match mappingValue (snd svc) "build" with
      | Some _ => mkCompose (cs_examined s + 1) (cs_built s + 1) (cs_violations s)
      | None => mkCompose (cs_examined s + 1) (cs_built s) (cs_violations s ++ option_list (service_violation rel (fst svc) image))%list
      end
  end.

Definition compose_file (rel data : string) (s : compose_state) : compose_state :=
  match yaml_Document data with
  | Err text => mkCompose (cs_examined s) (cs_built s) (cs_violations s ++
      [mkViolation rel 1 rel P6 ("this compose file does not parse as YAML, so its image references could not be checked: " ++ text)])%list
  | Ok root => fold_left (compose_service rel) (composeServices root) s
  end.

Definition scanComposeFiles : scanner := fun t r =>
  let files := walk t isComposeFile in
  match each_file t files compose_file (mkCompose 0 0 []) with
  | Err e => Err e
  | Ok s =>
      Ok (add_category (mkCategory "compose service images" (cs_examined s)
            (Itoa (cs_examined s) ++ " image: key(s) across " ++ Itoa (Z.of_nat (length files)) ++ " compose file(s); " ++ Itoa (cs_built s) ++
             " belong to services built from this repo and need no digest")) (add_violations (cs_violations s) r))
  end.
End Images.

(* ------------------------------------------------------------------ *)
(** ** Workflows *)

Definition reUses : re := Eval vm_compute in MustCompile "^\s*(?:-\s+)?uses:\s*(\S+)\s*(.*)$".
Definition reActionSHA : re := Eval vm_compute in MustCompile "^[^@\s]+@[0-9a-f]{40}$".
Definition reVersionComment : re := Eval vm_compute in MustCompile "^#\s*(v\d[\w.\-]*)".
Definition quotes : string := of_list [byte_of 34; byte_of 39].

Section Workflows.
Context `{U : Unicode} `{Q : GoQuote} `{Y : YAMLDoc}.

Definition isWorkflow (rel : string) : bool :=
  String.eqb (Dir rel) ".github/workflows" &&
  let name := ToLower (Base rel) in HasSuffix name ".yml" || HasSuffix name ".yaml".

(** What a [uses:] step names: something here, a published image, or an action. *)
Inductive use_kind := ULocal | UDocker (image : string) | UAction.
Definition classify_use (ref : string) : use_kind :=
  if HasPrefix ref "./" || HasPrefix ref ".\" then ULocal
  else if HasPrefix ref "docker://" then UDocker (TrimPrefix ref "docker://")
  else UAction.

Definition use_violation (rel : string) (n : Z) (ref trailing : string) : option Violation :=
  match classify_use ref with
  | ULocal => None
  | UDocker image =>
      if MatchString reImageRef image then None
      else Some (mkViolation rel n ref P1
             ("a docker:// step runs a published container image, which takes both a tag and a digest; write docker://" ++ withDigestHint image))
  | UAction =>
      if negb (MatchString reActionSHA ref) then
        Some (mkViolation rel n ref P3 "this names a tag or a branch, and a publisher moves those under every consumer that wrote one; pin owner/action@<40-char lowercase commit sha> and put the version in a trailing `# v...` comment")
      else match FindStringSubmatch reVersionComment trailing with
      | None => Some (mkViolation rel n ref P3 "the commit SHA is pinned but nothing says which released version it is, so the next bump is a guess; add a trailing comment naming it, e.g. `# v4`")
      | Some _ => None
      end
  end.

Record workflow_state := mkWorkflow { ws_examined : Z; ws_local : Z; ws_images : Z; ws_violations : list Violation }.

(** The reference of a line's [uses:] and what trails it. *)
Definition use_of (line : string) : option (string * string) :=
  if is_comment line then None
  else option_map (fun m => (Trim (m 1%nat) quotes, TrimSpace (m 2%nat))) (FindStringSubmatch reUses line).

Definition workflow_line (rel : string) (s : workflow_state) (line : Z * string) : workflow_state :=
  match use_of (snd line) with
  | None => s
  | Some (ref, trailing) =>
      mkWorkflow (ws_examined s + 1) (match classify_use ref with ULocal => ws_local s + 1 | _ => ws_local s end) (ws_images s)
        (ws_violations s ++ option_list (use_violation rel (fst line) ref trailing))%list
  end.

Definition workflowImageViolation (rel : string) (image : ynode) (where_ : string) : option Violation :=
  let ref := y_Value image in
  if Contains ref "${{" || Contains ref "${" then
    Some (mkViolation rel (y_Line image) ref P6 (where_ ++ ", and it is assembled from an expression, so this file does not state what it runs; write the reference out in full"))
  else if negb (MatchString reImageRef ref) then
    Some (mkViolation rel (y_Line image) ref P1 (where_ ++ ", and a workflow pulls a published image it does not build, so it takes BOTH a tag and a digest; write " ++ withDigestHint ref))
  else None.

Definition is_scalar (n : ynode) : bool := match y_Kind n with YScalar => true | _ => false end.

(** The image a job runs in: the bare string, or the mapping's [image]. *)
Definition container_image (job : ynode) : option ynode :=
  match mappingValue job "container" with
  | None => None
  | Some c => match y_Kind c with YMapping => mappingValue c "image" | _ => Some c end
  end.

Definition runs_in (job : string) : string := "job " ++ Quote job ++ " runs in this container".
Definition attaches (job name : string) : string := "job " ++ Quote job ++ " attaches service " ++ Quote name ++ " from this image".

(** The scalar images of a job, each with where it is named. *)
Definition job_images (job : string * ynode) : list (ynode * string) :=
  match y_Kind (snd job) with
  | YMapping =>
      List.filter (fun p => is_scalar (fst p))
        (option_list (option_map (fun image => (image, runs_in (fst job))) (container_image (snd job))) ++
         flat_map (fun svc => option_list (option_map (fun image => (image, attaches (fst job) (fst svc))) (mappingValue (snd svc) "image")))
                  (entries_of (mappingValue (snd job) "services")))%list
  | _ => []
  end.

Definition scanWorkflowImages (rel data : string) : Z * list Violation :=
  match yaml_Document data with
  | Err text => (0, [mkViolation rel 1 rel P6 ("this workflow does not parse as YAML, so the container images it names could not be checked: " ++ text)])
  | Ok None => (0, [])
  | Ok (Some root) =>
      let images := flat_map job_images (entries_of (mappingValue root "jobs")) in
      (Z.of_nat (length images), flat_map (fun p => option_list (workflowImageViolation rel (fst p) (snd p))) images)
  end.

Definition workflow_file (rel data : string) (s : workflow_state) : workflow_state :=
  let '(n, vs) := scanWorkflowImages rel data in
  fold_left (workflow_line rel) (numbered 1 (lines_of data))
    (mkWorkflow (ws_examined s + n) (ws_local s) (ws_images s + n) (ws_violations s ++ vs)%list).

Definition scanWorkflows : scanner := fun t r =>
  let files := walk t isWorkflow in
  match each_file t files workflow_file (mkWorkflow 0 0 0 []) with
  | Err e => Err e
  | Ok s =>
      Ok (add_category (mkCategory "workflow action and image references" (ws_examined s)
            (Itoa (ws_examined s - ws_images s) ++ " uses: line(s) and " ++ Itoa (ws_images s) ++ " job container/service image(s) across " ++
             Itoa (Z.of_nat (length files)) ++ " workflow(s); " ++ Itoa (ws_local s) ++ " are local actions in this repo")) (add_violations (ws_violations s) r))
  end.
End Workflows.
