(* ===== verification/PinManifests.v ===== *)
(** The pin gate's manifest scanners ([internal/pingate]: manifests.go, gradle.go):
    the Go module and its lockfile, the Makefile's tool versions, node manifests,
    and Gradle's wrapper, version catalogs and build scripts.  What git answers about
    the tree is the record [Git]; the text of a JSON error is the class [JsonError]. *)

From Stdlib Require Import ZArith Lia Bool String Ascii List Sorted.
From stdpp Require Import base option list strings gmap sorting.
From S2P Require Import Prelude GoStrings Json Regex Repo PinImages.
Local Open Scope string_scope.
Local Open Scope Z_scope.

Record Git := mkGit { isGitWorkTree : bool; gitTracked : string -> bool; gitIgnored : string -> bool }.
Class JsonError := { json_error : string -> string }.

Definition dq : string := of_list [byte_of 34].
Definition p4 (file : string) (line : Z) (ref why : string) : Violation := mkViolation file line ref P4 why.
Definition p6 (file : string) (line : Z) (ref why : string) : Violation := mkViolation file line ref P6 why.

(* ------------------------------------------------------------------ *)
(** ** The Go module *)

Definition reRequireLine : re := Eval vm_compute in
  MustCompile "^\s*(?:require\s+)?([a-zA-Z0-9][^\s()]*\.[^\s()]*/[^\s()]*|[a-zA-Z0-9][^\s()]*\.[^\s()]+)\s+(\S+)\s*(?://.*)?$".
Definition reGoVersion : re := Eval vm_compute in MustCompile "^v\d+\.\d+\.\d+(-[0-9A-Za-z.\-]+)?(\+incompatible)?$".
Definition lockfiles : list string := ["package-lock.json"; "npm-shrinkwrap.json"; "pnpm-lock.yaml"; "yarn.lock"].

Record module_state := mkModule { md_line : Z; md_block : bool; md_examined : Z; md_violations : list Violation }.

(** What a line is to the reader of requires. *)
Inductive require_kind := RSkip | ROpen | RClose | RRequire.
Definition require_kind_of (inBlock : bool) (trimmed : string) : require_kind :=
  if HasPrefix trimmed "//" || String.eqb trimmed "" then RSkip
  else if HasPrefix trimmed "require (" then ROpen
  else if inBlock && String.eqb trimmed ")" then RClose
  else if negb inBlock && negb (HasPrefix trimmed "require ") then RSkip
  else RRequire.

Definition require_violation (n : Z) (modl version : string) : option Violation :=
  if MatchString reGoVersion version then None
  else Some (p4 "go.mod" n (modl ++ " " ++ version)
         ("a require must name an exact version; `" ++ version ++ "` is not one, and a module graph that resolves to whatever is newest resolves to something different tomorrow")).

Definition module_line (s : module_state) (line : Z * string) : module_state :=
  let trimmed := TrimSpace (snd line) in
  let at_ := if HasPrefix trimmed "module " then fst line else md_line s in
  match require_kind_of (md_block s) trimmed with
  | RSkip => mkModule at_ (md_block s) (md_examined s) (md_violations s)
  | ROpen => mkModule at_ true (md_examined s) (md_violations s)
  | RClose => mkModule at_ false (md_examined s) (md_violations s)
  | RRequire =>
      match FindStringSubmatch reRequireLine trimmed with
      | None => mkModule at_ (md_block s) (md_examined s) (md_violations s)
      | Some m => mkModule at_ (md_block s) (md_examined s + 1)
                    (md_violations s ++ option_list (require_violation (fst line) (m 1%nat) (m 2%nat)))%list
      end
  end.

(** The lockfile: there, tracked, not ignored. *)
Definition lockfile_violation (g : Git) (t : Tree) (at_ : Z) : option Violation :=
  if negb (exists_path t "go.sum") then
    Some (p4 "go.mod" at_ "go.sum" "the module lockfile is missing, so nothing records which bytes this module graph resolved to; run `go mod tidy` and commit go.sum")
  else if isGitWorkTree g && negb (gitTracked g "go.sum") then
    Some (p4 "go.mod" at_ "go.sum" "go.sum exists but is not tracked by git, so it does not exist for anyone who clones this; `git add go.sum`")
  else if isGitWorkTree g && gitIgnored g "go.sum" then
    Some (p4 "go.mod" at_ "go.sum" "go.sum is excluded by a .gitignore rule; the lockfile is the pin, and an ignored lockfile is an unpinned module graph")
  else None.

Definition scanGoModule (g : Git) : scanner := fun t r =>
  match readLines t "go.mod" with
  | Err e => Err e
  | Ok None => Ok (add_category (mkCategory "go module requires" 0 "no go.mod at the root") r)
  | Ok (Some lines) =>
      let s := fold_left module_line (numbered 1 lines) (mkModule 1 false 0 []) in
      Ok (add_category (mkCategory "go module requires" (md_examined s) (Itoa (md_examined s) ++ " require(s) in go.mod, with go.sum committed and un-ignored"))
            (add_violations (md_violations s ++ option_list (lockfile_violation g t (md_line s)))%list r))
  end.

(* ------------------------------------------------------------------ *)
(** ** Makefile tool versions *)

Definition reMakeToolVersion : re := Eval vm_compute in MustCompile "^([A-Z][A-Z0-9]*(?:_[A-Z0-9]+)*_VERSION)\s*[:?+]?=\s*(.*)$".
Definition reExactToolVersion : re := Eval vm_compute in MustCompile "^v?\d+(\.\d+)*$".

Definition tool_pin (line : string) : option (string * string) :=
  option_map (fun m => let value := TrimSpace (m 2%nat) in
    (m 1%nat, match Index value "#" with Some i => TrimSpace (substring 0 i value) | None => value end))
    (FindStringSubmatch reMakeToolVersion line).

Definition tool_violation (n : Z) (pin : string * string) : option Violation :=
  if MatchString reExactToolVersion (snd pin) then None
  else Some (p4 "Makefile" n (fst pin ++ " = " ++ snd pin)
         "a tool version must be an exact version, never `latest` and never an expression evaluated at build time; the gate has to run the tool it names, or `make check` proves something about a version nobody chose").

Definition scanMakefile : scanner := fun t r =>
  match readLines t "Makefile" with
  | Err e => Err e
  | Ok None => Ok (add_category (mkCategory "Makefile tool versions" 0 "no Makefile at the root") r)
  | Ok (Some lines) =>
      let pins := omap (fun l => option_map (pair (fst l)) (tool_pin (snd l))) (numbered 1 lines) in
      let examined := Z.of_nat (length pins) in
      Ok (add_category (mkCategory "Makefile tool versions" examined
            (Itoa examined ++ " *_VERSION pin(s); the bare VERSION variable is this artefact's own version, not a pin"))
            (add_violations (omap (fun p => tool_violation (fst p) (snd p)) pins) r))
  end.

(* ------------------------------------------------------------------ *)
(** ** Node manifests *)

Definition reIgnoreScripts : re := Eval vm_compute in MustCompile "^\s*ignore-scripts\s*=\s*(\S+)\s*$".

Section Node.
Context `{U : Unicode} `{J : JsonError}.

Definition lineOfKey (data key : string) : Z :=
  match List.find (fun l => Contains (snd l) key) (numbered 1 (Split data (byte_of 10))) with Some (n, _) => n | None => 1 end.

(** The first [.npmrc] that can be read, beside the manifest or at the root. *)
Fixpoint first_readable (t : Tree) (candidates : list string) : option (list string * string) :=
  match candidates with
  | [] => None
  | c :: candidates => match readLines t c with Ok (Some lines) => Some (lines, c) | _ => first_readable t candidates end
  end.
Definition findNpmrc (t : Tree) (dir : string) : option (list string * string) :=
  first_readable t (map (fun c => TrimPrefix c "./") [path_Join dir ".npmrc"; ".npmrc"]).

(** The last switch of the file: its value, lower-cased, and its line. *)
Definition ignore_scripts (npmrc : list string) : string * Z :=
  fold_left (fun acc l => match FindStringSubmatch reIgnoreScripts (snd l) with Some m => (ToLower (m 1%nat), fst l) | None => acc end)
    (numbered 1 npmrc) ("", 0).

(** The lines above, nearest first: the first that is not blank decides. *)
Fixpoint reason_above (above : list string) : bool :=
  match above with
  | [] => false
  | l :: above =>
      let l := TrimSpace l in
      if String.eqb l "" then reason_above above
      else if negb (HasPrefix l "#") && negb (HasPrefix l ";") then false
      else (3 <=? length (Fields (TrimLeft l "#; ")))%nat
  end.
Definition hasReasonComment (lines : list string) (line : Z) : bool := reason_above (rev (firstn (Z.to_nat (line - 1)) lines)).

Definition npmrc_violation (rel dir data : string) (t : Tree) : option Violation :=
  match findNpmrc t dir with
  | None =>
      Some (p4 rel (lineOfKey data (dq ++ "name" ++ dq)) rel
        "npm runs dependency lifecycle scripts by default, and no committed .npmrc beside this manifest (or at the repository root) turns them off; add `ignore-scripts=true`")
  | Some (npmrc, npmrcRel) =>
      let '(value, line) := ignore_scripts npmrc in
      if String.eqb value "" then
        Some (p4 npmrcRel 1 "ignore-scripts" "this .npmrc does not set ignore-scripts, so npm's default applies and a dependency's install script runs as this repository's build; add `ignore-scripts=true`")
      else if String.eqb value "false" then
        if negb (hasReasonComment npmrc line) then
          Some (p4 npmrcRel line "ignore-scripts=false" "lifecycle scripts are switched back ON with no reason committed beside the switch; P4 allows the opt-back-in only with one, so put the reason on the comment line immediately above")
        else None
      else if negb (String.eqb value "true") then
        Some (p4 npmrcRel line ("ignore-scripts=" ++ value) "ignore-scripts takes true or false; anything else is read by npm as false, which runs the scripts")
      else None
  end.

Definition hasLockfile (t : Tree) (dir : string) : bool :=
  existsb (fun name => exists_path t (TrimPrefix (path_Join dir name) "./")) lockfiles.

(** Why a version spec is unbounded; empty when it is acceptable. *)
Definition floatingNodeSpec (spec : string) : string :=
  let s := TrimSpace spec in
  if String.eqb s "" || String.eqb s "*" || String.eqb s "x" || String.eqb s "X" then
    "an unbounded version spec resolves to whatever the registry serves at install time"
  else if EqualFold s "latest" || EqualFold s "next" then
    "`" ++ s ++ "` is a dist-tag the publisher moves, which is the same supply-chain path a floating image tag is"
  else if HasPrefix s ">" && negb (Contains s "<") then
    "a `" ++ s ++ "` range has no upper bound, so a future major version installs itself"
  else "".

(** The four dependency sets of a manifest. *)
Record manifest := mkManifest {
  mf_dependencies : gmap string string; mf_dev : gmap string string; mf_optional : gmap string string; mf_peer : gmap string string }.
Definition set_manifest (n : string) : into manifest := fun j m =>
  let '(mkManifest a b c d) := m in
  if String.eqb n "dependencies" then option_map (fun v => mkManifest v b c d) (into_map j a)
  else if String.eqb n "devDependencies" then option_map (fun v => mkManifest a v c d) (into_map j b)
  else if String.eqb n "optionalDependencies" then option_map (fun v => mkManifest a b v d) (into_map j c)
  else option_map (fun v => mkManifest a b c v) (into_map j d).
Definition manifest_of (data : string) : option manifest :=
  match Unmarshal data with
  | None => None
  | Some j => into_struct ["dependencies"; "devDependencies"; "optionalDependencies"; "peerDependencies"] set_manifest j (mkManifest ∅ ∅ ∅ ∅)
  end.

Definition sortedKeys (m : gmap string string) : list string := stable_sort str_ltb (map fst (map_to_list m)).

Definition spec_violations (rel data : string) (m : gmap string string) : list Violation :=
  omap (fun name =>
    let spec := default "" (m !! name) in
    let reason := floatingNodeSpec spec in
    if String.eqb reason "" then None
    else Some (p4 rel (lineOfKey data (dq ++ name ++ dq)) (name ++ ": " ++ spec) reason)) (sortedKeys m).

Definition checkNodeManifest (t : Tree) (rel dir : string) : list Violation :=
  match readFile t rel with
  | Err _ | Ok None => [p4 rel 1 rel "this manifest could not be read, so nothing about its pins has been checked"]
  | Ok (Some data) =>
      (option_list (npmrc_violation rel dir data t) ++
       (if negb (hasLockfile t dir)
        then [p4 rel (lineOfKey data (dq ++ "name" ++ dq)) rel
                (String.append "no lockfile beside this manifest (" (String.append (Join lockfiles ", ") "), so the dependency tree resolves to whatever the registry serves at install time"))]
        else []) ++
       match manifest_of data with
       | None => [p4 rel 1 rel (String.append "this manifest is not valid JSON, so its version specs could not be checked: " (json_error data))]
       | Some m => flat_map (spec_violations rel data) [mf_dependencies m; mf_dev m; mf_optional m; mf_peer m]
       end)%list
  end.

Definition isManifest (rel : string) : bool := String.eqb (Base rel) "package.json".

Definition scanNodeManifests : scanner := fun t r =>
  match walk t isManifest with
  | [] => Ok (add_category (mkCategory "node manifests" 1 "asserted ABSENT: no package.json anywhere in the tree, so there is no install for a lifecycle script to run during") r)
  | manifests =>
      let n := Z.of_nat (length manifests) in
      Ok (add_category (mkCategory "node manifests" n
            (Itoa n ++ " package.json, each checked for a committed lockfile, exact version specs and lifecycle scripts disabled"))
            (add_violations (flat_map (fun rel => checkNodeManifest t rel (Dir rel)) manifests) r))
  end.
End Node.

(* ------------------------------------------------------------------ *)
(** ** Gradle *)

Definition reGradleDistribution : re := Eval vm_compute in MustCompile "gradle-(\d+(?:\.\d+)*(?:-[A-Za-z0-9.\-]+)?)-(bin|all)\.zip".
Definition reSha256Hex : re := Eval vm_compute in MustCompile "^[0-9a-f]{64}$".
Definition reTomlSection : re := Eval vm_compute in MustCompile "^\s*\[([A-Za-z0-9_\-]+)\]\s*$".
Definition reTomlVersionEntry : re := Eval vm_compute in
  MustCompile ("^\s*([A-Za-z0-9_\-]+)\s*=\s*" ++ dq ++ "([^" ++ dq ++ "]*)" ++ dq ++ "\s*$").
Definition reTomlInlineVersion : re := Eval vm_compute in MustCompile ("(?:^|[,{\s])version\s*=\s*" ++ dq ++ "([^" ++ dq ++ "]*)" ++ dq).
Definition reTomlModuleCoordinate : re := Eval vm_compute in
  MustCompile ("module\s*=\s*" ++ dq ++ "[^" ++ dq ++ ":]+:[^" ++ dq ++ ":]+:([^" ++ dq ++ "]+)" ++ dq).
Definition reExactMavenVersion : re := Eval vm_compute in MustCompile "^\d+(\.\d+)*(-[0-9A-Za-z.\-]+)?$".
Definition reScriptCoordinate : re := Eval vm_compute in
  MustCompile (dq ++ "([A-Za-z0-9_.\-]+):([A-Za-z0-9_.\-]+):(\d[^" ++ dq ++ "]*)" ++ dq).
Definition reScriptPluginVersion : re := Eval vm_compute in
  MustCompile ("id\s*\(\s*" ++ dq ++ "([^" ++ dq ++ "]+)" ++ dq ++ "\s*\)\s+version\s+" ++ dq ++ "([^" ++ dq ++ "]+)" ++ dq).

Definition isGradleWrapperProperties (rel : string) : bool := String.eqb (Base rel) "gradle-wrapper.properties".

(** The distribution a properties file names: URL, its line, checksum. *)
Definition property_line (s : string * Z * string) (line : Z * string) : string * Z * string :=
  let trimmed := TrimSpace (snd line) in
  if HasPrefix trimmed "#" || HasPrefix trimmed "!" then s
  else
    let '(key, value, found) := Cut trimmed "=" in
    if negb found then s
    else
      let value := ReplaceAll (TrimSpace value) "\:" ":" in
      let '(url, at_, sum) := s in
      if String.eqb (TrimSpace key) "distributionUrl" then (value, fst line, sum)
      else if String.eqb (TrimSpace key) "distributionSha256Sum" then (url, at_, value)
      else s.

Definition wrapper_violation (rel : string) (s : string * Z * string) : option Violation :=
  let '(url, at_, sum) := s in
  if negb (MatchString reGradleDistribution url) then
    Some (p6 rel at_ url "this distribution URL does not name an exact released Gradle version, so the build runs whichever Gradle the URL points at on the day it runs")
  else if String.eqb sum "" then
    Some (p6 rel at_ url ("there is no distributionSha256Sum beside it, so the wrapper downloads and RUNS this archive without ever checking the bytes - P1 pins an image by the digest that actually resolves, and an executable zip fetched over the network is owed exactly the same; add `distributionSha256Sum=<64 hex>` from " ++ url ++ ".sha256"))
  else if negb (MatchString reSha256Hex sum) then
    Some (p6 rel at_ ("distributionSha256Sum=" ++ sum) "a distribution checksum must be 64 lowercase hexadecimal characters, or the wrapper has nothing it can compare the download against")
  else None.

Definition wrapper_file (rel : string) (lines : list string) (s : Z * list Violation) : Z * list Violation :=
  let p := fold_left property_line (numbered 1 lines) ("", 0, "") in
  if String.eqb (fst (fst p)) "" then s else (fst s + 1, (snd s ++ option_list (wrapper_violation rel p))%list).

Definition scanGradleWrapper : scanner := fun t r =>
  match each_lines t (walk t isGradleWrapperProperties) wrapper_file (0, []) with
  | Err e => Err e
  | Ok (examined, vs) =>
      Ok (add_category (mkCategory "gradle wrapper distributions" examined
            (Itoa examined ++ " gradle-wrapper.properties with a distributionUrl, each checked for a committed distributionSha256Sum")) (add_violations vs r))
  end.

Section Gradle.
Context `{U : Unicode}.

(** Why a version is dynamic; empty when it is exact. *)
Definition dynamicVersionReason (v : string) : string :=
  let s := TrimSpace v in
  let upper := ToUpper s in
  if String.eqb s "" then "an empty version resolves to whatever the repository holds at build time"
  else if Contains s "+" then
    "a `+` is Gradle's dynamic version: `" ++ s ++ "` resolves to whatever the repository holds when the build runs, which is a different dependency tomorrow"
  else if String.eqb upper "LATEST" || String.eqb upper "RELEASE" || HasPrefix upper "LATEST." then
    "`" ++ s ++ "` is a Gradle status keyword, not a version: it resolves to the newest artefact the repository is serving"
  else if ContainsAny s "[]()" || Contains s "," then
    "`" ++ s ++ "` is a Maven version RANGE, so the resolved dependency is chosen by the repository and not by this file"
  else if Contains upper "SNAPSHOT" then
    "a -SNAPSHOT is republished under the same coordinate, so `" ++ s ++ "` names different bytes on different days (P5: pin to something the publisher keeps)"
  else if negb (MatchString reExactMavenVersion s) then "`" ++ s ++ "` is not an exact version literal"
  else "".

Definition isVersionCatalog (rel : string) : bool := String.eqb (Base rel) "libs.versions.toml".

(** The version a catalog line states, in the section it is in: name and version. *)
Definition catalog_entry (section line : string) : option (string * string) :=
  if String.eqb section "versions" then option_map (fun m => (m 1%nat, m 2%nat)) (FindStringSubmatch reTomlVersionEntry line)
  else
    let name := TrimSpace (before_first line "=") in
    match FindStringSubmatch reTomlInlineVersion line with
    | Some m => Some (name, m 1%nat)
    | None => option_map (fun m => (name, m 1%nat)) (FindStringSubmatch reTomlModuleCoordinate line)
    end.

Record catalog_state := mkCatalog { cg_section : string; cg_examined : Z; cg_violations : list Violation }.
Definition catalog_line (rel : string) (s : catalog_state) (line : Z * string) : catalog_state :=
  let text := before_first (snd line) "#" in
  match FindStringSubmatch reTomlSection text with
  | Some m => mkCatalog (m 1%nat) (cg_examined s) (cg_violations s)
  | None =>
      match catalog_entry (cg_section s) text with
      | None => s
      | Some (name, version) =>
          let reason := dynamicVersionReason version in
          mkCatalog (cg_section s) (cg_examined s + 1)
            (if String.eqb reason "" then cg_violations s
             else cg_violations s ++ [p4 rel (fst line) (String.append name (String.append " = " (String.append dq (String.append version dq)))) reason])%list
      end
  end.
Definition catalog_file (rel : string) (lines : list string) (s : Z * list Violation) : Z * list Violation :=
  let c := fold_left (catalog_line rel) (numbered 1 lines) (mkCatalog "" (fst s) (snd s)) in (cg_examined c, cg_violations c).

Definition scanGradleCatalogs : scanner := fun t r =>
  let files := walk t isVersionCatalog in
  match each_lines t files catalog_file (0, []) with
  | Err e => Err e
  | Ok (examined, vs) =>
      Ok (add_category (mkCategory "gradle version catalog entries" examined
            (Itoa examined ++ " version literal(s) across " ++ Itoa (Z.of_nat (length files)) ++ " catalog(s), each required to be exact")) (add_violations vs r))
  end.
End Gradle.

Definition isGradleScript (rel : string) : bool := HasSuffix (Base rel) ".gradle" || HasSuffix (Base rel) ".gradle.kts".

Definition script_violation (rel : string) (line : Z * string) : option Violation :=
  let text := before_first (snd line) "//" in
  match FindStringSubmatch reScriptCoordinate text with
  | Some m => Some (p4 rel (fst line) (m 0%nat) "a dependency version written into a build script is a second place this pin lives; move it to the version catalog (gradle/libs.versions.toml) and reference it by alias")
  | None =>
      option_map (fun m => p4 rel (fst line) (m 0%nat) "a plugin version written into a build script is a second place this pin lives; declare the plugin in the version catalog's [plugins] section and apply it by alias")
        (FindStringSubmatch reScriptPluginVersion text)
  end.
Definition script_file (rel : string) (lines : list string) (vs : list Violation) : list Violation :=
  (vs ++ omap (script_violation rel) (numbered 1 lines))%list.

Definition scanGradleScripts : scanner := fun t r =>
  let files := walk t isGradleScript in
  match each_lines t files script_file [] with
  | Err e => Err e
  | Ok vs =>
      Ok (add_category (mkCategory "gradle build scripts" (Z.of_nat (length files))
            (Itoa (Z.of_nat (length files)) ++ " build script(s) checked for version literals restated outside the catalog")) (add_violations vs r))
  end.
