(* ===== verification/Pingate.v ===== *)
(** The pin gate ([internal/pingate]: gosource.go, pingate.go, demonstrations.go;
    [cmd/pincheck]): image references in Go source, the scan of a whole tree, the
    committed refusal demonstrations, and the check that composes them.  go/parser is
    the class [GoParser], whose syntax trees keep what the scanner looks at.  A tree
    has regular files only: links and empty directories are not represented, and
    materialising a demonstration cannot fail except on a file it cannot read. *)

From Stdlib Require Import ZArith Lia Bool String Ascii List Sorted.
From stdpp Require Import base option list strings gmap sorting.
From S2P Require Import Prelude GoStrings Json Regex Repo PinImages PinManifests Flags.
Local Open Scope string_scope.
Local Open Scope Z_scope.

(* ------------------------------------------------------------------ *)
(** ** Go source *)

(** A syntax tree: literals with their line and, for a string, its value; the nodes
    that bind a literal to a name; calls with their line; anything else. *)
Inductive gnode :=
| GLit (line : Z) (value : option string)
| GIdent (name : string)
| GSelector (x : gnode) (sel : string)
| GValueSpec (names : list string) (typ : list gnode) (values : list gnode)
| GAssign (lhs rhs : list gnode)
| GKeyValue (key value : gnode)
| GCall (line : Z) (fun_ : gnode) (args : list gnode)
| GOther (children : list gnode).

Record gofile := mkGoFile { go_Imports : list string; go_Decls : gnode }.
Class GoParser := { ParseFile : string -> result string gofile }.

Definition goImageNameComponent : string := "[a-z0-9]+(?:(?:[._]|__|[-]+)[a-z0-9]+)*".
Definition reGoImageCandidate : re := Eval vm_compute in
  MustCompile ("^" ++ goImageNameComponent ++ "(?:/" ++ goImageNameComponent ++ ")*" ++
               "(?::[A-Za-z0-9_][A-Za-z0-9._-]{0,127})?(?:@sha256:[0-9A-Za-z]+)?$").
Definition reImageIdent : re := Eval vm_compute in MustCompile "(?i)image".
Definition containerStarters : list string := ["Run"; "RunContainer"; "GenericContainer"].

Definition isGoSource (rel : string) : bool := HasSuffix rel ".go".

Definition isGoImageReference (value ident : string) : bool :=
  MatchString reGoImageCandidate value && ContainsAny value ":@" &&
  (Contains value "/" || Contains value "@sha256:" || MatchString reImageIdent ident).

(** [exprName]: the name an expression gives what is bound to it. *)
Definition exprName (e : gnode) : string :=
  match e with
  | GIdent name => name
  | GSelector _ sel => sel
  | GLit _ (Some v) => v
  | _ => ""
  end.

(** The string literals in the order of a visit: line, value, and the identifier the
    literal is bound to by the node right above it. *)
Fixpoint literals (ident : string) (n : gnode) {struct n} : list (Z * string * string) :=
  let all := fix all (l : list gnode) : list (Z * string * string) :=
    match l with [] => [] | n :: l => literals "" n ++ all l end%list in
  let bound := fix bound (names : list string) (l : list gnode) : list (Z * string * string) :=
    match l with [] => [] | n :: l => literals (List.hd "" names) n ++ bound (List.tl names) l end%list in
  match n with
  | GLit line (Some v) => [(line, v, ident)]
  | GLit _ None | GIdent _ => []
  | GSelector x _ => literals "" x
  | GValueSpec names typ values => all typ ++ bound names values
  | GAssign lhs rhs => all lhs ++ bound (map exprName lhs) rhs
  | GKeyValue key value => literals "" key ++ literals (exprName key) value
  | GCall _ f args => literals "" f ++ all args
  | GOther children => all children
  end%list.

(** The line of the first call of a container-starting entry point. *)
Fixpoint first_start (n : gnode) : option Z :=
  let all := fix all (l : list gnode) : option Z :=
    match l with [] => None | n :: l => match first_start n with Some z => Some z | None => all l end end in
  match n with
  | GLit _ _ | GIdent _ => None
  | GSelector x _ => first_start x
  | GValueSpec _ typ values => match all typ with Some z => Some z | None => all values end
  | GAssign lhs rhs => match all lhs with Some z => Some z | None => all rhs end
  | GKeyValue key value => match first_start key with Some z => Some z | None => first_start value end
  | GCall line f args =>
      let here := match f with GSelector _ sel => existsb (String.eqb sel) containerStarters | _ => false end in
      if here then Some line else match first_start f with Some z => Some z | None => all args end
  | GOther children => all children
  end.

Definition startsAContainer (file : gofile) : option Z :=
  if existsb (fun p => Contains p "testcontainers") (go_Imports file) then first_start (go_Decls file) else None.

Definition literal_violation (rel : string) (l : Z * string * string) : option Violation :=
  let '(line, value, _) := l in
  if MatchString reImageRef value then None
  else Some (mkViolation rel line value P1
         ("this string is a container image reference that something here PULLS, so it takes both halves exactly as a compose `image:` does: the tag stays readable and the digest is what actually resolves, and a tag alone is moved by its publisher under every run; write " ++ withDigestHint value)).

(** The image references a file names. *)
Definition image_literals (file : gofile) : list (Z * string * string) :=
  List.filter (fun l => let '(_, value, ident) := l in isGoImageReference value ident) (literals "" (go_Decls file)).

Definition checkGoFile (rel : string) (file : gofile) : Z * list Violation :=
  let refs := image_literals file in
  (Z.of_nat (length refs),
   (omap (literal_violation rel) refs ++
    match startsAContainer file, refs with
    | Some line, [] => [mkViolation rel line "testcontainers" P1 "this file starts a container with testcontainers but names no image reference this gate can read, so what it runs is decided somewhere the pin check cannot see; keep the reference in this file as a single string literal pinned NAME:TAG@sha256:<64 hex>"]
    | _, _ => []
    end)%list).

Record go_state := mkGoState { gs_examined : Z; gs_parsed : Z; gs_violations : list Violation }.

Section Scan.
Context `{U : Unicode} `{Q : GoQuote} `{Y : YAMLDoc} `{J : JsonError} `{GP : GoParser}.

Definition go_file (rel data : string) (s : go_state) : go_state :=
  match ParseFile data with
  | Err text => mkGoState (gs_examined s) (gs_parsed s) (gs_violations s ++
      [mkViolation rel 1 rel P6 (String.append "this Go file does not parse, so any image reference it names could not be checked: " text)])%list
  | Ok file => let '(n, vs) := checkGoFile rel file in mkGoState (gs_examined s + n) (gs_parsed s + 1) (gs_violations s ++ vs)%list
  end.

Definition scanGoSources : scanner := fun t r =>
  match each_file t (walk t isGoSource) go_file (mkGoState 0 0 []) with
  | Err e => Err e
  | Ok s =>
      Ok (add_category (mkCategory "container image references in Go source" (gs_examined s)
            (Itoa (gs_examined s) ++ " whole-literal image reference(s) across " ++ Itoa (gs_parsed s) ++
             " parsed .go file(s); a literal is examined when it names a repository path, carries a digest, or is bound to an identifier that says image"))
            (add_violations (gs_violations s) r))
  end.

(* ------------------------------------------------------------------ *)
(** ** The scan *)

Definition scanners (g : Git) : list scanner :=
  [scanDockerfiles; scanComposeFiles; scanGoSources; scanWorkflows; scanGoModule g; scanMakefile;
   scanGradleWrapper; scanGradleCatalogs; scanGradleScripts; scanNodeManifests].

Fixpoint run_scanners (ss : list scanner) (t : Tree) (r : Report) : result read_error Report :=
  match ss with
  | [] => Ok r
  | s :: ss => match s t r with Err e => Err e | Ok r => run_scanners ss t r end
  end.

Definition violation_ltb (a b : Violation) : bool :=
  if negb (String.eqb (v_File a) (v_File b)) then str_ltb (v_File a) (v_File b) else v_Line a <? v_Line b.

Definition Scan (g : Git) (t : Tree) : result read_error Report :=
  match run_scanners (scanners g) t (mkReport [] []) with
  | Err e => Err e
  | Ok r => Ok (mkReport (rp_Categories r) (stable_sort violation_ltb (rp_Violations r)))
  end.

(** [Report.Err]: there is none exactly when both lists are empty. *)
Definition Report_Err (r : Report) : list Violation * list Category := (rp_Violations r, EmptyCategories r).

(* ------------------------------------------------------------------ *)
(** ** Demonstrations *)

Record Demonstration := mkDemonstration {
  d_Name : string; d_Shape : string; d_Clause : Clause; d_File : string; d_WhyContains : string; d_CommittedAs : list (string * string) }.

Definition Demonstrations : list Demonstration :=
  [mkDemonstration "dockerfile-tag-only" "a Dockerfile FROM carrying a tag and no digest" P2 "Dockerfile" "takes BOTH halves" [];
   mkDemonstration "compose-image-no-digest" "a compose image: for a service the file does not build, with no digest" P1 "docker-compose.yml" "so it pulls a published image" [];
   mkDemonstration "workflow-mutable-tag" "a workflow uses: naming a mutable tag instead of a commit SHA" P3 ".github/workflows/ci.yml" "names a tag or a branch" [];
   mkDemonstration "manifest-dynamic-version" "a dependency manifest carrying a dynamic version" P4 "android/gradle/libs.versions.toml" "Gradle's dynamic version" [];
   mkDemonstration "node-lifecycle-scripts" "a node manifest with lifecycle scripts enabled and no committed reason" P4 "package.json" "npm runs dependency lifecycle scripts by default" [("package.json.committed", "package.json")]].

Definition case_dir (d : Demonstration) : string := DemonstrationsDir ++ "/" ++ d_Name d.

(** [CaseTree]: the committed directory, or a copy with the files renamed. *)
Definition CaseTree (t : Tree) (d : Demonstration) : result read_error Tree :=
  let src := subtree (case_dir d) t in
  match d_CommittedAs d with
  | [] => Ok src
  | renames =>
      fold_left (fun acc rel =>
        match acc, readFile src rel with
        | Err e, _ | _, Err e => Err e
        | Ok copy, Ok data =>
            let dst := match List.find (fun p => String.eqb (fst p) rel) renames with Some p => snd p | None => rel end in
            Ok (<[dst := data]> copy)
        end) (stable_sort str_ltb (map fst (map_to_list src))) (Ok ∅)
  end.

Definition matches (d : Demonstration) (v : Violation) : bool :=
  String.eqb (cl_ID (v_Clause v)) (cl_ID (d_Clause d)) && String.eqb (v_File v) (d_File d) &&
  (String.eqb (d_WhyContains d) "" || Contains (v_Why v) (d_WhyContains d)).
Definition matchingViolation (violations : list Violation) (d : Demonstration) : option Violation := List.find (matches d) violations.

(** What came of a demonstration. *)
Inductive demo_outcome := DRed | DMissing | DUnreadable | DGreen.
(** [git]: what git answers in the directory of the case. *)
Definition demonstrate (git : string -> Git) (t : Tree) (d : Demonstration) : demo_outcome :=
  if negb (exists_path t (case_dir d)) then DMissing
  else match CaseTree t d with
  | Err _ => DUnreadable
  | Ok tree =>
      match Scan (git (case_dir d)) tree with
      | Err _ => DUnreadable
      | Ok report => match matchingViolation (rp_Violations report) d with Some _ => DRed | None => DGreen end
      end
  end.
Definition is_red (o : demo_outcome) : bool := match o with DRed => true | _ => false end.

(** [RunDemonstrations]: how many went red, and the names of the others. *)
Definition RunDemonstrations (git : string -> Git) (t : Tree) : Z * list string :=
  (Z.of_nat (length (List.filter (fun d => is_red (demonstrate git t d)) Demonstrations)),
   map d_Name (List.filter (fun d => negb (is_red (demonstrate git t d))) Demonstrations)).

(** The names directly under a directory, with whether each is a directory. *)
Definition children (dir : string) (t : Tree) : list (string * bool) :=
  omap (fun rel => match components rel with [] => None | [name] => Some (name, false) | name :: _ => Some (name, true) end)
    (map fst (map_to_list (subtree dir t))).

Inductive tree_problem := TStray (names : list string) | TNoReason (name : string) | TNotCommitted (name : string) | TNoFixture (name committed : string).

(** [verifyDemonstrationTree]; [None] when the directory cannot be read. *)
Definition verifyDemonstrationTree (t : Tree) : option (list tree_problem) :=
  if negb (exists_path t DemonstrationsDir) then None
  else
    let entries := children DemonstrationsDir t in
    let want name := existsb (fun d => String.eqb (d_Name d) name) Demonstrations in
    let stray := List.filter (fun e : string * bool => if snd e then negb (want (fst e)) else negb (String.eqb (fst e) "README.md")) entries in
    let found name := existsb (fun e : string * bool => snd e && String.eqb (fst e) name) entries in
    Some ((match stray with [] => [] | _ => [TStray (stable_sort str_ltb (remove_dups (map fst stray)))] end) ++
          flat_map (fun d =>
            (if String.eqb (d_WhyContains d) "" then [TNoReason (d_Name d)] else []) ++
            (if negb (found (d_Name d)) then [TNotCommitted (d_Name d)]
             else flat_map (fun p => if exists_path t (String.append (case_dir d) (String.append "/" (fst p))) then [] else [TNoFixture (d_Name d) (fst p)])
                    (d_CommittedAs d))) Demonstrations)%list.

(* ------------------------------------------------------------------ *)
(** ** The check *)

Inductive check_problem :=
| KNotWorkTree | KNoDemonstrations | KTree (problems : list tree_problem) | KScan (e : read_error)
| KUnpinned (violations : list Violation) (empty : list Category) | KNotRed (names : list string) | KOnlyRed (red : Z).

Definition CheckRepo (git : string -> Git) (t : Tree) : list check_problem :=
  ((if negb (isGitWorkTree (git ".")) then [KNotWorkTree] else []) ++
   (match verifyDemonstrationTree t with None => [KNoDemonstrations] | Some [] => [] | Some ps => [KTree ps] end) ++
   (match Scan (git ".") t with
    | Err e => [KScan e]
    | Ok report => match Report_Err report with ([], []) => [] | (vs, empty) => [KUnpinned vs empty] end
    end) ++
   (let '(red, names) := RunDemonstrations git t in
    (match names with [] => [] | _ => [KNotRed names] end) ++
    (if red <? Z.of_nat (length Demonstrations) then [KOnlyRed red] else [])))%list.

(* ------------------------------------------------------------------ *)
(** ** The command *)

(** How a run of [cmd/pincheck] ends: what it prints, by its facts. *)
Inductive outcome :=
| OUsage (e : flag_error) | ORefused (problems : list check_problem) | OScanFailed (e : read_error)
| OPassed (summary : list Category) (examined demonstrations : Z).
Definition exit_status (o : outcome) : Z :=
  match o with OUsage FHelp => 0 | OUsage _ => 2 | ORefused _ | OScanFailed _ => 1 | OPassed _ _ _ => 0 end.

(** [repo root]: what git answers and the tree there. *)
Definition main (repo : string -> (string -> Git) * Tree) (args : list string) : outcome :=
  match Parse (string_flags ["root"]) args ∅ with
  | Err e => OUsage e
  | Ok (m, _) =>
      let '(git, t) := repo (default "." (m !! "root")) in
      match CheckRepo git t with
      | (_ :: _) as problems => ORefused problems
      | [] =>
          match Scan (git ".") t with
          | Err e => OScanFailed e
          | Ok report => OPassed (rp_Categories report) (Examined report) (Z.of_nat (length Demonstrations))
          end
      end
  end.
End Scan.
