(* ===== verification/PinSpec.v ===== *)
(** What the pin gate promises.  The shapes its expressions accept, spelled out; for
    each scanner, that it adds no violation exactly when every reference it examines
    has the shape the convention asks for; and so for the whole scan and the check.
    [stage_named_itself] is the exception the Dockerfile scanner leaves open. *)

From Stdlib Require Import ZArith Lia Bool String Ascii List Sorted.
From stdpp Require Import base option list strings gmap sorting.
From S2P Require Import Prelude GoStrings Json Regex Shapes Repo PinImages PinManifests Pingate.
Local Open Scope string_scope.
Local Open Scope Z_scope.

(* ------------------------------------------------------------------ *)
(** ** Shapes *)

(** NAME:TAG@sha256: and 64 hexadecimal digits. *)
Definition image_pinned (ref : string) : Prop :=
  exists name tag hex, some_of name_char name /\ some_of tag_char tag /\ count_of 64 hex_char hex /\
    to_list ref = (name ++ to_list ":" ++ tag ++ to_list "@sha256:" ++ hex)%list.
(** NAME@ and a commit's 40 hexadecimal digits. *)
Definition action_pinned (ref : string) : Prop :=
  exists name hex, some_of name_char name /\ count_of 40 hex_char hex /\ to_list ref = (name ++ to_list "@" ++ hex)%list.
(** #, then v and a digit. *)
Definition version_comment (s : string) : Prop :=
  exists sp d more, Forall is_space_char sp /\ digit_char d /\ to_list s = (to_list "#" ++ sp ++ to_list "v" ++ d :: more)%list.
Definition exact_tool (s : string) : Prop := exists v l, (v = to_list "v" \/ v = []) /\ dotted l /\ to_list s = (v ++ l)%list.
Definition maven_list (w : list ascii) : Prop := exists l p, dotted l /\ suffix "-" p /\ w = (l ++ p)%list.
Definition exact_maven (s : string) : Prop := maven_list (to_list s).
(** A released Gradle's archive somewhere in an address. *)
Definition names_release (url : string) : Prop :=
  exists pre v kind post, maven_list v /\ (kind = "bin" \/ kind = "all") /\
    to_list url = (pre ++ (to_list "gradle-" ++ v ++ to_list "-" ++ to_list kind ++ to_list ".zip") ++ post)%list.
Definition exact_go (s : string) : Prop :=
  exists a b c p q, number a /\ number b /\ number c /\ suffix "-" p /\ (q = to_list "+incompatible" \/ q = []) /\
    to_list s = (to_list "v" ++ a ++ to_list "." ++ b ++ to_list "." ++ c ++ p ++ q)%list.
Definition sha256_hex (s : string) : Prop := count_of 64 hex_char (to_list s).

Lemma image_pinned_spec ref : MatchString reImageRef ref = true <-> image_pinned ref.
Proof.
  change reImageRef with (Seq (chain BeginText
    [id (plus_re true (Chr true [(9, 10); (12, 13); (32, 32); (64, 64)])); Chr false [(58, 58)];
     id (plus_re true (Chr true [(9, 10); (12, 13); (32, 32); (64, 64); (58, 58); (47, 47)]));
     Chr false [(64, 64)]; Chr false [(115, 115)]; Chr false [(104, 104)]; Chr false [(97, 97)]; Chr false [(50, 50)]; Chr false [(53, 53)];
     Chr false [(54, 54)]; Chr false [(58, 58)]; id (repeat_re 64 (Chr false [(48, 57); (97, 102)]))]) EndText).
  rewrite match_whole; [|plain_parts; [apply plain_some, name_class|apply plain_some, tag_class|apply (plain_count 63), hex_class]].
  unfold image_pinned. split.
  - intros (ws & F & E). chain_parts. match type of E with _ = concat (?n :: _ :: ?t :: _ :: _ :: _ :: _ :: _ :: _ :: _ :: _ :: ?h :: _) => exists n, t, h end.
    do 3 (split; [done|]). rewrite E. simpl. by rewrite app_nil_r.
  - intros (n & t & h & Hn & Ht & Hh & E).
    exists [n; [byte_of 58]; t; [byte_of 64]; [byte_of 115]; [byte_of 104]; [byte_of 97]; [byte_of 50]; [byte_of 53]; [byte_of 54]; [byte_of 58]; h].
    split; [chain_build|]. rewrite E. simpl. by rewrite app_nil_r.
Qed.

Lemma action_pinned_spec ref : MatchString reActionSHA ref = true <-> action_pinned ref.
Proof.
  change reActionSHA with (Seq (chain BeginText
    [id (plus_re true (Chr true [(64, 64); (9, 10); (12, 13); (32, 32)])); Chr false [(64, 64)]; id (repeat_re 40 (Chr false [(48, 57); (97, 102)]))]) EndText).
  rewrite match_whole; [|plain_parts; [apply plain_some, name_class'|apply (plain_count 39), hex_class]].
  unfold action_pinned. split.
  - intros (ws & F & E). chain_parts. match type of E with _ = concat [?n; _; ?h] => exists n, h end.
    do 2 (split; [done|]). rewrite E. simpl. by rewrite app_nil_r.
  - intros (n & h & Hn & Hh & E). exists [n; [byte_of 64]; h]. split; [chain_build|]. rewrite E. simpl. by rewrite app_nil_r.
Qed.

Lemma sha256_hex_spec s : MatchString reSha256Hex s = true <-> sha256_hex s.
Proof.
  change reSha256Hex with (Seq (chain BeginText [id (repeat_re 64 (Chr false [(48, 57); (97, 102)]))]) EndText).
  rewrite match_whole; [|plain_parts; apply (plain_count 63), hex_class]. unfold sha256_hex. split.
  - intros (ws & F & E). chain_parts. rewrite E. simpl. by rewrite app_nil_r.
  - intros H. exists [to_list s]. split; [chain_build|]. simpl. by rewrite app_nil_r.
Qed.

(** Dots and numbers, repeated, as a group. *)
Definition dots_re : re := Star true (Group 1 (Seq (Chr false [(46, 46)]) (plus_re true (Chr false [(48, 57)])))).
Lemma plain_dots : plain dots_re (fun w => exists ws, Forall (fun m => exists d, number d /\ m = (to_list "." ++ d)%list) ws /\ w = concat ws).
Proof.
  apply plain_star_of.
  - apply plain_group. eapply plain_ext; [apply plain_seq; [by apply plain_literal|apply plain_digits]|].
    intros w. split; [intros (w1 & w2 & -> & -> & Hd); by exists w2|intros (d & Hd & ->); by exists [byte_of 46], d].
  - by intros w (d & _ & ->).
Qed.

Lemma dotted_parts n l : number n -> (exists ws, Forall (fun m => exists d, number d /\ m = (to_list "." ++ d)%list) ws /\ l = concat ws) -> dotted (n ++ l).
Proof. intros Hn (ws & F & ->). exists n, ws. done. Qed.

Lemma exact_tool_spec s : MatchString reExactToolVersion s = true <-> exact_tool s.
Proof.
  change reExactToolVersion with (Seq (chain BeginText [Alt (Chr false [(118, 118)]) Eps; digits_re; dots_re]) EndText).
  rewrite match_whole; [|plain_parts; [apply plain_digits|apply plain_dots]]. unfold exact_tool. split.
  - intros (ws & F & E). chain_parts. match type of E with _ = concat [?v; ?n; ?l] => exists v, (n ++ l)%list end.
    split; [done|]. split; [by apply dotted_parts|]. rewrite E. simpl. by rewrite app_nil_r.
  - intros (v & l & Hv & (n & rest & Hn & F & ->) & E). exists [v; n; concat rest]. split.
    + apply List.Forall2_cons; [done|]. apply List.Forall2_cons; [done|]. apply List.Forall2_cons; [by exists rest|]. apply List.Forall2_nil.
    + rewrite E. simpl. by rewrite app_nil_r.
Qed.

(** The optional pre-release, as a group. *)
Definition pre_re (n : nat) : re :=
  Alt (Group n (Seq (Chr false [(45, 45)]) (plus_re true (Chr false [(48, 57); (65, 90); (97, 122); (46, 46); (45, 45)])))) Eps.
Lemma plain_pre n : plain (pre_re n) (suffix "-").
Proof.
  assert (H : plain (suffix_re 45) (suffix "-")) by by apply plain_suffix. unfold pre_re. intros b w a. rewrite <- (H b w a).
  unfold suffix_re. by rewrite !reads_alt_iff, reads_group_iff.
Qed.

Lemma exact_maven_spec s : MatchString reExactMavenVersion s = true <-> exact_maven s.
Proof.
  change reExactMavenVersion with (Seq (chain BeginText [digits_re; dots_re; pre_re 2]) EndText).
  rewrite match_whole; [|plain_parts; [apply plain_digits|apply plain_dots|apply plain_pre]]. unfold exact_maven, maven_list. split.
  - intros (ws & F & E). chain_parts. match type of E with _ = concat [?n; ?l; ?p] => exists (n ++ l)%list, p end.
    split; [by apply dotted_parts|]. split; [done|]. rewrite E. simpl. by rewrite app_nil_r, app_assoc.
  - intros (l & p & (n & rest & Hn & F & ->) & Hp & E). exists [n; concat rest; p]. split.
    + apply List.Forall2_cons; [done|]. apply List.Forall2_cons; [by exists rest|]. chain_build.
    + rewrite E. simpl. by rewrite app_nil_r, app_assoc.
Qed.

(** The version in an archive's name. *)
Definition archive_re : re := Group 1 (Seq (Seq digits_re (Star true (Seq (Chr false [(46, 46)]) digits_re)))
  (Alt (Seq (Chr false [(45, 45)]) (plus_re true (Chr false [(65, 90); (97, 122); (48, 57); (46, 46); (45, 45)]))) Eps)).
Lemma plain_archive : plain archive_re maven_list.
Proof.
  apply plain_group. eapply plain_ext; [apply plain_seq; [apply plain_seq; [apply plain_digits|]|apply plain_alt; [apply plain_seq; [by apply plain_literal|]|apply plain_eps]]|].
  - apply plain_star_of; [apply plain_seq; [by apply plain_literal|apply plain_digits]|]. by intros w (w1 & w2 & -> & -> & _).
  - apply plain_some with (P := version_char). unfold class_is. class_spec.
  - assert (Hdot : forall ws, Forall (fun w => exists w1 w2, w = (w1 ++ w2)%list /\ w1 = [byte_of 46] /\ number w2) ws <->
      Forall (fun m => exists d, number d /\ m = (to_list "." ++ d)%list) ws).
    { intros ws. split; (intros F; eapply Forall_impl; [exact F|]).
      - by intros w (w1 & w2 & -> & -> & H); exists w2.
      - by intros w (d & H & ->); exists [byte_of 46], d. }
    intros w. unfold maven_list, dotted, suffix. split.
    + intros (w1 & p & -> & (n & l & -> & Hn & ws & F%Hdot & ->) & Hp). exists (n ++ concat ws)%list, p. split; [by exists n, ws|]. split; [|done].
      destruct Hp as [(m & q & -> & -> & Hq)|Hp]; [right; by exists q|by left].
    + intros (l & p & (n & ws & Hn & F%Hdot & ->) & Hp & ->). exists (n ++ concat ws)%list, p. split; [done|]. split.
      * exists n, (concat ws). split; [done|]. split; [done|]. by exists ws.
      * destruct Hp as [->|(q & Hq & ->)]; [by right|left; by exists [byte_of 45], q].
Qed.

Lemma names_release_spec url : MatchString reGradleDistribution url = true <-> names_release url.
Proof.
  change reGradleDistribution with (chain (Chr false [(103, 103)])
    [Chr false [(114, 114)]; Chr false [(97, 97)]; Chr false [(100, 100)]; Chr false [(108, 108)]; Chr false [(101, 101)]; Chr false [(45, 45)];
     archive_re; Chr false [(45, 45)]; Group 2 (Alt (word_re "b" (to_list "in")) (word_re "a" (to_list "ll")));
     Chr false [(46, 46)]; Chr false [(122, 122)]; Chr false [(105, 105)]; Chr false [(112, 112)]]).
  rewrite match_anywhere; [|apply plain_chain; [by apply plain_literal|plain_parts; first [apply plain_archive|apply plain_word]]].
  unfold names_release. split.
  - intros (pre & w & post & (ws & F & ->) & E). chain_parts.
    match type of E with _ = (_ ++ concat (_ :: _ :: _ :: _ :: _ :: _ :: _ :: ?v :: _ :: ?k :: _) ++ _)%list =>
      exists pre, v, (of_list k), post end.
    split; [done|]. split; [destruct_or?; subst; auto|]. rewrite E, to_of_list. simpl. done.
  - intros (pre & v & kind & post & Hv & Hk & E). exists pre, (to_list "gradle-" ++ v ++ to_list "-" ++ to_list kind ++ to_list ".zip")%list, post.
    split; [|done].
    exists [[byte_of 103]; [byte_of 114]; [byte_of 97]; [byte_of 100]; [byte_of 108]; [byte_of 101]; [byte_of 45]; v; [byte_of 45]; to_list kind;
            [byte_of 46]; [byte_of 122]; [byte_of 105]; [byte_of 112]].
    split; [|done].
    assert (Hk' : to_list kind = "b"%char :: to_list "in" \/ to_list kind = "a"%char :: to_list "ll") by (destruct Hk as [->| ->]; auto). chain_build.
Qed.

Definition incompatible_re : re := Alt (Group 2 (word_re "+" (to_list "incompatible"))) Eps.
Lemma exact_go_spec s : MatchString reGoVersion s = true <-> exact_go s.
Proof.
  change reGoVersion with (Seq (chain BeginText
    [Chr false [(118, 118)]; digits_re; Chr false [(46, 46)]; digits_re; Chr false [(46, 46)]; digits_re; pre_re 1; incompatible_re]) EndText).
  rewrite match_whole; [|plain_parts; first [apply plain_digits|apply plain_pre|apply plain_alt; [apply plain_group, plain_word|apply plain_eps]]].
  unfold exact_go. split.
  - intros (ws & F & E). chain_parts. match type of E with _ = concat [_; ?a; _; ?b; _; ?c; ?p; ?q] => exists a, b, c, p, q end.
    do 5 (split; [done|]). rewrite E. simpl. by rewrite app_nil_r.
  - intros (a & b & c & p & q & Ha & Hb & Hc & Hp & Hq & E). exists [[byte_of 118]; a; [byte_of 46]; b; [byte_of 46]; c; p; q].
    split; [chain_build|]. rewrite E. simpl. by rewrite app_nil_r.
Qed.

Lemma submatch_match r s : FindStringSubmatch r s = None <-> MatchString r s = false.
Proof. unfold FindStringSubmatch, MatchString. by destruct (find r s). Qed.

Lemma version_comment_spec s : MatchString reVersionComment s = true <-> version_comment s.
Proof.
  change reVersionComment with (chain BeginText [Chr false [(35, 35)]; Star true (Chr false [(9, 10); (12, 13); (32, 32)]);
    Group 1 (Seq (Seq (Chr false [(118, 118)]) (Chr false [(48, 57)])) (Star true (Chr false [(48, 57); (65, 90); (95, 95); (97, 122); (46, 46); (45, 45)])))]).
  rewrite match_prefix.
  2:{ apply List.Forall2_cons; [by apply plain_literal|]. apply List.Forall2_cons; [apply plain_many, space_class|]. apply List.Forall2_cons; [|apply List.Forall2_nil].
      apply plain_group, plain_seq; [apply plain_seq; [by apply plain_literal|apply plain_one, digit_class]|apply plain_star]. }
  unfold version_comment. split.
  - intros (ws & more & F & E). chain_parts. match goal with H : exists _, _ |- _ => destruct H as (w1 & w2 & -> & (w3 & w4 & -> & -> & (d & -> & Hd)) & Hm) end.
    match type of E with _ = (concat [_; ?sp; _] ++ _)%list => exists sp, d, (w2 ++ more)%list end. do 2 (split; [done|]).
    rewrite E. simpl. rewrite app_nil_r, <- !app_assoc. done.
  - intros (sp & d & more & Hs & Hd & E). exists [[byte_of 35]; sp; [byte_of 118; d]], more. split.
    + apply List.Forall2_cons; [done|]. apply List.Forall2_cons; [done|]. apply List.Forall2_cons; [|apply List.Forall2_nil].
      exists [byte_of 118; d], []. split; [done|]. split; [|constructor]. exists [byte_of 118], [d]. eauto.
    + rewrite E. simpl. by rewrite <- app_assoc.
Qed.

(* ------------------------------------------------------------------ *)
(** ** Loops that collect violations *)

Section Loops.
Context {S A C : Type} (viol : S -> list Violation).

Lemma fold_clean (P : A -> Prop) (f : S -> A -> S) l : (forall s x, viol (f s x) = [] <-> viol s = [] /\ P x) ->
  forall s, viol (fold_left f l s) = [] <-> viol s = [] /\ forall x, x ∈ l -> P x.
Proof.
  intros H. induction l as [|x l IH]; intros s; cbn [fold_left].
  - split; [intros E; split; [done|by intros x ?%elem_of_nil]|by intros [? _]].
  - rewrite IH, H. setoid_rewrite elem_of_cons. split; [intros [[H1 H2] H3]|intros [H1 H2]].
    + split; [done|]. intros y [->|Hy]; auto.
    + split; [split; [done|apply H2; by left]|]. intros y Hy. apply H2. by right.
Qed.

(** The same with a context that the loop carries along. *)
Lemma fold_clean_ctx (ctx : S -> C) (next : C -> A -> C) (P : C -> A -> Prop) (f : S -> A -> S) l :
  (forall s x, ctx (f s x) = next (ctx s) x /\ (viol (f s x) = [] <-> viol s = [] /\ P (ctx s) x)) ->
  forall s, viol (fold_left f l s) = [] <-> viol s = [] /\ forall pre x post, l = (pre ++ x :: post)%list -> P (fold_left next pre (ctx s)) x.
Proof.
  intros H. induction l as [|x l IH]; intros s; cbn [fold_left].
  - split; [intros E; split; [done|]; by intros [|] x post|by intros [? _]].
  - destruct (H s x) as [Hc Hv]. rewrite IH, Hv, Hc. split.
    + intros [[H1 H2] H3]. split; [done|]. intros [|y pre] z post; [by intros [= -> ->]|]. intros [= -> E]. by apply (H3 _ _ _ E).
    + intros [H1 H2]. split; [split; [done|by apply (H2 [] x l)]|]. intros pre z post E. apply (H2 (x :: pre) z post). by rewrite E.
Qed.

Lemma each_file_clean (P : string -> string -> Prop) t (step : string -> string -> S -> S) files :
  (forall rel data s, viol (step rel data s) = [] <-> viol s = [] /\ P rel data) ->
  forall s s', each_file t files step s = Ok s' ->
    (viol s' = [] <-> viol s = [] /\ forall rel data, rel ∈ files -> t !! rel = Some (Some data) -> P rel data).
Proof.
  intros H. induction files as [|rel files IH]; intros s s'; cbn [each_file].
  - intros [= <-]. split; [intros E; split; [done|by intros ? ? ?%elem_of_nil]|by intros [? _]].
  - unfold readFile. destruct (t !! rel) as [[data|]|] eqn:Et; [|done|]; intros E; rewrite (IH _ _ E); clear E.
    + rewrite H. split; [intros [[H1 H2] H3]|intros [H1 H2]].
      * split; [done|]. intros r d [->|Hr]%elem_of_cons Hd; [by simplify_eq|by apply (H3 r d)].
      * split; [split; [done|apply (H2 rel data); [by left|done]]|]. intros r d Hr. apply H2. by right.
    + split; intros [H1 H2]; (split; [done|]); intros r d Hr Hd; [|apply H2; [by right|done]].
      apply elem_of_cons in Hr as [->|Hr]; [congruence|by apply (H2 r d)].
Qed.
End Loops.

Lemma numbered_split {A} (Q : list A -> A -> Prop) (l : list A) : forall n,
  (forall pre x post, numbered n l = (pre ++ x :: post)%list -> Q (map snd pre) (snd x)) <->
  (forall pre x post, l = (pre ++ x :: post)%list -> Q pre x).
Proof.
  intros n. split.
  - intros H pre x post ->. revert n Q H. induction pre as [|y pre IH]; intros n Q H; simpl in H.
    + by apply (H [] (n, x) (numbered (n + 1) post)).
    + apply (IH (n + 1) (fun p => Q (y :: p))). intros p z q E. apply (H ((n, y) :: p) z q). by rewrite E.
  - intros H. revert n Q H. induction l as [|y l IH]; intros n Q H [|p pre] x post; cbn [numbered app]; try done.
    + intros [= <- _]. by apply (H [] y l).
    + intros [= <- E]. apply (IH (n + 1) (fun q => Q (y :: q))) with (post := post); [|done]. intros pre' x' post' ->. by apply (H (y :: pre') x' post').
Qed.

Lemma option_list_nil {A} (o : option A) : option_list o = [] <-> o = None.
Proof. by destruct o. Qed.

Lemma fold_snd {A B C} (f : C -> B -> C) (l : list (A * B)) : forall c, fold_left (fun c p => f c (snd p)) l c = fold_left f (map snd l) c.
Proof. induction l as [|[a b] l IH]; intros c; simpl; auto. Qed.

(* ------------------------------------------------------------------ *)
(** ** Dockerfiles *)

Section Docker.
Context `{U : Unicode}.

(** The stage names declared by some lines. *)
Definition stages_of (lines : list string) : list string :=
  flat_map (fun line => match from_arg line with Some arg => declared_stages (Fields arg) | None => [] end) lines.

(** A base image is written out, and is a stage of the file so far or pinned. *)
Definition base_ok (stages : list string) (ref : string) : Prop :=
  ref <> "" /\ ContainsAny ref "$" = false /\ (ToLower ref ∈ stages \/ image_pinned ref).

Definition dockerfile_pinned (text : string) : Prop :=
  forall pre line post arg, lines_of text = (pre ++ line :: post)%list -> from_arg line = Some arg ->
    base_ok (stages_of (pre ++ [line])) (from_ref (Fields arg)).

Lemma from_violation_none rel n arg stages : from_violation rel n arg stages = None <-> base_ok stages (from_ref (Fields arg)).
Proof.
  unfold from_violation, base_ok. rewrite <- image_pinned_spec. set (ref := from_ref (Fields arg)).
  destruct (String.eqb_spec ref "") as [Er|Er]; [naive_solver|]. destruct (ContainsAny ref "$"); [naive_solver|].
  assert (Hs : existsb (String.eqb (ToLower ref)) stages = true <-> ToLower ref ∈ stages).
  { rewrite existsb_elem. split; [by intros (x & Hx & ->%String.eqb_eq)|]. intros Hx. exists (ToLower ref). by rewrite String.eqb_refl. }
  destruct (existsb _ _); [naive_solver|]. destruct (MatchString reImageRef ref); naive_solver.
Qed.

Lemma docker_file_clean rel lines s : snd (docker_file rel lines s) = [] <->
  snd s = [] /\ forall pre line post arg, lines = (pre ++ line :: post)%list -> from_arg line = Some arg -> base_ok (stages_of (pre ++ [line])) (from_ref (Fields arg)).
Proof.
  unfold docker_file. cbn [snd].
  set (next := fun (stages : list string) (line : string) => match from_arg line with Some arg => (stages ++ declared_stages (Fields arg))%list | None => stages end).
  rewrite (fold_clean_ctx dk_violations dk_stages (fun st l => next st (snd l))
    (fun stages l => forall arg, from_arg (snd l) = Some arg -> base_ok (next stages (snd l)) (from_ref (Fields arg)))).
  - cbn [dk_violations dk_stages]. apply and_iff_congr. intros _.
    setoid_rewrite fold_snd. rewrite (numbered_split (fun pre line => forall arg, from_arg line = Some arg ->
      base_ok (next (fold_left next pre []) line) (from_ref (Fields arg))) lines 1).
    assert (Hst : forall pre, fold_left next pre [] = stages_of pre).
    { intros pre. rewrite <- (app_nil_l (stages_of pre)). generalize (@nil string). induction pre as [|l pre IH]; intros st; simpl; [by rewrite app_nil_r|].
      rewrite IH. unfold next. destruct (from_arg l); [by rewrite app_assoc|done]. }
    assert (Hn : forall pre line, next (stages_of pre) line = stages_of (pre ++ [line])).
    { intros pre line. unfold next, stages_of. rewrite flat_map_app. simpl. destruct (from_arg line); [by rewrite app_nil_r|by rewrite app_nil_r]. }
    setoid_rewrite Hst. setoid_rewrite Hn. split; intros H; intros; by eapply H.
  - intros d [n line]. unfold docker_line, next. cbn [fst snd]. destruct (from_arg line) as [arg|]; cbn [dk_stages dk_violations].
    + split; [done|]. rewrite app_nil, option_list_nil, from_violation_none. naive_solver.
    + split; [done|]. naive_solver.
Qed.
End Docker.
