(* ===== verification/PinScan.v ===== *)
(** The whole pin gate: for each scanner, what a tree must look like for it to add no
    violation; the scan is clean exactly when the tree is all of these
    ([tree_scan_exact]), and the check accepts exactly a clean work tree whose
    committed demonstrations all still go red ([CheckRepo_exact]). *)

From Stdlib Require Import ZArith Lia Bool String Ascii List Sorted.
From stdpp Require Import base option list strings gmap sorting.
From S2P Require Import Prelude GoStrings Json Regex Shapes Repo PinImages PinManifests.
From S2P Require Import Pingate PinSpec.
Local Open Scope string_scope.
Local Open Scope Z_scope.

Lemma omap_nil {A B} (f : A -> option B) l : omap f l = [] <-> forall x, x ∈ l -> f x = None.
Proof.
  split.
  - intros H x Hx. destruct (f x) as [y|] eqn:E; [|done]. exfalso. apply (not_elem_of_nil y). rewrite <- H. apply list_elem_of_omap. eauto.
  - intros H. destruct (omap f l) as [|b bs] eqn:E; [done|]. exfalso. assert (Hb : b ∈ omap f l) by (rewrite E; by left).
    apply list_elem_of_omap in Hb as (x & Hx & Eb). by rewrite (H x Hx) in Eb.
Qed.

Lemma flat_map_nil {A B} (f : A -> list B) l : flat_map f l = [] <-> forall x, x ∈ l -> f x = [].
Proof.
  induction l as [|x l IH]; simpl; [split; [intros _ ? ?%elem_of_nil; done|done]|]. rewrite app_nil, IH. setoid_rewrite elem_of_cons. naive_solver.
Qed.

(* ------------------------------------------------------------------ *)
(** ** Scanners and files *)

(** A scanner adds no violation exactly on the trees that satisfy [P]. *)
Definition clean (s : scanner) (P : Tree -> Prop) : Prop :=
  forall t r r', s t r = Ok r' -> (rp_Violations r' = [] <-> rp_Violations r = [] /\ P t).

(** The files a scanner reads: of its kind, outside the directories left aside. *)
Definition examined_file (keep : string -> bool) (t : Tree) (rel data : string) : Prop :=
  t !! rel = Some (Some data) /\ keep rel = true /\ forall d, d ∈ parents rel -> Base d ∉ skipDirs /\ d <> DemonstrationsDir.
Definition every_file (keep : string -> bool) (P : string -> Prop) (t : Tree) : Prop :=
  forall rel data, examined_file keep t rel data -> P data.

Lemma walk_reaches t keep rel : rel ∈ walk t keep <->
  is_Some (t !! rel) /\ keep rel = true /\ forall d, d ∈ parents rel -> Base d ∉ skipDirs /\ d <> DemonstrationsDir.
Proof.
  unfold walk. rewrite walkFiles_spec. do 2 (apply and_iff_congr; intros _). apply forall_proper. intros d.
  assert (H1 : existsb (String.eqb (Base d)) skipDirs = false <-> Base d ∉ skipDirs).
  { rewrite existsb_elem_false. split; [intros H Hd; by apply H in Hd; rewrite String.eqb_refl in Hd|].
    intros H x Hx. apply String.eqb_neq. by intros <-. }
  rewrite H1, String.eqb_neq. naive_solver.
Qed.

Section Files.
Context {S : Type} (viol : S -> list Violation) (keep : string -> bool) (P : string -> Prop).

Lemma files_clean t step s s' : (forall rel data s, viol (step rel data s) = [] <-> viol s = [] /\ P data) ->
  each_file t (walk t keep) step s = Ok s' -> viol s = [] -> (viol s' = [] <-> every_file keep P t).
Proof.
  intros H E Hs. rewrite (each_file_clean viol (fun _ => P) t step _ H s s' E), Hs. unfold every_file, examined_file. setoid_rewrite walk_reaches. naive_solver.
Qed.
End Files.

Lemma add_clean c vs r : rp_Violations (add_category c (add_violations vs r)) = [] <-> rp_Violations r = [] /\ vs = [].
Proof. apply app_nil. Qed.

(** A fold over numbered lines, as a statement about the lines. *)
Lemma numbered_lines {A} (Q : A -> Prop) (l : list A) n : (forall x, x ∈ numbered n l -> Q (snd x)) <-> forall x, x ∈ l -> Q x.
Proof.
  split.
  - intros H x (i & Hi)%list_elem_of_lookup. apply (H (n + Z.of_nat i, x)). apply elem_of_numbered. split; [lia|].
    by replace (Z.to_nat (n + Z.of_nat i - n)) with i by lia.
  - intros H [i x] [_ Hl]%elem_of_numbered. apply H. by eapply list_elem_of_lookup_2.
Qed.

(** A scanner that reads its files one by one. *)
Ltac file_scanner viol :=
  unfold clean, each_lines; intros t r r'; cbv zeta;
  match goal with |- context [each_file ?t ?fs ?step ?s] => destruct (each_file t fs step s) as [out|e] eqn:E; [|discriminate];
    try (destruct out as [examined vs]); intros [= <-];
    rewrite add_clean; apply and_iff_congr; intros _;
    first [apply (files_clean viol _ _ t _ _ _) with (2 := E)|idtac]; [|done] end.

(* ------------------------------------------------------------------ *)
(** ** Images and actions *)

Section Images.
Context `{U : Unicode} `{Q : GoQuote} `{Y : YAMLDoc}.

Lemma scanDockerfiles_clean : clean scanDockerfiles (every_file isDockerfile dockerfile_pinned).
Proof. unfold scanDockerfiles. file_scanner (@snd Z (list Violation)). intros rel data s. apply docker_file_clean. Qed.

(** A service that is not built here runs a pinned image. *)
Definition service_pinned (svc : string * ynode) : Prop :=
  forall image, mappingValue (snd svc) "image" = Some image -> mappingValue (snd svc) "build" = None ->
    Contains (y_Value image) "${" = false /\ Contains (y_Value image) "$(" = false /\ image_pinned (y_Value image).
Definition compose_pinned (text : string) : Prop :=
  exists root, yaml_Document text = Ok root /\ forall svc, svc ∈ composeServices root -> service_pinned svc.

Lemma service_violation_none rel name image : service_violation rel name image = None <->
  Contains (y_Value image) "${" = false /\ Contains (y_Value image) "$(" = false /\ image_pinned (y_Value image).
Proof.
  unfold service_violation. rewrite <- image_pinned_spec. set (ref := y_Value image).
  destruct (Contains ref "${"), (Contains ref "$("), (MatchString reImageRef ref); simpl; naive_solver.
Qed.

Lemma compose_file_clean rel data s : cs_violations (compose_file rel data s) = [] <-> cs_violations s = [] /\ compose_pinned data.
Proof.
  unfold compose_file, compose_pinned. destruct (yaml_Document data) as [root|e].
  - rewrite (fold_clean cs_violations service_pinned); [naive_solver|]. intros s0 svc. unfold compose_service, service_pinned.
    destruct (mappingValue (snd svc) "image") as [image|]; [|naive_solver]. destruct (mappingValue (snd svc) "build"); cbn [cs_violations]; [naive_solver|].
    rewrite app_nil, option_list_nil, service_violation_none. naive_solver.
  - cbn [cs_violations]. rewrite app_nil. naive_solver.
Qed.

Lemma scanComposeFiles_clean : clean scanComposeFiles (every_file isComposeFile compose_pinned).
Proof. unfold scanComposeFiles. file_scanner cs_violations. apply compose_file_clean. Qed.

(** A step is local, runs a pinned image, or a pinned action whose version is stated. *)
Definition use_pinned (ref trailing : string) : Prop :=
  match classify_use ref with
  | ULocal => True
  | UDocker image => image_pinned image
  | UAction => action_pinned ref /\ version_comment trailing
  end.
Definition workflow_image_pinned (image : ynode) : Prop :=
  Contains (y_Value image) "${{" = false /\ Contains (y_Value image) "${" = false /\ image_pinned (y_Value image).
Definition workflow_pinned (text : string) : Prop :=
  (exists root, yaml_Document text = Ok root /\
     forall doc p, root = Some doc -> p ∈ flat_map job_images (entries_of (mappingValue doc "jobs")) -> workflow_image_pinned (fst p)) /\
  forall line ref trailing, line ∈ lines_of text -> use_of line = Some (ref, trailing) -> use_pinned ref trailing.

Lemma use_violation_none rel n ref trailing : use_violation rel n ref trailing = None <-> use_pinned ref trailing.
Proof.
  unfold use_violation, use_pinned. destruct (classify_use ref) as [|image|]; [done| |].
  - rewrite <- image_pinned_spec. destruct (MatchString reImageRef image); naive_solver.
  - rewrite <- action_pinned_spec. pose proof (version_comment_spec trailing) as H.
    unfold FindStringSubmatch, MatchString in *. destruct (find reActionSHA ref) as [?|]; simpl; [|naive_solver].
    destruct (find reVersionComment trailing); naive_solver.
Qed.

Lemma workflow_image_none rel image place : workflowImageViolation rel image place = None <-> workflow_image_pinned image.
Proof.
  unfold workflowImageViolation, workflow_image_pinned. rewrite <- image_pinned_spec. set (ref := y_Value image).
  destruct (Contains ref "${{"), (Contains ref "${"), (MatchString reImageRef ref); simpl; naive_solver.
Qed.

Lemma scanWorkflowImages_clean rel data : snd (scanWorkflowImages rel data) = [] <->
  exists root, yaml_Document data = Ok root /\
    forall doc p, root = Some doc -> p ∈ flat_map job_images (entries_of (mappingValue doc "jobs")) -> workflow_image_pinned (fst p).
Proof.
  unfold scanWorkflowImages. destruct (yaml_Document data) as [[root|]|e]; cbn [snd].
  - rewrite flat_map_nil. setoid_rewrite option_list_nil. setoid_rewrite workflow_image_none. naive_solver.
  - naive_solver.
  - naive_solver.
Qed.

Lemma workflow_file_clean rel data s : ws_violations (workflow_file rel data s) = [] <-> ws_violations s = [] /\ workflow_pinned data.
Proof.
  unfold workflow_file, workflow_pinned. rewrite <- (scanWorkflowImages_clean rel).
  destruct (scanWorkflowImages rel data) as [n vs]. cbn [snd].
  rewrite (fold_clean ws_violations (fun l => forall ref trailing, use_of (snd l) = Some (ref, trailing) -> use_pinned ref trailing)).
  - cbn [ws_violations]. rewrite app_nil.
    rewrite (numbered_lines (fun line => forall ref trailing, use_of line = Some (ref, trailing) -> use_pinned ref trailing)). naive_solver.
  - intros s0 [i line]. unfold workflow_line. cbn [fst snd]. destruct (use_of line) as [[ref trailing]|]; cbn [ws_violations].
    + rewrite app_nil, option_list_nil, use_violation_none. naive_solver.
    + naive_solver.
Qed.

Lemma scanWorkflows_clean : clean scanWorkflows (every_file isWorkflow workflow_pinned).
Proof. unfold scanWorkflows. file_scanner ws_violations. apply workflow_file_clean. Qed.
End Images.


(* ------------------------------------------------------------------ *)
(** ** Go sources, the module and the Makefile *)

Section Sources.
Context `{U : Unicode} `{GP : GoParser}.

(** Every image a file names is pinned, and a file that starts a container names one. *)
Definition go_pinned (text : string) : Prop :=
  exists file, ParseFile text = Ok file /\ (forall line value ident, (line, value, ident) ∈ image_literals file -> image_pinned value) /\
    (startsAContainer file <> None -> image_literals file <> []).

Lemma literals_clean rel l : omap (literal_violation rel) l = [] <-> forall line value ident, (line, value, ident) ∈ l -> image_pinned value.
Proof.
  rewrite omap_nil. setoid_rewrite <- image_pinned_spec. unfold literal_violation. split.
  - intros H line value ident Hl. specialize (H _ Hl). simpl in H. by destruct (MatchString reImageRef value).
  - intros H [[line value] ident] Hl. by rewrite (H _ _ _ Hl).
Qed.

Lemma go_file_clean rel data s : gs_violations (go_file rel data s) = [] <-> gs_violations s = [] /\ go_pinned data.
Proof.
  unfold go_file, go_pinned. destruct (ParseFile data) as [file|e].
  - unfold checkGoFile. cbn [gs_violations]. rewrite !app_nil, literals_clean. apply and_iff_congr. intros _.
    transitivity ((forall line value ident, (line, value, ident) ∈ image_literals file -> image_pinned value) /\
      (startsAContainer file <> None -> image_literals file <> [])).
    + apply and_iff_congr. intros _. by destruct (startsAContainer file), (image_literals file); split; intros H; try done; destruct H.
    + split; [by exists file|]. by intros (f & [= <-] & H).
  - cbn [gs_violations]. rewrite app_nil. naive_solver.
Qed.

Lemma scanGoSources_clean : clean scanGoSources (every_file isGoSource go_pinned).
Proof. unfold scanGoSources. file_scanner gs_violations. apply go_file_clean. Qed.
End Sources.

(** Whether a require block is open after some lines. *)
Definition block_after (pre : list string) : bool :=
  fold_left (fun b line => match require_kind_of b (TrimSpace line) with ROpen => true | RClose => false | _ => b end) pre false.
(** The module and version a line requires. *)
Definition required_by (inBlock : bool) (line : string) : option (string * string) :=
  match require_kind_of inBlock (TrimSpace line) with
  | RRequire => option_map (fun m => (m 1%nat, m 2%nat)) (FindStringSubmatch reRequireLine (TrimSpace line))
  | _ => None
  end.
Definition lockfile_committed (g : Git) (t : Tree) : Prop :=
  exists_path t "go.sum" = true /\ (isGitWorkTree g = true -> gitTracked g "go.sum" = true /\ gitIgnored g "go.sum" = false).
(** Every require is exact and the lockfile is committed. *)
Definition module_pinned (g : Git) (t : Tree) : Prop :=
  forall text, t !! "go.mod" = Some (Some text) ->
    (forall pre line post modl version, lines_of text = (pre ++ line :: post)%list ->
       required_by (block_after pre) line = Some (modl, version) -> exact_go version) /\ lockfile_committed g t.

Lemma lockfile_violation_none g t n : lockfile_violation g t n = None <-> lockfile_committed g t.
Proof.
  unfold lockfile_violation, lockfile_committed.
  destruct (exists_path t "go.sum"), (isGitWorkTree g), (gitTracked g "go.sum"), (gitIgnored g "go.sum"); simpl; naive_solver.
Qed.

Lemma require_violation_none n modl version : require_violation n modl version = None <-> exact_go version.
Proof. unfold require_violation. rewrite <- exact_go_spec. destruct (MatchString reGoVersion version); naive_solver. Qed.

Lemma module_lines_clean lines s : md_block s = false -> md_violations (fold_left module_line (numbered 1 lines) s) = [] <->
  md_violations s = [] /\ forall pre line post modl version, lines = (pre ++ line :: post)%list ->
    required_by (block_after pre) line = Some (modl, version) -> exact_go version.
Proof.
  intros Hb. set (next := fun b line => match require_kind_of b (TrimSpace line) with ROpen => true | RClose => false | _ => b end).
  rewrite (fold_clean_ctx md_violations md_block (fun b l => next b (snd l))
    (fun b l => forall modl version, required_by b (snd l) = Some (modl, version) -> exact_go version)).
  - rewrite Hb. apply and_iff_congr. intros _. setoid_rewrite fold_snd.
    rewrite (numbered_split (fun pre line => forall modl version, required_by (fold_left next pre false) line = Some (modl, version) -> exact_go version) lines 1).
    unfold block_after. split; intros H; intros; by eapply H.
  - intros s0 [n line]. unfold module_line, next, required_by. cbn [fst snd].
    assert (Hskip : forall vs : list Violation, vs = [] <-> vs = [] /\ forall modl version : string, None = Some (modl, version) -> exact_go version) by (intros vs; split; [done|tauto]).
    destruct (require_kind_of (md_block s0) (TrimSpace line)); cbn [md_block md_violations]; [by split..|].
    destruct (FindStringSubmatch reRequireLine (TrimSpace line)); cbn [md_block md_violations option_map]; [|by split].
    rewrite app_nil, option_list_nil, require_violation_none. naive_solver.
Qed.

Lemma scanGoModule_clean g : clean (scanGoModule g) (module_pinned g).
Proof.
  intros t r r'. unfold scanGoModule, module_pinned, readLines, readFile. destruct (t !! "go.mod") as [[text|]|]; [|done|]; cbn [option_map].
  - intros [= <-]. rewrite add_clean, app_nil, option_list_nil, lockfile_violation_none, module_lines_clean by done. naive_solver.
  - intros [= <-]. cbn [add_category rp_Violations]. naive_solver.
Qed.

(** Every tool version is exact. *)
Definition make_pinned (t : Tree) : Prop :=
  forall text line name version, t !! "Makefile" = Some (Some text) -> line ∈ lines_of text -> tool_pin line = Some (name, version) -> exact_tool version.

Lemma scanMakefile_clean : clean scanMakefile make_pinned.
Proof.
  intros t r r'. unfold scanMakefile, make_pinned, readLines, readFile. destruct (t !! "Makefile") as [[text|]|]; [|done|]; cbn [option_map].
  - intros [= <-]. rewrite add_clean. apply and_iff_congr. intros _. rewrite omap_nil. setoid_rewrite list_elem_of_omap.
    transitivity (forall line, line ∈ lines_of text -> forall name version, tool_pin line = Some (name, version) -> exact_tool version); [|naive_solver].
    rewrite <- (numbered_lines _ (lines_of text) 1). unfold tool_violation. split.
    + intros H [n line] Hl name version E. cbn [snd] in E. specialize (H (n, (name, version))). apply exact_tool_spec.
      destruct (MatchString reExactToolVersion version) eqn:Em; [done|]. cbn [fst snd] in H. rewrite Em in H. discriminate H. exists (n, line).
      cbn [fst snd]. by rewrite E.
    + intros H [n [name version]] ([m line] & Hl & E). cbn [fst snd] in *. destruct (tool_pin line) as [p|] eqn:Ep; [|done]. injection E as -> ->.
      specialize (H _ Hl name version Ep). apply exact_tool_spec in H. by rewrite H.
  - intros [= <-]. cbn [add_category rp_Violations]. naive_solver.
Qed.

(* ------------------------------------------------------------------ *)
(** ** Gradle *)

(** The key and value of a properties line, and the last value of a key. *)
Definition setting (line : string) : option (string * string) :=
  let trimmed := TrimSpace line in
  if HasPrefix trimmed "#" || HasPrefix trimmed "!" then None
  else let '(key, value, found) := Cut trimmed "=" in
    if found then Some (TrimSpace key, ReplaceAll (TrimSpace value) "\:" ":") else None.
Definition property_of (key : string) (line : string) : option string :=
  match setting line with Some (k, v) => if String.eqb k key then Some v else None | None => None end.
Definition property (key : string) (lines : list string) : string := default "" (last (omap (property_of key) lines)).

Lemma last_default {A} (x d : A) l : default d (last (x :: l)) = default x (last l).
Proof. rewrite last_cons. by destruct (last l). Qed.

Lemma property_step url at_ sum n line : exists at', property_line (url, at_, sum) (n, line) =
  (default url (property_of "distributionUrl" line), at', default sum (property_of "distributionSha256Sum" line)).
Proof.
  unfold property_line, property_of, setting. cbn [fst snd]. destruct (_ || _); [by exists at_|].
  destruct (Cut (TrimSpace line) "=") as [[key value] []]; cbn [negb]; [|by exists at_].
  destruct (String.eqb_spec (TrimSpace key) "distributionUrl") as [->|Hu]; [by exists n|].
  destruct (String.eqb_spec (TrimSpace key) "distributionSha256Sum"); by exists at_.
Qed.

Lemma property_fold lines : forall n url at_ sum, let p := fold_left property_line (numbered n lines) (url, at_, sum) in
  fst (fst p) = default url (last (omap (property_of "distributionUrl") lines)) /\
  snd p = default sum (last (omap (property_of "distributionSha256Sum") lines)).
Proof.
  induction lines as [|line lines IH]; intros n url at_ sum; [done|]. cbn [numbered fold_left].
  assert (Hstep : forall o (f : string -> option string), default o (last (omap f (line :: lines))) = default (default o (f line)) (last (omap f lines))).
  { intros o f. cbn [omap list_omap]. destruct (f line); [apply last_default|done]. }
  rewrite !Hstep. destruct (property_step url at_ sum n line) as [at' ->]. apply IH.
Qed.

(** The archive is a released Gradle's and its checksum is committed. *)
Definition wrapper_pinned (text : string) : Prop :=
  let url := property "distributionUrl" (lines_of text) in
  url = "" \/ (names_release url /\ sha256_hex (property "distributionSha256Sum" (lines_of text))).

Lemma sha256_hex_nonempty s : sha256_hex s -> s <> "".
Proof. by intros [H _] ->. Qed.

Lemma wrapper_violation_none rel url at_ sum : wrapper_violation rel (url, at_, sum) = None <-> names_release url /\ sha256_hex sum.
Proof.
  unfold wrapper_violation. rewrite <- names_release_spec. pose proof (sha256_hex_nonempty sum) as Hne. rewrite <- sha256_hex_spec in *.
  destruct (MatchString reGradleDistribution url); simpl; [|naive_solver].
  destruct (String.eqb_spec sum ""); [naive_solver|]. destruct (MatchString reSha256Hex sum); simpl; naive_solver.
Qed.

Lemma scanGradleWrapper_clean : clean scanGradleWrapper (every_file isGradleWrapperProperties wrapper_pinned).
Proof.
  unfold scanGradleWrapper. file_scanner (@snd Z (list Violation)). intros rel data s. unfold wrapper_file, wrapper_pinned, property.
  destruct (property_fold (lines_of data) 1 "" 0 "") as [Hu Hs]. destruct (fold_left property_line _ _) as [[url at_] sum]. cbn [fst snd] in *. subst.
  destruct (String.eqb_spec (default "" (last (omap (property_of "distributionUrl") (lines_of data)))) "") as [->|Hne]; [naive_solver|].
  cbn [snd]. rewrite app_nil, option_list_nil, wrapper_violation_none. naive_solver.
Qed.

Section Gradle.
Context `{U : Unicode}.

(** A version that names one release: exact, and not a snapshot. *)
Definition exact_version (v : string) : Prop := exact_maven (TrimSpace v) /\ Contains (ToUpper (TrimSpace v)) "SNAPSHOT" = false.
(** Evaluates the code of a character written out. *)
Ltac char_code := repeat match goal with
  | |- context [code (Ascii ?a ?b ?c ?d ?e ?f ?g ?h)] => let k := eval vm_compute in (code (Ascii a b c d e f g h)) in change (code (Ascii a b c d e f g h)) with k
  | H : context [code (Ascii ?a ?b ?c ?d ?e ?f ?g ?h)] |- _ => let k := eval vm_compute in (code (Ascii a b c d e f g h)) in change (code (Ascii a b c d e f g h)) with k in H
  end.

(** An exact version is made of version characters and starts with a digit. *)
Lemma exact_maven_chars s : exact_maven s -> exists d l, to_list s = d :: l /\ digit_char d /\ Forall version_char (d :: l).
Proof.
  assert (Hd : forall c, digit_char c -> version_char c) by (unfold digit_char, version_char; lia).
  assert (Hm : version_char "."%char /\ version_char "-"%char) by (split; unfold version_char; char_code; lia).
  intros (w & p & (n & rest & [Hne Hn] & F & ->) & Hp & E). destruct n as [|d n]; [done|]. inversion Hn; subst.
  exists d, (n ++ concat rest ++ p)%list. rewrite E, <- app_assoc. split; [done|]. split; [done|].
  constructor; [auto|]. apply Forall_app. split; [eapply Forall_impl; [eassumption|auto]|]. apply Forall_app. split.
  - clear E. induction F as [|m ms (k & [_ Hk] & ->) F IH]; simpl; [constructor|]. constructor; [apply Hm|].
    apply Forall_app. split; [eapply Forall_impl; [exact Hk|auto]|exact IH].
  - destruct Hp as [->|(t & [_ Ht] & ->)]; [constructor|]. by constructor; [apply Hm|].
Qed.

Lemma contains_head s c sub : Contains s (String c sub) = true -> c ∈ to_list s.
Proof.
  unfold Contains, Index. induction (to_list s) as [|d l IH]; simpl; [done|]. destruct (Ascii.eqb_spec c d) as [->|Hne]; [intros _; by left|].
  intros H. right. apply IH. by destruct (index_list l _).
Qed.

Lemma exact_maven_static s : exact_maven s -> s <> "" /\ Contains s "+" = false /\ ContainsAny s "[]()" || Contains s "," = false /\
  String.eqb (ToUpper s) "LATEST" || String.eqb (ToUpper s) "RELEASE" || HasPrefix (ToUpper s) "LATEST." = false.
Proof.
  intros (d & l & E & Hd & F)%exact_maven_chars.
  assert (Hno : forall c, ~ version_char c -> c ∉ to_list s) by (intros c Hc Hin; rewrite E in Hin; by apply Hc, (proj1 (Forall_forall _ _) F)).
  assert (Hbad : forall c, c ∈ to_list "+,[]()" -> ~ version_char c).
  { intros c Hc. simpl in Hc. rewrite !elem_of_cons, elem_of_nil in Hc. destruct_or?; subst; try done; unfold version_char; char_code; lia. }
  assert (Hsub : forall c, c ∈ to_list "+,[]()" -> Contains s (String c "") = false).
  { intros c Hc. apply not_true_iff_false. intros Hx%contains_head. by apply (Hno c (Hbad c Hc)). }
  split; [by intros ->|]. split; [apply Hsub; by left|]. split.
  - apply orb_false_iff. split; [|apply Hsub; right; by left]. unfold ContainsAny. apply existsb_elem_false. intros c Hc.
    apply existsb_elem_false. intros x Hx. apply Ascii.eqb_neq. intros ->. apply (Hno x); [|done]. apply Hbad. right. by right.
  - assert (Ha : is_ascii s = true).
    { unfold is_ascii. rewrite E. apply forallb_forall. intros c Hc%list_elem_of_In. apply Z.ltb_lt.
      pose proof (proj1 (Forall_forall _ _) F c Hc) as Hv. unfold version_char in Hv. lia. }
    unfold ToUpper. rewrite Ha. unfold ascii_upper. rewrite E. cbn [map of_list].
    assert (Hu : upper_byte d = d). { unfold upper_byte, is_lower. unfold digit_char in Hd. by replace (97 <=? code d) with false by (symmetry; apply Z.leb_gt; lia). }
    rewrite Hu. assert (Hl : d <> "L"%char /\ d <> "R"%char) by (split; intros ->; unfold digit_char in Hd; char_code; lia).
    rewrite !orb_false_iff, !String.eqb_neq. unfold HasPrefix. cbn [String.prefix]. destruct (ascii_dec "L" d); [naive_solver|]. naive_solver.
Qed.

Lemma dynamicVersionReason_none v : dynamicVersionReason v = "" <-> exact_version v.
Proof.
  unfold dynamicVersionReason, exact_version. set (s := TrimSpace v). pose proof (exact_maven_static s) as H. rewrite <- exact_maven_spec in *.
  destruct (MatchString reExactMavenVersion s).
  - destruct (H eq_refl) as (H1 & H2 & H3 & H4). apply String.eqb_neq in H1. rewrite H1, H2, H3, H4. cbn [negb].
    destruct (Contains (ToUpper s) "SNAPSHOT"); simpl; naive_solver.
  - split; [|naive_solver]. cbn [negb]. repeat (match goal with |- context [if ?b then _ else _] => destruct b end; [done|]). done.
Qed.

Definition section_after (pre : list string) : string :=
  fold_left (fun sec line => match FindStringSubmatch reTomlSection (before_first line "#") with Some m => m 1%nat | None => sec end) pre "".
(** The version a line of a section states. *)
Definition stated_version (section line : string) : option string :=
  let text := before_first line "#" in
  match FindStringSubmatch reTomlSection text with Some _ => None | None => option_map snd (catalog_entry section text) end.
Definition catalog_pinned (text : string) : Prop :=
  forall pre line post version, lines_of text = (pre ++ line :: post)%list ->
    stated_version (section_after pre) line = Some version -> exact_version version.

Lemma catalog_file_clean rel lines s : snd (catalog_file rel lines s) = [] <-> snd s = [] /\
  forall pre line post version, lines = (pre ++ line :: post)%list ->
    stated_version (section_after pre) line = Some version -> exact_version version.
Proof.
  unfold catalog_file. cbn [snd].
  set (next := fun sec line => match FindStringSubmatch reTomlSection (before_first line "#") with Some m => m 1%nat | None => sec end).
  rewrite (fold_clean_ctx cg_violations cg_section (fun sec l => next sec (snd l))
    (fun sec l => forall version, stated_version sec (snd l) = Some version -> exact_version version)).
  - cbn [cg_violations cg_section]. apply and_iff_congr. intros _. setoid_rewrite fold_snd.
    rewrite (numbered_split (fun pre line => forall version, stated_version (fold_left next pre "") line = Some version -> exact_version version) lines 1).
    unfold section_after. split; intros H; intros; by eapply H.
  - intros s0 [n line]. unfold catalog_line, next, stated_version. cbn [fst snd].
    destruct (FindStringSubmatch reTomlSection (before_first line "#")); cbn [cg_violations cg_section]; [naive_solver|].
    destruct (catalog_entry (cg_section s0) (before_first line "#")) as [[name version]|]; cbn [cg_violations cg_section option_map snd]; [|naive_solver].
    split; [done|]. pose proof (dynamicVersionReason_none version) as Hv.
    destruct (String.eqb_spec (dynamicVersionReason version) "") as [E|E]; [naive_solver|]. rewrite app_nil. naive_solver.
Qed.

Lemma scanGradleCatalogs_clean : clean scanGradleCatalogs (every_file isVersionCatalog catalog_pinned).
Proof. unfold scanGradleCatalogs. file_scanner (@snd Z (list Violation)). intros rel data s. apply catalog_file_clean. Qed.
End Gradle.

(** No build script restates a version: no quoted coordinate, no plugin with a version. *)
Definition script_pinned (text : string) : Prop :=
  forall line, line ∈ lines_of text ->
    MatchString reScriptCoordinate (before_first line "//") = false /\ MatchString reScriptPluginVersion (before_first line "//") = false.

Lemma script_violation_none rel n line : script_violation rel (n, line) = None <->
  MatchString reScriptCoordinate (before_first line "//") = false /\ MatchString reScriptPluginVersion (before_first line "//") = false.
Proof.
  unfold script_violation, FindStringSubmatch, MatchString. cbn [fst snd].
  destruct (find reScriptCoordinate _); [naive_solver|]. destruct (find reScriptPluginVersion _); naive_solver.
Qed.

Lemma scanGradleScripts_clean : clean scanGradleScripts (every_file isGradleScript script_pinned).
Proof.
  unfold scanGradleScripts. file_scanner (@id (list Violation)). intros rel data vs. unfold script_file, id, script_pinned.
  rewrite app_nil. apply and_iff_congr. intros _. rewrite omap_nil, <- (numbered_lines _ (lines_of data) 1). apply forall_proper.
  intros [n line]. by rewrite script_violation_none.
Qed.

(* ------------------------------------------------------------------ *)
(** ** Node manifests *)

Section Node.
Context `{U : Unicode} `{J : JsonError}.

(** Lifecycle scripts are off, or on with a reason written above the switch. *)
Definition scripts_off (t : Tree) (dir : string) : Prop :=
  exists npmrc rel, findNpmrc t dir = Some (npmrc, rel) /\
    (fst (ignore_scripts npmrc) = "true" \/ (fst (ignore_scripts npmrc) = "false" /\ hasReasonComment npmrc (snd (ignore_scripts npmrc)) = true)).
(** A version spec that has an upper bound and is not a tag its publisher moves. *)
Definition bounded_spec (spec : string) : Prop :=
  let s := TrimSpace spec in
  s ∉ [""; "*"; "x"; "X"] /\ EqualFold s "latest" = false /\ EqualFold s "next" = false /\ (HasPrefix s ">" = true -> Contains s "<" = true).
Definition manifest_pinned (m : manifest) : Prop :=
  forall deps name spec, deps ∈ [mf_dependencies m; mf_dev m; mf_optional m; mf_peer m] -> deps !! name = Some spec -> bounded_spec spec.
Definition node_pinned (t : Tree) : Prop :=
  forall rel, rel ∈ walk t isManifest ->
    scripts_off t (Dir rel) /\ hasLockfile t (Dir rel) = true /\
    exists text m, t !! rel = Some (Some text) /\ manifest_of text = Some m /\ manifest_pinned m.

Lemma npmrc_violation_none rel dir data t : npmrc_violation rel dir data t = None <-> scripts_off t dir.
Proof.
  unfold npmrc_violation, scripts_off. destruct (findNpmrc t dir) as [[npmrc npmrcRel]|]; [|naive_solver].
  destruct (ignore_scripts npmrc) as [value line] eqn:E.
  transitivity (value = "true" \/ (value = "false" /\ hasReasonComment npmrc line = true)).
  - destruct (String.eqb_spec value "") as [->|H0]; [naive_solver|]. destruct (String.eqb_spec value "false") as [->|H1].
    + destruct (hasReasonComment npmrc line); simpl; naive_solver.
    + destruct (String.eqb_spec value "true"); simpl; naive_solver.
  - split; [intros H; exists npmrc, npmrcRel; by rewrite E|]. intros (x & y & [= <- <-] & H). by rewrite E in H.
Qed.

Lemma floatingNodeSpec_none spec : floatingNodeSpec spec = "" <-> bounded_spec spec.
Proof.
  unfold floatingNodeSpec, bounded_spec. set (s := TrimSpace spec).
  assert (Hw : String.eqb s "" || String.eqb s "*" || String.eqb s "x" || String.eqb s "X" = false <-> s ∉ [""; "*"; "x"; "X"]).
  { rewrite !orb_false_iff, !String.eqb_neq, !not_elem_of_cons. pose proof (@not_elem_of_nil string s). tauto. }
  rewrite <- Hw. destruct (_ || _ || _ || _); [by split; [|intros [? _]]|].
  destruct (EqualFold s "latest"); [by split; [|intros (_ & ? & _)]|]. destruct (EqualFold s "next"); [by split; [|intros (_ & _ & ? & _)]|].
  cbn [orb]. destruct (HasPrefix s ">"), (Contains s "<"); cbn [andb negb]; split; intros H; try done; try (by do 3 (split; [done|])).
  destruct H as (_ & _ & _ & H). by specialize (H eq_refl).
Qed.

Lemma sortedKeys_spec m name : name ∈ sortedKeys m <-> is_Some (m !! name).
Proof.
  unfold sortedKeys. rewrite stable_sort_perm, list_elem_of_fmap. split.
  - intros ([k v] & -> & H%elem_of_map_to_list). eauto.
  - intros [v H]. exists (name, v). split; [done|by apply elem_of_map_to_list].
Qed.

Lemma spec_violations_none rel data m : spec_violations rel data m = [] <-> forall name spec, m !! name = Some spec -> bounded_spec spec.
Proof.
  unfold spec_violations. rewrite omap_nil. setoid_rewrite <- floatingNodeSpec_none. split.
  - intros H name spec E. specialize (H name (proj2 (sortedKeys_spec m name) (mk_is_Some _ _ E))). cbv zeta in H. rewrite E in H. cbn [default id] in H.
    by destruct (String.eqb_spec (floatingNodeSpec spec) "").
  - intros H name [spec E]%sortedKeys_spec. rewrite E. cbn [default id]. by rewrite (H name spec E).
Qed.

Lemma checkNodeManifest_clean t rel dir : checkNodeManifest t rel dir = [] <->
  scripts_off t dir /\ hasLockfile t dir = true /\ exists text m, t !! rel = Some (Some text) /\ manifest_of text = Some m /\ manifest_pinned m.
Proof.
  unfold checkNodeManifest, readFile. destruct (t !! rel) as [[data|]|]; [|split; [done|by intros (_ & _ & x & y & [=] & _)]..].
  rewrite !app_nil, option_list_nil, npmrc_violation_none. apply and_iff_congr. intros _.
  assert (Hl : (if negb (hasLockfile t dir) then [p4 rel (lineOfKey data (dq ++ "name" ++ dq)) rel
                (String.append "no lockfile beside this manifest (" (String.append (Join lockfiles ", ") "), so the dependency tree resolves to whatever the registry serves at install time"))]
        else []) = [] <-> hasLockfile t dir = true) by (destruct (hasLockfile t dir); simpl; naive_solver).
  rewrite Hl. apply and_iff_congr. intros _. destruct (manifest_of data) as [m|] eqn:Em; [|split; [done|intros (x & y & [= <-] & [=]%(eq_trans (eq_sym Em)) & _)]].
  rewrite flat_map_nil. setoid_rewrite spec_violations_none. unfold manifest_pinned. split; [intros H; exists data, m; naive_solver|].
  intros (x & y & [= <-] & Ey & H). rewrite Em in Ey. injection Ey as <-. naive_solver.
Qed.

Lemma scanNodeManifests_clean : clean scanNodeManifests node_pinned.
Proof.
  intros t r r'. unfold scanNodeManifests, node_pinned. setoid_rewrite <- checkNodeManifest_clean.
  destruct (walk t isManifest) as [|rel files].
  - intros [= <-]. cbn [add_category rp_Violations]. split; [intros E; split; [done|by intros ? ?%elem_of_nil]|by intros [? _]].
  - intros [= <-]. rewrite add_clean. apply and_iff_congr. intros _. by rewrite <- flat_map_nil.
Qed.
End Node.

(* ------------------------------------------------------------------ *)
(** ** The scan *)

(** A scanner fails on a file it cannot read, and reads the files [F]. *)
Definition reads_files (s : scanner) (F : Tree -> string -> Prop) : Prop :=
  forall t r, match s t r with
              | Ok _ => forall rel, F t rel -> t !! rel <> Some None
              | Err (ReadFailed rel) => F t rel /\ t !! rel = Some None
              end.

Lemma each_file_reads {S} t step files : forall s : S,
  match each_file t files step s with
  | Ok _ => forall rel, rel ∈ files -> t !! rel <> Some None
  | Err (ReadFailed rel) => rel ∈ files /\ t !! rel = Some None
  end.
Proof.
  induction files as [|f files IH]; intros s; cbn [each_file]; [by intros ? ?%elem_of_nil|]. unfold readFile.
  destruct (t !! f) as [[data|]|] eqn:Ef; [|split; [by left|done]|];
    match goal with |- context [each_file t files step ?s0] => specialize (IH s0); destruct (each_file t files step s0) as [s'|[rel]] end.
  1, 3: intros rel [->|Hr]%elem_of_cons; [congruence|by apply IH].
  all: split; [right; apply IH|apply IH].
Qed.

Definition in_walk (keep : string -> bool) (t : Tree) (rel : string) : Prop := rel ∈ walk t keep.
Ltac scanner_reads :=
  intros t r; unfold each_lines; cbv zeta;
  match goal with |- context [each_file t ?fs ?step ?s] =>
    pose proof (each_file_reads t step fs s) as H; destruct (each_file t fs step s) as [out|e]; [try destruct out|]; exact H end.
Ltac reads_one := intros t r; unfold readLines, readFile;
  match goal with |- context [t !! ?f] => destruct (t !! f) as [[data|]|] eqn:E end; cbn [option_map]; try (intros rel ->; congruence); done.

Section Whole.
Context `{U : Unicode} `{Q : GoQuote} `{Y : YAMLDoc} `{J : JsonError} `{GP : GoParser}.

Lemma scanDockerfiles_reads : reads_files scanDockerfiles (in_walk isDockerfile).
Proof. unfold reads_files, scanDockerfiles. scanner_reads. Qed.
Lemma scanComposeFiles_reads : reads_files scanComposeFiles (in_walk isComposeFile).
Proof. unfold reads_files, scanComposeFiles. scanner_reads. Qed.
Lemma scanGoSources_reads : reads_files scanGoSources (in_walk isGoSource).
Proof. unfold reads_files, scanGoSources. scanner_reads. Qed.
Lemma scanWorkflows_reads : reads_files scanWorkflows (in_walk isWorkflow).
Proof. unfold reads_files, scanWorkflows. scanner_reads. Qed.
Lemma scanGoModule_reads g : reads_files (scanGoModule g) (fun _ rel => rel = "go.mod").
Proof. unfold reads_files, scanGoModule. reads_one. Qed.
Lemma scanMakefile_reads : reads_files scanMakefile (fun _ rel => rel = "Makefile").
Proof. unfold reads_files, scanMakefile. reads_one. Qed.
Lemma scanGradleWrapper_reads : reads_files scanGradleWrapper (in_walk isGradleWrapperProperties).
Proof. unfold reads_files, scanGradleWrapper. scanner_reads. Qed.
Lemma scanGradleCatalogs_reads : reads_files scanGradleCatalogs (in_walk isVersionCatalog).
Proof. unfold reads_files, scanGradleCatalogs. scanner_reads. Qed.
Lemma scanGradleScripts_reads : reads_files scanGradleScripts (in_walk isGradleScript).
Proof. unfold reads_files, scanGradleScripts. scanner_reads. Qed.
(** An unreadable node manifest is a violation, not a failure. *)
Lemma scanNodeManifests_reads : reads_files scanNodeManifests (fun _ _ => False).
Proof. intros t r. unfold scanNodeManifests. destruct (walk t isManifest); by intros. Qed.

(** A file the scan fails on when it cannot be read. *)
Definition scanned (t : Tree) (rel : string) : Prop :=
  rel = "go.mod" \/ rel = "Makefile" \/
  exists keep, keep ∈ [isDockerfile; isComposeFile; isGoSource; isWorkflow; isGradleWrapperProperties; isVersionCatalog; isGradleScript] /\ rel ∈ walk t keep.

(** Everything the tree builds with is pinned. *)
Definition pinned_tree (g : Git) (t : Tree) : Prop :=
  every_file isDockerfile dockerfile_pinned t /\ every_file isComposeFile compose_pinned t /\
  every_file isGoSource go_pinned t /\ every_file isWorkflow workflow_pinned t /\
  module_pinned g t /\ make_pinned t /\
  every_file isGradleWrapperProperties wrapper_pinned t /\ every_file isVersionCatalog catalog_pinned t /\
  every_file isGradleScript script_pinned t /\ node_pinned t.

Lemma run_scanners_clean ss Ps : Forall2 clean ss Ps -> forall t r r', run_scanners ss t r = Ok r' ->
  (rp_Violations r' = [] <-> rp_Violations r = [] /\ Forall (fun P => P t) Ps).
Proof.
  induction 1 as [|s P ss Ps Hs _ IH]; intros t r r'; cbn [run_scanners].
  - intros [= <-]. rewrite Forall_nil. naive_solver.
  - destruct (s t r) as [r1|] eqn:E; [|done]. intros E'. rewrite (IH _ _ _ E'), (Hs _ _ _ E), Forall_cons. tauto.
Qed.

Lemma run_scanners_reads ss Fs : Forall2 reads_files ss Fs -> forall t r,
  match run_scanners ss t r with
  | Ok _ => forall F rel, F ∈ Fs -> F t rel -> t !! rel <> Some None
  | Err (ReadFailed rel) => (exists F, F ∈ Fs /\ F t rel) /\ t !! rel = Some None
  end.
Proof.
  induction 1 as [|s F ss Fs Hs _ IH]; intros t r; cbn [run_scanners]; [by intros ? ? ?%elem_of_nil|].
  specialize (Hs t r). destruct (s t r) as [r1|[rel]].
  - specialize (IH t r1). destruct (run_scanners ss t r1) as [r2|[rel]].
    + intros F' rel [->|HF]%elem_of_cons; [apply Hs|by apply IH].
    + destruct IH as [(F' & HF & Hr) Hn]. split; [|done]. exists F'. split; [by right|done].
  - destruct Hs as [Hr Hn]. split; [|done]. exists F. split; [by left|done].
Qed.

Lemma scanners_clean g : Forall2 clean (scanners g)
  [every_file isDockerfile dockerfile_pinned; every_file isComposeFile compose_pinned; every_file isGoSource go_pinned;
   every_file isWorkflow workflow_pinned; module_pinned g; make_pinned; every_file isGradleWrapperProperties wrapper_pinned;
   every_file isVersionCatalog catalog_pinned; every_file isGradleScript script_pinned; node_pinned].
Proof.
  repeat first [apply List.Forall2_nil|apply List.Forall2_cons]; first
    [apply scanDockerfiles_clean|apply scanComposeFiles_clean|apply scanGoSources_clean|apply scanWorkflows_clean|apply scanGoModule_clean
    |apply scanMakefile_clean|apply scanGradleWrapper_clean|apply scanGradleCatalogs_clean|apply scanGradleScripts_clean|apply scanNodeManifests_clean].
Qed.

Lemma scanners_read g : Forall2 reads_files (scanners g)
  [in_walk isDockerfile; in_walk isComposeFile; in_walk isGoSource; in_walk isWorkflow; fun _ rel => rel = "go.mod"; fun _ rel => rel = "Makefile";
   in_walk isGradleWrapperProperties; in_walk isVersionCatalog; in_walk isGradleScript; fun _ _ => False].
Proof.
  repeat first [apply List.Forall2_nil|apply List.Forall2_cons]; first
    [apply scanDockerfiles_reads|apply scanComposeFiles_reads|apply scanGoSources_reads|apply scanWorkflows_reads|apply scanGoModule_reads
    |apply scanMakefile_reads|apply scanGradleWrapper_reads|apply scanGradleCatalogs_reads|apply scanGradleScripts_reads|apply scanNodeManifests_reads].
Qed.

Lemma scanned_spec t rel : scanned t rel <-> exists F : Tree -> string -> Prop,
  F ∈ [in_walk isDockerfile; in_walk isComposeFile; in_walk isGoSource; in_walk isWorkflow; fun _ rel => rel = "go.mod"; fun _ rel => rel = "Makefile";
       in_walk isGradleWrapperProperties; in_walk isVersionCatalog; in_walk isGradleScript; fun _ _ => False] /\ F t rel.
Proof.
  unfold scanned. split.
  - intros [->|[->|(keep & Hk & Hr)]].
    + exists (fun _ rel => rel = "go.mod"). split; [|done]. do 4 right. by left.
    + exists (fun _ rel => rel = "Makefile"). split; [|done]. do 5 right. by left.
    + exists (in_walk keep). split; [|done]. rewrite !elem_of_cons, elem_of_nil in Hk. rewrite !elem_of_cons. naive_solver.
  - intros (F & HF & Hr). rewrite !elem_of_cons, elem_of_nil in HF. setoid_rewrite elem_of_cons. unfold in_walk in HF.
    destruct_or?; subst; cbv beta in *; try tauto; right; right; eexists; (split; [|exact Hr]); rewrite ?elem_of_cons; tauto.
Qed.

Lemma violation_ltb_asym a b : violation_ltb a b = true -> violation_ltb b a = false.
Proof.
  unfold violation_ltb. rewrite (String.eqb_sym (v_File b)). destruct (String.eqb_spec (v_File a) (v_File b)); cbn [negb]; [lia|apply str_ltb_asym].
Qed.
Lemma violation_ltb_negtrans a b c : violation_ltb b a = false -> violation_ltb c b = false -> violation_ltb c a = false.
Proof.
  unfold violation_ltb. destruct (String.eqb_spec (v_File b) (v_File a)) as [E1|E1], (String.eqb_spec (v_File c) (v_File b)) as [E2|E2]; cbn [negb].
  - rewrite E2, E1, String.eqb_refl. cbn [negb]. lia.
  - rewrite <- E1. destruct (String.eqb_spec (v_File c) (v_File b)); [done|]. done.
  - rewrite E2. destruct (String.eqb_spec (v_File b) (v_File a)); [done|]. done.
  - intros H1 H2. destruct (String.eqb_spec (v_File c) (v_File a)) as [E3|E3]; cbn [negb]; [|by eapply str_ltb_negtrans].
    exfalso. rewrite E3 in H2. by apply E1, str_ltb_total.
Qed.

(** [Scan], without the property's name: when it fails, and what a report says. *)
Definition report_order (r : Report) : Prop := StronglySorted (fun a b => violation_ltb b a = false) (rp_Violations r).
Lemma Scan_spec g t :
  match Scan g t with
  | Ok r => (forall rel, scanned t rel -> t !! rel <> Some None) /\ (rp_Violations r = [] <-> pinned_tree g t) /\ report_order r
  | Err (ReadFailed rel) => scanned t rel /\ t !! rel = Some None
  end.
Proof.
  unfold Scan. pose proof (run_scanners_reads _ _ (scanners_read g) t (mkReport [] [])) as Hr.
  pose proof (run_scanners_clean _ _ (scanners_clean g) t (mkReport [] [])) as Hc.
  destruct (run_scanners (scanners g) t (mkReport [] [])) as [r|[rel]].
  - split; [intros rel (F & HF & H)%scanned_spec; by apply (Hr F)|]. cbn [rp_Violations]. split.
    + transitivity (rp_Violations r = []).
      * split; intros E; [|by rewrite E]. apply Permutation_nil_r. by rewrite <- E, stable_sort_perm.
      * rewrite (Hc r eq_refl). cbn [rp_Violations]. rewrite !Forall_cons, Forall_nil. unfold pinned_tree. tauto.
    + apply stable_sort_sorted; [apply violation_ltb_asym|apply violation_ltb_negtrans].
  - split; [|apply Hr]. apply scanned_spec. destruct Hr as [(F & HF & H) _]. eauto.
Qed.

(** The pin gate's scan fails exactly on a file it has to read and cannot; otherwise its report lists no violation exactly when everything the tree builds with is pinned - every base image, service, step, container and Go-named image by tag and digest, every action by commit with its version beside it, every require, tool, Gradle archive, catalog entry and node dependency to exact or bounded versions with its lockfile and checksum committed, and no version restated in a build script - and lists them by file and line. *)
Theorem tree_scan_exact g t :
  match Scan g t with
  | Ok r => (forall rel, scanned t rel -> t !! rel <> Some None) /\ (rp_Violations r = [] <-> pinned_tree g t) /\ report_order r
  | Err (ReadFailed rel) => scanned t rel /\ t !! rel = Some None
  end.
Proof. apply Scan_spec. Qed.

(* ------------------------------------------------------------------ *)
(** ** The check *)

(** The directory of demonstrations: one directory per demonstration with its
    fixtures, a README, and nothing else. *)
Definition demonstrations_committed (t : Tree) : Prop :=
  exists_path t DemonstrationsDir = true /\
  (forall name, (name, true) ∈ children DemonstrationsDir t -> name ∈ map d_Name Demonstrations) /\
  (forall name, (name, false) ∈ children DemonstrationsDir t -> name = "README.md") /\
  forall d, d ∈ Demonstrations -> (d_Name d, true) ∈ children DemonstrationsDir t /\
    forall p, p ∈ d_CommittedAs d -> exists_path t (String.append (case_dir d) (String.append "/" (fst p))) = true.

(** Scanning the case of a demonstration finds the violation it stands for. *)
Definition refused (git : string -> Git) (t : Tree) (d : Demonstration) : Prop :=
  exists_path t (case_dir d) = true /\
  exists tree report v, CaseTree t d = Ok tree /\ Scan (git (case_dir d)) tree = Ok report /\ v ∈ rp_Violations report /\
    cl_ID (v_Clause v) = cl_ID (d_Clause d) /\ v_File v = d_File d /\ Contains (v_Why v) (d_WhyContains d) = true.

Lemma find_exists {A} (f : A -> bool) l : List.find f l <> None <-> exists x, x ∈ l /\ f x = true.
Proof.
  split.
  - intros H. destruct (List.find f l) as [x|] eqn:E; [|done]. apply find_some in E as [Hx Hf]. exists x. by rewrite list_elem_of_In.
  - intros (x & Hx & Hf) E. rewrite (find_none _ _ E x) in Hf; [done|by apply list_elem_of_In].
Qed.

Lemma reasons_given d : d ∈ Demonstrations -> String.eqb (d_WhyContains d) "" = false.
Proof. unfold Demonstrations. rewrite !elem_of_cons, elem_of_nil. intros H. destruct_or?; by subst. Qed.

Lemma demonstrate_red git t d : d ∈ Demonstrations -> is_red (demonstrate git t d) = true <-> refused git t d.
Proof.
  intros Hd. unfold demonstrate, refused. destruct (exists_path t (case_dir d)); cbn [negb]; [|naive_solver].
  destruct (CaseTree t d) as [tree|]; [|split; [done|by intros (_ & x & y & v & [=] & _)]].
  destruct (Scan (git (case_dir d)) tree) as [report|] eqn:Es; [|split; [done|intros (_ & x & y & v & [= <-] & E & _); by rewrite Es in E]].
  transitivity (matchingViolation (rp_Violations report) d <> None); [by destruct (matchingViolation _ d)|].
  unfold matchingViolation. rewrite find_exists. unfold matches. rewrite (reasons_given d Hd). cbn [orb].
  setoid_rewrite andb_true_iff. setoid_rewrite andb_true_iff. setoid_rewrite String.eqb_eq. split.
  - intros (v & Hv & (H1 & H2) & H3). split; [done|]. by exists tree, report, v.
  - intros (_ & tree' & report' & v & [= <-] & E & Hv & H1 & H2 & H3). rewrite Es in E. injection E as <-. eauto.
Qed.

Lemma stray_nil (entries : list (string * bool)) :
  List.filter (fun e : string * bool => if snd e then negb (existsb (fun d => String.eqb (d_Name d) (fst e)) Demonstrations) else negb (String.eqb (fst e) "README.md")) entries = [] <->
  (forall name, (name, true) ∈ entries -> name ∈ map d_Name Demonstrations) /\ (forall name, (name, false) ∈ entries -> name = "README.md").
Proof.
  assert (Hwant : forall name, existsb (fun d => String.eqb (d_Name d) name) Demonstrations = true <-> name ∈ map d_Name Demonstrations).
  { intros name. rewrite existsb_elem, list_elem_of_fmap. split.
    - intros (d & H1 & H2%String.eqb_eq). by exists d.
    - intros (d & -> & H2). exists d. by rewrite String.eqb_refl. }
  rewrite filter_nil_iff. split.
  - intros H. split; intros name Hn; specialize (H _ Hn); cbn [fst snd] in H; apply negb_false_iff in H; [by apply Hwant|by apply String.eqb_eq].
  - intros [H1 H2] [name []] Hn; cbn [fst snd]; apply negb_false_iff; [apply Hwant; by apply H1|apply String.eqb_eq; by apply H2].
Qed.

Lemma demonstrations_spec t : verifyDemonstrationTree t = Some [] <-> demonstrations_committed t.
Proof.
  unfold verifyDemonstrationTree, demonstrations_committed. destruct (exists_path t DemonstrationsDir); cbn [negb]; [|naive_solver].
  set (entries := children DemonstrationsDir t).
  assert (Hsome : forall l : list tree_problem, Some l = Some [] <-> l = []) by (intros l; split; [by intros [= ->]|by intros ->]).
  rewrite Hsome, app_nil. clear Hsome.
  assert (Hfound : forall name, existsb (fun e : string * bool => snd e && String.eqb (fst e) name) entries = true <-> (name, true) ∈ entries).
  { intros name. rewrite existsb_elem. split.
    - intros ([n b] & Hin & [Hb Hn%String.eqb_eq]%andb_true_iff). cbn [fst snd] in *. by subst.
    - intros Hin. exists (name, true). split; [done|]. cbn [fst snd]. by rewrite String.eqb_refl. }
  assert (Hstray : forall (l : list (string * bool)) problem, match l with [] => [] | _ => [problem] end = ([] : list tree_problem) <-> l = []) by (by intros [|]).
  rewrite Hstray, stray_nil. rewrite flat_map_nil. setoid_rewrite <- Hfound. split.
  - intros [[H1 H2] H3]. do 3 (split; [done|]). intros d Hd. specialize (H3 d Hd). rewrite (reasons_given d Hd) in H3. cbn [app] in H3.
    destruct (existsb _ entries) eqn:Ef; cbn [negb] in H3; [|done]. split; [done|]. rewrite flat_map_nil in H3. intros p Hp. specialize (H3 p Hp).
    by destruct (exists_path _ _).
  - intros (_ & H1 & H2 & H3). split; [done|]. intros d Hd. rewrite (reasons_given d Hd). destruct (H3 d Hd) as [Hf Hp]. cbn [app]. rewrite Hf. cbn [negb].
    rewrite flat_map_nil. intros p Hpp. by rewrite (Hp p Hpp).
Qed.

Lemma run_demonstrations_spec git t : let '(red, names) := RunDemonstrations git t in
  (match names with [] => [] | _ => [KNotRed names] end ++ (if red <? Z.of_nat (length Demonstrations) then [KOnlyRed red] else []))%list = [] <->
  forall d, d ∈ Demonstrations -> refused git t d.
Proof.
  unfold RunDemonstrations. pose (red := fun d => is_red (demonstrate git t d)).
  change (fun d => is_red (demonstrate git t d)) with red. change (fun d => negb (is_red (demonstrate git t d))) with (fun d => negb (red d)).
  assert (Hall : List.filter (fun d => negb (red d)) Demonstrations = [] <-> forall d, d ∈ Demonstrations -> refused git t d).
  { rewrite filter_nil_iff. split; intros H d Hd; specialize (H d Hd).
    - apply demonstrate_red; [done|]. unfold red in H. by destruct (is_red _).
    - apply demonstrate_red in H; [|done]. unfold red. by rewrite H. }
  rewrite <- Hall. split.
  - intros H. by destruct (List.filter (fun d => negb (red d)) Demonstrations).
  - intros E. rewrite E. cbn [map app]. assert (Hr : List.filter red Demonstrations = Demonstrations).
    { apply filter_all. intros d Hd. rewrite filter_nil_iff in E. specialize (E d Hd). by destruct (red d). }
    by rewrite Hr, Z.ltb_irrefl.
Qed.

(** C28: the pin gate accepts a repository exactly when it is a git work tree whose demonstration directory holds exactly the committed cases, every file the scan reads is readable, everything the tree builds with is pinned, no category of references has been left with nothing to examine, and each of the five committed cases is still refused for the reason it stands for. *)
Theorem CheckRepo_exact git t :
  CheckRepo git t = [] <->
  isGitWorkTree (git ".") = true /\ demonstrations_committed t /\
  (forall rel, scanned t rel -> t !! rel <> Some None) /\ pinned_tree (git ".") t /\
  (forall report c, Scan (git ".") t = Ok report -> c ∈ rp_Categories report -> ct_Examined c <> 0) /\
  (forall d, d ∈ Demonstrations -> refused git t d).
Proof.
  unfold CheckRepo. rewrite !app_nil.
  assert (Hgit : (if negb (isGitWorkTree (git ".")) then [KNotWorkTree] else []) = [] <-> isGitWorkTree (git ".") = true) by (by destruct (isGitWorkTree _)).
  assert (Hdemo : match verifyDemonstrationTree t with None => [KNoDemonstrations] | Some [] => [] | Some ps => [KTree ps] end = [] <-> demonstrations_committed t).
  { rewrite <- demonstrations_spec. destruct (verifyDemonstrationTree t) as [[|]|]; split; naive_solver. }
  rewrite Hgit, Hdemo. pose proof (run_demonstrations_spec git t) as Hrun. destruct (RunDemonstrations git t) as [red names]. rewrite Hrun.
  pose proof (Scan_spec (git ".") t) as Hs. destruct (Scan (git ".") t) as [report|[rel]].
  - destruct Hs as (Hr & Hv & _). rewrite <- Hv.
    assert (He : match Report_Err report with ([], []) => [] | (vs, empty) => [KUnpinned vs empty] end = [] <->
      rp_Violations report = [] /\ forall c, c ∈ rp_Categories report -> ct_Examined c <> 0).
    { unfold Report_Err. transitivity (rp_Violations report = [] /\ EmptyCategories report = []).
      - destruct (rp_Violations report), (EmptyCategories report); split; try done; by intros [? ?].
      - unfold EmptyCategories. rewrite filter_nil_iff. setoid_rewrite Z.eqb_neq. done. }
    rewrite He. split; [intros (? & ? & [? ?] & ?)|intros (? & ? & ? & ? & Hc & ?)]; repeat (split; [done|]); [split; [|done]; naive_solver|].
    split; [|done]. split; [done|]. intros c. by apply Hc.
  - split; [naive_solver|]. intros (_ & _ & H & _). exfalso. by apply (H rel); apply Hs.
Qed.
End Whole.

(* ------------------------------------------------------------------ *)
(** ** Concrete trees *)

(** Libraries that answer for files without content. *)
#[local] Instance quote_nothing : GoQuote := {| Quote := fun s => s |}.
#[local] Instance no_documents : YAMLDoc := {| yaml_Document := fun _ => Ok None |}.
#[local] Instance no_source : GoParser := {| ParseFile := fun _ => Ok (mkGoFile [] (GOther [])) |}.
#[local] Instance no_error : JsonError := {| json_error := fun s => s |}.
#[local] Existing Instance ascii_unicode.
Definition everything_tracked : Git := mkGit true (fun _ => true) (fun _ => false).
Definition one_dockerfile (text : string) : Tree := {[ "Dockerfile" := Some text ]}.
Definition violations_of (t : Tree) : option (list string) :=
  match Scan everything_tracked t with Ok r => Some (map v_Reference (rp_Violations r)) | Err _ => None end.

(** A base without a digest is refused, by its reference; a stage declared on an
    earlier line is not a reference. *)
Example unpinned_base : violations_of (one_dockerfile "FROM golang:1.22 AS build") = Some ["golang:1.22"].
Proof. vm_compute. reflexivity. Qed.
Example stage_reused : violations_of (one_dockerfile ("FROM golang:1.22 AS build" ++ of_list [byte_of 10] ++ "FROM build")) = Some ["golang:1.22"].
Proof. vm_compute. reflexivity. Qed.
(** The scanner adds a line's own stage name before it looks its reference up, so a
    base named after itself needs no digest. *)
Example stage_named_itself : violations_of (one_dockerfile "FROM alpine AS alpine") = Some [].
Proof. vm_compute. reflexivity. Qed.
