(* ===== verification/Toolchain.v ===== *)
(** The toolchain pins ([internal/toolchain/pins.go]): where the Go version is stated
    (the Dockerfile's builder, the workflows' GO_VERSION, go.mod's toolchain line), the
    numeric order of dotted versions, and the check that all statements agree, stay
    above the floor and contain the language version.  The order in which a failure
    lists versions that compare equal is the map's in the code, and fixed here. *)

From Stdlib Require Import ZArith Lia Bool String Ascii List Sorted.
From stdpp Require Import base option list strings gmap sorting.
From S2P Require Import Prelude GoStrings Regex Repo.
Local Open Scope string_scope.
Local Open Scope Z_scope.

Definition MinimumVersion : string := "1.25.12".

Record Pin := mkPin { pin_File : string; pin_Line : Z; pin_Version : string; pin_Kind : string }.
Definition Pin_String (p : Pin) : string := pin_File p ++ ":" ++ Itoa (pin_Line p) ++ ": " ++ pin_Kind p ++ " = " ++ pin_Version p.

(* ------------------------------------------------------------------ *)
(** ** Versions *)

(** [split]: a component that does not parse is -1. *)
Definition split (v : string) : list Z := map (fun p => match Atoi p with Ok n => n | Err _ => -1 end) (Split v "."%char).

Definition component (l : list Z) (i : nat) : Z := List.nth i l 0.
Fixpoint compare_from (fuel i : nat) (as_ bs : list Z) : Z :=
  match fuel with
  | O => 0
  | S fuel =>
      let av := component as_ i in
      let bv := component bs i in
      if negb (av =? bv) then (if av <? bv then -1 else 1) else compare_from fuel (S i) as_ bs
  end.
(** [compare]: the loop runs over the longer of the two. *)
Definition compare (a b : string) : Z :=
  let as_ := split a in
  let bs := split b in
  compare_from (Nat.max (length as_) (length bs)) 0 as_ bs.

(* ------------------------------------------------------------------ *)
(** ** The pins of a tree *)

Definition dq' : string := of_list [byte_of 34].
Definition reDockerfileGo : re := Eval vm_compute in MustCompile "^\s*FROM\s+golang:(\d+(?:\.\d+){1,2})[-@\s]".
Definition reWorkflowGo : re := Eval vm_compute in
  MustCompile ("^\s*GO_VERSION:\s*[" ++ dq' ++ "']?(\d+(?:\.\d+){1,2})[" ++ dq' ++ "']?\s*(?:#.*)?$").
Definition reGoDirective : re := Eval vm_compute in MustCompile "^go\s+(\d+(?:\.\d+){1,2})\s*(?://.*)?$".
Definition reToolchainDirective : re := Eval vm_compute in MustCompile "^toolchain\s+go(\d+(?:\.\d+){1,2})\s*(?://.*)?$".

Inductive pin_error := PRead (rel : string) | PNoDockerfilePin | PNoWorkflowPin | PDirectives (n : Z).

Definition scanBytes (data rel kind : string) (r : re) : list Pin :=
  omap (fun l => option_map (fun m => mkPin rel (fst l) (m 1%nat) kind) (FindStringSubmatch r (snd l))) (numbered 1 (Split data (byte_of 10))).

Definition scanFile (t : Tree) (rel kind : string) (r : re) : result pin_error (list Pin) :=
  match t !! rel with
  | Some (Some data) => Ok (scanBytes data rel kind r)
  | _ => Err (PRead rel)
  end.

Definition builder_kind : string := "container base image that builds the shipped binary".
Definition workflow_kind : string := "Go version input to the workflow".
Definition directive_kind : string := "toolchain directive".
Definition floor_kind : string := "language floor (`go` directive)".

(** The workflow files, sorted. *)
Definition is_workflow_file (rel : string) : bool :=
  String.eqb (Dir rel) ".github/workflows" && glob (to_list "*.y*ml") (to_list (Base rel)).
Definition workflow_files (t : Tree) : list string := walkFiles (fun _ => false) (fun _ => false) t is_workflow_file.

(** The pins of some files in turn. *)
Fixpoint scan_workflows (t : Tree) (files : list string) : result pin_error (list Pin) :=
  match files with
  | [] => Ok []
  | rel :: files =>
      match scanFile t rel workflow_kind reWorkflowGo with
      | Err e => Err e
      | Ok found => match scan_workflows t files with Err e => Err e | Ok more => Ok (found ++ more)%list end
      end
  end.

Definition CollectPins (t : Tree) : result pin_error (list Pin) :=
  match scanFile t "Dockerfile" builder_kind reDockerfileGo with
  | Err e => Err e
  | Ok [] => Err PNoDockerfilePin
  | Ok found =>
      match scan_workflows t (workflow_files t) with
      | Err e => Err e
      | Ok [] => Err PNoWorkflowPin
      | Ok workflowPins =>
          match scanFile t "go.mod" directive_kind reToolchainDirective with
          | Err e => Err e
          | Ok toolchainPins => Ok (found ++ workflowPins ++ toolchainPins)%list
          end
      end
  end.

Definition LanguageFloor (t : Tree) : result pin_error Pin :=
  match scanFile t "go.mod" floor_kind reGoDirective with
  | Err e => Err e
  | Ok [p] => Ok p
  | Ok found => Err (PDirectives (Z.of_nat (length found)))
  end.

(* ------------------------------------------------------------------ *)
(** ** The check *)

Inductive pin_problem :=
| NothingToCompare | Disagree (versions : list string) (pins : list Pin) | BelowFloor (x : string) | FloorExceeds (floor : Pin) (x : string).

Definition versions_of (pins : list Pin) : list string :=
  stable_sort (fun a b => compare a b <? 0) (remove_dups (map pin_Version pins)).
(** The lowest version stated. *)
Definition lowest (first : string) (pins : list Pin) : string :=
  fold_left (fun x p => if compare (pin_Version p) x <? 0 then pin_Version p else x) pins first.

Definition Verify (pins : list Pin) (languageFloor : Pin) : list pin_problem :=
  match pins with
  | [] => [NothingToCompare]
  | first :: rest =>
      let versions := versions_of pins in
      let x := lowest (pin_Version first) rest in
      ((if (1 <? length versions)%nat then [Disagree versions pins] else []) ++
       (if compare x MinimumVersion <? 0 then [BelowFloor x] else []) ++
       (if 0 <? compare (pin_Version languageFloor) x then [FloorExceeds languageFloor x] else []))%list
  end.

(* ------------------------------------------------------------------ *)
(** ** Lemmas *)

(** A version as a sequence of numbers, zero where it says nothing. *)
Definition key (v : string) (i : nat) : Z := component (split v) i.
Definition before_at (a b : string) (i : nat) : Prop := (forall j, (j < i)%nat -> key a j = key b j) /\ key a i < key b i.

Lemma compare_from_spec fuel as_ bs : forall i, (forall j, (j < i)%nat -> component as_ j = component bs j) ->
  let c := compare_from fuel i as_ bs in
  (c = 0 /\ forall j, (j < i + fuel)%nat -> component as_ j = component bs j) \/
  (c = -1 /\ exists k, (forall j, (j < k)%nat -> component as_ j = component bs j) /\ component as_ k < component bs k) \/
  (c = 1 /\ exists k, (forall j, (j < k)%nat -> component as_ j = component bs j) /\ component bs k < component as_ k).
Proof.
  induction fuel as [|fuel IH]; intros i H; cbn [compare_from]; [left; split; [done|]; intros j Hj; apply H; lia|].
  destruct (Z.eqb_spec (component as_ i) (component bs i)) as [E|E]; cbn [negb].
  - destruct (IH (S i)) as [[H1 H2]|H1].
    + intros j Hj. destruct (decide (j = i)) as [->|]; [done|apply H; lia].
    + left. split; [done|]. intros j Hj. apply H2. lia.
    + by right.
  - right. destruct (Z.ltb_spec (component as_ i) (component bs i)); [left|right]; (split; [done|]; exists i; split; [done|lia]).
Qed.

Lemma component_beyond l i : (length l <= i)%nat -> component l i = 0.
Proof. apply nth_overflow. Qed.

(** What the loop says of two versions, whatever their lengths. *)
Lemma compare_cases a b :
  (compare a b = 0 /\ forall i, key a i = key b i) \/
  (compare a b = -1 /\ exists i, before_at a b i) \/
  (compare a b = 1 /\ exists i, before_at b a i).
Proof.
  unfold compare, before_at, key. destruct (compare_from_spec (Nat.max (length (split a)) (length (split b))) (split a) (split b) 0) as [[H1 H2]|[H|[H1 (i & H2 & H3)]]].
  - lia.
  - left. split; [done|]. intros i. destruct (decide (i < Nat.max (length (split a)) (length (split b)))%nat) as [Hi|Hi]; [by apply H2|].
    rewrite !component_beyond by lia. done.
  - right. by left.
  - right. right. split; [done|]. exists i. split; [|done]. intros j Hj. symmetry. by apply H2.
Qed.

Lemma before_at_irrefl a b i : before_at a b i -> ~ (forall j, key a j = key b j).
Proof. intros [_ H] E. rewrite E in H. lia. Qed.
Lemma before_at_asym a b i j : before_at a b i -> before_at b a j -> False.
Proof.
  intros [H1 H2] [H3 H4]. destruct (lt_eq_lt_dec i j) as [[Hl|<-]|Hl]; [rewrite (H3 i Hl) in H2; lia|lia|rewrite (H1 j Hl) in H4; lia].
Qed.
Lemma before_at_trans a b c i j : before_at a b i -> before_at b c j -> exists k, before_at a c k.
Proof.
  intros [H1 H2] [H3 H4]. exists (Nat.min i j). split.
  - intros k Hk. rewrite H1 by lia. apply H3. lia.
  - destruct (lt_eq_lt_dec i j) as [[Hl|<-]|Hl].
    + rewrite Nat.min_l by lia. rewrite <- (H3 i Hl). done.
    + rewrite Nat.min_id. lia.
    + rewrite Nat.min_r by lia. rewrite (H1 j Hl). done.
Qed.

Lemma compare_lt a b : compare a b < 0 <-> exists i, before_at a b i.
Proof.
  destruct (compare_cases a b) as [[-> H]|[[-> H]|[-> [i H]]]]; split; intros Hx; try lia; try done.
  - destruct Hx as [i Hi]. by apply before_at_irrefl in Hi.
  - destruct Hx as [j Hj]. exfalso. by eapply before_at_asym.
Qed.
Lemma compare_gt a b : 0 < compare a b <-> exists i, before_at b a i.
Proof.
  destruct (compare_cases a b) as [[-> H]|[[-> [i H]]|[-> H]]]; split; intros Hx; try lia; try done.
  - destruct Hx as [i Hi]. apply before_at_irrefl in Hi. by destruct Hi.
  - destruct Hx as [j Hj]. exfalso. by eapply before_at_asym.
Qed.
Lemma compare_eq a b : compare a b = 0 <-> forall i, key a i = key b i.
Proof.
  destruct (compare_cases a b) as [[-> H]|[[-> [i H]]|[-> [i H]]]]; split; intros Hx; try lia; try done.
  - exfalso. by eapply before_at_irrefl.
  - exfalso. eapply before_at_irrefl; [exact H|]. done.
Qed.
Lemma compare_refl a : compare a a = 0.
Proof. by apply compare_eq. Qed.
Lemma compare_le_trans a b c : compare a b <= 0 -> compare b c <= 0 -> compare a c <= 0.
Proof.
  intros H1 H2. apply Z.le_ngt. intros [i Hi]%compare_gt.
  destruct (compare_cases a b) as [[_ E1]|[[_ [j Hj]]|[E _]]]; [| |lia]; destruct (compare_cases b c) as [[_ E2]|[[_ [k Hk]]|[E' _]]]; try lia.
  - eapply before_at_irrefl; [exact Hi|]. intros n. by rewrite E1, E2.
  - eapply (before_at_asym c a i k); [done|]. destruct Hk as [K1 K2]. split; [intros n Hn; rewrite E1; by apply K1|by rewrite E1].
  - eapply (before_at_asym c a i j); [done|]. destruct Hj as [K1 K2]. split; [intros n Hn; rewrite <- E2; by apply K1|by rewrite <- E2].
  - destruct (before_at_trans _ _ _ _ _ Hj Hk) as [n Hn]. by eapply before_at_asym.
Qed.

Lemma compare_opp a b : compare b a = - compare a b.
Proof.
  destruct (compare_cases a b) as [[-> E]|[[-> [i H]]|[-> [i H]]]], (compare_cases b a) as [[-> E']|[[-> [j H']]|[-> [j H']]]]; try done; exfalso.
  - eapply before_at_irrefl; [exact H'|]. done.
  - eapply before_at_irrefl; [exact H'|]. done.
  - by eapply before_at_irrefl.
  - by eapply before_at_asym.
  - eapply before_at_irrefl; [exact H|]. done.
  - by eapply before_at_asym.
Qed.

(** The lowest version is one of those stated, and none is below it. *)
Lemma lowest_spec pins : forall first, lowest first pins ∈ first :: map pin_Version pins /\
  forall v, v ∈ first :: map pin_Version pins -> compare (lowest first pins) v <= 0.
Proof.
  induction pins as [|p pins IH]; intros first; unfold lowest; cbn [fold_left map].
  - split; [by left|]. intros v ->%list_elem_of_singleton. by rewrite compare_refl.
  - fold (lowest (if compare (pin_Version p) first <? 0 then pin_Version p else first) pins).
    destruct (Z.ltb_spec (compare (pin_Version p) first) 0) as [Hlt|Hge].
    + destruct (IH (pin_Version p)) as [H1 H2]. split; [by right|]. intros v [->|Hv]%elem_of_cons; [|by apply H2].
      apply (compare_le_trans _ (pin_Version p)); [apply H2; by left|lia].
    + destruct (IH first) as [H1 H2]. split; [rewrite !elem_of_cons in *; tauto|]. intros v Hv. rewrite !elem_of_cons in Hv.
      destruct Hv as [->|[->|Hv]]; [apply H2; by left| |apply H2; by right].
      apply (compare_le_trans _ first); [apply H2; by left|]. rewrite compare_opp. lia.
Qed.

Lemma versions_of_one pins : (1 <? length (versions_of pins))%nat = false <-> forall p q, p ∈ pins -> q ∈ pins -> pin_Version p = pin_Version q.
Proof.
  unfold versions_of. rewrite Nat.ltb_ge, (Permutation_length (stable_sort_perm _ _)). split.
  - intros H p q Hp Hq. assert (Hin : forall r, r ∈ pins -> pin_Version r ∈ remove_dups (map pin_Version pins)).
    { intros r Hr. apply elem_of_remove_dups, list_elem_of_fmap. by exists r. }
    apply Hin in Hp, Hq. destruct (remove_dups (map pin_Version pins)) as [|v [|w l]]; simpl in H; [by apply elem_of_nil in Hp| |lia].
    apply list_elem_of_singleton in Hp, Hq. congruence.
  - intros H. pose proof (NoDup_remove_dups (map pin_Version pins)) as Hd.
    assert (Hin : forall v, v ∈ remove_dups (map pin_Version pins) -> exists p, p ∈ pins /\ v = pin_Version p).
    { intros v (p & -> & Hp)%elem_of_remove_dups%list_elem_of_fmap. by exists p. }
    destruct (remove_dups (map pin_Version pins)) as [|v [|w l]]; simpl; [lia|lia|]. exfalso.
    destruct (Hin v) as (p & Hp & ->); [by left|]. destruct (Hin w) as (q & Hq & ->); [right; by left|].
    apply NoDup_cons in Hd as [Hn _]. apply Hn. rewrite (H p q Hp Hq). by left.
Qed.

(* ------------------------------------------------------------------ *)
(** ** Theorems *)

(** Versions are ordered by their dotted components as numbers, a missing component counting as zero: comparing says which is smaller at the first component that differs, whatever their lengths, and says equal exactly when none does. *)
Theorem compare_numeric a b :
  (compare a b = -1 <-> exists i, (forall j, (j < i)%nat -> key a j = key b j) /\ key a i < key b i) /\
  (compare a b = 1 <-> exists i, (forall j, (j < i)%nat -> key a j = key b j) /\ key b i < key a i) /\
  (compare a b = 0 <-> forall i, key a i = key b i).
Proof.
  pose proof (compare_lt a b) as Hl. pose proof (compare_gt a b) as Hg. pose proof (compare_eq a b) as He.
  assert (Hr : compare a b = -1 \/ compare a b = 0 \/ compare a b = 1) by (destruct (compare_cases a b) as [[-> _]|[[-> _]|[-> _]]]; auto).
  split; [transitivity (compare a b < 0); [lia|exact Hl]|]. split; [|done].
  transitivity (0 < compare a b); [lia|]. rewrite Hg. split; intros [i [H1 H2]]; exists i; (split; [|done]); intros j Hj; symmetry; by apply H1.
Qed.

(** The toolchain check passes exactly when there are pins, all of them name one version, that version is at least the floor, and go.mod's language version does not exceed it. *)
Theorem Verify_exact pins floor :
  Verify pins floor = [] <->
  exists x, pins <> [] /\ (forall p, p ∈ pins -> pin_Version p = x) /\ compare MinimumVersion x <= 0 /\ compare (pin_Version floor) x <= 0.
Proof.
  destruct pins as [|first rest]; [split; [done|naive_solver]|]. unfold Verify.
  assert (Hlow : forall x, (forall p, p ∈ first :: rest -> pin_Version p = x) -> lowest (pin_Version first) rest = x).
  { intros x Hx. destruct (lowest_spec rest (pin_Version first)) as [H _]. change (pin_Version first :: map pin_Version rest) with (map pin_Version (first :: rest)) in H.
    apply list_elem_of_fmap in H as (p & -> & Hp). by apply Hx. }
  rewrite !app_nil. rewrite (compare_opp MinimumVersion). split.
  - intros (H1 & H2 & H3). destruct (1 <? length (versions_of (first :: rest)))%nat eqn:E1; [done|].
    assert (Hall : forall p, p ∈ first :: rest -> pin_Version p = pin_Version first) by (intros p Hp; apply (proj1 (versions_of_one _) E1); [done|by left]).
    rewrite (Hlow _ Hall) in *. exists (pin_Version first). split; [done|]. split; [done|].
    destruct (Z.ltb_spec (- compare MinimumVersion (pin_Version first)) 0), (Z.ltb_spec 0 (compare (pin_Version floor) (pin_Version first))); done || lia.
  - intros (x & _ & Hall & H2 & H3). rewrite (Hlow x Hall).
    assert (E1 : (1 <? length (versions_of (first :: rest)))%nat = false) by (apply versions_of_one; intros p q Hp Hq; by rewrite (Hall p Hp), (Hall q Hq)).
    rewrite E1. destruct (Z.ltb_spec (- compare MinimumVersion x) 0), (Z.ltb_spec 0 (compare (pin_Version floor) x)); done || lia.
Qed.

(** A pin is stated at its line: the expression matches there with its version. *)
Definition stated (t : Tree) (r : re) (kind : string) (p : Pin) : Prop :=
  exists data line m, t !! pin_File p = Some (Some data) /\ 1 <= pin_Line p /\
    Split data (byte_of 10) !! Z.to_nat (pin_Line p - 1) = Some line /\
    FindStringSubmatch r line = Some m /\ pin_Version p = m 1%nat /\ pin_Kind p = kind.

Lemma scanBytes_spec data rel kind r p : p ∈ scanBytes data rel kind r <->
  pin_File p = rel /\ pin_Kind p = kind /\ 1 <= pin_Line p /\
  exists line m, Split data (byte_of 10) !! Z.to_nat (pin_Line p - 1) = Some line /\ FindStringSubmatch r line = Some m /\ pin_Version p = m 1%nat.
Proof.
  unfold scanBytes. rewrite list_elem_of_omap. split.
  - intros ([n line] & [H1 H2]%elem_of_numbered & E). cbn [fst snd] in E. destruct (FindStringSubmatch r line) as [m|] eqn:Em; [|done].
    injection E as <-. cbn [pin_File pin_Kind pin_Line pin_Version]. do 3 (split; [done|]). by exists line, m.
  - destruct p as [f n v k]. cbn [pin_File pin_Kind pin_Line pin_Version]. intros (-> & -> & H1 & line & m & H2 & Em & ->).
    exists (n, line). split; [by apply elem_of_numbered|]. cbn [fst snd]. by rewrite Em.
Qed.

Lemma pins_file_spec t rel kind r :
  match scanFile t rel kind r with
  | Ok pins => forall p, p ∈ pins <-> pin_File p = rel /\ stated t r kind p
  | Err e => e = PRead rel /\ forall data, t !! rel <> Some (Some data)
  end.
Proof.
  unfold scanFile, stated. destruct (t !! rel) as [[data|]|] eqn:E; [|split; [done|congruence]..].
  intros p. rewrite scanBytes_spec. split.
  - intros (H1 & H2 & H3 & line & m & H4 & H5 & H6). split; [done|]. exists data, line, m. by rewrite H1.
  - intros (H1 & data' & line & m & Ed & H3 & H4 & H5 & H6 & H7). rewrite H1, E in Ed. injection Ed as <-. eauto 10.
Qed.

Lemma scan_workflows_spec t files :
  match scan_workflows t files with
  | Ok pins => forall p, p ∈ pins <-> pin_File p ∈ files /\ stated t reWorkflowGo workflow_kind p
  | Err e => exists rel, rel ∈ files /\ e = PRead rel /\ forall data, t !! rel <> Some (Some data)
  end.
Proof.
  induction files as [|rel files IH]; cbn [scan_workflows]; [intros p; rewrite !elem_of_nil; tauto|].
  pose proof (pins_file_spec t rel workflow_kind reWorkflowGo) as H. destruct (scanFile t rel workflow_kind reWorkflowGo) as [found|e].
  - destruct (scan_workflows t files) as [more|e].
    + intros p. rewrite elem_of_app, H, IH, elem_of_cons. tauto.
    + destruct IH as (r & Hr & He). exists r. split; [by right|done].
  - exists rel. split; [by left|done].
Qed.

Lemma nonempty_elem {A} (l : list A) : l <> [] <-> exists x, x ∈ l.
Proof. destruct l as [|x l]; split; [done|by intros [? ?%elem_of_nil]|exists x; by left|done]. Qed.

(** A toolchain pin of a tree: the Dockerfile's builder, a workflow's input, or
    go.mod's directive. *)
Definition toolchain_pin (t : Tree) (p : Pin) : Prop :=
  (pin_File p = "Dockerfile" /\ stated t reDockerfileGo builder_kind p) \/
  (pin_File p ∈ workflow_files t /\ stated t reWorkflowGo workflow_kind p) \/
  (pin_File p = "go.mod" /\ stated t reToolchainDirective directive_kind p).

(** Collecting finds exactly the pins the tree states - every line of the Dockerfile, of a workflow and of go.mod that matches, at its line - and never an agreement it did not look for: it fails when a file cannot be read, and when the Dockerfile or the workflows state none. *)
Theorem CollectPins_exact t :
  match CollectPins t with
  | Ok pins => (forall p, p ∈ pins <-> toolchain_pin t p) /\
      (exists p, p ∈ pins /\ pin_Kind p = builder_kind) /\ (exists p, p ∈ pins /\ pin_Kind p = workflow_kind)
  | Err (PRead rel) => (rel = "Dockerfile" \/ rel ∈ workflow_files t \/ rel = "go.mod") /\ forall data, t !! rel <> Some (Some data)
  | Err PNoDockerfilePin => forall p, pin_File p = "Dockerfile" -> ~ stated t reDockerfileGo builder_kind p
  | Err PNoWorkflowPin => forall p, pin_File p ∈ workflow_files t -> ~ stated t reWorkflowGo workflow_kind p
  | Err (PDirectives _) => False
  end.
Proof.
  unfold CollectPins. pose proof (pins_file_spec t "Dockerfile" builder_kind reDockerfileGo) as H1.
  destruct (scanFile t "Dockerfile" builder_kind reDockerfileGo) as [found|e]; [|destruct H1 as [-> H1]; auto].
  destruct (decide (found = [])) as [->|Hf]; [intros p Hp Hs; by apply (elem_of_nil p), H1|]. destruct found as [|f0 found]; [done|].
  set (l1 := f0 :: found) in *. pose proof (scan_workflows_spec t (workflow_files t)) as H2.
  destruct (scan_workflows t (workflow_files t)) as [wf|e]; [|destruct H2 as (rel & Hr & -> & H2); auto].
  destruct (decide (wf = [])) as [->|Hw]; [intros p Hp Hs; by apply (elem_of_nil p), H2|]. destruct wf as [|w0 wf]; [done|]. set (l2 := w0 :: wf) in *.
  pose proof (pins_file_spec t "go.mod" directive_kind reToolchainDirective) as H3.
  destruct (scanFile t "go.mod" directive_kind reToolchainDirective) as [tc|e]; [|destruct H3 as [-> H3]; auto].
  split; [intros p; rewrite !elem_of_app, H1, H2, H3; done|]. apply nonempty_elem in Hf as [p Hp], Hw as [q Hq]. split.
  - exists p. split; [apply elem_of_app; by left|]. apply H1 in Hp as (_ & data & line & m & Hs). apply Hs.
  - exists q. split; [apply elem_of_app; right; apply elem_of_app; by left|]. apply H2 in Hq as (_ & data & line & m & Hs). apply Hs.
Qed.

(** A tree whose three statements agree, and one whose workflow moved alone. *)
Definition pinned_tree_of (docker workflow : string) : Tree :=
  <["Dockerfile" := Some ("FROM golang:" ++ docker ++ "-bookworm AS build")]>
  (<[".github/workflows/ci.yml" := Some ("  GO_VERSION: " ++ dq' ++ workflow ++ dq')]>
  (<["go.mod" := Some ("go 1.25.0" ++ of_list [byte_of 10] ++ "toolchain go1.25.14")]> ∅)).
Definition verdict (t : Tree) : option nat :=
  match CollectPins t, LanguageFloor t with Ok pins, Ok floor => Some (length (Verify pins floor)) | _, _ => None end.
Example agreeing_pins : verdict (pinned_tree_of "1.25.14" "1.25.14") = Some 0%nat.
Proof. vm_compute. reflexivity. Qed.
Example moved_pin : verdict (pinned_tree_of "1.25.14" "1.25.9") = Some 2%nat.
Proof. vm_compute. reflexivity. Qed.
