(* ===== verification/ProseCount.v ===== *)
(** Comment density ([internal/prosegate]: count.go, prosegate.go): how many lines of
    a Go file are prose and how many are code, the thresholds, the refusals and the
    errors that carry them.  go/parser, go/scanner and go/ast are the class [GoSyntax]:
    for a source, its comment groups with the lines they occupy, where the package
    clause is, whether the file is marked as generated, and its tokens. *)

From Stdlib Require Import ZArith Lia Bool String Ascii List Sorted SpecFloat.
From stdpp Require Import base option list strings gmap sorting.
From S2P Require Import Prelude GoTime GoStrings Regex Repo.
Local Open Scope string_scope.
Local Open Scope Z_scope.

(* ------------------------------------------------------------------ *)
(** ** Refusals *)

Definition ProseRecordFile : string := "COMMENT-DENSITY-RECORD.md".

Record Thresholds := mkThresholds { CeilingPercent : Z; BandPercent : Z; MinimumLines : Z }.
Definition Enforced : Thresholds := mkThresholds 45 35 30.

Inductive category := OverCeiling | Unparseable | Unreadable | EmptySweep | RecordDrift.
#[export] Instance category_eq_dec : EqDecision category.
Proof. solve_decision. Defined.
Definition category_String (c : category) : string :=
  match c with
  | OverCeiling => "over-ceiling" | Unparseable => "unparseable" | Unreadable => "unreadable"
  | EmptySweep => "empty-sweep" | RecordDrift => "record-drift"
  end.
Definition Categories : list category := [OverCeiling; Unparseable; Unreadable; EmptySweep; RecordDrift].

Record Refusal := mkRefusal { r_Category : category; r_File : string; r_Why : string }.
Definition Refusal_Error (r : Refusal) : string :=
  if String.eqb (r_File r) "" then "[" ++ category_String (r_Category r) ++ "] " ++ r_Why r
  else "[" ++ category_String (r_Category r) ++ "] " ++ r_File r ++ ": " ++ r_Why r.

(** An error: a refusal, several joined, one wrapped, or another library's. *)
Inductive gerror := GRefusal (r : Refusal) | GJoin (es : list gerror) | GWrap (e : gerror) | GOther (text : string).
(** [errors.Join]: nothing when there is nothing to join. *)
Definition Join_errors (es : list gerror) : option gerror := match es with [] => None | _ => Some (GJoin es) end.

Fixpoint refusals_in (e : gerror) : list Refusal :=
  match e with
  | GRefusal r => [r]
  | GJoin es => (fix all (es : list gerror) : list Refusal := match es with [] => [] | e :: es => refusals_in e ++ all es end%list) es
  | GWrap e => refusals_in e
  | GOther _ => []
  end.
Definition RefusalsIn (e : option gerror) : list Refusal := match e with Some e => refusals_in e | None => [] end.
Definition CategoriesIn (e : option gerror) : list string :=
  stable_sort str_ltb (remove_dups (map (fun r => category_String (r_Category r)) (RefusalsIn e))).

(* ------------------------------------------------------------------ *)
(** ** Counts *)

Record Count := mkCount { Prose : Z; Code : Z }.
Definition Counted (c : Count) : Z := Prose c + Code c.
Definition Above (c : Count) (pct : Z) : bool := pct * Counted c <? Prose c * 100.
Definition MajorityProse (c : Count) : bool := Code c <=? Prose c.

(** A non-negative float in tenths, half to even, as %.1f prints it. *)
Definition tenths (f : spec_float) : Z :=
  match f with
  | S754_finite false m e =>
      if 0 <=? e then 10 * (Zpos m * 2 ^ e)
      else
        let d := 2 ^ (- e) in
        let q := 10 * Zpos m / d in
        let r := 2 * (10 * Zpos m mod d) in
        if (d <? r) || ((r =? d) && Z.odd q) then q + 1 else q
  | _ => 0
  end.
Definition percent (c : Count) : string :=
  if Counted c =? 0 then "0.0%"
  else
    let t := tenths (SFdiv 53 1024 (SFmul 53 1024 (f64 100) (f64 (Prose c))) (f64 (Counted c))) in
    TrimSpace (Itoa (t / 10) ++ "." ++ Itoa (t mod 10) ++ "%").

(* ------------------------------------------------------------------ *)
(** ** Syntax *)

(** A comment with the lines it occupies in the file, whatever a line directive says. *)
Record comment := mkComment { c_Text : string; c_from : Z; c_to : Z }.
(** A comment group: its comments, its lines, its text without markers, and whether
    it begins after the package clause. *)
Record group := mkGroup { g_List : list comment; g_from : Z; g_to : Z; g_Text : string; g_after_package : bool }.
Record gosyntax := mkSyntax { gs_generated : bool; gs_Comments : list group }.
Inductive token_kind := TComment | TAutoSemicolon | TToken.

Class GoSyntax := {
  parse_go : string -> result string gosyntax;
  scan_go : string -> list (token_kind * Z) }.

Definition reGeneratedMarker : re := Eval vm_compute in MustCompile "^// Code generated .* DO NOT EDIT\.$".
Definition licenceWords : list string := ["copyright"; "spdx-license-identifier"; "licensed under"; "all rights reserved"].

(** [constraint.IsGoBuild] and [constraint.IsPlusBuild]: one line that begins with the
    marker, which a space or the end follows. *)
Definition build_line (marker line : string) : bool :=
  let rest := of_list (skipn (String.length marker) (to_list line)) in
  HasPrefix line marker && ((String.length (TrimSpace rest) <? String.length rest)%nat || String.eqb rest "").
Definition one_line (text : string) : option string :=
  let line := TrimSuffix text (of_list [byte_of 10]) in
  if Contains line (of_list [byte_of 10]) then None else Some line.
Definition IsGoBuild (text : string) : bool :=
  match one_line text with Some line => HasPrefix line "//go:build" && build_line "//go:build" (TrimSpace line) | None => false end.
Definition IsPlusBuild (text : string) : bool :=
  match one_line text with
  | Some line => HasPrefix line "//" && build_line "+build" (TrimSpace (TrimPrefix line "//"))
  | None => false
  end.

Definition directive_byte (b : ascii) : bool := is_lower b || is_digit b.
Definition isToolDirective (body : string) : bool :=
  if HasPrefix body "line " || HasPrefix body "extern " || HasPrefix body "export " then true
  else match Index body ":" with
  | None | Some O => false
  | Some colon =>
      if (String.length body <=? colon + 1)%nat then false
      else forallb directive_byte (firstn colon (to_list body)) &&
           match nth_error (to_list body) (colon + 1) with Some b => directive_byte b | None => true end
  end.

Definition tab : string := of_list [byte_of 9].
Definition isDirectiveComment (text : string) : bool :=
  if IsGoBuild text || IsPlusBuild text || MatchString reGeneratedMarker text then true
  else if HasPrefix text "/*line " || HasPrefix text (String.append "/*line" tab) then true
  else if negb (HasPrefix text "//") then false
  else
    let body := TrimPrefix text "//" in
    if String.eqb body "nolint" || HasPrefix body "nolint " then true else isToolDirective body.

Section Counting.
Context `{U : Unicode} `{GS : GoSyntax}.

(** [tokenLines]: the lines with a token that is neither a comment nor inserted. *)
Definition tokenLines (src : string) : list Z :=
  map snd (List.filter (fun t : token_kind * Z => match fst t with TToken => true | _ => false end) (scan_go src)).

Definition within (n from to : Z) : bool := (from <=? n) && (n <=? to).
(** The lines of the comments that are not directives. *)
Definition prose_line (file : gosyntax) (n : Z) : bool :=
  existsb (fun g => existsb (fun c => negb (isDirectiveComment (c_Text c)) && within n (c_from c) (c_to c)) (g_List g)) (gs_Comments file).
(** [licenceLines]. *)
Definition licence_line (file : gosyntax) (n : Z) : bool :=
  match gs_Comments file with
  | [] => false
  | first :: _ =>
      negb (g_after_package first) && existsb (fun w => Contains (ToLower (g_Text first)) w) licenceWords && within n (g_from first) (g_to first)
  end.

Inductive line_kind := LSkipped | LProse | LCode.
Definition line_kind_of (file : gosyntax) (code : list Z) (l : Z * string) : line_kind :=
  let '(n, line) := l in
  if licence_line file n || String.eqb (TrimSpace line) "" then LSkipped
  else if prose_line file n && negb (existsb (Z.eqb n) code) then LProse
  else LCode.
Definition count_line (file : gosyntax) (code : list Z) (c : Count) (l : Z * string) : Count :=
  match line_kind_of file code l with
  | LSkipped => c
  | LProse => mkCount (Prose c + 1) (Code c)
  | LCode => mkCount (Prose c) (Code c + 1)
  end.

(** [CountSource]: [None] for a generated file. *)
Definition CountSource (src : string) : result string (option Count) :=
  match parse_go src with
  | Err e => Err e
  | Ok file =>
      if gs_generated file then Ok None
      else Ok (Some (fold_left (count_line file (tokenLines src)) (numbered 1 (Split src (byte_of 10))) (mkCount 0 0)))
  end.
End Counting.
