(* ===== verification/ProseGate.v ===== *)
(** The prose gate ([internal/prosegate]: sweep.go, record.go, demonstrations.go;
    [cmd/prosecheck]): the sweep of a tree, the thresholds' record, the committed
    demonstrations and the command.  What git lists is a parameter of a sweep; a
    scratch copy fails only on a file it cannot read, and reading through a link it
    makes answers what the parameter [link] says.  The system's text of a failed read
    is left out of the refusals. *)

From Stdlib Require Import ZArith Lia Bool String Ascii List Sorted.
From stdpp Require Import base option list strings gmap sorting.
From S2P Require Import Prelude GoStrings Regex Repo PinImages Pingate ProseCount.
Local Open Scope string_scope.
Local Open Scope Z_scope.

(* ------------------------------------------------------------------ *)
(** ** The sweep *)

Definition prose_skipDirs : list string := [".git"; "testdata"; "vendor"].
Record FileReport := mkFileReport { fp_Path : string; fp_Count : Count; fp_Eligible : bool }.
Record prose_report := mkProseReport { pr_Thresholds : Thresholds; pr_Files : list FileReport; pr_Generated : list string; pr_Listing : string }.

(** Where a sweep looks: the tree, whether it has a git directory, and what listing
    the tracked files prints or why it fails. *)
Record Root := mkRoot { rt_name : string; rt_tree : Tree; rt_git : bool; rt_ls_files : result string string }.

Definition in_list (l : list string) (s : string) : bool := existsb (String.eqb s) l.
Definition skipped (rel : string) : bool := existsb (in_list prose_skipDirs) (Split (Dir rel) "/"%char).
Definition nul : ascii := byte_of 0.
Definition walkGoFiles (t : Tree) : list string :=
  walkFiles (fun name => in_list prose_skipDirs name || HasPrefix name "." || HasPrefix name "_") (fun _ => false) t (fun rel => HasSuffix (Base rel) ".go").
Section Sweep.
Context `{U : Unicode} `{GS : GoSyntax} `{Q : GoQuote}.

Definition gitTrackedGoFiles (rt : Root) : result gerror (list string) :=
  match rt_ls_files rt with
  | Err e => Err (GRefusal (mkRefusal EmptySweep "" ("listing the tracked Go files of " ++ Quote (rt_name rt) ++ " failed, so nothing was measured: " ++ e)))
  | Ok out => Ok (stable_sort str_ltb (List.filter (fun rel => negb (String.eqb rel "" || skipped rel)) (Split out nul)))
  end.
Definition listGoFiles (rt : Root) : result gerror (list string * string) :=
  if rt_git rt then match gitTrackedGoFiles rt with Err e => Err e | Ok paths => Ok (paths, "git-tracked") end
  else Ok (walkGoFiles (rt_tree rt), "walked").


(** What a sweep knows after some files. *)
Record sweep := mkSweep { sw_problems : list gerror; sw_files : list FileReport; sw_generated : list string }.
Definition measure_file (th : Thresholds) (t : Tree) (s : sweep) (rel : string) : sweep :=
  match t !! rel with
  | None | Some None =>
      mkSweep (sw_problems s ++ [GRefusal (mkRefusal Unreadable rel "cannot be read, so it cannot be counted and will not be dropped from the denominator instead")])
        (sw_files s) (sw_generated s)
  | Some (Some src) =>
      match CountSource src with
      | Err e => mkSweep (sw_problems s ++ [GRefusal (mkRefusal Unparseable rel ("cannot be parsed, so it is neither clean nor skipped: " ++ e))]) (sw_files s) (sw_generated s)
      | Ok None => mkSweep (sw_problems s) (sw_files s) (sw_generated s ++ [rel])
      | Ok (Some count) => mkSweep (sw_problems s) (sw_files s ++ [mkFileReport rel count (MinimumLines th <=? Counted count)]) (sw_generated s)
      end
  end%list.

Definition Measure (rt : Root) (th : Thresholds) : result gerror prose_report :=
  match listGoFiles rt with
  | Err e => Err e
  | Ok (paths, listing) =>
      let s := fold_left (measure_file th (rt_tree rt)) paths (mkSweep [] [] []) in
      match sw_problems s, sw_files s with
      | (_ :: _) as problems, _ => Err (GJoin problems)
      | [], [] => Err (GRefusal (mkRefusal EmptySweep "" ("measured nothing: " ++ listing ++ " under " ++ Quote (rt_name rt) ++ " holds no Go file to count, which is not a clean tree, it is a sweep that found nothing")))
      | [], files => Ok (mkProseReport th (stable_sort (fun a b => str_ltb (fp_Path a) (fp_Path b)) files) (stable_sort str_ltb (sw_generated s)) listing)
      end
  end.

Definition Eligible (r : prose_report) : list FileReport := List.filter fp_Eligible (pr_Files r).
(** The higher ratio first, then by path. *)
Definition ranks_before (a b : FileReport) : bool :=
  let x := Prose (fp_Count a) * Counted (fp_Count b) in
  let y := Prose (fp_Count b) * Counted (fp_Count a) in
  if negb (x =? y) then y <? x else str_ltb (fp_Path a) (fp_Path b).
Definition rank (r : prose_report) (want : FileReport -> bool) : list FileReport := stable_sort ranks_before (List.filter want (Eligible r)).
Definition Over (r : prose_report) : list FileReport := rank r (fun f => Above (fp_Count f) (CeilingPercent (pr_Thresholds r))).
Definition Near (r : prose_report) : list FileReport :=
  rank r (fun f => Above (fp_Count f) (BandPercent (pr_Thresholds r)) && negb (Above (fp_Count f) (CeilingPercent (pr_Thresholds r)))).
Definition Report_MajorityProse (r : prose_report) : list FileReport := rank r (fun f => MajorityProse (fp_Count f)).
Definition Overall (r : prose_report) : Count :=
  fold_left (fun t f => mkCount (Prose t + Prose (fp_Count f)) (Code t + Code (fp_Count f))) (pr_Files r) (mkCount 0 0).
Definition Worst (r : prose_report) : option FileReport := List.hd_error (rank r (fun _ => true)).

(** [DeriveCeiling]: the candidates 0, 5, ..., 50 in turn. *)
Definition candidates : list Z := [0; 5; 10; 15; 20; 25; 30; 35; 40; 45; 50].
Definition DeriveCeiling (r : prose_report) : option Z :=
  List.find (fun candidate => forallb (fun f => negb (Above (fp_Count f) candidate)) (Eligible r)) candidates.
Definition Band (ceiling : Z) : Z := if ceiling <? 10 then 0 else ceiling - 10.

Definition over_refusal (th : Thresholds) (f : FileReport) : gerror :=
  GRefusal (mkRefusal OverCeiling (fp_Path f)
    (percent (fp_Count f) ++ " of its counted lines are prose (" ++ Itoa (Prose (fp_Count f)) ++ " prose, " ++ Itoa (Code (fp_Count f)) ++
     " code), over the " ++ Itoa (CeilingPercent th) ++ "% ceiling. Say why once and delete the restatements")).

(** [CheckRepo]: the report, when there is one, and the error. *)
Definition prose_CheckRepo (rt : Root) (th : Thresholds) : option prose_report * option gerror :=
  match Measure rt th with
  | Err e => (None, Some e)
  | Ok report => (Some report, Join_errors (map (over_refusal th) (Over report)))
  end.

(* ------------------------------------------------------------------ *)
(** ** The record *)

Definition recordLine : re := Eval vm_compute in MustCompile "(?m)^- (error ceiling|warning band|minimum counted lines): ([0-9]+)%?$".
Definition drift (why : string) : gerror := GRefusal (mkRefusal RecordDrift ProseRecordFile why).
Definition record_lines (body : string) : list (string * string) :=
  map (fun m : nat -> string => (m 1%nat, m 2%nat)) (FindAllStringSubmatch recordLine body).
(** The numbers stated, by name; the first that does not parse is an error. *)
Fixpoint parse_lines (ls : list (string * string)) : result gerror (list (string * Z)) :=
  match ls with
  | [] => Ok []
  | (key, text) :: ls =>
      match Atoi text with
      | Err _ => Err (drift ("states " ++ Quote text ++ " for " ++ Quote key ++ ", which is not a whole number"))
      | Ok n => match parse_lines ls with Err e => Err e | Ok seen => Ok ((key, n) :: seen) end
      end
  end.
Definition stated_values (seen : list (string * Z)) (key : string) : list Z := map snd (List.filter (fun p => String.eqb (fst p) key) seen).
Definition record_value (seen : list (string * Z)) (key : string) : Z * list gerror :=
  match stated_values seen key with
  | [n] => (n, [])
  | [] => (0, [drift ("states no " ++ Quote key ++ " line, so the number " ++ ProseRecordFile ++ " enforces is written down nowhere")])
  | l => (0, [drift ("states " ++ Quote key ++ " " ++ Itoa (Z.of_nat (length l)) ++ " times; one record cannot hold the gate to two numbers")])
  end.
Definition ReadRecordThresholds (t : Tree) : Thresholds * option gerror :=
  match t !! ProseRecordFile with
  | None | Some None => (mkThresholds 0 0 0, Some (drift "cannot be read, so the thresholds the gate enforces answer to nothing"))
  | Some (Some body) =>
      match parse_lines (record_lines body) with
      | Err e => (mkThresholds 0 0 0, Some e)
      | Ok seen =>
          let '(c, e1) := record_value seen "error ceiling" in
          let '(b, e2) := record_value seen "warning band" in
          let '(m, e3) := record_value seen "minimum counted lines" in
          (mkThresholds c b m, Join_errors (e1 ++ e2 ++ e3)%list)
      end
  end.

Definition compare_value (key : string) (want got : Z) : list gerror :=
  if want =? got then [] else [drift ("states " ++ key ++ " " ++ Itoa got ++ ", and the gate enforces " ++ Itoa want)].
Definition CheckRecord (t : Tree) (enforced : Thresholds) : option gerror :=
  match ReadRecordThresholds t with
  | (_, Some e) => Some e
  | (recorded, None) =>
      Join_errors
        (compare_value "error ceiling" (CeilingPercent enforced) (CeilingPercent recorded) ++
         compare_value "warning band" (BandPercent enforced) (BandPercent recorded) ++
         compare_value "minimum counted lines" (MinimumLines enforced) (MinimumLines recorded) ++
         (if negb (Band (CeilingPercent enforced) =? BandPercent enforced)
          then [drift ("the band is ten points below the ceiling by derivation, so a " ++ Itoa (CeilingPercent enforced) ++ "% ceiling makes it " ++
                      Itoa (Band (CeilingPercent enforced)) ++ "%, not " ++ Itoa (BandPercent enforced) ++ "%")%string] else []) ++
         (if 50 <? CeilingPercent enforced then [drift ("the ceiling is never above fifty percent, and " ++ Itoa (CeilingPercent enforced) ++ "% is")%string] else []) ++
         (if negb (Z.rem (CeilingPercent enforced) 5 =? 0)
          then [drift ("the ceiling is a whole multiple of five percentage points, and " ++ Itoa (CeilingPercent enforced) ++ "% is not")%string] else []))%list
  end.

Definition nl : string := of_list [byte_of 10].
Definition RecordSection (ceiling minimum : Z) : string :=
  "- error ceiling: " ++ Itoa ceiling ++ "%" ++ nl ++ "- warning band: " ++ Itoa (Band ceiling) ++ "%" ++ nl ++
  "- minimum counted lines: " ++ Itoa minimum ++ nl.

(* ------------------------------------------------------------------ *)
(** ** What is printed *)

Definition lines (l : list string) : string := String.concat "" (map (fun x => x ++ nl) l).
Definition file_line (f : FileReport) : string :=
  "  " ++ fp_Path f ++ " " ++ percent (fp_Count f) ++ " (" ++ Itoa (Prose (fp_Count f)) ++ " prose, " ++ Itoa (Code (fp_Count f)) ++ " code)".
Definition count_of_list {A} (l : list A) : string := Itoa (Z.of_nat (length l)).

Definition WriteSummary (r : prose_report) : string :=
  let overall := Overall r in
  let th := pr_Thresholds r in
  lines
    ([("thresholds: error ceiling " ++ Itoa (CeilingPercent th) ++ "%, warning band " ++ Itoa (BandPercent th) ++ "%, minimum counted lines " ++
       Itoa (MinimumLines th) ++ " (" ++ ProseRecordFile ++ ")")%string;
      (pr_Listing r ++ ": " ++ count_of_list (pr_Files r) ++ " file(s) measured, " ++ count_of_list (Eligible r) ++ " eligible, " ++
       count_of_list (pr_Generated r) ++ " generated and excluded")%string;
      ("repository-wide: " ++ percent overall ++ " prose (" ++ Itoa (Prose overall) ++ " prose, " ++ Itoa (Code overall) ++ " code)")%string] ++
     match Worst r with
     | Some f => [("highest eligible file: " ++ fp_Path f ++ " at " ++ percent (fp_Count f) ++ " (" ++ Itoa (Prose (fp_Count f)) ++ " prose, " ++
                   Itoa (Code (fp_Count f)) ++ " code)")%string]
     | None => []
     end ++
     match Near r with
     | [] => [("no file is above the " ++ Itoa (BandPercent th) ++ "% warning band")%string]
     | near => (count_of_list near ++ " file(s) above the " ++ Itoa (BandPercent th) ++ "% warning band:")%string :: map file_line near
     end)%list.

Definition table_row (th : Thresholds) (f : FileReport) : string :=
  let c := fp_Count f in
  "| " ++ fp_Path f ++ " | " ++ Itoa (Prose c) ++ " | " ++ Itoa (Code c) ++ " | " ++ Itoa (Counted c) ++ " | " ++ percent c ++ " | " ++
  (if fp_Eligible f then "yes" else "no (under " ++ Itoa (MinimumLines th) ++ ")") ++ " |".
Definition WriteTable (r : prose_report) : string :=
  let overall := Overall r in
  lines
    (["| file | prose | code | counted | ratio | eligible |"; "|---|---:|---:|---:|---:|---|"] ++
     map (table_row (pr_Thresholds r)) (pr_Files r) ++
     [""; ("files measured: " ++ count_of_list (pr_Files r))%string; ("files eligible: " ++ count_of_list (Eligible r))%string;
      ("files generated and excluded: " ++ count_of_list (pr_Generated r))%string;
      ("repository-wide prose lines: " ++ Itoa (Prose overall))%string; ("repository-wide code lines: " ++ Itoa (Code overall))%string;
      ("repository-wide ratio: " ++ percent overall)%string] ++
     match Worst r with
     | Some f => [("highest eligible per-file ratio: " ++ percent (fp_Count f) ++ " (" ++ fp_Path f ++ ", " ++ Itoa (Prose (fp_Count f)) ++ " prose, " ++
                   Itoa (Code (fp_Count f)) ++ " code)")%string]
     | None => []
     end)%list ++
  match DeriveCeiling r with
  | Some ceiling =>
      "smallest whole multiple of five percentage points no eligible file exceeds: " ++ Itoa ceiling ++ "%" ++ nl ++ nl ++
      RecordSection ceiling (MinimumLines (pr_Thresholds r))
  | None => ""
  end ++
  match Report_MajorityProse r with
  | [] => ""
  | majority => lines (("eligible files whose prose lines reach their code lines: " ++ count_of_list majority)%string :: map file_line majority)
  end.

(* ------------------------------------------------------------------ *)
(** ** Demonstrations *)

Definition ProseDemonstrationsDir : string := "internal/prosegate/testdata/refusals".
Definition committedSuffix : string := ".committed".
Definition symlinkSuffix : string := ".symlink".
Record prose_demonstration := mkProseDemo { pd_Name : string; pd_Shape : string; pd_Category : category; pd_File : string; pd_WhyContains : string }.
Definition ProseDemonstrations : list prose_demonstration :=
  [mkProseDemo "over-ceiling" "an eligible file with more narration than code" OverCeiling "narrated.go" "of its counted lines are prose";
   mkProseDemo "unparseable" "a Go file inside the swept set that does not parse" Unparseable "broken.go" "neither clean nor skipped";
   mkProseDemo "unreadable" "a Go file the sweep expected to read and cannot" Unreadable "gone.go" "dropped from the denominator";
   mkProseDemo "empty-sweep" "a tree holding no Go file at all" EmptySweep "" "measured nothing"].

(** [CaseTree]: a copy under the names the sweep has to see.  [link target]: what
    reading through a link to the target answers. *)
Definition copy_case (link : string -> option string) (acc : result read_error Tree) (entry : string * option string) : result read_error Tree :=
  match acc, snd entry with
  | Err e, _ => Err e
  | Ok _, None => Err (ReadFailed (fst entry))
  | Ok copy, Some data =>
      if HasSuffix (fst entry) symlinkSuffix then Ok (<[TrimSuffix (fst entry) symlinkSuffix := link (TrimSpace data)]> copy)
      else Ok (<[TrimSuffix (fst entry) committedSuffix := Some data]> copy)
  end.
Definition prose_CaseTree (link : string -> option string) (t : Tree) (d : prose_demonstration) : result gerror Tree :=
  let dir := ProseDemonstrationsDir ++ "/" ++ pd_Name d in
  if negb (exists_path t dir) then Err (GOther ("materialising demonstration " ++ Quote (pd_Name d)))
  else
    let src := subtree dir t in
    match fold_left (copy_case link) (map (fun rel => (rel, default None (src !! rel))) (stable_sort str_ltb (map fst (map_to_list src)))) (Ok ∅) with
    | Err (ReadFailed rel) => Err (GOther ("materialising demonstration " ++ Quote (pd_Name d) ++ ": " ++ rel))
    | Ok copy => Ok copy
    end.

Definition refusal_matches (d : prose_demonstration) (r : Refusal) : bool :=
  bool_decide (r_Category r = pd_Category d) &&
  (String.eqb (pd_File d) "" || String.eqb (r_File r) (pd_File d)) &&
  (String.eqb (pd_WhyContains d) "" || Contains (r_Why r) (pd_WhyContains d)).
Definition matchingRefusal (refusals : list Refusal) (d : prose_demonstration) : option Refusal := List.find (refusal_matches d) refusals.
Definition describe (e : option gerror) : list string := map Refusal_Error (RefusalsIn e).

(** [scratch]: the root a case is copied to, with no git directory. *)
Definition scratch (name : string) (t : Tree) : Root := mkRoot name t false (Err "").
Definition prose_demonstrate (link : string -> option string) (t : Tree) (th : Thresholds) (d : prose_demonstration) : result gerror bool :=
  match prose_CaseTree link t d with
  | Err e => Err e
  | Ok copy => Ok (match matchingRefusal (RefusalsIn (snd (prose_CheckRepo (scratch (pd_Name d) copy) th))) d with Some _ => true | None => false end)
  end.

Definition missingCategories (demonstrated : list string) : list string :=
  omap (fun c => if bool_decide (c = RecordDrift) || existsb (String.eqb (category_String c)) demonstrated then None else Some (category_String c)) Categories.

Record DemonstrationRun := mkRun { run_Red : Z; run_Fired : list string }.
(** The run, the cases that did not go red, and the categories left uncovered. *)
Definition prose_RunDemonstrations (link : string -> option string) (t : Tree) (th : Thresholds) : DemonstrationRun * (list string * list string) :=
  let red d := match prose_demonstrate link t th d with Ok b => b | Err _ => false end in
  let reds := List.filter red ProseDemonstrations in
  let fired := stable_sort str_ltb (remove_dups (map (fun d => category_String (pd_Category d)) reds)) in
  (mkRun (Z.of_nat (length reds)) fired, (map pd_Name (List.filter (fun d => negb (red d)) ProseDemonstrations), missingCategories fired)).

(** [verifyDemonstrationTree]; [None] when the directory cannot be read. *)
Definition prose_verifyDemonstrationTree (t : Tree) : option (list tree_problem) :=
  if negb (exists_path t ProseDemonstrationsDir) then None
  else
    let entries := children ProseDemonstrationsDir t in
    let want name := existsb (fun d => String.eqb (pd_Name d) name) ProseDemonstrations in
    let stray := List.filter (fun e : string * bool => if snd e then negb (want (fst e)) else negb (String.eqb (fst e) "README.md")) entries in
    let found name := existsb (fun e : string * bool => snd e && String.eqb (fst e) name) entries in
    Some ((match stray with [] => [] | _ => [TStray (stable_sort str_ltb (remove_dups (map fst stray)))] end) ++
          flat_map (fun d =>
            (if String.eqb (pd_WhyContains d) "" then [TNoReason (pd_Name d)] else []) ++
            (if negb (found (pd_Name d)) then [TNotCommitted (pd_Name d)] else [])) ProseDemonstrations)%list.

(* ------------------------------------------------------------------ *)
(** ** The command *)

Inductive prose_outcome := PFailed (e : gerror) | PTable (text : string) | PPassed (text : string).
Definition prose_status (o : prose_outcome) : Z := match o with PFailed _ => 1 | PTable _ | PPassed _ => 0 end.

(** [main] after its flags: the root to measure, and whether to print the table. *)
Definition prosecheck (rt : Root) (table : bool) : prose_outcome :=
  if table then match Measure rt Enforced with Err e => PFailed e | Ok report => PTable (WriteTable report) end
  else
    match prose_CheckRepo rt Enforced with
    | (_, Some e) => PFailed e
    | (None, None) => PPassed ""
    | (Some report, None) =>
        match CheckRecord (rt_tree rt) Enforced with
        | Some e => PFailed e
        | None => PPassed ("prose gate OK: no file is over the " ++ Itoa (CeilingPercent Enforced) ++ "% ceiling " ++ ProseRecordFile ++ " records" ++ nl ++ nl ++ WriteSummary report)
        end
    end.
End Sweep.
