(* ===== verification/ProseSpec.v ===== *)
(** What the prose gate promises: the count of a file is the count of its lines by what
    is on them ([CountSource_exact]); the derived ceiling is the least that holds
    ([DeriveCeiling_least]); the record holds the gate to the numbers it enforces
    ([CheckRecord_exact]); and the gate passes exactly on a tree whose files all read
    and parse, whose eligible files are at or below the ceiling, and whose record
    agrees ([prosecheck_exact]). *)

From Stdlib Require Import ZArith Lia Bool String Ascii List Sorted.
From stdpp Require Import base option list strings gmap sorting.
From S2P Require Import Prelude GoStrings Regex Repo PinImages Pingate ProseCount ProseGate.
Local Open Scope string_scope.
Local Open Scope Z_scope.

(* ------------------------------------------------------------------ *)
(** ** Counting *)

Section Counting.
Context `{U : Unicode} `{GS : GoSyntax}.

(** What is on a line. *)
Definition in_notice (file : gosyntax) (n : Z) : Prop :=
  exists first rest, gs_Comments file = first :: rest /\ g_after_package first = false /\ g_from first <= n <= g_to first /\
    exists w, w ∈ licenceWords /\ Contains (ToLower (g_Text first)) w = true.
Definition commented (file : gosyntax) (n : Z) : Prop :=
  exists g c, g ∈ gs_Comments file /\ c ∈ g_List g /\ isDirectiveComment (c_Text c) = false /\ c_from c <= n <= c_to c.
Definition has_token (src : string) (n : Z) : Prop := (TToken, n) ∈ scan_go src.
Definition counts (file : gosyntax) (l : Z * string) : Prop := ~ in_notice file (fst l) /\ TrimSpace (snd l) <> "".
Definition is_prose (src : string) (file : gosyntax) (l : Z * string) : Prop :=
  counts file l /\ commented file (fst l) /\ ~ has_token src (fst l).
Definition is_code (src : string) (file : gosyntax) (l : Z * string) : Prop :=
  counts file l /\ (~ commented file (fst l) \/ has_token src (fst l)).

Lemma within_spec n a b : within n a b = true <-> a <= n <= b.
Proof. unfold within. rewrite andb_true_iff. lia. Qed.

Lemma licence_line_spec file n : licence_line file n = true <-> in_notice file n.
Proof.
  unfold licence_line, in_notice. destruct (gs_Comments file) as [|first rest]; [split; [done|by intros (? & ? & [=] & _)]|].
  rewrite !andb_true_iff, negb_true_iff, existsb_elem, within_spec. split.
  - intros [[H1 H2] H3]. by exists first, rest.
  - intros (x & y & [= <- <-] & H1 & H2 & H3). done.
Qed.
Lemma prose_line_spec file n : prose_line file n = true <-> commented file n.
Proof.
  unfold prose_line, commented. rewrite existsb_elem. setoid_rewrite existsb_elem. setoid_rewrite andb_true_iff. setoid_rewrite within_spec.
  setoid_rewrite negb_true_iff. split; [intros (g & Hg & c & Hc & H1 & H2)|intros (g & c & Hg & Hc & H1 & H2)]; exists g; eauto 6.
Qed.
Lemma token_line_spec src n : existsb (Z.eqb n) (tokenLines src) = true <-> has_token src n.
Proof.
  unfold tokenLines, has_token. rewrite existsb_elem. setoid_rewrite Z.eqb_eq. setoid_rewrite list_elem_of_fmap. setoid_rewrite elem_of_filter_b. split.
  - by intros (x & ([[] y] & -> & Hin & Hk) & ->).
  - intros H. exists n. split; [|done]. by exists (TToken, n).
Qed.

Lemma line_kind_spec src file l : match line_kind_of file (tokenLines src) l with
  | LSkipped => ~ counts file l | LProse => is_prose src file l | LCode => is_code src file l end.
Proof.
  destruct l as [n line]. unfold line_kind_of, is_prose, is_code, counts. cbn [fst snd].
  pose proof (licence_line_spec file n) as Hl. pose proof (prose_line_spec file n) as Hp. pose proof (token_line_spec src n) as Ht.
  destruct (licence_line file n); [naive_solver|]. destruct (String.eqb_spec (TrimSpace line) "") as [E|E]; cbn [orb]; [naive_solver|].
  assert (Hn : ~ in_notice file n) by naive_solver.
  destruct (prose_line file n), (existsb (Z.eqb n) (tokenLines src)); cbn [andb negb]; (split; [done|]).
  - right. by apply Ht.
  - split; [by apply Hp|]. intros H. by apply Ht in H.
  - right. by apply Ht.
  - left. intros H. by apply Hp in H.
Qed.

(** As many lines satisfy [P]. *)
Inductive tally {A} (P : A -> Prop) : list A -> Z -> Prop :=
| tally_nil : tally P [] 0
| tally_yes x l n : P x -> tally P l n -> tally P (x :: l) (n + 1)
| tally_no x l n : ~ P x -> tally P l n -> tally P (x :: l) n.

Lemma count_lines_spec src file l : forall c, exists p k,
  fold_left (count_line file (tokenLines src)) l c = mkCount (Prose c + p) (Code c + k) /\
  tally (is_prose src file) l p /\ tally (is_code src file) l k /\ tally (counts file) l (p + k).
Proof.
  induction l as [|x l IH]; intros c; cbn [fold_left].
  - exists 0, 0. rewrite !Z.add_0_r. split; [by destruct c|]. repeat split; constructor.
  - destruct (IH (count_line file (tokenLines src) c x)) as (p & k & -> & Hp & Hk & Hc). unfold count_line.
    pose proof (line_kind_spec src file x) as H. destruct (line_kind_of file (tokenLines src) x); cbn [Prose Code].
    + exists p, k. split; [done|]. split; [apply tally_no; [by intros [? _]|done]|]. split; [apply tally_no; [by intros [? _]|done]|by apply tally_no].
    + exists (p + 1), k. split; [f_equal; lia|]. split; [by apply tally_yes|]. destruct H as (H1 & H2 & H3). split; [apply tally_no; [|done]; intros [_ [?|?]]; done|].
      replace (p + 1 + k) with (p + k + 1) by lia. by apply tally_yes.
    + exists p, (k + 1). split; [f_equal; lia|]. split; [apply tally_no; [|done]|split; [by apply tally_yes|]].
      * destruct H as [_ H]. intros (_ & H1 & H2). by destruct H.
      * replace (p + (k + 1)) with (p + k + 1) by lia. destruct H as [H _]. by apply tally_yes.
Qed.

(** A source that does not parse is an error and a generated file is left out; of any other, every line that is neither blank nor part of a leading licence notice is counted exactly once - as prose when a comment that is not a directive covers it and no token starts on it, as code otherwise - so a trailing comment never turns a line of code into prose and the interior of a raw string never counts as prose by itself. *)
Theorem CountSource_exact src :
  match parse_go src with
  | Err e => CountSource src = Err e
  | Ok file =>
      if gs_generated file then CountSource src = Ok None
      else exists c, CountSource src = Ok (Some c) /\ let l := numbered 1 (Split src (byte_of 10)) in
        tally (is_prose src file) l (Prose c) /\ tally (is_code src file) l (Code c) /\ tally (counts file) l (Counted c)
  end.
Proof.
  unfold CountSource. destruct (parse_go src) as [file|e]; [|done]. destruct (gs_generated file); [done|].
  destruct (count_lines_spec src file (numbered 1 (Split src (byte_of 10))) (mkCount 0 0)) as (p & k & E & Hp & Hk & Hc).
  exists (mkCount p k). rewrite E. done.
Qed.
End Counting.

(* ------------------------------------------------------------------ *)
(** ** The ceiling *)

Lemma Above_mono c p q : 0 <= Counted c -> p <= q -> Above c q = true -> Above c p = true.
Proof. unfold Above. rewrite !Z.ltb_lt. nia. Qed.

Lemma candidates_spec z : z ∈ candidates <-> 0 <= z <= 50 /\ z mod 5 = 0.
Proof.
  unfold candidates. rewrite !elem_of_cons, elem_of_nil. split.
  - intros H. destruct_or?; try done; subst; (split; [lia|done]).
  - intros [H1 H2]. apply Z.mod_divide in H2 as [k ->]; [|lia]. lia.
Qed.

Lemma find_least {A} (f : A -> bool) l x : List.find f l = Some x <-> exists pre post, l = (pre ++ x :: post)%list /\ f x = true /\ forall y, y ∈ pre -> f y = false.
Proof.
  split.
  - revert x. induction l as [|y l IH]; intros x; simpl; [done|]. destruct (f y) eqn:E.
    + intros [= <-]. exists [], l. split; [done|]. split; [done|]. by intros z ?%elem_of_nil.
    + intros (pre & post & -> & H1 & H2)%IH. exists (y :: pre), post. split; [done|]. split; [done|].
      intros z [->|Hz]%elem_of_cons; [done|by apply H2].
  - intros (pre & post & -> & H1 & H2). induction pre as [|y pre IH]; simpl; [by rewrite H1|].
    rewrite (H2 y) by (by left). apply IH. intros z Hz. apply H2. by right.
Qed.

(** C35: the ceiling the record is derived from is the least multiple of five percentage points, from zero to fifty, that no eligible file exceeds; there is none exactly when some eligible file has more prose than code. *)
Theorem DeriveCeiling_least r :
  match DeriveCeiling r with
  | Some c => 0 <= c <= 50 /\ c mod 5 = 0 /\ (forall f, f ∈ Eligible r -> Above (fp_Count f) c = false) /\
      forall c', 0 <= c' < c -> c' mod 5 = 0 -> exists f, f ∈ Eligible r /\ Above (fp_Count f) c' = true
  | None => exists f, f ∈ Eligible r /\ Code (fp_Count f) < Prose (fp_Count f)
  end.
Proof.
  unfold DeriveCeiling. set (ok := fun c => forallb (fun f => negb (Above (fp_Count f) c)) (Eligible r)).
  assert (Hok : forall c, ok c = true <-> forall f, f ∈ Eligible r -> Above (fp_Count f) c = false).
  { intros c. unfold ok. rewrite forallb_forall. setoid_rewrite <- list_elem_of_In. by setoid_rewrite negb_true_iff. }
  assert (Hno : forall c, ok c = false -> exists f, f ∈ Eligible r /\ Above (fp_Count f) c = true).
  { intros c H. unfold ok in H. clear Hok. induction (Eligible r) as [|f l IH]; simpl in H; [done|]. apply andb_false_iff in H as [H|H].
    - exists f. split; [by left|]. by apply negb_false_iff.
    - destruct (IH H) as (g & Hg & E). exists g. split; [by right|done]. }
  destruct (List.find ok candidates) as [c|] eqn:E.
  - apply find_least in E as (pre & post & El & H1 & H2). assert (Hc : c ∈ candidates) by (rewrite El; apply elem_of_app; right; by left).
    apply candidates_spec in Hc as [Hb Hm]. split; [done|]. split; [done|]. split; [by apply Hok|].
    intros c' Hc' Hm'. apply Hno, H2. assert (Hin : c' ∈ candidates) by (apply candidates_spec; split; [lia|done]).
    rewrite El in Hin. apply elem_of_app in Hin as [Hin|[->|Hin]%elem_of_cons]; [done|lia|]. exfalso.
    assert (Hs : StronglySorted Z.lt candidates) by (repeat constructor). rewrite El, (cons_middle c pre post), app_assoc in Hs.
    assert (Hlt : c < c') by (eapply (StronglySorted_app_1_elem_of Z.lt); [exact Hs|apply elem_of_app; right; by left|exact Hin]). lia.
  - assert (H := Hno 50 (find_none _ _ E 50 ltac:(apply list_elem_of_In, candidates_spec; split; [lia|done]))).
    destruct H as (f & Hf & Ha). exists f. split; [done|]. unfold Above, Counted in Ha. apply Z.ltb_lt in Ha. lia.
Qed.

(* ------------------------------------------------------------------ *)
(** ** The record *)

Section Record.
Context `{Q : GoQuote}.

Lemma Join_errors_none es : Join_errors es = None <-> es = [].
Proof. by destruct es. Qed.

(** The record states exactly one number under a name. *)
Definition states (body key : string) (n : Z) : Prop :=
  exists seen, parse_lines (record_lines body) = Ok seen /\ stated_values seen key = [n].

Lemma record_value_ok seen key n : record_value seen key = (n, []) <-> stated_values seen key = [n].
Proof. unfold record_value. destruct (stated_values seen key) as [|x [|y l]]; split; naive_solver. Qed.
Lemma record_value_nil seen key : snd (record_value seen key) = [] <-> exists n, stated_values seen key = [n].
Proof. unfold record_value. destruct (stated_values seen key) as [|x [|y l]]; split; naive_solver. Qed.

Lemma ReadRecordThresholds_ok t th : ReadRecordThresholds t = (th, None) <->
  exists body, t !! ProseRecordFile = Some (Some body) /\
    states body "error ceiling" (CeilingPercent th) /\ states body "warning band" (BandPercent th) /\
    states body "minimum counted lines" (MinimumLines th).
Proof.
  unfold ReadRecordThresholds, states. destruct (t !! ProseRecordFile) as [[body|]|]; [|split; [done|by intros (? & [=] & _)]..].
  destruct (parse_lines (record_lines body)) as [seen|e] eqn:Ep; [|split; [done|intros (b & [= <-] & (s & Es & _) & _); congruence]].
  destruct (record_value seen "error ceiling") as [c e1] eqn:E1, (record_value seen "warning band") as [b e2] eqn:E2,
    (record_value seen "minimum counted lines") as [m e3] eqn:E3. split.
  - intros [= <- Hj]. apply Join_errors_none in Hj. apply app_nil in Hj as [-> Hj]. apply app_nil in Hj as [-> ->].
    exists body. split; [done|]. cbn [CeilingPercent BandPercent MinimumLines]. repeat split; exists seen; (split; [done|]); by apply record_value_ok.
  - intros (body' & [= <-] & (s1 & Hs1 & H1) & (s2 & Hs2 & H2) & (s3 & Hs3 & H3)). rewrite Ep in Hs1, Hs2, Hs3.
    injection Hs1 as <-. injection Hs2 as <-. injection Hs3 as <-.
    apply record_value_ok in H1, H2, H3. destruct th as [tc tb tm]. cbn [CeilingPercent BandPercent MinimumLines] in *.
    rewrite E1 in H1. rewrite E2 in H2. rewrite E3 in H3. injection H1 as -> ->. injection H2 as -> ->. by injection H3 as -> ->.
Qed.

(** The enforced numbers follow their derivation. *)
Definition derived (th : Thresholds) : Prop := BandPercent th = Band (CeilingPercent th) /\ CeilingPercent th <= 50 /\ Z.rem (CeilingPercent th) 5 = 0.
Definition recorded (t : Tree) (th : Thresholds) : Prop :=
  exists body, t !! ProseRecordFile = Some (Some body) /\
    states body "error ceiling" (CeilingPercent th) /\ states body "warning band" (BandPercent th) /\ states body "minimum counted lines" (MinimumLines th).

Lemma compare_value_nil key want got : compare_value key want got = [] <-> want = got.
Proof. unfold compare_value. destruct (Z.eqb_spec want got); naive_solver. Qed.

Lemma CheckRecord_spec t enforced : CheckRecord t enforced = None <-> recorded t enforced /\ derived enforced.
Proof.
  unfold CheckRecord, recorded, derived. rewrite <- ReadRecordThresholds_ok. destruct (ReadRecordThresholds t) as [th [e|]] eqn:E.
  - split; [done|]. intros [[=] _].
  - rewrite Join_errors_none, !app_nil, !compare_value_nil. destruct enforced as [c b m], th as [c' b' m']. cbn [CeilingPercent BandPercent MinimumLines].
    assert (He : (mkThresholds c' b' m', @None gerror) = (mkThresholds c b m, None) <-> c = c' /\ b = b' /\ m = m') by (split; [by intros [= -> -> ->]|by intros (-> & -> & ->)]).
    assert (H1 : forall e : gerror, (if negb (Band c =? b) then [e] else []) = [] <-> b = Band c) by (intros e; destruct (Z.eqb_spec (Band c) b); split; done).
    assert (H2 : forall e : gerror, (if 50 <? c then [e] else []) = [] <-> c <= 50) by (intros e; destruct (Z.ltb_spec 50 c); split; done || lia).
    assert (H3 : forall e : gerror, (if negb (Z.rem c 5 =? 0) then [e] else []) = [] <-> Z.rem c 5 = 0) by (intros e; destruct (Z.eqb_spec (Z.rem c 5) 0); split; done).
    rewrite He, H1, H2, H3. tauto.
Qed.

(** The record holds the gate to the numbers it enforces: the check accepts exactly a record that states the ceiling, the band and the minimum, each once and each the enforced number, when the band is ten points below the ceiling and the ceiling is a multiple of five of at most fifty. *)
Theorem CheckRecord_exact t enforced : CheckRecord t enforced = None <-> recorded t enforced /\ derived enforced.
Proof. apply CheckRecord_spec. Qed.
End Record.

(* ------------------------------------------------------------------ *)
(** ** The gate *)

Section Gate.
Context `{U : Unicode} `{GS : GoSyntax} `{Q : GoQuote}.

(** The files of a sweep: what git lists, or the tree's Go files, outside the
    directories left aside. *)
Definition listable (rt : Root) : Prop := rt_git rt = true -> exists out, rt_ls_files rt = Ok out.
Definition swept (rt : Root) (rel : string) : Prop :=
  if rt_git rt then exists out, rt_ls_files rt = Ok out /\ rel ∈ Split out nul /\ rel <> "" /\ skipped rel = false
  else is_Some (rt_tree rt !! rel) /\ HasSuffix (Base rel) ".go" = true /\
       forall d, d ∈ parents rel -> in_list prose_skipDirs (Base d) = false /\ HasPrefix (Base d) "." = false /\ HasPrefix (Base d) "_" = false.

Lemma listGoFiles_spec rt : match listGoFiles rt with
  | Ok (paths, _) => listable rt /\ forall rel, rel ∈ paths <-> swept rt rel
  | Err _ => ~ listable rt
  end.
Proof.
  unfold listGoFiles, listable, swept. destruct (rt_git rt).
  - unfold gitTrackedGoFiles. destruct (rt_ls_files rt) as [out|e].
    + split; [eauto|]. intros rel. rewrite stable_sort_perm, elem_of_filter_b, negb_true_iff, orb_false_iff, String.eqb_neq. split.
      * intros (H1 & H2 & H3). by exists out.
      * by intros (o & [= <-] & H).
    + intros H. by destruct (H eq_refl).
  - split; [done|]. intros rel. unfold walkGoFiles. rewrite walkFiles_spec. do 2 (apply and_iff_congr; intros _). apply forall_proper. intros d.
    rewrite !orb_false_iff. tauto.
Qed.

(** A file that reads and parses, and one that is counted. *)
Definition parses (t : Tree) (rel : string) : Prop := exists src o, t !! rel = Some (Some src) /\ CountSource src = Ok o.
Definition counted (t : Tree) (rel : string) (c : Count) : Prop := exists src, t !! rel = Some (Some src) /\ CountSource src = Ok (Some c).

Lemma measure_fold th t paths : forall s, let s' := fold_left (measure_file th t) paths s in
  (sw_problems s' = [] <-> sw_problems s = [] /\ forall rel, rel ∈ paths -> parses t rel) /\
  (forall f, f ∈ sw_files s' <-> f ∈ sw_files s \/ exists rel c, rel ∈ paths /\ counted t rel c /\ f = mkFileReport rel c (MinimumLines th <=? Counted c)).
Proof.
  induction paths as [|rel paths IH]; intros s; cbn [fold_left].
  - split; [split; [intros H; split; [done|by intros ? ?%elem_of_nil]|by intros [? _]]|]. intros f. split; [by left|]. intros [H|(r & c & ?%elem_of_nil & _)]; done.
  - destruct (IH (measure_file th t s rel)) as [H1 H2]. cbv zeta. setoid_rewrite elem_of_cons.
    assert (Hstep : (sw_problems (measure_file th t s rel) = [] <-> sw_problems s = [] /\ parses t rel) /\
      forall f, f ∈ sw_files (measure_file th t s rel) <-> f ∈ sw_files s \/ exists c, counted t rel c /\ f = mkFileReport rel c (MinimumLines th <=? Counted c)).
    { clear. unfold measure_file, parses, counted. destruct (t !! rel) as [[src|]|]; cbn [sw_problems sw_files].
      - destruct (CountSource src) as [[c|]|e] eqn:Ec; cbn [sw_problems sw_files]; split.
        + split; [intros ->; split; [done|]; by exists src, (Some c)|by intros [? _]].
        + intros f. rewrite elem_of_app, list_elem_of_singleton. split; [intros [?| ->]; [by left|]; right; exists c; split; [|done]; by exists src|].
          intros [?|(c' & (x & [= <-] & E) & ->)]; [by left|right]. rewrite Ec in E. by injection E as <-.
        + split; [intros ->; split; [done|]; by exists src, None|by intros [? _]].
        + intros f. split; [by left|]. intros [?|(c' & (x & [= <-] & E) & _)]; [done|]. by rewrite Ec in E.
        + rewrite app_nil. split; [by intros [_ ?]|]. intros [_ (x & o & [= <-] & E)]. by rewrite Ec in E.
        + intros f. split; [by left|]. intros [?|(c' & (x & [= <-] & E) & _)]; [done|]. by rewrite Ec in E.
      - rewrite app_nil. split; [split; [by intros [_ ?]|by intros [_ (x & o & [=] & _)]]|]. intros f. split; [by left|]. intros [?|(c' & (x & [=] & _) & _)]. done.
      - rewrite app_nil. split; [split; [by intros [_ ?]|by intros [_ (x & o & [=] & _)]]|]. intros f. split; [by left|]. intros [?|(c' & (x & [=] & _) & _)]. done. }
    destruct Hstep as [S1 S2]. split.
    + rewrite H1, S1. split; [intros [[Ha Hb] Hc]; split; [done|]; intros r [->|Hr]; [done|by apply Hc]|].
      intros [Ha Hb]. split; [split; [done|apply Hb; by left]|]. intros r Hr. apply Hb. by right.
    + intros f. rewrite H2, S2. split.
      * intros [[?|(c & Hc & ->)]|(r & c & Hr & Hc & ->)]; [by left|right; exists rel, c; auto|right; exists r, c; auto].
      * intros [?|(r & c & [->|Hr] & Hc & ->)]; [by left; left|left; right; by exists c|right; by exists r, c].
Qed.

Lemma Measure_spec rt th :
  match Measure rt th with
  | Ok r => listable rt /\ (forall rel, swept rt rel -> parses (rt_tree rt) rel) /\ (exists rel c, swept rt rel /\ counted (rt_tree rt) rel c) /\ pr_Thresholds r = th /\
      (forall f, f ∈ pr_Files r <-> exists rel c, swept rt rel /\ counted (rt_tree rt) rel c /\ f = mkFileReport rel c (MinimumLines th <=? Counted c))
  | Err _ => ~ (listable rt /\ (forall rel, swept rt rel -> parses (rt_tree rt) rel) /\ exists rel c, swept rt rel /\ counted (rt_tree rt) rel c)
  end.
Proof.
  unfold Measure. pose proof (listGoFiles_spec rt) as Hl. destruct (listGoFiles rt) as [[paths listing]|e]; [|by intros [? _]].
  destruct Hl as [Hl Hp]. destruct (measure_fold th (rt_tree rt) paths (mkSweep [] [] [])) as [H1 H2]. cbv zeta in *. cbn [sw_problems sw_files] in H1, H2.
  set (s := fold_left (measure_file th (rt_tree rt)) paths (mkSweep [] [] [])) in *. setoid_rewrite Hp in H1. setoid_rewrite Hp in H2.
  assert (Hf : forall f, f ∈ sw_files s <-> exists rel c, swept rt rel /\ counted (rt_tree rt) rel c /\ f = mkFileReport rel c (MinimumLines th <=? Counted c)).
  { intros f. rewrite H2, elem_of_nil. tauto. }
  destruct (sw_problems s) as [|p ps].
  - destruct H1 as [H1 _]. destruct (H1 eq_refl) as [_ Hall]. destruct (sw_files s) as [|f0 fs] eqn:Ef.
    + intros (_ & _ & rel & c & Hs & Hc). apply (elem_of_nil (mkFileReport rel c (MinimumLines th <=? Counted c))), Hf. eauto.
    + split; [done|]. split; [done|]. split; [destruct (proj1 (Hf f0)) as (rel & c & Hs & Hc & _); [by left|by exists rel, c]|]. split; [done|].
      intros f. cbn [pr_Files]. rewrite stable_sort_perm. apply Hf.
  - intros (_ & Hall & _). destruct H1 as [_ H1]. discriminate (H1 (conj eq_refl Hall)).
Qed.

(** C29: the prose gate passes exactly when the Go files can be listed, every one of them reads and parses, at least one is measured, none with thirty counted lines or more has prose in more than forty-five percent of them, and the committed record states the numbers enforced; a file that cannot be read or parsed is never dropped from the measurement. *)
Theorem prosecheck_exact rt :
  prose_status (prosecheck rt false) = 0 <->
  listable rt /\ (forall rel, swept rt rel -> parses (rt_tree rt) rel) /\ (exists rel c, swept rt rel /\ counted (rt_tree rt) rel c) /\
  (forall rel c, swept rt rel -> counted (rt_tree rt) rel c -> 30 <= Counted c -> Prose c * 100 <= 45 * Counted c) /\
  recorded (rt_tree rt) Enforced.
Proof.
  unfold prosecheck, prose_CheckRepo. pose proof (Measure_spec rt Enforced) as H. destruct (Measure rt Enforced) as [r|e]; [|split; [done|tauto]].
  destruct H as (H1 & H2 & H3 & Ht & Hf).
  assert (Hover : Over r = [] <-> forall rel c, swept rt rel -> counted (rt_tree rt) rel c -> 30 <= Counted c -> Prose c * 100 <= 45 * Counted c).
  { unfold Over, rank. transitivity (forall f, f ∈ Eligible r -> Above (fp_Count f) 45 = false).
    - rewrite Ht. change (CeilingPercent Enforced) with 45. split.
      + intros E f Hin. apply not_true_iff_false. intros Ha. apply (elem_of_nil f). rewrite <- E, stable_sort_perm, elem_of_filter_b. done.
      + intros H. apply Permutation_nil_r. rewrite stable_sort_perm. apply Permutation_nil_r. rewrite filter_nil_iff. done.
    - unfold Eligible. setoid_rewrite elem_of_filter_b. setoid_rewrite Hf. unfold Above. change (MinimumLines Enforced) with 30. split.
      + intros H rel c Hs Hc Hn. specialize (H (mkFileReport rel c (30 <=? Counted c))). cbn [fp_Count fp_Eligible] in H.
        apply Z.ltb_ge, H. split; [by exists rel, c|lia].
      + intros H f [(rel & c & Hs & Hc & ->) He]. cbn [fp_Count fp_Eligible] in *. apply Z.ltb_ge, (H rel c Hs Hc). lia. }
  rewrite <- Hover. assert (Hd : derived Enforced) by (repeat split; done || lia). pose proof (CheckRecord_spec (rt_tree rt) Enforced) as Hr.
  destruct (Over r) as [|f l]; cbn [map Join_errors]; [|split; [done|by intros (_ & _ & _ & [=] & _)]].
  destruct (CheckRecord (rt_tree rt) Enforced) as [g|]; cbn [prose_status].
  - split; [done|]. intros (_ & _ & _ & _ & H). discriminate (proj2 Hr (conj H Hd)).
  - destruct (proj1 Hr eq_refl) as [H _]. tauto.
Qed.
End Gate.

(* ------------------------------------------------------------------ *)
(** ** Concrete trees *)

(** A library that finds one comment on the first [n] lines of a source whose first
    byte is a digit [n], and does not parse an empty source. *)
#[local] Instance first_lines : GoSyntax := {|
  parse_go := fun src => match to_list src with
                         | [] => Err "expected package"
                         | c :: _ => let n := code c - 48 in Ok (mkSyntax false [mkGroup [mkComment "// note" 1 n] 1 n "note" false])
                         end;
  scan_go := fun _ => [] |}.
#[local] Existing Instance ascii_unicode.
#[local] Instance no_quotes : GoQuote := {| Quote := fun s => s |}.
Definition text_of (ls : list string) : string := lines ls.
Definition go_source (prose code : nat) : string := text_of (repeat (Itoa (Z.of_nat prose)) (prose + code)).
Definition record_text (ceiling minimum : Z) : string := text_of ["# Record"; ""] ++ RecordSection ceiling minimum.
Definition one_file (src record : string) : Root := mkRoot "." (<["a.go" := Some src]> {[ ProseRecordFile := Some record ]}) false (Err "").

Example compliant_file : prose_status (prosecheck (one_file (go_source 9 24) (record_text 45 30)) false) = 0.
Proof. vm_compute. reflexivity. Qed.
(** A record that names another ceiling fails, as does a file that does not parse. *)
Example drifted_record : CategoriesIn (match prosecheck (one_file (go_source 9 24) (record_text 50 30)) false with PFailed e => Some e | _ => None end) = ["record-drift"].
Proof. vm_compute. reflexivity. Qed.
Example broken_file : CategoriesIn (match prosecheck (one_file "" (record_text 45 30)) false with PFailed e => Some e | _ => None end) = ["unparseable"].
Proof. vm_compute. reflexivity. Qed.
(** What a run writes, the record's reader reads back. *)
Example record_roundtrip : map (fun c => ReadRecordThresholds {[ ProseRecordFile := Some (record_text c 30) ]}) candidates =
  map (fun c => (mkThresholds c (Band c) 30, None)) candidates.
Proof. vm_compute. reflexivity. Qed.
