(* ===== verification/UiRecord.v ===== *)
(** The UI verification record ([internal/uiverify]: record.go, android.go): the
    committed table that answers every frontend convention on both surfaces, what the
    two grading routes last ran, and the checks that hold the one to the other.  A
    refusal keeps its kind and the names it is about; the checks sort their texts.
    The mutations of the browser route and its verdict are here too.  encoding/xml is
    the class [JUnit], and the class [Times] says which texts a time.Time takes. *)

From Stdlib Require Import ZArith Lia Bool String Ascii List Sorted.
From stdpp Require Import base option list strings gmap sorting.
From S2P Require Import Prelude GoStrings Json Regex Repo.
Local Open Scope string_scope.
Local Open Scope Z_scope.

Definition ui_RecordFile : string := "FRONTEND-CONVENTIONS-RECORD.md".
Definition runsDir : string := "build/uiverify".
Definition WebSurface : string := "browser map".
Definition AndroidSurface : string := "android screen".
Definition Surfaces : list string := [WebSurface; AndroidSurface].
Definition DemonstrationSuffix : string := "_demonstration".
Definition Clauses : list string := ["F1"; "F2"; "F3"; "F4"; "F5"; "F6"; "F7"; "F8"; "F9"; "F10"; "F11"].
Definition deferralPrefix : string := "deferred to ".
(** The pairs a deferral may appear on, and who owns them: none. *)
Definition splitPairs : list (string * string) := [].
Definition parkedSuite : string := "android/app/src/androidTest/java/com/nschatz/tracker/ui/UiClaimTest.kt".
Definition back_quote : string := of_list [byte_of 96].

(** A result of a grading route ([Result]), as far as the record keeps it. *)
Record Result := mkResult { re_ID : string; re_Passed : bool; re_Demonstrated : bool }.
Record RunRecord := mkRunRecord { rr_Surface : string; rr_Ran : list string; rr_Demonstrated : list string }.
(** [RecordRun]: what it writes down. *)
Definition RecordRun (surface : string) (results : list Result) : RunRecord :=
  mkRunRecord surface (map re_ID (List.filter re_Passed results)) (map re_ID (List.filter re_Demonstrated results)).

(* ------------------------------------------------------------------ *)
(** ** The committed record *)

Record recordRow := mkRow {
  row_Clause : string; row_Surface : string; row_Assertions : list string; row_Exemption : string;
  row_DeferredTo : string; row_Deferred : list string; row_Line : Z }.

Definition rowPattern : re := Eval vm_compute in MustCompile "^\|\s*(F\d+)\s*\|\s*([^|]+?)\s*\|\s*([^|]*?)\s*\|\s*([^|]*?)\s*\|\s*$".

Definition splitNames (cell : string) : list string :=
  List.filter (fun a => negb (String.eqb a "") && negb (String.eqb a "-"))
    (map (fun a => TrimSpace (Trim (TrimSpace a) back_quote)) (Split cell ","%char)).

Section Record.
Context `{U : Unicode}.

(** One line of the record, when it is a row. *)
Definition parse_row (line : Z * string) : option recordRow :=
  match FindStringSubmatch rowPattern (snd line) with
  | None => None
  | Some m =>
      let surface := ToLower (TrimSpace (m 2%nat)) in
      let ex := TrimSpace (m 4%nat) in
      let exemption := if String.eqb ex "-" || String.eqb ex "" then "" else ex in
      let cell := TrimSpace (m 3%nat) in
      if HasPrefix cell deferralPrefix then
        let '(item, names, _) := Cut (TrimPrefix cell deferralPrefix) ":" in
        Some (mkRow (m 1%nat) surface [] exemption (TrimSpace item) (splitNames names) (fst line))
      else Some (mkRow (m 1%nat) surface (splitNames (m 3%nat)) exemption "" [] (fst line))
  end.
Definition ParseRecord (t : Tree) : option (list recordRow) :=
  match t !! ui_RecordFile with
  | Some (Some body) => Some (omap parse_row (numbered 1 (Split body (byte_of 10))))
  | _ => None
  end.

(** The owner of a pair, by its key. *)
Definition owner_of (key : string) : option string := option_map snd (List.find (fun p => String.eqb (fst p) key) splitPairs).
Definition row_key (row : recordRow) : string := row_Clause row ++ "|" ++ row_Surface row.

(** [deferredAssertions]. *)
Definition deferredAssertions (t : Tree) : option (gset string) :=
  option_map (fun rows => list_to_set (flat_map (fun row =>
    if String.eqb (row_DeferredTo row) "" then [] else match owner_of (row_key row) with None => [] | Some _ => row_Deferred row end) rows)) (ParseRecord t).

(** [recordedAssertions]: the assertions of a surface, once each, sorted. *)
Definition recordedAssertions (t : Tree) (surface : string) : option (list string) :=
  option_map (fun rows => stable_sort str_ltb (remove_dups (flat_map (fun row => if String.eqb (row_Surface row) surface then row_Assertions row else []) rows)))
    (ParseRecord t).
End Record.

(* ------------------------------------------------------------------ *)
(** ** What ran *)

Record surfaceRun := mkSurfaceRun { Ran : gset string; Demonstrated : gset string }.
Definition newSurfaceRun : surfaceRun := mkSurfaceRun ∅ ∅.

Record testcase := mkTestcase { tc_Name : string; tc_Failed : bool; tc_Skipped : bool }.
Class JUnit := { xml_Suite : string -> option (list testcase) }.
Class Times := { time_text : string -> bool }.

(** Paths in the order of [filepath.WalkDir]: component by component. *)
Fixpoint names_ltb (a b : list string) : bool :=
  match a, b with
  | x :: a, y :: b => if String.eqb x y then names_ltb a b else str_ltb x y
  | [], _ :: _ => true
  | _, [] => false
  end.
Definition WalkDir (dir : string) (t : Tree) : list string :=
  stable_sort (fun a b => names_ltb (components a) (components b))
    (List.filter (fun rel => existsb (String.eqb dir) (parents rel)) (map fst (map_to_list t))).
Definition is_dir (t : Tree) (dir : string) : bool := existsb (fun rel => existsb (String.eqb dir) (parents rel)) (map fst (map_to_list t)).

Definition resultsDir : string := "android/app/build/outputs/androidTest-results/connected".
Definition webRunFile : string := runsDir ++ "/last-run-web.json".

Inductive run_error := NoWebRun | WebRunUnparseable | NoAndroidResults | RunUnreadable (rel : string).

Section Runs.
Context `{U : Unicode} `{X : JUnit} `{T : Times}.

(** A case of the instrumented suite. *)
Definition count_case (run : surfaceRun) (tc : testcase) : surfaceRun :=
  if tc_Failed tc || tc_Skipped tc then run
  else if HasSuffix (tc_Name tc) DemonstrationSuffix
  then mkSurfaceRun (Ran run) ({[ TrimSuffix (tc_Name tc) DemonstrationSuffix ]} ∪ Demonstrated run)
  else mkSurfaceRun ({[ tc_Name tc ]} ∪ Ran run) (Demonstrated run).

Fixpoint read_results (t : Tree) (files : list string) (run : surfaceRun) : result run_error surfaceRun :=
  match files with
  | [] => Ok run
  | rel :: files =>
      if negb (HasSuffix rel ".xml") then read_results t files run
      else match t !! rel with
      | Some (Some body) => read_results t files (match xml_Suite body with Some cases => fold_left count_case cases run | None => run end)
      | _ => Err (RunUnreadable rel)
      end
  end.
Definition androidRun (t : Tree) : result run_error surfaceRun :=
  if negb (is_dir t resultsDir) then Err NoAndroidResults
  else read_results t (WalkDir resultsDir t) newSurfaceRun.

(** The browser route's own record. *)
Definition into_time : into unit := fun j u =>
  match j with JNull => Some u | JStr text => if time_text text then Some u else None | _ => None end.
Definition set_run (n : string) : into RunRecord := fun j r =>
  let '(mkRunRecord s ran dem) := r in
  if String.eqb n "surface" then option_map (fun v => mkRunRecord v ran dem) (into_string j s)
  else if String.eqb n "at" then option_map (fun _ => r) (into_time j tt)
  else if String.eqb n "ran" then option_map (fun v => mkRunRecord s v dem) (into_slice "" into_string j ran)
  else option_map (fun v => mkRunRecord s ran v) (into_slice "" into_string j dem).
Definition run_of (body : string) : option RunRecord :=
  match Unmarshal body with
  | None => None
  | Some j => into_struct ["surface"; "at"; "ran"; "demonstrated"] set_run j (mkRunRecord "" [] [])
  end.

(** What ran on each surface. *)
Definition assertionsThatRan (t : Tree) : result run_error (string -> surfaceRun) :=
  match t !! webRunFile with
  | Some (Some body) =>
      match run_of body with
      | None => Err WebRunUnparseable
      | Some rec =>
          match androidRun t with
          | Err e => Err e
          | Ok android =>
              Ok (fun surface => if String.eqb surface AndroidSurface then android
                                 else if String.eqb surface WebSurface then mkSurfaceRun (list_to_set (rr_Ran rec)) (list_to_set (rr_Demonstrated rec))
                                 else newSurfaceRun)
          end
      end
  | _ => Err NoWebRun
  end.
End Runs.

(* ------------------------------------------------------------------ *)
(** ** The instrumented suite *)

Definition ignoreDirective : re := Eval vm_compute in MustCompile "@Ignore\s*\(".
Definition funDeclaration : re := Eval vm_compute in MustCompile "^\s*fun\s+([A-Za-z0-9_]+)\s*\(".

Inductive suite_problem :=
| SUnreadable | SNoCase (line : Z) | SNoOwner (name : string) | SAlone (name partner : string)
| SNotDeferred (claim : string) | SNotIgnored (claim : string).

(** The case an @Ignore sits on, and the reason before it: the next declaration within
    24 lines. *)
Fixpoint find_case (first : bool) (ls : list string) (reason : string) : option (string * string) :=
  match ls with
  | [] => None
  | l :: ls =>
      match (if first then None else FindStringSubmatch funDeclaration l) with
      | Some m => Some (m 1%nat, reason)
      | None => find_case false ls (reason ++ l ++ " ")
      end
  end.
(** The ignored cases with their reasons, or the line of one that sits on no case. *)
Fixpoint ignored_cases (n : Z) (ls : list string) (acc : gmap string string) : result Z (gmap string string) :=
  match ls with
  | [] => Ok acc
  | l :: rest =>
      if negb (MatchString ignoreDirective l) then ignored_cases (n + 1) rest acc
      else match find_case true (firstn 24 ls) "" with
      | None => Err n
      | Some (name, reason) => if String.eqb name "" then Err n else ignored_cases (n + 1) rest (<[name := reason]> acc)
      end
  end.

Definition claim_of (name : string) : string := TrimSuffix name DemonstrationSuffix.
Definition case_problems (ignored : gmap string string) (name reason : string) : list suite_problem :=
  let claim := claim_of name in
  let partner := if String.eqb name claim then claim ++ DemonstrationSuffix else claim in
  ((if existsb (fun p => Contains reason (snd p)) splitPairs then [] else [SNoOwner name]) ++
   (match ignored !! partner with Some _ => [] | None => [SAlone name partner] end))%list.

Definition parkedSuiteProblems (t : Tree) (deferred : gset string) : list suite_problem :=
  match t !! parkedSuite with
  | None | Some None => [SUnreadable]
  | Some (Some body) =>
      match ignored_cases 1 (Split body (byte_of 10)) ∅ with
      | Err n => [SNoCase n]
      | Ok ignored =>
          let claims : gset string := list_to_set (map (fun p => claim_of (fst p)) (map_to_list ignored)) in
          (flat_map (fun p => case_problems ignored (fst p) (snd p)) (map_to_list ignored) ++
           flat_map (fun claim => if decide (claim ∈ deferred) then [] else [SNotDeferred claim]) (elements claims) ++
           flat_map (fun claim => if decide (claim ∈ claims) then [] else [SNotIgnored claim]) (elements deferred))%list
      end
  end.

(** [strings.Split] on a text. *)
Fixpoint split_text (fuel : nat) (s sep : string) : list string :=
  match fuel with
  | O => [s]
  | S fuel => let '(head, tail, found) := Cut s sep in if found then head :: split_text fuel tail sep else [s]
  end.
Definition newline_private : string := of_list [byte_of 10] ++ "    private ".

Inductive claim_problem := CUnreadable | CMutated (name : string) | CNoClaim.
(** The claim cases of the suite: name, and whether the case selects a mutation. *)
Definition claim_case (block : string) : option (string * bool) :=
  let block := before_first block newline_private in
  let named := match FindStringSubmatch funDeclaration block with
               | Some m => Some (m 1%nat)
               | None => head (omap (fun line => option_map (fun m : nat -> string => m 1%nat) (FindStringSubmatch funDeclaration line)) (Split block (byte_of 10)))
               end in
  match named with
  | None => None
  | Some name => if HasSuffix name DemonstrationSuffix then None else Some (name, Contains block "UiMutation.")
  end.
Definition claim_cases (body : string) : list (string * bool) :=
  omap claim_case (tail (split_text (S (String.length body)) body "@Test")).
Definition unmutatedClaimProblems (t : Tree) : list claim_problem :=
  match t !! parkedSuite with
  | None | Some None => [CUnreadable]
  | Some (Some body) =>
      let cases := claim_cases body in
      (omap (fun c : string * bool => if snd c then Some (CMutated (fst c)) else None) cases ++ match cases with [] => [CNoClaim] | _ => [] end)%list
  end.

(* ------------------------------------------------------------------ *)
(** ** The record check *)

Inductive record_problem :=
| RTwice (row : recordRow) | RMissing (clause surface : string)
| RSplitIllegal (row : recordRow) | RSplitOwner (row : recordRow) (owner : string) | RSplitExempt (row : recordRow)
| RSplitAsserted (row : recordRow) | RSplitEmpty (row : recordRow) | RSplitPassing (row : recordRow) (name : string)
| RNeither (row : recordRow) | RBoth (row : recordRow) | RNotRun (row : recordRow) (name : string) | RNotDemonstrated (row : recordRow) (name : string)
| RSuite (p : suite_problem) | RWebViewUnknown | RWebView (place : string).

Definition deferralProblems (row : recordRow) (run : surfaceRun) : list record_problem :=
  ((match owner_of (row_key row) with
    | None => [RSplitIllegal row]
    | Some owner => if String.eqb (row_DeferredTo row) owner then [] else [RSplitOwner row owner]
    end) ++
   (if String.eqb (row_Exemption row) "" then [] else [RSplitExempt row]) ++
   (match row_Assertions row with [] => [] | _ => [RSplitAsserted row] end) ++
   (match row_Deferred row with [] => [RSplitEmpty row] | _ => [] end) ++
   flat_map (fun a => if decide (a ∈ Ran run) then [RSplitPassing row a] else []) (row_Deferred row))%list.

Definition assertion_problems (row : recordRow) (run : surfaceRun) : list record_problem :=
  ((match row_Assertions row with
    | [] => if String.eqb (row_Exemption row) "" then [RNeither row] else []
    | _ => if String.eqb (row_Exemption row) "" then [] else [RBoth row]
    end) ++
   flat_map (fun a => if decide (a ∈ Ran run) then (if decide (a ∈ Demonstrated run) then [] else [RNotDemonstrated row a]) else [RNotRun row a])
     (row_Assertions row))%list.

(** The rows by pair, the first of each, and the rows that repeat one. *)
Definition index_row (acc : gmap string recordRow * list record_problem) (row : recordRow) : gmap string recordRow * list record_problem :=
  match fst acc !! row_key row with
  | Some _ => (fst acc, snd acc ++ [RTwice row])%list
  | None => (<[row_key row := row]> (fst acc), snd acc)
  end.
Definition index_rows (rows : list recordRow) : gmap string recordRow * list record_problem := fold_left index_row rows (∅, []).

Definition pairs_of : list (string * string) := flat_map (fun clause => map (pair clause) Surfaces) Clauses.
Definition pair_key (p : string * string) : string := fst p ++ "|" ++ snd p.
(** What a pair adds: problems, and the assertions it defers. *)
Definition pair_problems (byPair : gmap string recordRow) (ran : string -> surfaceRun) (p : string * string) : list record_problem * list string :=
  match byPair !! pair_key p with
  | None => ([RMissing (fst p) (snd p)], [])
  | Some row =>
      if negb (String.eqb (row_DeferredTo row) "") then (deferralProblems row (ran (snd p)), row_Deferred row)
      else (assertion_problems row (ran (snd p)), [])
  end.

(** [androidRendersAWebView]: the first file that names a web view. *)
Definition needles : list string := ["WebView"; "CustomTabsIntent"; "androidx.browser"; "webkit"].
Fixpoint until_dot (l : list ascii) (acc : list ascii) : option (list ascii) :=
  match l with [] => None | c :: l => if Ascii.eqb c "."%char then Some ("."%char :: acc) else until_dot l (c :: acc) end.
Definition Ext (rel : string) : string := match until_dot (rev (to_list (Base rel))) [] with Some l => of_list l | None => "" end.
Definition webview_source (rel : string) : bool :=
  existsb (String.eqb (Ext rel)) [".kt"; ".java"; ".xml"; ".kts"; ".toml"] &&
  negb (existsb (fun d => negb (String.eqb d "android") && (String.eqb (Base d) "build" || String.eqb (Base d) ".gradle")) (parents rel)).
Fixpoint find_webview (t : Tree) (files : list string) : result string (option string) :=
  match files with
  | [] => Ok None
  | rel :: files =>
      match t !! rel with
      | Some (Some body) =>
          match List.find (Contains body) needles with
          | Some n => Ok (Some (rel ++ " (contains " ++ n ++ ")"))
          | None => find_webview t files
          end
      | _ => Err rel
      end
  end.
Definition androidRendersAWebView (t : Tree) : result string (option string) :=
  if negb (is_dir t "android") then Err "android" else find_webview t (List.filter webview_source (WalkDir "android" t)).

Definition F11_android : string := "F11|" ++ AndroidSurface.
Definition exemption_problems (byPair : gmap string recordRow) (t : Tree) : list record_problem :=
  match byPair !! F11_android with
  | None => []
  | Some row =>
      if String.eqb (row_Exemption row) "" then []
      else match androidRendersAWebView t with
      | Err _ => [RWebViewUnknown]
      | Ok (Some place) => [RWebView place]
      | Ok None => []
      end
  end.

Inductive record_error := ENoRecord | ENoRun (e : run_error) | EProblems (ps : list record_problem).

Section Checks.
Context `{U : Unicode} `{X : JUnit} `{T : Times}.

Definition ui_CheckRecord (t : Tree) : option record_error :=
  match ParseRecord t with
  | None => Some ENoRecord
  | Some rows =>
      match assertionsThatRan t with
      | Err e => Some (ENoRun e)
      | Ok ran =>
          let '(byPair, twice) := index_rows rows in
          let per_pair := map (pair_problems byPair ran) pairs_of in
          let deferred : gset string := list_to_set (flat_map snd per_pair) in
          match (twice ++ flat_map fst per_pair ++ map RSuite (parkedSuiteProblems t deferred) ++ exemption_problems byPair t)%list with
          | [] => None
          | problems => Some (EProblems problems)
          end
      end
  end.

(* ------------------------------------------------------------------ *)
(** ** The Android route *)

Definition EvidenceLog : string := "build/uiverify/android-grading.log".
Definition evidenceMarkers : list string :=
  ["AC13 contrast [light]:"; "AC13 contrast [dark]:"; "AC13 target-size [light]:"; "AC13 target-size [dark]:";
   "AC13 no-state-by-colour-alone [light]:"; "AC13 no-state-by-colour-alone [dark]:"; "AC14 operable without a pointer:"; "AC14 focus indicator:"].
Definition minimumMeasurementLines : Z := 100.
Inductive evidence_problem := VNone | VEmpty | VMissing (markers : list string) | VFew (measured : Z).
Definition measured_lines (text : string) : Z := Z.of_nat (length (List.filter (fun line => Contains line "contrast=") (Split text (byte_of 10)))).
Definition gradingEvidenceProblems (t : Tree) : list evidence_problem :=
  match t !! EvidenceLog with
  | None | Some None => [VNone]
  | Some (Some text) =>
      if String.eqb (TrimSpace text) "" then [VEmpty]
      else ((match List.filter (fun m => negb (Contains text m)) evidenceMarkers with [] => [] | missing => [VMissing missing] end) ++
            (if measured_lines text <? minimumMeasurementLines then [VFew (measured_lines text)] else []))%list
  end.

Inductive android_problem :=
| ADidNotRun (name : string) | ANotDemonstrated (name : string) | AFewDemonstrations (ran demonstrated : Z)
| ASuite (p : suite_problem) | AClaim (p : claim_problem) | AEvidence (p : evidence_problem).
Inductive android_error := ANoRecord | ANothingNamed | ANoRun (e : run_error) | AProblems (ps : list android_problem).

Definition run_problems (expected : list string) (run : surfaceRun) : list android_problem :=
  (flat_map (fun a => if decide (a ∈ Ran run) then [] else [ADidNotRun a]) expected ++
   flat_map (fun a => if decide (a ∈ Demonstrated run) then [] else [ANotDemonstrated a]) (stable_sort str_ltb (elements (Ran run))) ++
   (if (size (Demonstrated run) <? size (Ran run))%nat then [AFewDemonstrations (Z.of_nat (size (Ran run))) (Z.of_nat (size (Demonstrated run)))] else []))%list.

Definition CheckAndroidRun (t : Tree) : option android_error :=
  match recordedAssertions t AndroidSurface with
  | None => Some ANoRecord
  | Some [] => Some ANothingNamed
  | Some expected =>
      match androidRun t with
      | Err e => Some (ANoRun e)
      | Ok run =>
          match deferredAssertions t with
          | None => Some ANoRecord
          | Some deferred =>
              match (run_problems expected run ++ map ASuite (parkedSuiteProblems t deferred) ++ map AClaim (unmutatedClaimProblems t) ++
                     map AEvidence (gradingEvidenceProblems t))%list with
              | [] => None
              | problems => Some (AProblems problems)
              end
          end
      end
  end.

(* ------------------------------------------------------------------ *)
(** ** The documents *)

Definition documentedStrings : list string :=
  ["permission_step_foreground_body"; "permission_step_background_dialog_body"; "permission_step_background_settings_body";
   "permission_step_denied_body"; "permission_ready_body"; "warning_foreground_only";
   "warning_approximate"; "warning_notifications_blocked"; "config_plaintext_note";
   "config_verdict_note"; "collection_trouble"; "collection_restart";
   "collection_limitation"; "counter_delivered"; "counter_queued";
   "counter_dropped"; "counter_not_recorded"; "collection_freshness"].
Definition static_dir : string := "internal/server/static/".
Definition appDoc : string := static_dir ++ "app-explained.html".
Definition documents : list string := [static_dir ++ "map-explained.html"; appDoc].
Inductive document_problem := DMissing (doc : string) | DShort (doc : string) (bytes : Z) | DNoSection (id : string).
Definition section_mark (id : string) : string := let q := of_list [byte_of 34] in "id=" ++ q ++ id ++ q.
Definition CheckDocuments (t : Tree) : list document_problem :=
  (flat_map (fun doc => match t !! doc with
                        | Some (Some body) => if len body <? 1000 then [DShort doc (len body)] else []
                        | _ => [DMissing doc]
                        end) documents ++
   match t !! appDoc with
   | Some (Some body) => flat_map (fun id => if Contains body (section_mark id) then [] else [DNoSection id]) documentedStrings
   | _ => []
   end)%list.
End Checks.

(* ------------------------------------------------------------------ *)
(** ** The browser route *)

(** A [Mutation] of what the server sends. *)
Record Mutation := mkMutation {
  mu_ID : string; mu_Path : string; mu_Find : string; mu_Replace : string; mu_CSPFind : string; mu_CSPReplace : string; mu_DropHeader : string }.
Definition CSP : string := "Content-Security-Policy".
(** [http.Header]'s form of a name: each word's first letter upper, the rest lower;
    a name with a byte that is not a token's is left alone. *)
Definition token_byte (c : ascii) : bool := is_upper c || is_lower c || is_digit c || existsb (Ascii.eqb c) (to_list "!#$%&'*+-.^_`|~").
Fixpoint canonical_list (upper : bool) (l : list ascii) : list ascii :=
  match l with [] => [] | c :: l => (if upper then upper_byte c else lower_byte c) :: canonical_list (Ascii.eqb c "-"%char) l end.
Definition CanonicalHeaderKey (s : string) : string :=
  if forallb token_byte (to_list s) then of_list (canonical_list true (to_list s)) else s.
(** [strings.Replace(s, old, new, 1)] of a text that occurs. *)
Definition replace_first (s old new : string) : string :=
  let '(head, tail, found) := Cut s old in if found then head ++ new ++ tail else s.

Inductive mutation_error := MFind | MPolicy | MHeader | MNothing.
Definition header (h : gmap string string) (key : string) : string := default "" (h !! CanonicalHeaderKey key).
(** [apply]: the body and headers after, and the error; what was rewritten before an
    error stays. *)
Definition apply_mutation (m : Mutation) (path body : string) (h : gmap string string) : string * gmap string string * option mutation_error :=
  let target := if String.eqb (mu_Path m) "" then "/map" else mu_Path m in
  if negb (String.eqb path target) then (body, h, None)
  else if negb (String.eqb (mu_Find m) "") && negb (Contains body (mu_Find m)) then (body, h, Some MFind)
  else
    let body := if String.eqb (mu_Find m) "" then body else replace_first body (mu_Find m) (mu_Replace m) in
    if negb (String.eqb (mu_CSPFind m) "") && negb (Contains (header h CSP) (mu_CSPFind m)) then (body, h, Some MPolicy)
    else
      let h := if String.eqb (mu_CSPFind m) "" then h else <[CSP := replace_first (header h CSP) (mu_CSPFind m) (mu_CSPReplace m)]> h in
      if String.eqb (mu_DropHeader m) "" then
        (body, h, if String.eqb (mu_Find m) "" && String.eqb (mu_CSPFind m) "" then Some MNothing else None)
      else if String.eqb (header h (mu_DropHeader m)) "" then (body, h, Some MHeader)
      else (body, delete (CanonicalHeaderKey (mu_DropHeader m)) h, None).

Inductive summary := SOk | SFailed (failed total : Z) | SUndemonstrated (total demonstrated : Z).
Definition Summarise (results : list Result) : summary :=
  let total := Z.of_nat (length results) in
  let passed := Z.of_nat (length (List.filter re_Passed results)) in
  let demos := Z.of_nat (length (List.filter re_Demonstrated results)) in
  if negb (passed =? total) then SFailed (total - passed) total
  else if negb (demos =? total) then SUndemonstrated total demos
  else SOk.
