(* ===== verification/UiSpec.v ===== *)
(** What the UI verification record is worth: it holds exactly when every convention is
    answered once on each surface - by assertions that ran and were shown able to fail,
    or by an exemption - and the suite parks nothing ([CheckRecord_holds]); the Android
    route is green exactly when everything named ran, everything that ran can fail, on
    the unmutated screen, with the evidence written down ([CheckAndroidRun_holds]). *)

From Stdlib Require Import ZArith Lia Bool String Ascii List Sorted.
From stdpp Require Import base option list strings gmap sorting.
From S2P Require Import Prelude GoStrings Json Regex Repo UiRecord.
Local Open Scope string_scope.
Local Open Scope Z_scope.

Lemma flat_map_none {A B} (f : A -> list B) l : flat_map f l = [] <-> forall x, x ∈ l -> f x = [].
Proof. induction l as [|x l IH]; simpl; [split; [intros _ ? ?%elem_of_nil; done|done]|]. rewrite app_nil, IH. setoid_rewrite elem_of_cons. naive_solver. Qed.
Lemma decide_nil {B} (P : Prop) `{Decision P} (b : B) : (if decide P then [] else [b]) = [] <-> P.
Proof. by destruct (decide P). Qed.
Lemma not_decide_nil {B} (P : Prop) `{Decision P} (b : B) : (if decide P then [b] else []) = [] <-> ~ P.
Proof. by destruct (decide P). Qed.

(* ------------------------------------------------------------------ *)
(** ** The suite *)

(** The suite parks nothing: it can be read and no line of it ignores a case. *)
Definition parks_nothing (t : Tree) : Prop :=
  exists body, t !! parkedSuite = Some (Some body) /\ forall line, line ∈ Split body (byte_of 10) -> MatchString ignoreDirective line = false.

Lemma ignored_cases_grow ls : forall n acc ignored, acc <> ∅ -> ignored_cases n ls acc = Ok ignored -> ignored <> ∅.
Proof.
  induction ls as [|l ls IH]; intros n acc ignored Hne; cbn [ignored_cases]; [by intros [= <-]|].
  destruct (negb (MatchString ignoreDirective l)); [by apply IH|].
  destruct (find_case true (firstn 24 (l :: ls)) "") as [[name reason]|]; [|done]. destruct (String.eqb name ""); [done|].
  apply IH. apply insert_non_empty.
Qed.

Lemma ignored_cases_none ls : forall n, ignored_cases n ls ∅ = Ok ∅ <-> forall line, line ∈ ls -> MatchString ignoreDirective line = false.
Proof.
  induction ls as [|l ls IH]; intros n; cbn [ignored_cases]; [split; [by intros _ ? ?%elem_of_nil|done]|].
  setoid_rewrite elem_of_cons. destruct (MatchString ignoreDirective l) eqn:E; cbn [negb].
  - split; [|intros H; rewrite (H l) in E; [done|by left]]. intros H. exfalso.
    destruct (find_case true (firstn 24 (l :: ls)) "") as [[name reason]|]; [|done]. destruct (String.eqb name ""); [done|].
    by apply (ignored_cases_grow _ _ _ _ (insert_non_empty ∅ name reason) H).
  - rewrite IH. naive_solver.
Qed.

Lemma parkedSuite_none t : parkedSuiteProblems t ∅ = [] <-> parks_nothing t.
Proof.
  unfold parkedSuiteProblems, parks_nothing. destruct (t !! parkedSuite) as [[body|]|]; [|split; [done|by intros (? & [=] & _)]..].
  transitivity (ignored_cases 1 (Split body (byte_of 10)) ∅ = Ok ∅).
  - destruct (ignored_cases 1 (Split body (byte_of 10)) ∅) as [ignored|n]; [|split; done].
    split; [|intros [= ->]; by rewrite map_to_list_empty]. intros H. apply app_nil in H as [H _]. f_equal.
    apply map_empty. intros name. apply eq_None_not_Some. intros [reason Hn].
    apply flat_map_none with (x := (name, reason)) in H; [|by apply elem_of_map_to_list]. unfold case_problems in H. discriminate H.
  - rewrite ignored_cases_none. split; [by exists body|]. by intros (b & [= <-] & H).
Qed.

(* ------------------------------------------------------------------ *)
(** ** The record *)

(** A convention answered on a surface: by assertions that ran and were demonstrated,
    or by an exemption, and not by both. *)
Definition answered (run : surfaceRun) (row : recordRow) : Prop :=
  row_DeferredTo row = "" /\
  ((row_Assertions row <> [] /\ row_Exemption row = "") \/ (row_Assertions row = [] /\ row_Exemption row <> "")) /\
  forall a, a ∈ row_Assertions row -> a ∈ Ran run /\ a ∈ Demonstrated run.

Lemma assertion_problems_none row run : row_DeferredTo row = "" -> assertion_problems row run = [] <-> answered run row.
Proof.
  intros Hd. unfold assertion_problems, answered. rewrite app_nil.
  assert (H1 : match row_Assertions row with
    | [] => if String.eqb (row_Exemption row) "" then [RNeither row] else []
    | _ => if String.eqb (row_Exemption row) "" then [] else [RBoth row]
    end = [] <-> (row_Assertions row <> [] /\ row_Exemption row = "") \/ (row_Assertions row = [] /\ row_Exemption row <> "")).
  { destruct (row_Assertions row), (String.eqb_spec (row_Exemption row) ""); split; naive_solver. }
  rewrite H1, flat_map_none. split.
  - intros [H2 H3]. split; [done|]. split; [done|]. intros a Ha. specialize (H3 a Ha).
    destruct (decide (a ∈ Ran run)); [|done]. by destruct (decide (a ∈ Demonstrated run)).
  - intros (_ & H2 & H3). split; [done|]. intros a Ha. destruct (H3 a Ha). rewrite decide_True by done. by rewrite decide_True.
Qed.

Lemma deferral_refused row run : deferralProblems row run <> [].
Proof. done. Qed.

(** Indexing finds no repetition exactly when no two rows have one key, and then maps
    each key to its row. *)
Lemma index_rows_fold rows : forall byPair, let '(m, twice) := fold_left index_row rows (byPair, []) in
  (twice = [] <-> NoDup (map row_key rows) /\ forall row, row ∈ rows -> byPair !! row_key row = None) /\
  (twice = [] -> forall key row, m !! key = Some row <-> byPair !! key = Some row \/ (row ∈ rows /\ row_key row = key)).
Proof.
  assert (Hgen : forall byPair tw, let '(m, twice) := fold_left index_row rows (byPair, tw) in
    (twice = [] <-> tw = [] /\ NoDup (map row_key rows) /\ forall row, row ∈ rows -> byPair !! row_key row = None) /\
    (twice = [] -> forall key row, m !! key = Some row <-> byPair !! key = Some row \/ (row ∈ rows /\ row_key row = key))).
  { induction rows as [|r rows IH]; intros byPair tw; cbn [fold_left].
    - split; [split; [intros ->; split; [done|]; split; [constructor|by intros ? ?%elem_of_nil]|by intros [? _]]|].
      intros _ key row. split; [by left|]. intros [?|[?%elem_of_nil _]]; done.
    - unfold index_row at 2. cbn [fst snd]. destruct (byPair !! row_key r) as [old|] eqn:E.
      + specialize (IH byPair (tw ++ [RTwice r])%list). destruct (fold_left index_row rows _) as [m twice]. destruct IH as [H1 H2]. split.
        * rewrite H1. split; [by intros [[_ [=]]%app_nil _]|]. intros (_ & _ & H). rewrite (H r) in E; [done|by left].
        * intros Ht. by apply H1 in Ht as [[_ [=]]%app_nil _].
      + specialize (IH (<[row_key r := r]> byPair) tw). destruct (fold_left index_row rows _) as [m twice]. destruct IH as [H1 H2].
        assert (Hiff : twice = [] <-> tw = [] /\ NoDup (map row_key (r :: rows)) /\ forall row, row ∈ r :: rows -> byPair !! row_key row = None).
        { rewrite H1. cbn [map]. rewrite NoDup_cons. apply and_iff_congr. intros _. split.
          - intros [Hn Hk]. assert (Hr : forall row, row ∈ rows -> row_key r <> row_key row /\ byPair !! row_key row = None).
            { intros row Hrow. specialize (Hk row Hrow). by apply lookup_insert_None in Hk as [Hk1 Hk2]. }
            split; [split; [|done]|].
            + intros (row & Ek & Hrow)%list_elem_of_fmap. by apply (Hr row Hrow).
            + intros row [->|Hrow]%elem_of_cons; [done|by apply Hr].
          - intros [[Hnin Hn] Hk]. split; [done|]. intros row Hrow. apply lookup_insert_None. split; [apply Hk; by right|].
            intros Ek. apply Hnin. rewrite Ek. apply list_elem_of_fmap. by exists row. }
        split; [exact Hiff|]. intros Ht key row. rewrite (H2 Ht). rewrite elem_of_cons. apply Hiff in Ht as (_ & Hn & Hk).
        destruct (decide (row_key r = key)) as [<-|Hne].
        * rewrite lookup_insert_eq. rewrite E. split; [intros [[= <-]|[H3 H4]]; [right; by split; [left|]|right; by split; [right|]]|].
          intros [[=]|[[->|H3] H4]]; [by left|right; done].
        * rewrite lookup_insert_ne by done. split; [intros [?|[? ?]]; [by left|right; by split; [right|]]|]. intros [?|[[->|?] ?]]; [by left|done|right; done]. }
  intros byPair. specialize (Hgen byPair []). destruct (fold_left index_row rows (byPair, [])) as [m twice]. destruct Hgen as [H1 H2].
  split; [rewrite H1; tauto|done].
Qed.

(** The exemption of the web-view rule stands only while no source renders one. *)
Definition no_webview (t : Tree) : Prop := androidRendersAWebView t = Ok None.

Section Checks.
Context `{U : Unicode} `{X : JUnit} `{T : Times}.

(** The record of a tree holds against what ran. *)
Definition record_holds (t : Tree) : Prop :=
  exists rows ran, ParseRecord t = Some rows /\ assertionsThatRan t = Ok ran /\
    NoDup (map row_key rows) /\
    (forall clause surface, clause ∈ Clauses -> surface ∈ Surfaces ->
       exists row, row ∈ rows /\ row_key row = clause ++ "|" ++ surface /\ answered (ran surface) row) /\
    parks_nothing t /\
    (forall row, row ∈ rows -> row_key row = F11_android -> row_Exemption row <> "" -> no_webview t).

Lemma pairs_spec p : p ∈ pairs_of <-> fst p ∈ Clauses /\ snd p ∈ Surfaces.
Proof.
  destruct p as [c s]. unfold pairs_of. rewrite list_elem_of_In, in_flat_map. setoid_rewrite <- list_elem_of_In. setoid_rewrite list_elem_of_fmap. cbn [fst snd].
  split; [by intros (c' & Hc & s' & [= -> ->] & Hs)|]. intros [Hc Hs]. exists c. split; [done|]. by exists s.
Qed.

Lemma pair_problems_none byPair ran p : fst (pair_problems byPair ran p) = [] <->
  exists row, byPair !! pair_key p = Some row /\ answered (ran (snd p)) row.
Proof.
  unfold pair_problems. destruct (byPair !! pair_key p) as [row|]; [|split; [done|by intros (? & [=] & _)]].
  destruct (String.eqb_spec (row_DeferredTo row) "") as [Hd|Hd]; cbn [negb fst].
  - rewrite assertion_problems_none by done. split; [intros H; by exists row|by intros (? & [= <-] & H)].
  - split; [done|]. by intros (? & [= <-] & H & _).
Qed.

Lemma pair_defers_nothing byPair ran p : fst (pair_problems byPair ran p) = [] -> snd (pair_problems byPair ran p) = [].
Proof.
  intros H. apply pair_problems_none in H as (row & E & Hd & _). unfold pair_problems. rewrite E. by destruct (String.eqb_spec (row_DeferredTo row) "").
Qed.

Lemma exemption_none byPair t : exemption_problems byPair t = [] <->
  forall row, byPair !! F11_android = Some row -> row_Exemption row <> "" -> no_webview t.
Proof.
  unfold exemption_problems, no_webview. destruct (byPair !! F11_android) as [row|]; [|split; [by intros _ ? [=]|done]].
  destruct (String.eqb_spec (row_Exemption row) "") as [E|E]; [split; [by intros _ ? [= <-]|done]|].
  destruct (androidRendersAWebView t) as [[place|]|e]; [|done|]; (split; [done|]); intros H; discriminate (H row eq_refl E).
Qed.

Lemma ui_CheckRecord_spec t : ui_CheckRecord t = None <-> record_holds t.
Proof.
  unfold ui_CheckRecord, record_holds. destruct (ParseRecord t) as [rows|]; [|split; [done|by intros (? & ? & [=] & _)]].
  destruct (assertionsThatRan t) as [ran|e]; [|split; [done|by intros (? & ? & _ & [=] & _)]].
  pose proof (index_rows_fold rows ∅) as Hi. unfold index_rows. destruct (fold_left index_row rows (∅, [])) as [byPair twice]. destruct Hi as [Ht Hm].
  assert (Hnil : forall ps, match ps with [] => None | p :: l => Some (EProblems (p :: l)) end = None <-> ps = []) by (by intros [|]). cbv beta iota zeta.
  rewrite Hnil, !app_nil, !flat_map_none. clear Hnil.
  assert (Hpairs : (forall ps, ps ∈ map (pair_problems byPair ran) pairs_of -> fst ps = []) <->
    forall clause surface, clause ∈ Clauses -> surface ∈ Surfaces -> exists row, byPair !! pair_key (clause, surface) = Some row /\ answered (ran surface) row).
  { split.
    - intros H c s Hc Hs. apply (pair_problems_none byPair ran (c, s)). apply H. apply list_elem_of_fmap. exists (c, s). split; [done|]. by apply pairs_spec.
    - intros H ps (p & -> & Hp)%list_elem_of_fmap. apply pairs_spec in Hp as [Hc Hs]. apply pair_problems_none. destruct p as [c s]. by apply H. }
  assert (Hdef : (forall ps, ps ∈ map (pair_problems byPair ran) pairs_of -> fst ps = []) ->
    flat_map snd (map (pair_problems byPair ran) pairs_of) = []).
  { intros H. apply flat_map_none. intros ps Hps. specialize (H ps Hps). apply list_elem_of_fmap in Hps as (p & -> & _). by apply pair_defers_nothing. }
  assert (Hs : forall deferred, map RSuite (parkedSuiteProblems t deferred) = [] <-> parkedSuiteProblems t deferred = []) by (intros d; by destruct (parkedSuiteProblems t d)).
  rewrite Hs. split.
  - intros (H1 & H2 & H3 & H4). exists rows, ran. do 2 (split; [done|]). pose proof (proj1 Ht H1) as [Hn _]. specialize (Hm H1). split; [done|].
    rewrite (Hdef H2) in H3. split; [|split; [by apply parkedSuite_none|]].
    + intros c s Hc Hs'. destruct (proj1 Hpairs H2 c s Hc Hs') as (row & E & Ha). apply Hm in E as [E|[Hr Hk]]; [by rewrite lookup_empty in E|]. by exists row.
    + intros row Hr Hk. apply (proj1 (exemption_none byPair t) H4). apply Hm. by right.
  - intros (r & n & [= <-] & [= <-] & Hn & Hall & Hp & Hw).
    assert (H1 : twice = []) by (apply Ht; split; [done|]; intros row _; apply lookup_empty). specialize (Hm H1). split; [done|].
    assert (H2 : forall ps, ps ∈ map (pair_problems byPair ran) pairs_of -> fst ps = []).
    { apply Hpairs. intros c s Hc Hs'. destruct (Hall c s Hc Hs') as (row & Hr & Hk & Ha). exists row. split; [|done]. apply Hm. by right. }
    split; [done|]. rewrite (Hdef H2). split; [by apply parkedSuite_none|]. apply exemption_none. intros row E. apply Hm in E as [E|[Hr Hk]]; [by rewrite lookup_empty in E|].
    by apply Hw.
Qed.

(** C30: the record check accepts exactly a record in which no pair of a convention and a surface is written twice, each of the twenty-two pairs is answered - by assertions, every one of which ran green in its route's last run and was shown able to fail there, or by an exemption, never by both and never by a deferral - while the instrumented suite ignores no case and the exemption from a policy stands only as long as no Android source names a web view. *)
Theorem CheckRecord_holds t : ui_CheckRecord t = None <-> record_holds t.
Proof. apply ui_CheckRecord_spec. Qed.

(* ------------------------------------------------------------------ *)
(** ** The Android route *)

Lemma deferred_none t : deferredAssertions t = option_map (fun _ => ∅) (ParseRecord t).
Proof.
  unfold deferredAssertions. destruct (ParseRecord t) as [rows|]; [|done]. cbn [option_map]. f_equal.
  assert (E : flat_map (fun row => if String.eqb (row_DeferredTo row) "" then [] else match owner_of (row_key row) with None => [] | Some _ => row_Deferred row end) rows = []).
  { apply flat_map_none. intros row _. by destruct (String.eqb (row_DeferredTo row) ""). }
  by rewrite E.
Qed.

(** The assertions the record names on the Android screen. *)
Definition named_on_android (rows : list recordRow) (a : string) : Prop :=
  exists row, row ∈ rows /\ row_Surface row = AndroidSurface /\ a ∈ row_Assertions row.

Lemma recordedAssertions_spec t rows : ParseRecord t = Some rows ->
  exists l, recordedAssertions t AndroidSurface = Some l /\ forall a, a ∈ l <-> named_on_android rows a.
Proof.
  intros E. unfold recordedAssertions. rewrite E. eexists. split; [done|]. intros a. unfold named_on_android.
  rewrite stable_sort_perm, elem_of_remove_dups, list_elem_of_In, in_flat_map. setoid_rewrite <- list_elem_of_In. split.
  - intros (row & Hr & Ha). exists row. destruct (String.eqb_spec (row_Surface row) AndroidSurface); [done|by apply elem_of_nil in Ha].
  - intros (row & Hr & Hs & Ha). exists row. split; [done|]. by rewrite Hs, String.eqb_refl.
Qed.

Definition claims_unmutated (t : Tree) : Prop :=
  exists body, t !! parkedSuite = Some (Some body) /\ claim_cases body <> [] /\ forall name mutated, (name, mutated) ∈ claim_cases body -> mutated = false.
Definition evidence_written (t : Tree) : Prop :=
  exists text, t !! EvidenceLog = Some (Some text) /\ TrimSpace text <> "" /\ (forall marker, marker ∈ evidenceMarkers -> Contains text marker = true) /\
    minimumMeasurementLines <= measured_lines text.

Lemma omap_none {A B} (f : A -> option B) (l : list A) : omap f l = [] <-> forall x, x ∈ l -> f x = None.
Proof.
  induction l as [|x l IH]; [split; [by intros _ ? ?%elem_of_nil|done]|]. cbn [omap list_omap]. setoid_rewrite elem_of_cons.
  destruct (f x) eqn:E; [split; [done|intros H; rewrite (H x) in E by (by left); done]|]. rewrite IH. naive_solver.
Qed.

Lemma claims_none t : unmutatedClaimProblems t = [] <-> claims_unmutated t.
Proof.
  unfold unmutatedClaimProblems, claims_unmutated. destruct (t !! parkedSuite) as [[body|]|]; [|split; [done|by intros (? & [=] & _)]..].
  rewrite app_nil, omap_none. split.
  - intros [H1 H2]. exists body. split; [done|]. split; [intros E; by rewrite E in H2|]. intros name mutated Hin. specialize (H1 _ Hin). cbn [fst snd] in H1. by destruct mutated.
  - intros (b & [= <-] & H1 & H2). split; [|by destruct (claim_cases body)]. intros [name mutated] Hin. cbn [fst snd]. by rewrite (H2 _ _ Hin).
Qed.

Lemma evidence_none t : gradingEvidenceProblems t = [] <-> evidence_written t.
Proof.
  unfold gradingEvidenceProblems, evidence_written. destruct (t !! EvidenceLog) as [[text|]|]; [|split; [done|by intros (? & [=] & _)]..].
  transitivity (TrimSpace text <> "" /\ (forall marker, marker ∈ evidenceMarkers -> Contains text marker = true) /\ minimumMeasurementLines <= measured_lines text).
  2:{ split; [by exists text|]. by intros (? & [= <-] & H). }
  destruct (String.eqb_spec (TrimSpace text) "") as [E|E]; [naive_solver|]. rewrite app_nil.
  assert (Hm : match List.filter (fun m => negb (Contains text m)) evidenceMarkers with [] => [] | m :: l => [VMissing (m :: l)] end = [] <->
    forall marker, marker ∈ evidenceMarkers -> Contains text marker = true).
  { transitivity (List.filter (fun m => negb (Contains text m)) evidenceMarkers = []); [by destruct (List.filter _ evidenceMarkers)|].
    rewrite filter_nil_iff. by setoid_rewrite negb_false_iff. }
  rewrite Hm. destruct (Z.ltb_spec (measured_lines text) minimumMeasurementLines); split.
  - by intros [_ ?].
  - intros (_ & _ & ?). lia.
  - by intros [? _].
  - by intros (_ & ? & _).
Qed.

Lemma run_problems_none expected run : run_problems expected run = [] <-> (forall a, a ∈ expected -> a ∈ Ran run) /\ Ran run ⊆ Demonstrated run.
Proof.
  unfold run_problems. rewrite !app_nil, !flat_map_none. setoid_rewrite decide_nil. split.
  - intros (H1 & H2 & _). split; [done|]. intros a Ha. apply H2. rewrite stable_sort_perm. by apply elem_of_elements.
  - intros [H1 H2]. split; [done|]. split; [intros a Ha; rewrite stable_sort_perm in Ha; apply H2; by apply elem_of_elements|].
    destruct (Nat.ltb_spec (size (Demonstrated run)) (size (Ran run))) as [Hlt|]; [|done]. apply subseteq_size in H2. lia.
Qed.

(** The Android route is reported green exactly when the record names something on that screen, every assertion it names ran green on the emulator, every claim that ran at all has a demonstration that ran green beside it, the suite ignores no case, has claims and selects no mutation for any of them, and the measurements were written down under every promised heading. *)
Theorem CheckAndroidRun_holds t :
  CheckAndroidRun t = None <->
  exists rows run, ParseRecord t = Some rows /\ androidRun t = Ok run /\
    (exists a, named_on_android rows a) /\ (forall a, named_on_android rows a -> a ∈ Ran run) /\ Ran run ⊆ Demonstrated run /\
    parks_nothing t /\ claims_unmutated t /\ evidence_written t.
Proof.
  unfold CheckAndroidRun. rewrite deferred_none. destruct (ParseRecord t) as [rows|] eqn:Ep.
  2:{ unfold recordedAssertions. rewrite Ep. split; [done|]. by intros (? & ? & [=] & _). }
  destruct (recordedAssertions_spec t rows Ep) as (l & -> & Hl). cbn [option_map].
  destruct (androidRun t) as [run|e]; [|split; [by destruct l|by intros (? & ? & _ & [=] & _)]].
  assert (Hne : l <> [] <-> exists a, named_on_android rows a).
  { setoid_rewrite <- Hl. destruct l as [|a l]; split; [done|by intros [? ?%elem_of_nil]|exists a; by left|done]. }
  transitivity (l <> [] /\ run_problems l run = [] /\ parkedSuiteProblems t ∅ = [] /\ unmutatedClaimProblems t = [] /\ gradingEvidenceProblems t = []).
  - destruct l as [|a l]; [split; [done|by intros [? _]]|].
    destruct (run_problems (a :: l) run), (parkedSuiteProblems t ∅), (unmutatedClaimProblems t), (gradingEvidenceProblems t); simpl; split; naive_solver.
  - rewrite run_problems_none, parkedSuite_none, claims_none, evidence_none, Hne. setoid_rewrite Hl. split.
    + intros (H1 & [H2 H3] & H4 & H5 & H6). by exists rows, run.
    + intros (r & n & [= <-] & [= <-] & H). tauto.
Qed.
End Checks.

(* ------------------------------------------------------------------ *)
(** ** The browser route *)

Lemma filter_length_all {A} (f : A -> bool) l : (Z.of_nat (length (List.filter f l)) =? Z.of_nat (length l)) = true <-> forall x, x ∈ l -> f x = true.
Proof.
  rewrite Z.eqb_eq. split.
  - induction l as [|x l IH]; [by intros _ ? ?%elem_of_nil|]. simpl. pose proof (filter_length_le f l) as Hle. intros H y Hy.
    destruct (f x) eqn:E; simpl in H; [|lia]. apply elem_of_cons in Hy as [->|Hy]; [done|]. apply IH; [lia|done].
  - intros H. by rewrite filter_all.
Qed.

Lemma Summarise_ok results : Summarise results = SOk <-> forall r, r ∈ results -> re_Passed r = true /\ re_Demonstrated r = true.
Proof.
  unfold Summarise. pose proof (filter_length_all re_Passed results) as Hp. pose proof (filter_length_all re_Demonstrated results) as Hd.
  destruct (Z.of_nat (length (List.filter re_Passed results)) =? _); cbn [negb].
  - destruct (Z.of_nat (length (List.filter re_Demonstrated results)) =? _); cbn [negb]; split.
    + intros _ r Hr. split; [by apply Hp|by apply Hd].
    + done.
    + done.
    + intros H. assert (false = true) by (apply Hd; intros r Hr; by apply H). done.
  - split; [done|]. intros H. assert (false = true) by (apply Hp; intros r Hr; by apply H). done.
Qed.

(* ------------------------------------------------------------------ *)
(** ** A record at work *)

Module UiExample.
#[local] Existing Instance ascii_unicode.
(** A result file that says "all" reports one claim and its demonstration; one that
    says "half" lost the demonstration. *)
#[local] Instance suites : JUnit := {| xml_Suite := fun body =>
  if String.eqb body "all" then Some [mkTestcase "drawn" false false; mkTestcase "drawn_demonstration" false false]
  else if String.eqb body "half" then Some [mkTestcase "drawn" false false; mkTestcase "drawn_demonstration" false true] else None |}.
#[local] Instance no_times : Times := {| time_text := fun _ => true |}.

Definition newline : string := of_list [byte_of 10].
Definition quoted (s : string) : string := let q := of_list [byte_of 34] in q ++ s ++ q.
Definition row_text (p : string * string) : string :=
  "| " ++ fst p ++ " | " ++ snd p ++ " | " ++ (if String.eqb (pair_key p) F11_android then "-" else "`drawn`") ++
  " | " ++ (if String.eqb (pair_key p) F11_android then "no browser surface" else "-") ++ " |" ++ newline.
Definition record_text : string := fold_right (fun p text => row_text p ++ text) "" pairs_of.
Definition web_run : string := "{" ++ quoted "ran" ++ ":[" ++ quoted "drawn" ++ "]," ++ quoted "demonstrated" ++ ":[" ++ quoted "drawn" ++ "]}".
Definition repository (suite results main : string) : Tree :=
  list_to_map [(ui_RecordFile, Some record_text); (webRunFile, Some web_run); (parkedSuite, Some suite);
               ((resultsDir ++ "/TEST-device.xml"), Some results); ("android/app/src/main/Main.kt", Some main)].

Example record_holds : ui_CheckRecord (repository "class UiClaimTest" "all" "class Main") = None.
Proof. vm_compute. reflexivity. Qed.
(** A demonstration that was skipped leaves its claim without evidence on every row. *)
Example demonstration_lost :
  match ui_CheckRecord (repository "class UiClaimTest" "half" "class Main") with Some (EProblems ps) => length ps | _ => 0%nat end = 10%nat.
Proof. vm_compute. reflexivity. Qed.
(** The exemption of the web-view rule lapses with the first web view. *)
Example exemption_lapsed :
  ui_CheckRecord (repository "class UiClaimTest" "all" "val v = WebView(this)") =
  Some (EProblems [RWebView "android/app/src/main/Main.kt (contains WebView)"]).
Proof. vm_compute. reflexivity. Qed.
(** A cell that defers to nobody is read as no deferral, so an exemption beside it is
    accepted. *)
Example deferred_to_nobody :
  match parse_row (1, "| F1 | browser map | deferred to : drawn | not applicable |") with
  | Some row => (row_Deferred row, assertion_problems row newSurfaceRun) | None => ([], [])
  end = (["drawn"], []).
Proof. vm_compute. reflexivity. Qed.
End UiExample.
