(* ===== verification/UiRefusal.v ===== *)
(** The refusals of the UI verification routes ([internal/uiverify]: browser.go,
    refusal.go, readouts.go): what a missing prerequisite answers, the search for a
    browser engine, the check that a refusal says what it must and claims nothing, and
    the accessible names read off the engine's accessibility tree.  The machine - files,
    the programs on PATH, the engines and the emulator script - is the class [Machine];
    progress lines are left out. *)

From Stdlib Require Import ZArith Lia Bool String Ascii List.
From stdpp Require Import base option list strings gmap.
From S2P Require Import Prelude GoStrings Json Repo UiRecord.
Local Open Scope string_scope.
Local Open Scope Z_scope.

Definition nl : string := of_list [byte_of 10].

(* ------------------------------------------------------------------ *)
(** ** Refusals *)

(** [Refusal]; the error beneath it is its text. *)
Record Refusal := mkRefusal { rf_Criterion : string; rf_Prerequisite : string; rf_HowToObtain : string; rf_Underlying : option string }.
Definition disclaimer : string :=
  nl ++ "  No clause is reported as passed, skipped or green by this run." ++ nl ++
  "  F2 admits one grader for a rendered claim: the runtime that draws it. Reading the" ++ nl ++
  "  page's source, or a recorded manual observation, is not offered here as a substitute." ++ nl.
(** [Refusal.Error]. *)
Definition Refusal_Error (r : Refusal) : string :=
  nl ++ "REFUSED: cannot grade " ++ rf_Criterion r ++ nl ++
  "  missing prerequisite: " ++ rf_Prerequisite r ++ nl ++
  "  how to obtain it:     " ++ rf_HowToObtain r ++ nl ++
  (match rf_Underlying r with Some e => "  underlying error:     " ++ e ++ nl | None => "" end) ++
  disclaimer.

(** An error of a route: a refusal, or another. *)
Inductive route_error := Refused (r : Refusal) | Failed (text : string).
Definition error_text (e : route_error) : string := match e with Refused r => Refusal_Error r | Failed text => text end.

(** [firstLine]. *)
Definition firstLine (e : route_error) : string :=
  match e with
  | Refused (mkRefusal _ _ _ (Some underlying)) => TrimSpace underlying
  | _ =>
      match List.find (fun l => negb (String.eqb l "") && negb (HasPrefix l "REFUSED")) (map TrimSpace (Split (error_text e) (byte_of 10))) with
      | Some l => l
      | None => error_text e
      end
  end.

(* ------------------------------------------------------------------ *)
(** ** The browser engine *)

Definition browserCandidates : list string := ["google-chrome-stable"; "google-chrome"; "chromium"; "chromium-browser"; "chrome"].
Definition webCriteria : string := "AC1-AC11, AC21, AC22 (the map's rendered claims, F1/F2/F9/F10/F11)".

(** The process environment, and what it answers for a name. *)
Notation Environ := (gmap string string).
Definition Getenv (env : Environ) (key : string) : string := default "" (env !! key).

(** What an SDK staged for the emulator script holds: its files, and whether it is
    there at all. *)
Record staged := mkStaged { sdk_present : bool; sdk_files : list string; sdk_dirs : list string }.

(** The machine: the error of looking at a path, a program on a PATH, the error of
    starting an engine and of switching its records on, what the checks answer with an
    engine, and the output of the emulator script and whether it failed. *)
Class Machine := {
  stat : string -> option string;
  LookPath : string -> string -> option string;
  launch : string -> option string;
  enable_records : string -> option string;
  grade : string -> list Result;
  TempDir : string;
  emulator_script : string -> staged -> string * bool }.

Section Browser.
Context `{M : Machine}.

(** [FindEngines]. *)
Definition FindEngines (env : Environ) : result route_error (list string) :=
  let p := Getenv env "TRACKER_BROWSER" in
  if negb (String.eqb p "") then
    match stat p with
    | Some e => Err (Refused (mkRefusal webCriteria ("the browser engine named by TRACKER_BROWSER (" ++ p ++ ")")
                                "unset TRACKER_BROWSER to search PATH, or point it at an installed Chromium" (Some e)))
    | None => Ok [p]
    end
  else
    match omap (LookPath (Getenv env "PATH")) browserCandidates with
    | [] => Err (Refused (mkRefusal webCriteria ("a Chromium-family browser engine on PATH (tried: " ++ Join browserCandidates ", " ++ ")")
                            "install chromium (Debian: the chromium package) or Google Chrome, or set TRACKER_BROWSER to its path" None))
    | found => Ok found
    end.

(** [NewSession]: the error, if it does not come up. *)
Definition NewSession (path : string) : option route_error :=
  match launch path with
  | Some e => Some (Refused (mkRefusal webCriteria ("a browser engine that will actually start (" ++ path ++ ")")
                               ("check the engine runs headless in this environment: " ++ path ++ " --headless=new --no-sandbox --dump-dom about:blank") (Some e)))
  | None => option_map (fun e => Failed ("enabling the engine's own records: " ++ e)) (enable_records path)
  end.
(** [NewSessionFrom]: the first engine that starts. *)
Fixpoint NewSessionFrom (engines : list string) (reasons : list string) : result route_error string :=
  match engines with
  | [] => Err (Refused (mkRefusal webCriteria "a browser engine that will actually START under a driver"
      ("install Google Chrome, or a NON-SNAP chromium (a snap-confined browser starts but " ++
       "never publishes a DevTools endpoint), or set TRACKER_BROWSER to one that does")
      (Some ("every engine found on PATH failed:" ++ nl ++ "      " ++ Join reasons (nl ++ "      ")))))
  | e :: engines =>
      match NewSession e with
      | None => Ok e
      | Some err => NewSessionFrom engines (reasons ++ [(e ++ ": " ++ firstLine err)%string])
      end
  end.
(** [RunWeb] up to its checks: nothing is printed before an engine came up. *)
Definition run_web (env : Environ) : result route_error (list Result) :=
  match FindEngines env with
  | Err e => Err e
  | Ok engines => match NewSessionFrom engines [] with Err e => Err e | Ok engine => Ok (grade engine) end
  end.
End Browser.

(* ------------------------------------------------------------------ *)
(** ** What a refusal must say *)

Definition must_say : list (string * string) :=
  [("the criterion it was verifying", "cannot grade"); ("the missing prerequisite", "missing prerequisite"); ("how to obtain it", "how to obtain")].
Definition negations : list string := ["no clause"; "not offered"; "never"; "rather than"; "no android clause"; "is not"].
Definition forbidden : list string := ["skipping"; "skipped"; " green"; "satisfied"; "clause passed"].

Inductive text_problem := Unnamed (label : string) | Claims (word line : string).
Inductive refusal_problem :=
| NoError (what : string) | BareError (what text : string) | BadText (what : string) (p : text_problem)
| NotNamed (what names text : string) | ScriptPassed (what : string).

Section Text.
Context `{U : Unicode}.

(** [checkRefusalText]. *)
Definition line_problems (line : string) : list text_problem :=
  if existsb (Contains line) negations then []
  else flat_map (fun f => if Contains line f then [Claims (TrimSpace f) (TrimSpace line)] else []) forbidden.
Definition checkRefusalText (text : string) : list text_problem :=
  let lower := ToLower text in
  (flat_map (fun w : string * string => if Contains lower (snd w) then [] else [Unnamed (fst w)]) must_say ++
   flat_map line_problems (Split lower (byte_of 10)))%list.

(* ------------------------------------------------------------------ *)
(** ** The absences *)

Record browserAbsence := mkBrowserAbsence { ba_what : string; ba_names : string; ba_stage : string }.
(** [browserAbsences]: what TRACKER_BROWSER is pointed at, in the temporary
    directory.  The second is a program in a fresh directory that exits at once. *)
Definition no_engine : browserAbsence :=
  mkBrowserAbsence "no browser engine" "the browser engine named by TRACKER_BROWSER" "uiverify-no-such-browser".
Definition dead_engine (fresh : string) : browserAbsence :=
  mkBrowserAbsence "an engine that will not start under a driver" "a browser engine that will actually START under a driver" (fresh ++ "/chromium").
Definition browserAbsences (fresh : string) : list browserAbsence := [no_engine; dead_engine fresh].

Record sdkPins := mkPins { pin_avd : string; pin_image : string }.
Record androidAbsence := mkAndroidAbsence { aa_what : string; aa_subcommand : string; aa_names : string; aa_stage : sdkPins -> staged }.
(** [stageSDK]. *)
Definition stageSDK (p : sdkPins) (withImage withAVD : bool) : staged :=
  mkStaged true
    (["emulator/emulator"; "platform-tools/adb"] ++
     (if withImage then [(ReplaceAll (pin_image p) ";" "/" ++ "/system.img")%string] else []) ++
     (if withAVD then [("avd/" ++ pin_avd p ++ ".ini")%string] else []))%list [].
Definition androidAbsences : list androidAbsence :=
  [mkAndroidAbsence "no SDK" "require" "an Android SDK" (fun _ => mkStaged false [] []);
   mkAndroidAbsence "no emulator binary" "require" "the Android emulator binary" (fun _ => mkStaged true [] ["licenses"]);
   mkAndroidAbsence "no system image" "require" "the system image" (fun p => stageSDK p false false);
   mkAndroidAbsence "no AVD" "require" "an AVD named" (fun p => stageSDK p true false);
   mkAndroidAbsence "no booted device" "boot" "a BOOTED emulator device" (fun p => stageSDK p true true)].

Context `{M : Machine}.

(** One absence of the browser route: the environment it leaves, and its problems. *)
Definition emptied (a : browserAbsence) (env : Environ) : Environ :=
  <["PATH" := TempDir ++ "/uiverify-empty-path"]> (<["TRACKER_BROWSER" := TempDir ++ "/" ++ ba_stage a]> env).
Definition put_back (before env : Environ) : Environ :=
  <["PATH" := Getenv before "PATH"]>
    (match before !! "TRACKER_BROWSER" with Some saved => <["TRACKER_BROWSER" := saved]> env | None => delete "TRACKER_BROWSER" env end).
Definition browser_problems (a : browserAbsence) (answer : result route_error (list Result)) : list refusal_problem :=
  match answer with
  | Ok _ => [NoError (ba_what a)]
  | Err (Failed text) => [BareError (ba_what a) text]
  | Err (Refused r) =>
      (map (BadText ("browser route (" ++ ba_what a ++ ")")) (checkRefusalText (Refusal_Error r)) ++
       if Contains (Refusal_Error r) (ba_names a) then [] else [NotNamed (ba_what a) (ba_names a) (TrimSpace (Refusal_Error r))])%list
  end.
Definition browser_absence (a : browserAbsence) (env : Environ) : Environ * list refusal_problem :=
  (put_back env (emptied a env), browser_problems a (run_web (emptied a env))).

Definition script_problems (a : androidAbsence) (answer : string * bool) : list refusal_problem :=
  let '(out, failed) := answer in
  if negb failed then [ScriptPassed (aa_what a)]
  else (map (BadText ("android route (" ++ aa_what a ++ ")")) (checkRefusalText out) ++
        if Contains out (aa_names a) then [] else [NotNamed (aa_what a) (aa_names a) (TrimSpace out)])%list.

Fixpoint browser_absences (l : list browserAbsence) (env : Environ) : Environ * list refusal_problem :=
  match l with
  | [] => (env, [])
  | a :: l =>
      let '(env, ps) := browser_absence a env in
      let '(env, ps') := browser_absences l env in (env, ps ++ ps')%list
  end.
(** [CheckRefusal]: the environment after, and the problems. *)
Definition CheckRefusal (fresh : string) (pins : sdkPins) (env : Environ) : Environ * list refusal_problem :=
  let '(env, browser) := browser_absences (browserAbsences fresh) env in
  (env, browser ++ flat_map (fun a => script_problems a (emulator_script (aa_subcommand a) (aa_stage a pins))) androidAbsences)%list.
End Text.

(* ------------------------------------------------------------------ *)
(** ** Accessible names *)

(** A node of the engine's accessibility tree; a property is its raw JSON text. *)
Record axNode := mkNode { ax_NodeID : string; ax_Ignored : bool; ax_Role : option string; ax_Name : option string }.
Definition double_quote : string := of_list [byte_of 34].
Definition interactiveRoles : list string :=
  ["button"; "link"; "textbox"; "checkbox"; "combobox"; "radio"; "slider"; "switch"; "searchbox"; "menuitem"; "spinbutton"; "application"].
(** [decodeAX]. *)
Definition decodeAX (v : option string) : string :=
  match v with
  | None => ""
  | Some raw =>
      if String.eqb raw "" then ""
      else match option_map as_string (Unmarshal raw) with
           | Some (Some (Some s)) => s
           | Some (Some None) => ""
           | _ => Trim raw double_quote
           end
  end.
Definition nodeRole (n : axNode) : string := decodeAX (ax_Role n).
Definition nodeName (n : axNode) : string := TrimSpace (decodeAX (ax_Name n)).
Definition unnamedInteractive (nodes : list axNode) : list string :=
  omap (fun n => if negb (ax_Ignored n) && existsb (String.eqb (nodeRole n)) interactiveRoles && String.eqb (nodeName n) ""
                 then Some (nodeRole n ++ " (axNodeId " ++ ax_NodeID n ++ ")") else None) nodes.
Definition nameOfStatus (nodes : list axNode) : string :=
  match List.find (fun n => negb (ax_Ignored n) && String.eqb (nodeRole n) "status") nodes with Some n => nodeName n | None => "" end.

Inductive name_problem := EmptyTree | Missing (controls : list string) | NoStatusName.
(** [axTree] and the check of the accessible names over the tree it read. *)
Definition accessible_names (nodes : list axNode) : option name_problem :=
  match nodes with
  | [] => Some EmptyTree
  | _ =>
      match unnamedInteractive nodes with
      | [] => if String.eqb (nameOfStatus nodes) "" then Some NoStatusName else None
      | missing => Some (Missing missing)
      end
  end.
