(* ===== verification/UiScript.v ===== *)
(** Running the emulator script with one prerequisite missing ([internal/uiverify/
    refusal.go]: runAndroidScript, makeVar, repoRootFromEnv, indent): the environment it is
    given and the temporary directories around it.  Making a directory, staging an SDK
    tree in one, [make], the working directory and the script itself are the class
    [Workbench]; of the file system the temporary directories that stand are kept. *)

From Stdlib Require Import ZArith Lia Bool String Ascii List.
From stdpp Require Import base option list strings gmap.
From S2P Require Import Prelude GoStrings Repo Auth MapPage UiRefusal.
Local Open Scope string_scope.
Local Open Scope Z_scope.

Class Workbench := {
  MkdirTemp : list string -> string -> result string string;
  write_tree : string -> staged -> option string;
  make_output : string -> string -> option string;
  Getwd : option string;
  bash : string -> string -> Environ -> string * option string }.

(** [indent]. *)
Fixpoint trim_newlines (l : list ascii) : list ascii := match l with c :: r => if Ascii.eqb c (byte_of 10) then trim_newlines r else l | [] => [] end.
Definition TrimRight_newlines (s : string) : string := of_list (rev (trim_newlines (rev (to_list s)))).
Definition indent (s : string) : string :=
  String.concat "" (map (fun line => "    " ++ line ++ of_list [byte_of 10]) (Split (TrimRight_newlines s) (byte_of 10))).

(** [filepath.Join] of a path, which may be empty, and a name. *)
Definition join_name (dir name : string) : string := Clean (if String.eqb dir "" then name else dir ++ "/" ++ name).

Section Script.
Context `{U : Unicode} `{W : Workbench}.

Definition repoRootFromEnv (env : Environ) : string :=
  let r := Getenv env "TRACKER_REPO_ROOT" in if negb (String.eqb r "") then r else default "." Getwd.
Definition makeVar (root target : string) : string := match make_output root target with Some out => TrimSpace out | None => "" end.

(** [os.MkdirTemp] with the [os.RemoveAll] deferred after it. *)
Definition with_temp (prefix : string) (k : string -> list string -> string * option string * list string) (dirs : list string) : string * option string * list string :=
  match MkdirTemp dirs prefix with
  | Err e => ("", Some e, dirs)
  | Ok dir => let '(answer, dirs) := k dir (dir :: dirs) in (answer, List.filter (fun d => negb (String.eqb d dir)) dirs)
  end.
(** Later settings of a variable win. *)
Definition with_settings (env : Environ) (settings : list (string * string)) : Environ := foldl (fun m kv => <[fst kv := snd kv]> m) env settings.
Definition script_settings (sdk home : string) (p : sdkPins) : list (string * string) :=
  [("ANDROID_SDK_ROOT", sdk); ("ANDROID_HOME", ""); ("ANDROID_AVD_HOME", join_name sdk "avd"); ("ANDROID_PREFS_ROOT", ""); ("ANDROID_SDK_HOME", "");
   ("HOME", home); ("TRACKER_AVD", pin_avd p); ("TRACKER_SYS_IMAGE", pin_image p); ("TRACKER_EMULATOR_BOOT_TIMEOUT", "0")].
Definition script_run (env : Environ) (root sdk : string) (p : sdkPins) (a : androidAbsence) : list string -> string * option string * list string :=
  with_temp "uiverify-home-" (fun home dirs =>
    (bash (join_name root "scripts/android-emulator.sh") (aa_subcommand a) (with_settings env (script_settings sdk home p)), dirs)).
Definition pins_of (root : string) : sdkPins := mkPins (makeVar root "print-avd") (makeVar root "print-sys-image").
Definition runAndroidScript (env : Environ) (a : androidAbsence) (dirs : list string) : string * option string * list string :=
  let root := repoRootFromEnv env in
  let p := pins_of root in
  let tree := aa_stage a p in
  if negb (sdk_present tree) then script_run env root "" p a dirs
  else with_temp "uiverify-sdk-" (fun dir dirs =>
         match write_tree dir tree with Some e => ("", Some e, dirs) | None => script_run env root dir p a dirs end) dirs.

(** What the script is given: the developer's own environment with the SDK, the homes and
    the pins replaced. *)
Definition isolated (env seen : Environ) (p : sdkPins) (sdk home : string) : Prop :=
  seen !! "HOME" = Some home /\ seen !! "ANDROID_SDK_ROOT" = Some sdk /\ seen !! "ANDROID_AVD_HOME" = Some (join_name sdk "avd") /\
  seen !! "ANDROID_HOME" = Some "" /\ seen !! "ANDROID_SDK_HOME" = Some "" /\ seen !! "ANDROID_PREFS_ROOT" = Some "" /\
  seen !! "TRACKER_AVD" = Some (pin_avd p) /\ seen !! "TRACKER_SYS_IMAGE" = Some (pin_image p) /\ seen !! "TRACKER_EMULATOR_BOOT_TIMEOUT" = Some "0" /\
  (forall name, ~ name ∈ map fst (script_settings sdk home p) -> seen !! name = env !! name).
Lemma settings_isolated env sdk home p : isolated env (with_settings env (script_settings sdk home p)) p sdk home.
Proof.
  unfold isolated, script_settings. cbn [with_settings foldl fst snd map].
  repeat (split; [repeat first [by rewrite lookup_insert_eq|rewrite lookup_insert_ne by done]|]).
  intros name Hn. rewrite !not_elem_of_cons in Hn. destruct_and! Hn. by rewrite !lookup_insert_ne by done.
Qed.
Lemma with_temp_tidy prefix k dirs : (forall dirs prefix dir, MkdirTemp dirs prefix = Ok dir -> ~ dir ∈ dirs) ->
  (forall dir ds, snd (k dir ds) = ds) -> snd (with_temp prefix k dirs) = dirs.
Proof.
  intros Hf Hk. unfold with_temp. destruct (MkdirTemp dirs prefix) as [dir|e] eqn:Em; [|done]. specialize (Hk dir (dir :: dirs)).
  destruct (k dir (dir :: dirs)) as [answer ds]. cbn in *. subst ds. cbn [List.filter]. rewrite String.eqb_refl. cbn.
  apply Hf in Em. clear -Em. induction dirs as [|d dirs IH]; [done|]. apply not_elem_of_cons in Em as [Hne Hn]. cbn [List.filter].
  destruct (String.eqb_spec d dir); [congruence|]. cbn. by rewrite IH.
Qed.

(** The script never runs on the developer's own SDK, devices or home: whatever the
    environment, either nothing ran, or it ran once in an environment whose SDK, home and
    pins are those staged and whose other variables are untouched, with a home made for it;
    and no temporary directory is left behind, on any path. *)
Theorem script_isolated (env : Environ) (a : androidAbsence) (dirs : list string) :
  (forall dirs prefix dir, MkdirTemp dirs prefix = Ok dir -> ~ dir ∈ dirs) ->
  snd (runAndroidScript env a dirs) = dirs /\
  let root := repoRootFromEnv env in let answer := fst (runAndroidScript env a dirs) in
  (fst answer = "" /\ is_Some (snd answer)) \/
  exists sdk home seen, answer = bash (join_name root "scripts/android-emulator.sh") (aa_subcommand a) seen /\
    isolated env seen (pins_of root) sdk home /\ ~ home ∈ dirs /\ (sdk = "" \/ ~ sdk ∈ dirs).
Proof.
  intros Hf. unfold runAndroidScript. set (root := repoRootFromEnv env). set (p := pins_of root).
  assert (Htidy : forall sdk ds, snd (script_run env root sdk p a ds) = ds) by (intros sdk ds; by apply with_temp_tidy).
  assert (Hrun : forall sdk ds, let answer := fst (script_run env root sdk p a ds) in (fst answer = "" /\ is_Some (snd answer)) \/
    exists home seen, answer = bash (join_name root "scripts/android-emulator.sh") (aa_subcommand a) seen /\ isolated env seen p sdk home /\ ~ home ∈ ds).
  { intros sdk ds. unfold script_run, with_temp. destruct (MkdirTemp ds "uiverify-home-") as [home|e] eqn:Em; [right|left; by split; [|eexists]].
    exists home, (with_settings env (script_settings sdk home p)). split; [by destruct (bash _ _ _)|]. split; [apply settings_isolated|by apply (Hf ds "uiverify-home-")]. }
  destruct (negb (sdk_present (aa_stage a p))).
  - split; [apply Htidy|]. destruct (Hrun "" dirs) as [H|(home & seen & H1 & H2 & H3)]; [by left|right; exists "", home, seen; auto].
  - split; [apply with_temp_tidy; [done|]; intros dir ds; by destruct (write_tree _ _)|].
    unfold with_temp. destruct (MkdirTemp dirs "uiverify-sdk-") as [sdk|e] eqn:Em; [|left; by split; [|eexists]].
    destruct (write_tree sdk (aa_stage a p)) as [e|]; [left; by split; [|eexists]|].
    specialize (Hrun sdk (sdk :: dirs)). destruct (script_run env root sdk p a (sdk :: dirs)) as [answer ds]. cbn [fst] in *.
    destruct Hrun as [H|(home & seen & H1 & H2 & H3)]; [by left|right]. exists sdk, home, seen. split; [done|]. split; [done|].
    apply not_elem_of_cons in H3 as [_ H3]. split; [done|]. right. by apply (Hf dirs "uiverify-sdk-").
Qed.
End Script.
