(* ===== verification/UiRefusalSpec.v ===== *)
(** What the refusals are worth: a [Refusal] whose parts use none of the words that
    claim a pass says everything it must and claims nothing ([refusal_text_holds]); the
    browser half of the refusal check bites, and hands the environment back
    ([missing_engine_refused]); the accessible names hold exactly when every control a
    person can operate has one and the first status region has one. *)

From Stdlib Require Import ZArith Lia Bool String Ascii List.
From stdpp Require Import base option list strings gmap.
From S2P Require Import Prelude GoStrings Occurs Json Repo UiRecord UiRefusal.
Local Open Scope string_scope.
Local Open Scope Z_scope.

(* ------------------------------------------------------------------ *)
(** ** Texts that claim nothing *)

(** A text is quiet when none of the forbidden words occurs in it. *)
Definition quiet (s : string) : bool := forallb (fun w => negb (Contains s w)) forbidden.
Lemma quiet_spec s : quiet s = true <-> forall w, w ∈ forbidden -> Contains s w = false.
Proof. unfold quiet. rewrite forallb_forall. setoid_rewrite negb_true_iff. by setoid_rewrite list_elem_of_In. Qed.

Lemma quiet_append a b : quiet (a ++ b) = true -> quiet a = true /\ quiet b = true.
Proof.
  rewrite !quiet_spec. setoid_rewrite Contains_false. intros H. split; intros w Hw Ho; apply (H w Hw); rewrite to_list_app.
  - exact (occurs_middle [] _ (to_list b) _ Ho).
  - rewrite <- (app_nil_r (to_list a ++ _)), <- app_assoc. exact (occurs_middle (to_list a) _ [] _ Ho).
Qed.

(** No forbidden word has the byte [c] in it. *)
Definition separates (c : ascii) : bool := forallb (fun w => negb (existsb (Ascii.eqb c) (to_list w))) forbidden.
Lemma separates_spec c w : separates c = true -> w ∈ forbidden -> c ∉ to_list w.
Proof.
  unfold separates. rewrite forallb_forall. intros H Hw Hc. specialize (H w (proj1 (list_elem_of_In _ _) Hw)). apply negb_true_iff in H.
  assert (existsb (Ascii.eqb c) (to_list w) = true); [|congruence]. apply existsb_exists. exists c. split; [by apply list_elem_of_In|by apply Ascii.eqb_eq].
Qed.
Lemma quiet_sep a c b : separates c = true -> quiet a = true -> quiet b = true -> quiet (a ++ String c b) = true.
Proof.
  rewrite !quiet_spec. setoid_rewrite Contains_false. intros Hc Ha Hb w Hw Ho. rewrite to_list_app in Ho. cbn [to_list] in Ho.
  apply occurs_sep in Ho as [Ho|Ho]; [by apply (Ha w)|by apply (Hb w)|by apply separates_spec].
Qed.

(** No forbidden word can start in [p] and go on with the blank after it. *)
Definition ends_clear (p : string) : bool :=
  forallb (fun w => forallb (fun k => negb (HasSuffix p (of_list (firstn k (to_list w))) && bool_decide (nth_error (to_list w) k = Some " "%char)))
                      (List.seq 1 (length (to_list w)))) forbidden.
Lemma HasSuffix_spec s p : (exists a, to_list s = (a ++ to_list p)%list) -> HasSuffix s p = true.
Proof.
  intros [a H]. unfold HasSuffix, drop_suffix. rewrite H, rev_app_distr. destruct (drop_prefix _ _) eqn:E; [done|]. exfalso.
  assert (E2 := proj2 (drop_prefix_some (rev (to_list p)) (rev (to_list p) ++ rev a) (rev a)) eq_refl). congruence.
Qed.
Lemma quiet_lead p b : quiet p = true -> ends_clear p = true -> quiet (" " ++ b) = true -> quiet (p ++ " " ++ b) = true.
Proof.
  rewrite !quiet_spec. setoid_rewrite Contains_false. intros Hp Hc Hb w Hw (x & y & H). rewrite to_list_app in H.
  destruct (app_eq_inv _ _ _ _ H) as [(k & Ek & Hk)|(k & Ek & Hk)]; [|apply (Hb w Hw); by exists k, y].
  destruct (app_eq_inv _ _ _ _ Hk) as [(m & Hm & Hy)|(m & Hm & Hy)].
  2:{ apply (Hp w Hw). exists x, m. by rewrite Ek, Hm. }
  destruct k as [|d k]; [apply (Hb w Hw); exists [], y; simpl in Hm; by rewrite Hy, Hm|].
  destruct m as [|e m].
  { apply (Hp w Hw). exists x, []. rewrite Hm, !app_nil_r. exact Ek. }
  injection Hy as <- Hy. unfold ends_clear in Hc. rewrite forallb_forall in Hc. specialize (Hc w (proj1 (list_elem_of_In _ _) Hw)).
  rewrite forallb_forall in Hc. specialize (Hc (length (d :: k))). rewrite Hm in Hc.
  rewrite firstn_app, Nat.sub_diag, firstn_all, firstn_O, app_nil_r in Hc.
  rewrite HasSuffix_spec in Hc by (exists x; by rewrite to_of_list). rewrite nth_error_app2, Nat.sub_diag in Hc by lia. cbn [nth_error] in Hc.
  rewrite bool_decide_true in Hc by done. assert (negb (true && true) = true); [|done]. apply Hc. apply in_seq. rewrite length_app. simpl. lia.
Qed.

(* ------------------------------------------------------------------ *)
(** ** Case *)

Lemma ascii_lower_append a b : ascii_lower (a ++ b) = ascii_lower a ++ ascii_lower b.
Proof. apply to_list_inj. unfold ascii_lower. by rewrite !to_list_app, !to_of_list, map_app. Qed.
Lemma is_ascii_append a b : is_ascii (a ++ b) = is_ascii a && is_ascii b.
Proof. unfold is_ascii. by rewrite to_list_app, forallb_app. Qed.

(** A part of a refusal that claims nothing wherever it stands after a blank. *)
Definition modest (s : string) : bool := is_ascii s && quiet (" " ++ ascii_lower s).
Lemma modest_quiet s : modest s = true -> quiet (ascii_lower s) = true.
Proof. unfold modest. intros [_ H]%andb_true_iff. by apply quiet_append in H as [_ H]. Qed.
Lemma modest_sep a c b : separates (lower_byte c) = true -> code c <? 128 = true -> modest a = true -> quiet (ascii_lower b) = true -> is_ascii b = true ->
  modest (a ++ String c b) = true.
Proof.
  unfold modest. rewrite !andb_true_iff, is_ascii_append, andb_true_iff. intros Hc Hk [Ha1 Ha2] Hb1 Hb2.
  split; [split; [done|]; change (is_ascii (String c b)) with ((code c <? 128) && is_ascii b); by rewrite Hk|].
  rewrite ascii_lower_append, <- sapp_assoc. by apply quiet_sep.
Qed.

(** One line of a refusal: a label, a blank and a part. *)
Definition label_ok (p : string) : bool := is_ascii p && quiet (ascii_lower p) && ends_clear (ascii_lower p).
Lemma labelled p s : label_ok p = true -> modest s = true -> is_ascii (p ++ " " ++ s) = true /\ quiet (ascii_lower (p ++ " " ++ s)) = true.
Proof.
  unfold label_ok, modest. rewrite !andb_true_iff. intros [[Hp1 Hp2] Hp3] [Hs1 Hs2]. split.
  - rewrite !is_ascii_append. by rewrite Hp1, Hs1.
  - rewrite !ascii_lower_append. by apply quiet_lead.
Qed.
Lemma two_lines a b : is_ascii a = true /\ quiet (ascii_lower a) = true -> is_ascii b = true /\ quiet (ascii_lower b) = true ->
  is_ascii (a ++ nl ++ b) = true /\ quiet (ascii_lower (a ++ nl ++ b)) = true.
Proof.
  intros [Ha1 Ha2] [Hb1 Hb2]. rewrite !is_ascii_append, Ha1, Hb1. split; [done|].
  rewrite !ascii_lower_append. by apply quiet_sep.
Qed.

(* ------------------------------------------------------------------ *)
(** ** What a refusal says *)

Section Refusals.
Context `{U : Unicode}.

Lemma quiet_lines s : quiet s = true -> flat_map line_problems (Split s (byte_of 10)) = [].
Proof.
  intros Hq. rewrite quiet_spec in Hq. assert (H : forall line, line ∈ Split s (byte_of 10) -> line_problems line = []).
  { intros line Hl. unfold line_problems. destruct (existsb (Contains line) negations); [done|].
    assert (Hw : forall w, w ∈ forbidden -> Contains line w = false).
    { intros w Hw. destruct (Contains line w) eqn:E; [|done]. apply (Split_part _ _ _ _ Hl) in E. by rewrite Hq in E. }
    revert Hw. generalize forbidden as ws. induction ws as [|w ws IH]; intros Hw; [done|]. cbn [flat_map]. rewrite Hw by left. apply IH. intros. apply Hw. by right. }
  revert H. generalize (Split s (byte_of 10)) as ls. induction ls as [|l ls IH]; intros H; [done|]. cbn [flat_map]. rewrite H by left. apply IH. intros. apply H. by right.
Qed.

(** The text before the disclaimer. *)
Definition underlying_line (r : Refusal) : string := match rf_Underlying r with Some e => ("  underlying error:    " ++ " " ++ e) ++ nl | None => "" end.
Definition body (r : Refusal) : string :=
  "" ++ nl ++ ("REFUSED: cannot grade" ++ " " ++ rf_Criterion r) ++ nl ++ ("  missing prerequisite:" ++ " " ++ rf_Prerequisite r) ++ nl ++
  ("  how to obtain it:    " ++ " " ++ rf_HowToObtain r) ++ nl ++ underlying_line r.
Definition disclaimed : string := match disclaimer with String _ rest => rest | EmptyString => "" end.
Lemma Refusal_Error_body r : Refusal_Error r = body r ++ nl ++ disclaimed.
Proof.
  unfold Refusal_Error, body, underlying_line. change (nl ++ disclaimed) with disclaimer.
  destruct (rf_Underlying r); cbn [String.append]; rewrite !sapp_assoc; reflexivity.
Qed.

Lemma body_says r a w v : (exists b, body r ++ nl ++ disclaimed = a ++ w ++ b) -> Contains (ascii_lower w) v = true ->
  Contains (ascii_lower (body r ++ nl ++ disclaimed)) v = true.
Proof.
  intros [b ->] Hw. rewrite !ascii_lower_append. apply Contains_true. rewrite !to_list_app. apply occurs_middle. by apply Contains_true.
Qed.

(** A refusal whose parts use none of the words that claim a pass names the criterion,
    the prerequisite and how to obtain it, and no line of it claims a pass. *)
Lemma refusal_text_holds r :
  modest (rf_Criterion r) = true -> modest (rf_Prerequisite r) = true -> modest (rf_HowToObtain r) = true -> modest (default "" (rf_Underlying r)) = true ->
  checkRefusalText (Refusal_Error r) = [].
Proof.
  intros Hc Hp Hh Hu.
  assert (Hb : is_ascii (body r) = true /\ quiet (ascii_lower (body r)) = true).
  { unfold body. apply two_lines; [done|]. apply two_lines; [by apply labelled|]. apply two_lines; [by apply labelled|].
    apply two_lines; [by apply labelled|]. unfold underlying_line. destruct (rf_Underlying r) as [e|]; [|done].
    rewrite <- (sapp_nil_r nl). apply two_lines; [by apply labelled|done]. }
  destruct Hb as [Hb1 Hb2]. unfold checkRefusalText. rewrite Refusal_Error_body.
  replace (ToLower (body r ++ nl ++ disclaimed)) with (ascii_lower (body r) ++ nl ++ ascii_lower disclaimed).
  2:{ unfold ToLower. rewrite !is_ascii_append, Hb1. change (is_ascii nl && is_ascii disclaimed) with true. cbn [andb]. by rewrite !ascii_lower_append. }
  apply app_nil. split.
  - change (ascii_lower (body r) ++ nl ++ ascii_lower disclaimed) with (ascii_lower (body r) ++ ascii_lower (nl ++ disclaimed)).
    rewrite <- ascii_lower_append. cbn [must_say flat_map fst snd].
    rewrite (body_says r nl "REFUSED: cannot grade"), (body_says r (nl ++ "REFUSED: cannot grade " ++ rf_Criterion r ++ nl) "  missing prerequisite:"),
      (body_says r (nl ++ "REFUSED: cannot grade " ++ rf_Criterion r ++ nl ++ "  missing prerequisite: " ++ rf_Prerequisite r ++ nl) "  how to obtain it:");
      [done| |done| |done| |done]; eexists; unfold body; rewrite !sapp_assoc; cbn [String.append]; reflexivity.
  - change (nl ++ ascii_lower disclaimed) with (String (byte_of 10) (ascii_lower disclaimed)). rewrite Split_app, flat_map_app, quiet_lines by done.
    vm_compute. reflexivity.
Qed.
End Refusals.

(* ------------------------------------------------------------------ *)
(** ** The refusal check *)

Section Browser.
Context `{U : Unicode} `{M : Machine}.

Lemma Getenv_put_back a env key : Getenv (put_back env (emptied a env)) key = Getenv env key.
Proof.
  unfold put_back, emptied, Getenv. destruct (decide (key = "PATH")) as [->|Hp]; [by rewrite lookup_insert_eq|]. rewrite lookup_insert_ne by done.
  destruct (decide (key = "TRACKER_BROWSER")) as [->|Ht].
  - destruct (env !! "TRACKER_BROWSER"); [by rewrite lookup_insert_eq|by rewrite lookup_delete_eq].
  - destruct (env !! "TRACKER_BROWSER"); [rewrite lookup_insert_ne by done|rewrite lookup_delete_ne by done]; by rewrite ?lookup_insert_ne.
Qed.
Lemma Getenv_emptied a env : Getenv (emptied a env) "TRACKER_BROWSER" = TempDir ++ "/" ++ ba_stage a.
Proof. unfold emptied, Getenv. rewrite lookup_insert_ne by done. by rewrite lookup_insert_eq. Qed.
Lemma staged_named s t : String.eqb (s ++ "/" ++ t) "" = false.
Proof. by destruct s. Qed.
Lemma modest_parens a p : modest a = true -> modest p = true -> modest (a ++ "(" ++ p ++ ")") = true.
Proof.
  intros Ha Hp. assert (Hb : modest (p ++ String ")" "") = true) by (by apply modest_sep).
  apply modest_sep; [done..|by apply modest_quiet|]. unfold modest in Hb. by apply andb_true_iff in Hb as [Hb _].
Qed.
Lemma modest_label a b s : label_ok b = true -> modest a = true -> modest s = true -> modest (a ++ nl ++ b ++ " " ++ s) = true.
Proof. intros Hb Ha Hs. destruct (labelled b s Hb Hs). by apply modest_sep. Qed.

Lemma refusal_accepted a r : modest (rf_Criterion r) = true -> modest (rf_Prerequisite r) = true -> modest (rf_HowToObtain r) = true -> modest (default "" (rf_Underlying r)) = true ->
  Contains (rf_Prerequisite r) (ba_names a) = true -> browser_problems a (Err (Refused r)) = [].
Proof.
  intros Hc Hp Hh Hu Hn. cbn [browser_problems]. rewrite refusal_text_holds by done. rewrite Refusal_Error_body.
  assert (Contains (body r ++ nl ++ disclaimed) (ba_names a) = true) as ->; [|done].
  apply Contains_true. apply Contains_true in Hn. unfold body. rewrite !to_list_app.
  match goal with |- occurs ?l _ => replace l with ((to_list (nl ++ ("REFUSED: cannot grade" ++ " " ++ rf_Criterion r) ++ nl ++ "  missing prerequisite: ")) ++ to_list (rf_Prerequisite r) ++
    to_list (nl ++ ("  how to obtain it:    " ++ " " ++ rf_HowToObtain r) ++ nl ++ underlying_line r ++ nl ++ disclaimed))%list end.
  - by apply occurs_middle.
  - rewrite !to_list_app, <- !app_assoc. reflexivity.
Qed.

Lemma first_absence env e : let p := TempDir ++ "/uiverify-no-such-browser" in
  stat p = Some e -> modest p = true -> modest e = true -> browser_problems no_engine (run_web (emptied no_engine env)) = [].
Proof.
  intros p Hs Hp He. unfold run_web, FindEngines. rewrite Getenv_emptied. rewrite staged_named. cbn [negb].
  change (TempDir ++ "/" ++ ba_stage no_engine) with p. rewrite Hs.
  apply refusal_accepted; cbn [rf_Criterion rf_Prerequisite rf_HowToObtain rf_Underlying default]; try done.
  exact (modest_parens "the browser engine named by TRACKER_BROWSER " p eq_refl Hp).
Qed.
Lemma second_absence fresh env e : let p := TempDir ++ "/" ++ fresh ++ "/chromium" in
  stat p = None -> launch p = Some e -> modest p = true -> modest (TrimSpace e) = true ->
  browser_problems (dead_engine fresh) (run_web (emptied (dead_engine fresh) env)) = [].
Proof.
  intros p Hs Hl Hp He. unfold run_web, FindEngines. rewrite Getenv_emptied. rewrite staged_named. cbn [negb].
  change (TempDir ++ "/" ++ ba_stage (dead_engine fresh)) with p. rewrite Hs.
  cbn [NewSessionFrom]. unfold NewSession. rewrite Hl. cbn [firstLine app Join].
  apply refusal_accepted; cbn [rf_Criterion rf_Prerequisite rf_HowToObtain rf_Underlying default]; try done.
  apply (modest_label _ "     "); [done..|]. apply modest_sep; [done..| |].
  - unfold modest in He. by apply andb_true_iff in He as [_ He].
  - unfold modest in He. apply andb_true_iff in He as [He _]. exact He.
Qed.

(** Driven without an engine and with one that does not start, the browser route refuses each time by name with a text that claims nothing, so the refusal check finds nothing against it; and it hands the environment back as it was. *)
Theorem missing_engine_refused fresh env absent dead :
  stat (TempDir ++ "/uiverify-no-such-browser") = Some absent -> modest (TempDir ++ "/uiverify-no-such-browser") = true -> modest absent = true ->
  stat (TempDir ++ "/" ++ fresh ++ "/chromium") = None -> launch (TempDir ++ "/" ++ fresh ++ "/chromium") = Some dead ->
  modest (TempDir ++ "/" ++ fresh ++ "/chromium") = true -> modest (TrimSpace dead) = true ->
  let '(after, problems) := browser_absences (browserAbsences fresh) env in
  problems = [] /\ forall key, Getenv after key = Getenv env key.
Proof.
  intros H1 H2 H3 H4 H5 H6 H7. cbn [browser_absences browserAbsences browser_absence]. unfold browser_absence.
  rewrite (first_absence env absent), (second_absence fresh _ dead) by done. split; [done|]. intros key. by rewrite !Getenv_put_back.
Qed.
End Browser.

(* ------------------------------------------------------------------ *)
(** ** Accessible names *)

Lemma omap_nothing {A B} (f : A -> option B) l : omap f l = [] <-> forall x, x ∈ l -> f x = None.
Proof. induction l as [|x l IH]; simpl; [split; [by intros _ ? ?%elem_of_nil|done]|]. setoid_rewrite elem_of_cons. destruct (f x) eqn:E; [split; [done|intros H; rewrite H in E by (by left); done]|]. rewrite IH. naive_solver. Qed.

Definition named (n : axNode) : Prop := nodeName n <> "".
Definition is_status (n : axNode) : Prop := ax_Ignored n = false /\ nodeRole n = "status".

(** The accessible names hold exactly when every control a person can operate that the engine does not ignore has a name, and the first status region of the tree has one; a tree with nothing in it never passes. *)
Theorem accessible_names_exact nodes :
  accessible_names nodes = None <->
  (forall n, n ∈ nodes -> ax_Ignored n = false -> nodeRole n ∈ interactiveRoles -> named n) /\
  exists before n after, nodes = (before ++ n :: after)%list /\ is_status n /\ named n /\ forall m, m ∈ before -> ~ is_status m.
Proof.
  assert (Hone : forall n, is_status n <-> negb (ax_Ignored n) && String.eqb (nodeRole n) "status" = true).
  { intros n. unfold is_status. by rewrite andb_true_iff, negb_true_iff, String.eqb_eq. }
  assert (Hstatus : nameOfStatus nodes <> "" <-> exists before n after, nodes = (before ++ n :: after)%list /\ is_status n /\ named n /\ forall m, m ∈ before -> ~ is_status m).
  { unfold nameOfStatus. induction nodes as [|n nodes IH]; simpl; [split; [done|by intros ([] & ? & ? & [=] & _)]|].
    destruct (negb (ax_Ignored n) && String.eqb (nodeRole n) "status") eqn:E.
    - apply Hone in E. split; [intros Hn; exists [], n, nodes; split; [done|]; split; [done|]; split; [done|]; by intros ? ?%elem_of_nil|].
      intros (before & m & after & H & _ & Hm & Hb). destruct before as [|b before]; [by injection H as -> ->|]. injection H as -> _. exfalso. by apply (Hb b); [left|].
    - assert (En : ~ is_status n) by (rewrite Hone; congruence). rewrite IH. split.
      + intros (before & m & after & -> & H1 & H2 & H3). exists (n :: before), m, after. split; [done|]. split; [done|]. split; [done|]. intros x [->|Hx]%elem_of_cons; [done|by apply H3].
      + intros (before & m & after & H & H1 & H2 & H3). destruct before as [|b before]; [by injection H as -> _|]. injection H as -> ->.
        exists before, m, after. split; [done|]. split; [done|]. split; [done|]. intros x Hx. apply H3. by right. }
  assert (Hnames : unnamedInteractive nodes = [] <-> forall n, n ∈ nodes -> ax_Ignored n = false -> nodeRole n ∈ interactiveRoles -> named n).
  { unfold unnamedInteractive. rewrite omap_nothing. unfold named. split.
    - intros H n Hn Hi Hr Hname. specialize (H n Hn). rewrite Hi, Hname in H. assert (existsb (String.eqb (nodeRole n)) interactiveRoles = true) as Ex.
      { apply existsb_elem. exists (nodeRole n). by rewrite String.eqb_refl. }
      by rewrite Ex in H.
    - intros H n Hn. destruct (ax_Ignored n) eqn:Ei; [done|]. destruct (existsb (String.eqb (nodeRole n)) interactiveRoles) eqn:Er; [|done].
      apply existsb_elem in Er as (x & Hx & <-%String.eqb_eq). destruct (String.eqb_spec (nodeName n) ""); [|done]. by destruct (H n Hn Ei Hx). }
  rewrite <- Hstatus, <- Hnames. unfold accessible_names. destruct nodes as [|n nodes]; [split; [done|by intros [_ ?]]|].
  destruct (unnamedInteractive (n :: nodes)); [|split; [done|by intros [? _]]]. destruct (String.eqb_spec (nameOfStatus (n :: nodes)) ""); split; naive_solver.
Qed.

(* ------------------------------------------------------------------ *)
(** ** A machine without an engine *)

Module NoEngine.
#[local] Existing Instance ascii_unicode.
(** Nothing is installed but the program the check stages, and that one exits. *)
#[local] Instance bare_machine : Machine := {|
  stat := fun p => if HasSuffix p "/chromium" then None else Some ("stat " ++ p ++ ": no such file or directory");
  LookPath := fun _ _ => None;
  launch := fun _ => Some "chrome failed to start: exit status 0";
  enable_records := fun _ => None; grade := fun _ => [];
  TempDir := "/tmp"; emulator_script := fun _ _ => ("", false) |}.

(** The script of this machine passes whatever is missing, and every absence says so. *)
Example silent_script : snd (CheckRefusal "uiverify-dead-browser-1" (mkPins "tracker" "system-images;android-34") {[ "TRACKER_BROWSER" := "chromium" ]}) =
  map (fun a => ScriptPassed (aa_what a)) androidAbsences.
Proof. vm_compute. reflexivity. Qed.
(** A refusal that calls its clause satisfied is caught. *)
Example boast_caught : checkRefusalText (Refusal_Error (mkRefusal webCriteria "an engine" "AC1 is satisfied without one" None)) =
  [Claims "satisfied" "how to obtain it:     ac1 is satisfied without one"].
Proof. vm_compute. reflexivity. Qed.
Example unnamed_button : accessible_names [mkNode "7" false (Some (double_quote ++ "button" ++ double_quote)) None] = Some (Missing ["button (axNodeId 7)"]).
Proof. vm_compute. reflexivity. Qed.

Lemma missing_engine_refused_witness :
  let '(after, problems) := browser_absences (browserAbsences "uiverify-dead-browser-1") {[ "TRACKER_BROWSER" := "chromium" ]} in
  problems = [] /\ forall key, Getenv after key = Getenv {[ "TRACKER_BROWSER" := "chromium" ]} key.
Proof.
  apply (missing_engine_refused "uiverify-dead-browser-1" {[ "TRACKER_BROWSER" := "chromium" ]}
    "stat /tmp/uiverify-no-such-browser: no such file or directory" "chrome failed to start: exit status 0"); vm_compute; reflexivity.
Defined.
End NoEngine.
