(* ===== verification/UiStack.v ===== *)
(** The surface the browser route drives ([internal/uiverify]: stack.go, run.go): the
    scripted answers, the event streams with the channels that end them, the mutation
    that rewrites what the production handler answered, and the run of the checks over
    it.  The handlers run beside the driver, so each critical section is a step of its
    own: a request takes the mutation in one and reports its failure in another, a
    stream is admitted in one and registered in another.  The production handler is an
    argument, as it is of [mutating]; a header has one value. *)

From Stdlib Require Import ZArith Lia Bool String Ascii List.
From stdpp Require Import base option list strings gmap.
From S2P Require Import Prelude GoStrings Json Repo UiRecord.
Local Open Scope string_scope.
Local Open Scope Z_scope.

(* ------------------------------------------------------------------ *)
(** ** The fixture family *)

Section Fixture.
Context `{F : FloatJson}.
Definition number (literal : string) : json := JFloat (default (f64 0) (ParseFloat literal)).
(** [Entry]; encoding/json sorts the keys of a map. *)
Definition Entry (id name state : string) (lat lon : option json) : json :=
  JObj ([("device_id", JStr id); ("device_name", JStr name)] ++
        (match lat with Some v => [("lat", v)] | None => [] end) ++ (match lon with Some v => [("lon", v)] | None => [] end) ++
        [("presentation", JStr state)])%list.
(** [PositionsJSON]: a body that does not marshal is a panic. *)
Definition PositionsJSON (entries : list json) : option string := Marshal (JArr entries).
Definition theFamily : option string := PositionsJSON
  [Entry "11111111-1111-1111-1111-111111111111" "Alice phone" "live" (Some (number "41.9028")) (Some (number "12.4964"));
   Entry "22222222-2222-2222-2222-222222222222" "Bob phone" "recent" (Some (number "45.4642")) (Some (number "9.19"));
   Entry "33333333-3333-3333-3333-333333333333" "Carol phone" "stale" (Some (number "48.8566")) (Some (number "2.3522"));
   Entry "44444444-4444-4444-4444-444444444444" "Dan phone" "no-position" None None;
   Entry "55555555-5555-5555-5555-555555555555" "Erin phone" "live" (Some (JStr "not-a-number")) None].
End Fixture.

(* ------------------------------------------------------------------ *)
(** ** The stack *)

(** The [Stack]; a channel that ends a stream is a number, and [closed] lists the
    channels closed so far. *)
Record Stack := mkStack {
  positionsStatus : Z; positionsBody : string; positionsFail : bool; positionsDelay : Z;
  streamClosers : list nat; streamRefuse : bool;
  mutation : option Mutation; mutationErr : option (Mutation * mutation_error);
  channels : nat; closed : list nat }.
Definition NewStack : Stack := mkStack 200 "[]" false 0 [] false None None 0 [].

Definition script (status : Z) (body : string) (fail : bool) (delay : Z) (st : Stack) : Stack :=
  let '(mkStack _ _ _ _ closers refuse m e n c) := st in mkStack status body fail delay closers refuse m e n c.
Definition SetPositions (status : Z) (body : string) (st : Stack) : Stack := script status body false 0 st.
Definition FailPositions (st : Stack) : Stack := script (positionsStatus st) (positionsBody st) true 0 st.
(** The status 0 holds the request until the client goes away. *)
Definition HoldPositions (st : Stack) : Stack := script 0 (positionsBody st) false 0 st.
Definition DelayPositions (d status : Z) (body : string) (st : Stack) : Stack := script status body false d st.
(** [Sever]: every registered channel is closed and new streams are refused. *)
Definition Sever (st : Stack) : Stack :=
  let '(mkStack s b f d closers _ m e n c) := st in mkStack s b f d [] true m e n (closers ++ c).
Definition Restore (st : Stack) : Stack :=
  let '(mkStack s b f d closers _ m e n c) := st in mkStack s b f d closers false m e n c.
Definition refused_body : string :=
  let q := of_list [byte_of 34] in "{" ++ q ++ "error" ++ q ++ ":" ++ q ++ "unauthorized" ++ q ++ "," ++ q ++ "message" ++ q ++ ":" ++ q ++ "unknown or revoked token" ++ q ++ "}".
Definition RefuseCredential (st : Stack) : Stack := Sever (SetPositions 401 refused_body st).
Definition SetMutation (m : option Mutation) (st : Stack) : Stack :=
  let '(mkStack s b f d closers refuse _ _ n c) := st in mkStack s b f d closers refuse m None n c.
Definition MutationError (st : Stack) : option (Mutation * mutation_error) := mutationErr st.

(** What a request for the positions is answered with, once the delay is over. *)
Inductive positions_reply := Dropped | Held | Replied (status : Z) (body : string).
Definition servePositions (st : Stack) : Z * positions_reply :=
  (positionsDelay st, if positionsFail st then Dropped else if positionsStatus st =? 0 then Held else Replied (positionsStatus st) (positionsBody st)).

(** [serveStream]: whether the stream is admitted, and, later, its registration. *)
Definition admits (st : Stack) : bool := negb (streamRefuse st).
Definition register (st : Stack) : Stack :=
  let '(mkStack s b f d closers refuse m e n c) := st in mkStack s b f d (closers ++ [n]) refuse m e (S n) c.
(** The first failure since the mutation was installed is kept. *)
Definition record_failure (m : Mutation) (e : mutation_error) (st : Stack) : Stack :=
  let '(mkStack s b f d closers refuse cur err n c) := st in
  mkStack s b f d closers refuse cur (match err with None => Some (m, e) | Some _ => err end) n c.

(* ------------------------------------------------------------------ *)
(** ** The mutating handler *)

(** [short]. *)
Definition short (s : string) : string :=
  let q := of_list [byte_of 34] in
  let s := Join (Fields s) " " in
  if 70 <? len s then q ++ substring 0 70 s ++ "..." ++ q else q ++ s ++ q.
Definition mutation_text (m : Mutation) (e : mutation_error) : string :=
  mu_ID m ++ match e with
  | MFind => ": the page no longer contains " ++ short (mu_Find m)
  | MPolicy => ": the policy no longer contains " ++ short (mu_CSPFind m)
  | MHeader => ": the response no longer carries " ++ mu_DropHeader m
  | MNothing => ": mutation changes nothing"
  end.
Record response := mkResponse { rs_Code : Z; rs_Header : gmap string string; rs_Body : string }.
(** What [http.Error] answers. *)
Definition http_error (text : string) (code : Z) : response :=
  mkResponse code {[ "Content-Type" := "text/plain; charset=utf-8"; "X-Content-Type-Options" := "nosniff" ]} (text ++ of_list [byte_of 10]).

Section Serving.
(** The production handler: what it answers for a path. *)
Context (produce : string -> response).

(** [mutating] after the mutation was taken: the reply, and the failure to apply. *)
Definition mutating (m : option Mutation) (path : string) : response * option mutation_error :=
  match m with
  | None => (produce path, None)
  | Some m =>
      let rec := produce path in
      let '(body, headers, err) := apply_mutation m path (rs_Body rec) (rs_Header rec) in
      match err with
      | Some e => (http_error ("uiverify: mutation did not apply: " ++ mutation_text m e) 500, Some e)
      | None => (mkResponse (rs_Code rec) (<["Content-Length" := Itoa (len body)]> headers) body, None)
      end
  end.

(** The stack with its traffic: requests that took their mutation and were not answered
    yet, streams admitted and not registered yet, and the replies given so far. *)
Record harness := mkHarness {
  h_stack : Stack; h_flight : list (option Mutation * string); h_admitted : nat;
  h_served : list (option Mutation * string * option mutation_error) }.
Definition on_stack (f : Stack -> Stack) (h : harness) : harness :=
  let '(mkHarness st flight admitted served) := h in mkHarness (f st) flight admitted served.

(** What happens while a check runs: the driver's calls and the browser's requests. *)
Inductive event :=
| DSetPositions (status : Z) (body : string) | DFailPositions | DHoldPositions | DDelayPositions (d status : Z) (body : string)
| DSever | DRestore | DRefuseCredential
| TPage (path : string)          (* a page request takes the mutation *)
| TAnswer (i : nat)              (* the i-th such request is answered *)
| TStream                        (* a stream is asked for *)
| TRegister.                     (* an admitted stream is registered *)

Definition answer (i : nat) (h : harness) : harness :=
  match h_flight h !! i with
  | None => h
  | Some (m, path) =>
      let err := snd (mutating m path) in
      mkHarness (match m, err with Some m, Some e => record_failure m e (h_stack h) | _, _ => h_stack h end)
        (delete i (h_flight h)) (h_admitted h) (h_served h ++ [(m, path, err)])
  end.
Definition on_event (h : harness) (ev : event) : harness :=
  match ev with
  | DSetPositions status body => on_stack (SetPositions status body) h
  | DFailPositions => on_stack FailPositions h
  | DHoldPositions => on_stack HoldPositions h
  | DDelayPositions d status body => on_stack (DelayPositions d status body) h
  | DSever => on_stack Sever h
  | DRestore => on_stack Restore h
  | DRefuseCredential => on_stack RefuseCredential h
  | TPage path => mkHarness (h_stack h) (h_flight h ++ [(mutation (h_stack h), path)]) (h_admitted h) (h_served h)
  | TAnswer i => answer i h
  | TStream => if admits (h_stack h) then mkHarness (h_stack h) (h_flight h) (S (h_admitted h)) (h_served h) else h
  | TRegister => match h_admitted h with O => h | S k => mkHarness (register (h_stack h)) (h_flight h) k (h_served h) end
  end.
Definition on_events (evs : list event) (h : harness) : harness := fold_left on_event evs h.

(* ------------------------------------------------------------------ *)
(** ** The run *)

(** A [Check], over the browser session it drives: its run answers whether it passed, what
    happened meanwhile and the session it leaves.  No check installs a mutation. *)
Section Run.
Context {B : Type}.
Record Check := mkCheck { c_ID : string; c_Mutation : option Mutation; c_Run : B * harness -> bool * list event * B }.
Definition prepare (family : string) (m : option Mutation) (w : B * harness) : B * harness :=
  (fst w, on_stack (fun st => Restore (SetPositions 200 family (SetMutation m st))) (snd w)).
Definition measure (c : Check) (w : B * harness) : bool * (B * harness) :=
  let '(passed, evs, b) := c_Run c w in (passed, (b, on_events evs (snd w))).

(** [RunWeb]'s loop on one check. *)
Definition run_on (family : string) (c : Check) (w : B * harness) : Result * (B * harness) :=
  let '(passed, w) := measure c (prepare family None w) in
  match c_Mutation c with
  | None => (mkResult (c_ID c) passed false, w)
  | Some m =>
      let '(passed', w) := measure c (prepare family (Some m) w) in
      (mkResult (c_ID c) passed (match MutationError (h_stack (snd w)) with Some _ => false | None => negb passed' end), (fst w, on_stack (SetMutation None) (snd w)))
  end.
Fixpoint RunWeb_on (family : string) (checks : list Check) (w : B * harness) : list Result * (B * harness) :=
  match checks with
  | [] => ([], w)
  | c :: checks =>
      let '(r, w) := run_on family c w in
      let '(rs, w) := RunWeb_on family checks w in (r :: rs, w)
  end.
End Run.
End Serving.
Arguments Check B : clear implicits.
