(* ===== verification/UiStackSpec.v ===== *)
(** What the browser route's surface is worth: no channel of a stream is closed twice and
    severing ends every registered stream ([severing_sound]); the route is green exactly
    when each check passed on the page as served and failed on the broken one, every
    reply of that run having been rewritten ([web_run_demonstrated]).  Two
    interleavings the comments exclude are evaluated at the end. *)

From Stdlib Require Import ZArith Lia Bool String Ascii List.
From stdpp Require Import base option list strings gmap.
From S2P Require Import Prelude GoStrings Json Repo UiRecord UiSpec UiStack.
Local Open Scope string_scope.
Local Open Scope Z_scope.

Section Surface.
Context (produce : string -> response).

(** Everything that happens to the stack: what a run does, and the installations. *)
Inductive action := Happens (ev : event) | Installs (m : option Mutation).
Definition act (h : harness) (a : action) : harness :=
  match a with Happens ev => on_event produce h ev | Installs m => on_stack (SetMutation m) h end.
Definition start : harness := mkHarness NewStack [] 0 [].
Definition driven (acts : list action) : harness := fold_left act acts start.

(* ------------------------------------------------------------------ *)
(** ** Streams *)

(** Every channel made is registered or closed, and never both or twice. *)
Definition channels_ok (st : Stack) : Prop :=
  NoDup (streamClosers st ++ closed st) /\ forall n, n ∈ (streamClosers st ++ closed st)%list <-> (n < channels st)%nat.

Lemma Sever_ok st : channels_ok st -> channels_ok (Sever st).
Proof. destruct st as [s b f d cl rf m e n c]. unfold channels_ok. cbn [Sever streamClosers closed channels app]. done. Qed.
Lemma register_ok st : channels_ok st -> channels_ok (register st).
Proof.
  destruct st as [? ? ? ? closers ? ? ? n c]. unfold channels_ok. cbn [register streamClosers closed channels]. intros [Hn He].
  assert (Hp : ((closers ++ [n]) ++ c)%list ≡ₚ n :: closers ++ c) by (rewrite <- app_assoc; symmetry; apply Permutation_middle).
  rewrite Hp. split.
  - apply NoDup_cons. split; [|done]. intros Hin. apply He in Hin. lia.
  - intros k. rewrite Hp, elem_of_cons, He. lia.
Qed.
Lemma on_event_ok h ev : channels_ok (h_stack h) -> channels_ok (h_stack (on_event produce h ev)).
Proof.
  destruct h as [st flight admitted served]. intros H. destruct ev as [| | | | | | | |i| |]; cbn [on_event on_stack h_stack].
  all: try (destruct st; exact H).
  - unfold answer. destruct (h_flight _ !! i) as [[m path]|]; [|done]. cbn [h_stack].
    destruct (snd (mutating produce m path)) as [e|], m as [m|]; try done. by destruct st.
  - destruct (admits st); done.
  - destruct admitted; [done|]. by apply register_ok.
Qed.

(** Whatever is driven, in whatever order the handlers' steps fall, no channel of a stream is closed twice - which would be a panic - and severing the feed closes every channel registered so far. *)
Theorem severing_sound acts :
  let st := h_stack (driven acts) in
  NoDup (closed (Sever st)) /\ forall n, (n < channels st)%nat -> n ∈ closed (Sever st).
Proof.
  assert (H : channels_ok (h_stack (driven acts))).
  { unfold driven. assert (H0 : channels_ok (h_stack start)) by (split; [constructor|intros n; split; [by intros ?%elem_of_nil|simpl; lia]]).
    revert H0. generalize start as h. induction acts as [|a acts IH]; intros h H; [done|]. apply IH.
    destruct a as [ev|m]; [by apply on_event_ok|]. destruct h as [st ? ? ?]. by destruct st. }
  cbn zeta. revert H. destruct (h_stack (driven acts)) as [s b f d cl rf m e k c]. unfold channels_ok. cbn [Sever streamClosers closed channels]. intros [H1 H2].
  split; [done|]. intros n. by rewrite H2.
Qed.

(* ------------------------------------------------------------------ *)
(** ** Demonstrations *)

Definition reply : Type := option Mutation * string * option mutation_error.
Definition failure (r : reply) : option (Mutation * mutation_error) :=
  match fst (fst r), snd r with Some m, Some e => Some (m, e) | _, _ => None end.
Definition first_failure (kept : option (Mutation * mutation_error)) (rs : list reply) : option (Mutation * mutation_error) :=
  match kept with Some e => Some e | None => head (omap failure rs) end.

(** A step serves at most one reply, and keeps the first failure. *)
Lemma on_event_served h ev : exists new, h_served (on_event produce h ev) = (h_served h ++ new)%list /\
  (forall r, r ∈ new -> snd r = snd (mutating produce (fst (fst r)) (snd (fst r)))) /\
  MutationError (h_stack (on_event produce h ev)) = first_failure (MutationError (h_stack h)) new.
Proof.
  destruct h as [st flight admitted served].
  assert (Hnone : forall st', mutationErr st' = mutationErr st -> exists new, served = (served ++ new)%list /\
    (forall r, r ∈ new -> snd r = snd (mutating produce (fst (fst r)) (snd (fst r)))) /\ MutationError st' = first_failure (MutationError st) new).
  { intros st' E. exists []. split; [by rewrite app_nil_r|]. split; [by intros ? ?%elem_of_nil|]. unfold MutationError, first_failure. rewrite E. by destruct (mutationErr st). }
  destruct ev as [| | | | | | | |i| |]; cbn [on_event on_stack h_stack h_served h_flight h_admitted]; try (apply Hnone; by destruct st).
  - unfold answer. cbn [h_flight h_stack h_served h_admitted]. destruct (flight !! i) as [[m path]|]; [|by apply Hnone]. cbn [h_stack h_served].
    exists [(m, path, snd (mutating produce m path))]. split; [done|]. split; [by intros r ->%list_elem_of_singleton|].
    unfold MutationError, first_failure, failure. cbn [omap list_omap fst snd].
    destruct (snd (mutating produce m path)) as [e|], m as [m|]; destruct st as [? ? ? ? ? ? ? [] ? ?]; done.
  - destruct (admits st); by apply Hnone.
  - destruct admitted; [by apply Hnone|]. apply Hnone. by destruct st.
Qed.
Lemma on_events_served evs : forall h, exists new, h_served (on_events produce evs h) = (h_served h ++ new)%list /\
  (forall r, r ∈ new -> snd r = snd (mutating produce (fst (fst r)) (snd (fst r)))) /\
  MutationError (h_stack (on_events produce evs h)) = first_failure (MutationError (h_stack h)) new.
Proof.
  induction evs as [|ev evs IH]; intros h; cbn [on_events fold_left].
  - exists []. split; [by rewrite app_nil_r|]. split; [by intros ? ?%elem_of_nil|]. unfold first_failure. by destruct (MutationError (h_stack h)).
  - destruct (on_event_served h ev) as (n1 & S1 & R1 & E1). destruct (IH (on_event produce h ev)) as (n2 & S2 & R2 & E2).
    unfold on_events in *. exists (n1 ++ n2)%list. split; [by rewrite S2, S1, app_assoc|]. split; [intros r [H|H]%elem_of_app; auto|].
    rewrite E2, E1. unfold first_failure. destruct (MutationError (h_stack h)); [done|]. rewrite omap_app. by destruct (omap failure n1).
Qed.

(** The replies given while a run was on. *)
Definition served_during (evs : list event) (h : harness) : list reply := skipn (length (h_served h)) (h_served (on_events produce evs h)).
Lemma served_during_spec evs h : MutationError (h_stack h) = None ->
  MutationError (h_stack (on_events produce evs h)) = None <-> forall r, r ∈ served_during evs h -> snd r = None.
Proof.
  intros Hn. unfold served_during. destruct (on_events_served evs h) as (new & -> & Hr & ->). rewrite Hn, skipn_app, Nat.sub_diag, skipn_all. cbn [skipn app first_failure].
  assert (Hf : forall r, r ∈ new -> failure r = None <-> snd r = None).
  { intros r H. specialize (Hr r H). unfold failure. destruct r as [[[m|] path] e]; cbn [fst snd] in *; [by destruct e|]. by rewrite Hr. }
  transitivity (omap failure new = []); [by destruct (omap failure new)|]. rewrite omap_none. split; intros H r Hin; by apply Hf, H.
Qed.

Context {B : Type}.
Implicit Types (c : Check B) (w : B * harness).

(** A check was demonstrated when started on [w]: it passed on the pristine surface; it
    has a mutation; on the surface it breaks the same code failed, and every reply of
    that run was the page as the mutation left it. *)
Definition demonstrated (family : string) (c : Check B) (w : B * harness) : Prop :=
  fst (measure produce c (prepare family None w)) = true /\
  exists m, c_Mutation c = Some m /\
    let broken := prepare family (Some m) (snd (measure produce c (prepare family None w))) in
    fst (measure produce c broken) = false /\ forall r, r ∈ served_during (snd (fst (c_Run c broken))) (snd broken) -> snd r = None.

(** The checks with the states they start on. *)
Fixpoint starts (family : string) (checks : list (Check B)) (w : B * harness) : list (Check B * (B * harness)) :=
  match checks with [] => [] | c :: checks => (c, w) :: starts family checks (snd (run_on produce family c w)) end.

Lemma prepared_clean family m w : MutationError (h_stack (snd (prepare family m w))) = None.
Proof. destruct w as [b [[] ? ? ?]]. done. Qed.
Lemma measure_error c w : MutationError (h_stack (snd w)) = None ->
  MutationError (h_stack (snd (snd (measure produce c w)))) = None <-> forall r, r ∈ served_during (snd (fst (c_Run c w))) (snd w) -> snd r = None.
Proof. intros Hn. unfold measure. destruct (c_Run c w) as [[passed evs] b]. by apply served_during_spec. Qed.

Lemma run_on_demonstrated family c w :
  re_ID (fst (run_on produce family c w)) = c_ID c /\
  (re_Passed (fst (run_on produce family c w)) = true /\ re_Demonstrated (fst (run_on produce family c w)) = true <-> demonstrated family c w).
Proof.
  unfold run_on, demonstrated. destruct (measure produce c (prepare family None w)) as [passed w1] eqn:E1. cbn [fst snd].
  destruct (c_Mutation c) as [m|]; [|split; [done|]; split; [by intros [_ [=]]|by intros (_ & ? & [=] & _)]].
  pose proof (measure_error c (prepare family (Some m) w1) (prepared_clean _ _ _)) as Hs.
  destruct (measure produce c (prepare family (Some m) w1)) as [passed' w2] eqn:E2. cbn [fst snd re_ID re_Passed re_Demonstrated] in *.
  split; [done|]. split.
  - intros [-> Hd]. split; [done|]. exists m. split; [done|]. cbn zeta. rewrite E2.
    destruct (MutationError (h_stack (snd w2))) as [e|]; [discriminate Hd|]. split; [by destruct passed'|]. by apply Hs.
  - intros (-> & m' & [= <-] & H). cbn zeta in H. rewrite E2 in H. destruct H as [Hf H]. split; [done|]. cbn in Hf. subst passed'. by rewrite (proj2 Hs H).
Qed.

(** C31: the browser route is green exactly when every check, on the session and surface the ones before it left, passed on the page as served and - the same code, with one thing broken - failed, no reply of that run having escaped the mutation; and then the run record names every check as run and as demonstrated. *)
Theorem web_run_demonstrated family checks w surface :
  let results := fst (RunWeb_on produce family checks w) in
  (Summarise results = SOk <-> forall c w', (c, w') ∈ starts family checks w -> demonstrated family c w') /\
  (Summarise results = SOk -> rr_Ran (RecordRun surface results) = map c_ID checks /\ rr_Demonstrated (RecordRun surface results) = map c_ID checks).
Proof.
  cbn zeta. rewrite Summarise_ok. split.
  - revert w. induction checks as [|c checks IH]; intros w; cbn [RunWeb_on starts]; [split; [by intros _ ? ? ?%elem_of_nil|by intros _ ? ?%elem_of_nil]|].
    pose proof (proj2 (run_on_demonstrated family c w)) as Hc. destruct (run_on produce family c w) as [r w'] eqn:E. cbn [fst snd] in *.
    specialize (IH w'). destruct (RunWeb_on produce family checks w') as [rs w'']. cbn [fst] in *. setoid_rewrite elem_of_cons. split.
    + intros H x hx [[= -> ->]|Hx]; [apply Hc, H; by left|]. apply IH; [|done]. intros. apply H. by right.
    + intros H x [->|Hx]; [apply Hc, H; by left|]. apply IH; [|done]. intros. apply H. by right.
  - intros H. unfold RecordRun. cbn [rr_Ran rr_Demonstrated]. rewrite !filter_all by (intros r Hr; by apply H). split; clear H.
    all: revert w; induction checks as [|c checks IH]; intros w; cbn [RunWeb_on]; [done|]; pose proof (proj1 (run_on_demonstrated family c w)) as Hid;
      destruct (run_on produce family c w) as [r w']; specialize (IH w'); destruct (RunWeb_on produce family checks w') as [rs w'']; cbn [fst map] in *; by rewrite Hid, IH.
Qed.
End Surface.

(* ------------------------------------------------------------------ *)
(** ** A page with one label *)

Module OneLabel.
Definition label_page (path : string) : response := mkResponse 200 {[ CSP := "default-src 'self'" ]} (if String.eqb path "/map" then "<label>Viewer token</label>" else "").
Definition drop_label : Mutation := mkMutation "label" "" "<label>" "<span>" "" "" "".
Definition drop_nonce : Mutation := mkMutation "nonce" "" "nonce-" "" "" "" "".
(** A check that opens the page and looks for the label in what it is answered. *)
Definition looks_for_label (m : option Mutation) : Check unit :=
  mkCheck "AC1-names" m (fun w => (Contains (rs_Body (fst (mutating label_page (mutation (h_stack (snd w))) "/map"))) "<label>", [TPage "/map"; TAnswer 0], tt)).

Example label_demonstrated : map re_Demonstrated (fst (RunWeb_on label_page "[]" [looks_for_label (Some drop_label)] (tt, start))) = [true].
Proof. vm_compute. reflexivity. Qed.
(** A mutation the page outgrew turns the check red at an error page, which is not a
    demonstration. *)
Example outgrown_mutation :
  fst (RunWeb_on label_page "[]" [looks_for_label (Some drop_nonce)] (tt, start)) = [mkResult "AC1-names" true false] /\
  rs_Body (fst (mutating label_page (Some drop_nonce) "/map")) =
    "uiverify: mutation did not apply: nonce: the page no longer contains " ++ of_list [byte_of 34] ++ "nonce-" ++ of_list [byte_of 34; byte_of 10].
Proof. vm_compute. split; reflexivity. Qed.

(** A page request still in flight when the next mutation is installed leaves the
    failure of the mutation before it to the one installed now. *)
Example stale_mutation_blamed :
  let h := driven label_page [Installs (Some drop_nonce); Happens (TPage "/map"); Installs (Some drop_label); Happens (TAnswer 0)] in
  mutation (h_stack h) = Some drop_label /\ MutationError (h_stack h) = Some (drop_nonce, MFind).
Proof. vm_compute. split; reflexivity. Qed.

(** A stream admitted before the feed is severed and registered after it stays open while
    new ones are refused. *)
Example stream_outlives_severing :
  let st := h_stack (driven label_page [Happens TStream; Happens DSever; Happens TRegister]) in
  streamRefuse st = true /\ streamClosers st = [0%nat] /\ closed st = [].
Proof. vm_compute. repeat split. Qed.
End OneLabel.
