(* ===== verification/UiSession.v ===== *)
(** The browser session the rendered checks drive ([internal/uiverify]: browser.go,
    readouts.go, checks.go): the engine's own records, what a check can ask of the page
    and of the scripted surface, the waits, and the helpers the checks judge with.  The
    engine, the PNG decoder and the clock are the class [Engine]: it answers on the
    surface as it stands and says what it recorded and requested meanwhile; an
    expression evaluated in the page is a [query], by what its answer is decoded into.
    The text of an error leaves out the values it is printed with. *)

From Stdlib Require Import ZArith Lia Bool String Ascii List.
From Stdlib Require Import Floats.SpecFloat.
From stdpp Require Import base option list strings gmap.
From S2P Require Import Prelude GoStrings Json Programs Repo.
From S2P Require Import UiRefusal UiStack.
Local Open Scope string_scope.
Local Open Scope Z_scope.
Local Open Scope program_scope.

(** A source text, [~] standing for a double quote and [^] for a newline. *)
Definition txt (s : string) : string :=
  of_list (map (fun c => if Ascii.eqb c "~"%char then byte_of 34 else if Ascii.eqb c "^"%char then byte_of 10 else c) (to_list s)).

(** Milliseconds in nanoseconds. *)
Definition ms (n : Z) : Z := n * 1000000.
(** A sum of floats, and the decimal literals the source writes. *)
Definition f_add (a b : float64) : float64 := SFadd 53 1024 a b.
Definition f_opp (a : float64) : float64 := SFopp a.
Definition f_half : float64 := f_div (f64 1) (f64 2).
Definition f_thousandths (n : Z) : float64 := f_div (f64 n) (f64 1000).

(* ------------------------------------------------------------------ *)
(** ** What the page answers *)

Record snapshot := mkSnapshot {
  DeviceSetKnown : bool; DeviceCount : Z; LocatedCount : Z; Interrupted : bool; InterruptedWhy : string; ReceivedCount : Z; RejectedCount : Z;
  LastRejection : string; PanelState : string; PanelStateText : string; Status : string; StatusHealth : string; MarkerIDsJSON : list string }.
Record deviceRow := mkDeviceRow { dr_ID : string; dr_State : string; dr_Text : string; dr_List : string }.
Record control := mkControl { ct_Path : string; ct_Tag : string; ct_Width : float64; ct_Height : float64; ct_Left : float64; ct_Right : float64; ct_Top : float64; ct_TabIndex : Z }.
Record figureReport := mkFigures { fg_Located : string; fg_Rejected : string; fg_RejectedDetail : string; fg_Status : string }.
Record panelStateReport := mkPanelState { pn_State : string; pn_Text : string; pn_Action : string; pn_Visible : bool }.
Record textRun := mkTextRun { tr_Path : string; tr_Text : string; tr_Ratio : float64; tr_Required : float64 }.
Record boundary := mkBoundary { bd_Path : string; bd_Ratio : float64 }.
Record focusReport := mkFocus { fi_OutlineStyle : string; fi_OutlineWidth : float64; fi_Ratio : float64 }.
Record bgReport := mkBg { bg_Selector : string; bg_Luminance : float64 }.
Record reflowReport := mkReflow { rf_ScrollWidth : float64; rf_ClientWidth : float64 }.
Record box := mkBox { bx_Path : string; bx_Left : float64; bx_Right : float64; bx_Top : float64; bx_Width : float64; bx_Height : float64; bx_FontSize : float64 }.
Record namePlace := mkNamePlace { np_Path : string; np_InDeviceRow : bool }.
Record chromeText := mkChromeText { cx_Path : string; cx_Text : string; cx_InRegion : bool; cx_Words : Z }.
Record region := mkRegion { rg_Region : string; rg_Hrefs : list string }.
Record worksReport := mkWorks { wk_Leaflet : bool; wk_Hook : bool; wk_Styled : bool; wk_Markers : Z }.

(** The expressions the checks evaluate, by what they answer. *)
Inductive query : Type -> Type :=
| QSnapshot : query snapshot
| QDeviceRows : query (list deviceRow)
| QControls : query (list control)
| QFigures : query figureReport
| QPanelState : query panelStateReport
| QActivePath : query string
| QTextRuns : query (list textRun)
| QBoundaries : query (list boundary)
| QFocusIndicator : query focusReport
| QThemeBackgrounds : query (list bgReport)
| QReflow : query reflowReport
| QBoxes : query (list box)
| QNamePlacement : query (list namePlace)
| QChromeTexts : query (list chromeText)
| QRegions : query (list region)
| QWorks : query worksReport
| QStateElements : query Z
| QTitle : query string
| QBodyWords : query Z
| QHasElement (id : string) : query bool
| QInject (eventType data : string) : query bool
| QFocusToken : query bool
| QBlur : query bool
| QAxTree : query (list axNode)
| QPadded (selector : string) : query box
| QViolations : query (list string).

(** What the driver does to the page. *)
Inductive gesture :=
| GTheme (theme : string) | GVision (kind : string) | GViewport (w h : Z) (mobile : bool)
| GNavigate (url : string)                      (* and the body is ready *)
| GAudit                                        (* the measuring library is installed *)
| GTab (shift : bool) | GKey (key : string) | GType (selector text : string).

(** A decoded picture: its bounds and its pixels. *)
Record picture := mkPicture { pc_MinX : Z; pc_MinY : Z; pc_MaxX : Z; pc_MaxY : Z; pc_At : Z -> Z -> Z * Z * Z * Z }.

(* ------------------------------------------------------------------ *)
(** ** The engine's own records *)

(** The text up to the first of some bytes. *)
Fixpoint until_any (stops l : list ascii) : list ascii :=
  match l with [] => [] | c :: l => if existsb (Ascii.eqb c) stops then [] else c :: until_any stops l end.
(** [origin]: scheme and host. *)
Definition origin (rawurl : string) : string :=
  match Index rawurl "://" with
  | None => rawurl
  | Some i => let l := to_list rawurl in of_list (firstn (i + 3) l ++ until_any (to_list "/?#") (skipn (i + 3) l))
  end.

Inductive engine_event :=
| RequestWillBeSent (url : string)
| ResponseReceived (url : string) (headers : list (string * string))
| EntryAdded (level text : string).
(** A [Session]: the requests, the console and the headers of each response. *)
Record Session := mkSession { s_requests : list string; s_console : list string; s_headers : gmap string (gmap string string) }.
Definition no_records : Session := mkSession [] [] ∅.
(** The listener of [NewSession]. *)
Definition record_event `{Unicode} (s : Session) (ev : engine_event) : Session :=
  match ev with
  | RequestWillBeSent url => mkSession (s_requests s ++ [url]) (s_console s) (s_headers s)
  | ResponseReceived url hs =>
      mkSession (s_requests s) (s_console s) (<[url := fold_left (fun m h => <[ToLower (fst h) := snd h]> m) hs ∅]> (s_headers s))
  | EntryAdded level text => mkSession (s_requests s) (s_console s ++ [level ++ ": " ++ text]) (s_headers s)
  end.
(** [stripQuery]; [ResponseHeader] asks the first response of the ranged map whose URL
    ends so. *)
Definition stripQuery (u : string) : string := of_list (until_any (to_list "?#") (to_list u)).
Definition answered_header `{Unicode} (responses : list (string * gmap string string)) (suffix header : string) : option string :=
  match List.find (fun r => HasSuffix (stripQuery (fst r)) suffix) responses with
  | Some (_, h) => h !! ToLower header
  | None => None
  end.

(** What happened while the engine was asked: its records, and the page's requests. *)
Record meanwhile := mkMeanwhile { m_records : list engine_event; m_traffic : list event }.

Class Engine (B : Type) := {
  eng_evaluate : forall A, query A -> harness -> B -> result string A * B * meanwhile;
  eng_perform : gesture -> harness -> B -> option string * B * meanwhile;
  eng_capture : box -> harness -> B -> result string string * B * meanwhile;
  eng_now : B -> Z;
  eng_sleep : Z -> harness -> B -> B * meanwhile;
  (** The order a range over the responses' headers takes. *)
  eng_range : gmap string (gmap string string) -> list (string * gmap string string);
  decode_png : string -> option picture }.

Inductive failure :=
| Says (why : string)                           (* the check's own words *)
| Engine_error (text : string)
| Around (why : string) (e : failure)           (* an error wrapped in words *)
| OutOfPolls.

(* ------------------------------------------------------------------ *)
(** ** Helpers *)

Definition bareCount (s : string) : bool := (length (Fields s) <=? 2)%nat.
Fixpoint index_from (n : Z) (hay : list string) (needle : string) : Z :=
  match hay with [] => -1 | h :: hay => if String.eqb h needle then n else index_from (n + 1) hay needle end.
Definition indexOf (hay : list string) (needle : string) : Z := index_from 0 hay needle.

(** [pixelDifference]: the pixels that differ, or both areas when the boxes do. *)
Definition area (p : picture) : Z := (pc_MaxX p - pc_MinX p) * (pc_MaxY p - pc_MinY p).
Definition same_bounds (a b : picture) : bool :=
  (pc_MinX a =? pc_MinX b) && (pc_MinY a =? pc_MinY b) && (pc_MaxX a =? pc_MaxX b) && (pc_MaxY a =? pc_MaxY b).
Definition sameColor (a b : picture) (x y : Z) : bool :=
  let '(ar, ag, ab, aa) := pc_At a x y in let '(br, bg, bb, ba) := pc_At b x y in (ar =? br) && (ag =? bg) && (ab =? bb) && (aa =? ba).
Definition span (lo hi : Z) : list Z := map (fun i => lo + Z.of_nat i) (seq 0 (Z.to_nat (hi - lo))).
Definition differing (a b : picture) : list (Z * Z) :=
  flat_map (fun y => List.filter (fun p => negb (sameColor a b (fst p) (snd p))) (map (fun x => (x, y)) (span (pc_MinX a) (pc_MaxX a)))) (span (pc_MinY a) (pc_MaxY a)).
Definition picture_difference (a b : picture) : Z := if same_bounds a b then Z.of_nat (length (differing a b)) else area a + area b.

(* ------------------------------------------------------------------ *)
(** ** The session and its waits *)

Section Session.
Context (produce : string -> response) (stack_URL : string) (family : string).
Context {B : Type} `{En : Engine B} `{U : Unicode}.

(** A [Runner]: the browser, its records, and the surface it was opened on with what
    happened to it since. *)
Record Runner := mkRunner { r_browser : B; r_records : Session; r_opened : harness; r_events : list event }.
Definition surface (r : Runner) : harness := on_events produce (r_events r) (r_opened r).
Definition Run (A : Type) : Type := Program Runner failure A.

Definition note (b : B) (m : meanwhile) (r : Runner) : Runner :=
  mkRunner b (fold_left record_event (m_records m) (r_records r)) (r_opened r) (r_events r ++ m_traffic m).
(** [Eval]. *)
Definition eval {A} (q : query A) : Run A := fun r =>
  let '(answer, b, m) := eng_evaluate A q (surface r) (r_browser r) in
  (match answer with Ok a => Ok a | Err e => Err (Engine_error e) end, note b m r).
Definition perform (g : gesture) : Run unit := fun r =>
  let '(e, b, m) := eng_perform g (surface r) (r_browser r) in
  (match e with None => Ok tt | Some e => Err (Engine_error e) end, note b m r).
Definition capture (at' : box) : Run string := fun r =>
  let '(answer, b, m) := eng_capture at' (surface r) (r_browser r) in
  (match answer with Ok png => Ok png | Err e => Err (Engine_error e) end, note b m r).
Definition pause (ns : Z) : Run unit := fun r => let '(b, m) := eng_sleep ns (surface r) (r_browser r) in (Ok tt, note b m r).
Definition clock : Run Z := fun r => (Ok (eng_now (r_browser r)), r).
(** The driver's own call on the stack. *)
Definition fixture (ev : event) : Run unit := fun r => (Ok tt, mkRunner (r_browser r) (r_records r) (r_opened r) (r_events r ++ [ev])).

(** [ResetRecords], [Requests], [Console], [ResponseHeader]. *)
Definition ResetRecords : Run unit := fun r => (Ok tt, mkRunner (r_browser r) no_records (r_opened r) (r_events r)).
Definition Requests : Run (list string) := fun r => (Ok (s_requests (r_records r)), r).
Definition Console : Run (list string) := fun r => (Ok (s_console (r_records r)), r).
Definition ResponseHeader (suffix header : string) : Run (option string) := fun r =>
  (Ok (answered_header (eng_range (s_headers (r_records r))) suffix header), r).

Definition SetTheme (theme : string) : Run unit := perform (GTheme theme).
Definition SetVisionDeficiency (kind : string) : Run unit := perform (GVision kind).
Definition SetViewport (w h : Z) (mobile : bool) : Run unit := perform (GViewport w h mobile).
Definition injectAudit : Run unit := perform GAudit.
Definition Navigate (url : string) : Run unit := ResetRecords ;; perform (GNavigate url) ;; injectAudit.
Definition PressTab : Run unit := perform (GTab false).
Definition PressKey (key : string) : Run unit := perform (GKey key).
Definition TypeInto (selector text : string) : Run unit := perform (GType selector text).
(** [Screenshot]: the element's box with its margin, as the page answers it. *)
Definition not_rendered (at' : box) : bool := f_leb (bx_Width at') (f64 0) || f_leb (bx_Height at') (f64 0).
Definition Screenshot (selector : string) : Run string :=
  do at' <- eval (QPadded selector) ;
  if not_rendered at' then fail (Says "it is not rendered, so it cannot be screenshotted") else capture at'.
(** [Violations]: what the page reported, and the console's refusals. *)
Definition Violations : Run (list string) :=
  do reported <- eval QViolations ;
  do entries <- Console ;
  done (reported ++ List.filter (fun c => Contains c "Refused to" || Contains c "Content Security Policy") entries)%list.

Definition deviceRows : Run (list deviceRow) := eval QDeviceRows.
Definition controls : Run (list control) := eval QControls.
Definition figures : Run figureReport := eval QFigures.
Definition panelState : Run panelStateReport := eval QPanelState.
Definition inject (eventType data : string) : Run unit := eval (QInject eventType data) ;; done tt.

Definition viewerToken : string := "s0056-viewer-token".
Definition mapURL : string := stack_URL ++ "/map?token=" ++ viewerToken.
Definition open (theme : string) (w h : Z) : Run unit :=
  SetTheme theme ;; SetViewport w h (w <=? 480) ;; SetVisionDeficiency "none" ;; Navigate mapURL.

(** [waitSnapshot]: a poll each 150 ms until the deadline; a reading that fails is
    passed over. *)
Definition polls_within (within : Z) : nat := S (S (Z.to_nat (within / ms 150))).
Fixpoint poll_snapshot (fuel : nat) (ok : snapshot -> Run bool) (deadline : Z) (why : string) : Run unit :=
  match fuel with
  | O => fail OutOfPolls
  | S fuel =>
      do t <- clock ;
      if t <? deadline then
        do reading <- passing_over (eval QSnapshot) ;
        do seen <- match reading with Some s => ok s | None => done false end ;
        if seen then done tt else pause (ms 150) ;; poll_snapshot fuel ok deadline why
      else fail (Says why)
  end.
Definition waitSnapshot (ok : snapshot -> Run bool) (within : Z) (why : string) : Run unit :=
  do t <- clock ; poll_snapshot (polls_within within) ok (t + within) why.
Definition when (p : snapshot -> bool) : snapshot -> Run bool := fun s => done (p s).

(** [awaitPanelState]. *)
Fixpoint poll_panel (fuel : nat) (want : string) (deadline : Z) : Run panelStateReport :=
  match fuel with
  | O => fail OutOfPolls
  | S fuel =>
      do t <- clock ;
      if t <? deadline then
        do reading <- passing_over panelState ;
        let again := pause (ms 150) ;; poll_panel fuel want deadline in
        match reading with
        | Some ps => if String.eqb (pn_State ps) want && pn_Visible ps then done ps else again
        | None => again
        end
      else fail (Says ("the panel never reached the state " ++ want))
  end.
Definition awaitPanelState (want : string) (within : Z) : Run panelStateReport :=
  do t <- clock ; poll_panel (polls_within within) want (t + within).

(** [openWatched]. *)
Definition openWatched (theme : string) (w h : Z) : Run unit :=
  fixture (DSetPositions 200 family) ;;
  fixture DRestore ;;
  open theme w h ;;
  waitSnapshot (when (fun s => DeviceSetKnown s && (DeviceCount s =? 5))) (ms 15000) "the page never rendered the fixture family".

(** [focusByTab]: the presses the tab ring needs, twelve at least. *)
Fixpoint press_until (n : nat) (selector : string) : Run unit :=
  match n with
  | O => fail (Says "it was not reachable by Tab")
  | S n =>
      PressTab ;;
      do p <- eval QActivePath ;
      if String.eqb p selector then done tt else press_until n selector
  end.
Definition focusByTab (selector : string) : Run unit :=
  eval QBlur ;;
  do found <- passing_over controls ;
  let budget := match found with Some cs => Z.max 12 (2 * Z.of_nat (length cs) + 4) | None => 12 end in
  press_until (Z.to_nat budget) selector.
(** [pixelDifference]. *)
Definition pixelDifference (a b : string) : Run Z :=
  match decode_png a with
  | None => fail (Says "decoding the unfocused rendering")
  | Some ia => match decode_png b with None => fail (Says "decoding the focused rendering") | Some ib => done (picture_difference ia ib) end
  end.
End Session.

