(* ===== verification/Measuring.v ===== *)
(** The measuring library injected into the page under test
    ([internal/uiverify/audit.go]): what it reports of a document, read from the values
    the engine resolved.  A document is a tree of nodes, each element with its computed
    style, its box, its tab index and its rendered text; an element is a node with the
    nodes it is inside of, nearest first; a selector is a test of an element.  A local
    name is kept in lower case, which [tagName.toLowerCase()] gives back.  The engine's
    numbers and its handling of text beyond [Browser] are the class [Measures].  Of each
    report the fields the checks decode are kept. *)

From Stdlib Require Import ZArith Lia Bool String Ascii List.
From Stdlib Require Import Floats.SpecFloat.
From stdpp Require Import base option list strings.
From S2P Require Import Prelude GoStrings Json Programs Repo.
From S2P Require Import Viewer UiRefusal UiStack UiSession.
Local Open Scope string_scope.
Local Open Scope Z_scope.

(** [Number] and [parseFloat] of a text, [parseInt] in base ten, [Math.pow], [Math.round];
    the words a text is split into at white space, its length and its first units. *)
Class Measures := {
  js_Number : string -> float64;
  js_parseFloat : string -> float64;
  js_parseInt : string -> float64;
  js_pow : float64 -> float64 -> float64;
  js_round : float64 -> float64;
  js_words : string -> list string;
  js_length : string -> Z;
  js_slice : Z -> string -> string }.

(* ------------------------------------------------------------------ *)
(** ** Documents *)

Record computed := mkComputed {
  backgroundColor : string; color : string; display : string; visibility : string; opacity : string; fontSize : string; fontWeight : string;
  borderTopWidth : string; borderTopStyle : string; borderTopColor : string; outlineStyle : string; outlineWidth : string; outlineColor : string }.
Record rect := mkRect { r_left : float64; r_right : float64; r_top : float64; r_width : float64; r_height : float64 }.
(** What the engine knows of an element beside its children. *)
Record resolved := mkResolved { e_tag : string; e_svg : bool; e_attrs : list (string * string); e_style : computed; e_box : rect; e_tabIndex : Z; e_innerText : string }.
Inductive node :=
| NText (data : string)
| NElement (e : resolved) (children : list node).
Record element := mkElement { el_self : resolved; el_children : list node; el_above : list resolved }.
Record document := mkDocument { d_html : resolved; d_head : list node; d_body : resolved; d_children : list node; d_active : option element; d_scrollWidth : float64; d_clientWidth : float64 }.

(** The elements below a node, in document order. *)
Fixpoint below (above : list resolved) (n : node) : list element :=
  match n with
  | NText _ => []
  | NElement e children => mkElement e children above :: flat_map (below (e :: above)) children
  end.
Definition body (d : document) : element := mkElement (d_body d) (d_children d) [d_html d].
Definition in_body (d : document) : list element := flat_map (below [d_body d; d_html d]) (d_children d).
Definition everything (d : document) : list element :=
  (mkElement (d_html d) (d_head d ++ [NElement (d_body d) (d_children d)]) [] :: flat_map (below [d_html d]) (d_head d) ++ body d :: in_body d)%list.

Definition attribute (e : resolved) (name : string) : option string := option_map snd (List.find (fun a => String.eqb (fst a) name) (e_attrs e)).
Definition id_of (e : resolved) : string := default "" (attribute e "id").
Definition has_id (id : string) (e : resolved) : bool := String.eqb (id_of e) id.
Definition getElementById (d : document) (id : string) : option element := List.find (fun el => has_id id (el_self el)) (everything d).
Definition parentElement (el : element) : option resolved := head (el_above el).

(* ------------------------------------------------------------------ *)
(** ** Colours *)

Record colour := mkColour { c_r : float64; c_g : float64; c_b : float64; c_a : float64 }.
Definition f_mul (a b : float64) : float64 := SFmul 53 1024 a b.
Definition f_sub (a b : float64) : float64 := SFsub 53 1024 a b.
Definition decimal (n : Z) (d : Z) : float64 := f_div (f64 n) (f64 d).
Definition one : float64 := f64 1.
Definition zero : float64 := f64 0.
Definition clear : colour := mkColour zero zero zero zero.
Definition white : colour := mkColour (f64 255) (f64 255) (f64 255) one.

(** [/rgba?\(([^)]+)\)/]: what the first match has between its parentheses. *)
Fixpoint to_close (l acc : list ascii) : option (list ascii) :=
  match l with [] => None | c :: l => if Ascii.eqb c ")"%char then match acc with [] => None | _ => Some (rev acc) end else to_close l (c :: acc) end.
Definition rgb_here (l : list ascii) : option (list ascii) :=
  match drop_prefix (to_list "rgba(") l with
  | Some l => to_close l []
  | None => match drop_prefix (to_list "rgb(") l with Some l => to_close l [] | None => None end
  end.
Fixpoint rgb_match (l : list ascii) : option (list ascii) :=
  match rgb_here l with
  | Some b => Some b
  | None => match l with [] => None | _ :: l => rgb_match l end
  end.

Section Measuring.
Context `{M : Measures} `{B : Browser}.

(** The texts between commas, slashes and white space. *)
Definition colour_parts (s : string) : list string := flat_map js_words (flat_map (fun p => Split p "/") (Split s ",")).
Definition parseColor (s : string) : option colour :=
  match rgb_match (to_list s) with
  | None => None
  | Some m =>
      match map js_Number (colour_parts (of_list m)) with
      | r :: g :: b :: rest => let a := match rest with a :: _ => a | [] => one end in Some (mkColour r g b (if f_isNaN a then one else a))
      | _ => None
      end
  end.

(** Source-over compositing. *)
Definition over (fg bg : colour) : colour :=
  let through := f_sub one (c_a fg) in
  let a := f_add (c_a fg) (f_mul (c_a bg) through) in
  if f_eqb a zero then clear
  else let mix f b := f_div (f_add (f_mul f (c_a fg)) (f_mul (f_mul b (c_a bg)) through)) a in
       mkColour (mix (c_r fg) (c_r bg)) (mix (c_g fg) (c_g bg)) (mix (c_b fg) (c_b bg)) a.

Definition channel (c : float64) : float64 :=
  let s := f_div c (f64 255) in
  if f_leb s (decimal 3928 100000) then f_div s (decimal 1292 100) else js_pow (f_div (f_add s (decimal 55 1000)) (decimal 1055 1000)) (decimal 24 10).
Definition luminance (c : colour) : float64 :=
  f_add (f_add (f_mul (decimal 2126 10000) (channel (c_r c))) (f_mul (decimal 7152 10000) (channel (c_g c)))) (f_mul (decimal 722 10000) (channel (c_b c))).
(** [Math.max] and [Math.min]. *)
Definition js_max (a b : float64) : float64 := if f_isNaN a || f_isNaN b then S754_nan else if f_ltb a b then b else a.
Definition js_min (a b : float64) : float64 := if f_isNaN a || f_isNaN b then S754_nan else if f_ltb b a then b else a.
Definition ratio (a b : colour) : float64 :=
  let la := luminance a in
  let lb := luminance b in
  f_div (f_add (js_max la lb) (decimal 5 100)) (f_add (js_min la lb) (decimal 5 100)).

Definition opaque (a : float64) : bool := f_leb (decimal 999 1000) a.
(** The surface behind an element: its own background and those of the elements it is
    inside of, blended until it is opaque. *)
Fixpoint blend (acc : colour) (chain : list resolved) : colour :=
  match chain with
  | [] => acc
  | e :: chain =>
      match parseColor (backgroundColor (e_style e)) with
      | Some bg =>
          if f_ltb zero (c_a bg) then
            let acc := if f_eqb (c_a acc) zero then bg else over acc bg in
            if opaque (c_a acc) then acc else blend acc chain
          else blend acc chain
      | None => blend acc chain
      end
  end.
Definition effectiveBackground (d : document) (chain : list resolved) : colour :=
  let acc := blend clear chain in
  if f_ltb (c_a acc) (decimal 999 1000) then
    let base := match parseColor (backgroundColor (e_style (d_html d))) with
                | Some canvas => if f_ltb zero (c_a canvas) then canvas else white
                | None => white
                end in
    if f_eqb (c_a acc) zero then base else over acc base
  else acc.
Definition chain_of (el : element) : list resolved := el_self el :: el_above el.
(** The surface behind an element's own: that of its parent, or of the body. *)
Definition behind (d : document) (el : element) : colour :=
  effectiveBackground d (match el_above el with [] => [d_body d; d_html d] | above => above end).

(* ------------------------------------------------------------------ *)
(** ** Reading an element *)

Definition className (e : resolved) : string := default "" (attribute e "class").
Definition has_class (c : string) (e : resolved) : bool := existsb (String.eqb c) (js_words (className e)).
Definition segment (e : resolved) : string :=
  e_tag e ++ (if negb (String.eqb (className e) "") && negb (e_svg e) then "." ++ Join (js_words (className e)) "." else "").
(** The parts of a path, nearest last; an element with an id ends it. *)
Fixpoint path_parts (depth : nat) (chain : list resolved) : list string :=
  match depth, chain with
  | S depth, e :: chain => if String.eqb (id_of e) "" then (path_parts depth chain ++ [segment e])%list else ["#" ++ id_of e]
  | _, _ => []
  end.
Definition path (el : option element) : string :=
  match el with
  | None => "(none)"
  | Some el => if String.eqb (id_of (el_self el)) "" then Join (path_parts 5 (chain_of el)) " > " else "#" ++ id_of (el_self el)
  end.

Definition visible (el : element) : bool :=
  let cs := e_style (el_self el) in
  let r := e_box (el_self el) in
  negb (String.eqb (display cs) "none" || String.eqb (visibility cs) "hidden" || f_eqb (js_Number (opacity cs)) zero) &&
  f_ltb zero (r_width r) && f_ltb zero (r_height r).
Definition ownText (el : element) : string := trim (String.concat "" (flat_map (fun n => match n with NText s => [s] | NElement _ _ => [] end) (el_children el))).
Fixpoint textContent (n : node) : string :=
  match n with NText s => s | NElement _ children => String.concat "" (map textContent children) end.
(** [innerText || textContent || '']. *)
Definition rendered_text (el : element) : string :=
  if String.eqb (e_innerText (el_self el)) "" then String.concat "" (map textContent (el_children el)) else e_innerText (el_self el).
Definition one_line (s : string) : string := Join (js_words s) " ".

Definition INTERACTIVE (el : element) : bool :=
  let e := el_self el in
  let equals name value := bool_decide (attribute e name = Some value) in
  let has name := bool_decide (is_Some (attribute e name)) in
  (String.eqb (e_tag e) "a" && has "href") || existsb (String.eqb (e_tag e)) ["button"; "input"; "select"; "textarea"] ||
  (has "tabindex" && negb (equals "tabindex" "-1")) || equals "role" "button" || equals "role" "link" || equals "contenteditable" "true".
(** [closest]. *)
Definition closest (p : resolved -> bool) (el : element) : bool := existsb p (chain_of el).
Definition inside (p : resolved -> bool) (el : element) : bool := existsb p (el_above el).
(** ['#panel li']. *)
Definition panel_row (e : resolved) (above : list resolved) : bool := String.eqb (e_tag e) "li" && existsb (has_id "panel") above.
(** [closest('#panel li')]. *)
Fixpoint in_panel_row (chain : list resolved) : bool :=
  match chain with [] => false | e :: above => panel_row e above || in_panel_row above end.

(* ------------------------------------------------------------------ *)
(** ** The reports *)

Definition hundredths (f : float64) : float64 := f_div (js_round (f_mul f (f64 100))) (f64 100).
Definition or_else (f d : float64) : float64 := if f_isNaN f || f_eqb f zero then d else f.

Definition textRun_of (d : document) (el : element) : list textRun :=
  let text := ownText el in
  if String.eqb text "" || negb (visible el) then []
  else
    let cs := e_style (el_self el) in
    match parseColor (color cs) with
    | None => []
    | Some fg =>
        let bg := effectiveBackground d (chain_of el) in
        let composited := if f_ltb (c_a fg) one then over fg bg else fg in
        let size := js_parseFloat (fontSize cs) in
        let weight := or_else (js_parseInt (fontWeight cs)) (f64 400) in
        let large := f_leb (f64 24) size || (f_leb (decimal 1866 100) size && f_leb (f64 700) weight) in
        [mkTextRun (path (Some el)) (if 60 <? js_length text then js_slice 60 text ++ "..." else text)
                   (hundredths (ratio composited bg)) (if large then f64 3 else decimal 45 10)]
    end.
Definition textRuns (d : document) : list textRun := flat_map (textRun_of d) (in_body d).

Definition control_of (el : element) : control :=
  let r := e_box (el_self el) in
  mkControl (path (Some el)) (e_tag (el_self el)) (hundredths (r_width r)) (hundredths (r_height r)) (hundredths (r_left r)) (hundredths (r_right r)) (hundredths (r_top r)) (e_tabIndex (el_self el)).
Definition controls (d : document) : list control := map control_of (List.filter visible (List.filter INTERACTIVE (everything d))).

(** The surface an element's boundary is drawn on. *)
Definition surface_of (d : document) (el : element) : colour :=
  match parseColor (backgroundColor (e_style (el_self el))) with
  | Some own => if f_ltb zero (c_a own) then over own (behind d el) else behind d el
  | None => behind d el
  end.
Definition on_surface (c surface : colour) : float64 := ratio (if f_ltb (c_a c) one then over c surface else c) surface.
Definition boundary_of (d : document) (el : element) : list boundary :=
  if negb (visible el) then []
  else
    let cs := e_style (el_self el) in
    let width := or_else (js_parseFloat (borderTopWidth cs)) zero in
    if f_leb width zero || String.eqb (borderTopStyle cs) "none" then []
    else match parseColor (borderTopColor cs) with
         | None => []
         | Some col => if f_eqb (c_a col) zero then [] else [mkBoundary (path (Some el)) (hundredths (on_surface col (surface_of d el)))]
         end.
Definition boundaries (d : document) : list boundary := flat_map (boundary_of d) (List.filter INTERACTIVE (everything d)).

(** Nothing focused, or the body, is a report of nothing. *)
Definition focusIndicator (d : document) : focusReport :=
  match d_active d with
  | None => mkFocus "" zero zero
  | Some el =>
      if String.eqb (e_tag (el_self el)) "body" then mkFocus "" zero zero
      else
        let cs := e_style (el_self el) in
        let w := or_else (js_parseFloat (outlineWidth cs)) zero in
        let r := match parseColor (outlineColor cs) with
                 | Some col => if f_ltb zero w && negb (String.eqb (outlineStyle cs) "none") then on_surface col (surface_of d el) else zero
                 | None => zero
                 end in
        mkFocus (outlineStyle cs) w (hundredths r)
  end.
Definition activePath (d : document) : string := path (d_active d).
Definition reflow (d : document) : reflowReport := mkReflow (d_scrollWidth d) (d_clientWidth d).

Definition background_report (d : document) (selector : string) (el : option element) : list bgReport :=
  match el with
  | None => []
  | Some el => [mkBg selector (f_div (js_round (f_mul (luminance (effectiveBackground d (chain_of el))) (f64 10000))) (f64 10000))]
  end.
Definition themeBackgrounds (d : document) : list bgReport :=
  (background_report d "body" (Some (body d)) ++ background_report d "#panel" (getElementById d "panel") ++ background_report d "#bar" (getElementById d "bar"))%list.

Definition is_region (e : resolved) : bool := bool_decide (is_Some (attribute e "data-region")).
Definition links_in (el : element) : list string :=
  flat_map (fun l => if String.eqb (e_tag (el_self l)) "a" then option_list (attribute (el_self l) "href") else []) (flat_map (below (chain_of el)) (el_children el)).
Definition regions (d : document) : list region :=
  map (fun el => mkRegion (default "" (attribute (el_self el) "data-region")) (links_in el)) (List.filter (fun el => is_region (el_self el)) (everything d)).

Definition is_device_name (e : resolved) : bool := has_class "name" e || has_class "leaflet-tooltip" e.
Definition chromeText_of (el : element) : list chromeText :=
  if closest is_device_name el then []
  else
    let text := ownText el in
    if String.eqb text "" || negb (visible el) then []
    else [mkChromeText (path (Some el)) text (closest is_region el) (Z.of_nat (length (js_words text)))].
Definition chromeTexts (d : document) : list chromeText := flat_map chromeText_of (in_body d).

Definition nameClassPlacement (d : document) : list namePlace :=
  map (fun el => mkNamePlace (path (Some el)) (in_panel_row (chain_of el))) (List.filter (fun el => has_class "name" (el_self el)) (everything d)).

Definition deviceRow_of (el : element) : deviceRow :=
  mkDeviceRow (default "" (attribute (el_self el) "data-device-id")) (default "" (attribute (el_self el) "data-state")) (one_line (rendered_text el))
    (match parentElement el with Some p => id_of p | None => "" end).
Definition deviceRows (d : document) : list deviceRow :=
  map deviceRow_of (List.filter visible (List.filter (fun el => panel_row (el_self el) (el_above el)) (everything d))).

Definition panelState (d : document) : panelStateReport :=
  match getElementById d "panel-state" with
  | None => mkPanelState "" "" "" false
  | Some el =>
      mkPanelState (default "" (attribute (el_self el) "data-state")) (trim (rendered_text el))
        (match getElementById d "panel-action" with Some a => if visible a then trim (rendered_text a) else "" | None => "" end) (visible el)
  end.
Definition figure (d : document) (id : string) : string :=
  match getElementById d id with Some el => if visible el then one_line (rendered_text el) else "" | None => "" end.
Definition figures (d : document) : figureReport := mkFigures (figure d "located-count") (figure d "rejected") (figure d "rejected-detail") (figure d "status").
End Measuring.
