(* ===== verification/UiChecks.v ===== *)
(** The rendered checks of the browser route ([internal/uiverify]: checks.go): each claim
    with the mutation that must turn it red and the run that drives the session and
    judges what it answers.  A refusal is [Says] with the check's own words, without the
    values they are printed with; the criterion a result is printed with is left out.
    In a text below, [~] stands for a double quote and [^] for the end of a line. *)

From Stdlib Require Import ZArith Lia Bool String Ascii List.
From stdpp Require Import base option list strings gmap.
From S2P Require Import Prelude GoStrings Json Programs Repo.
From S2P Require Import UiRecord UiRefusal UiStack UiSession.
Local Open Scope string_scope.
Local Open Scope Z_scope.
Local Open Scope program_scope.

Definition maxLabelWords : Z := 8.
(** A mutation of the page's text. *)
Definition finds (id find replace : string) : Mutation := mkMutation id "" (txt find) (txt replace) "" "" "".

Definition alice : string := "11111111-1111-1111-1111-111111111111".
Definition bob : string := "22222222-2222-2222-2222-222222222222".
Definition dan : string := "44444444-4444-4444-4444-444444444444".
Definition erin : string := "55555555-5555-5555-5555-555555555555".

(** The words of a state. *)
Definition state_words (state : string) : string :=
  if String.eqb state "no-position" then "no position recorded"
  else if String.eqb state "live" then "live now"
  else if String.eqb state "recent" then "seen recently"
  else if String.eqb state "stale" then "not seen lately"
  else "".
(** The last entry of a list under a key: what a map filled from it holds. *)
Definition last_such {A} (key : A -> string) (l : list A) (k : string) : option A := List.find (fun a => String.eqb (key a) k) (rev l).

(** Contrast with the tolerance, and the runs and boundaries below their floors. *)
Definition below (ratio floor : float64) : bool := f_ltb (f_add ratio (f_thousandths 5)) floor.
Definition failing_runs (runs : list textRun) : list string := map tr_Path (List.filter (fun r => below (tr_Ratio r) (tr_Required r)) runs).
Definition failing_boundaries (bounds : list boundary) : list string := map bd_Path (List.filter (fun b => below (bd_Ratio b) (f64 3)) bounds).
Definition small (c : control) : bool := f_ltb (f_add (ct_Width c) f_half) (f64 24) || f_ltb (f_add (ct_Height c) f_half) (f64 24).
(** What is laid out past the viewport, by half a pixel or more. *)
Definition outside (left right width : float64) : bool := f_ltb left (f_opp f_half) || f_ltb (f_add width f_half) right.

(** The documentation links of a region. *)
Definition doc_links (reg : region) : list string := List.filter (fun h => HasPrefix h "/static/" || HasPrefix h "/docs/") (rg_Hrefs reg).

(** [unique]. *)
Fixpoint first_seen (seen l : list string) : list string :=
  match l with
  | [] => []
  | s :: l => if existsb (String.eqb s) seen then first_seen seen l else s :: first_seen (s :: seen) l
  end.
Definition unique (l : list string) : list string := stable_sort str_ltb (first_seen [] l).

(* ------------------------------------------------------------------ *)
(** ** What the page may ask for *)

Definition tile_host : string := "tile.openstreetmap.org".
Definition uncounted (u : string) : bool := HasPrefix u "data:" || HasPrefix u "blob:" || HasPrefix u "about:".
Definition allowed (url : string) : list string :=
  [origin url; "https://tile.openstreetmap.org"; "chrome-extension://"; "data:"; "about:"; "devtools://devtools"; "https://tile.openstreetmap.org/";
   origin url ++ "/"; "chrome://"; "blob:"; "http://127.0.0.1"; TrimSuffix url "/"].
Definition counted (requests : list string) : list string := List.filter (fun u => negb (uncounted u)) requests.
Definition tile_request (u : string) : bool := Contains (origin u) tile_host.
Definition tileURLs (requests : list string) : list string := List.filter tile_request (counted requests).
Definition foreign (url : string) (requests : list string) : list string :=
  List.filter (fun u => negb (tile_request u) && negb (existsb (String.eqb (origin u)) (allowed url))) (counted requests).
Definition policy_fields (csp : string) : list string := Fields (ReplaceAll csp ";" " ").
Definition foreign_host (field : string) : bool := (HasPrefix field "http://" || HasPrefix field "https://") && negb (String.eqb field "https://tile.openstreetmap.org").

Inductive egress_problem :=
| NoRequests | Foreign (urls : list string) | NoTiles | TokenSent (url : string) | Referrer (policy : option string) | Reports (field : string) | NamesHost (field : string).
Definition egress_verdict (url : string) (requests : list string) (referrer : option string) (csp : string) : option egress_problem :=
  match counted requests with
  | [] => Some NoRequests
  | _ =>
  match foreign url requests with
  | _ :: _ as urls => Some (Foreign (unique urls))
  | [] =>
  match tileURLs requests with
  | [] => Some NoTiles
  | tiles =>
  match List.find (fun u => Contains u viewerToken) tiles with
  | Some u => Some (TokenSent u)
  | None =>
  if negb (String.eqb (default "" referrer) "no-referrer") then Some (Referrer referrer)
  else match List.find (fun reporter => Contains csp reporter) ["report-uri"; "report-to"] with
  | Some reporter => Some (Reports reporter)
  | None => option_map NamesHost (List.find foreign_host (policy_fields csp))
  end end end end end.

(** The mutations of the two checks of the policy. *)
Definition policy_mutation : Mutation := mkMutation "AC21-policy" "" "" "" "script-src 'self' 'nonce-" "script-src 'self' 'nonce-BROKEN" "".
Definition tile_template : string := "https://tile.openstreetmap.org/{z}/{x}/{y}.png".
Definition egress_mutation : Mutation :=
  mkMutation "AC22-egress" "" tile_template "https://tiles.example.net/{z}/{x}/{y}.png"
    "img-src 'self' data: https://tile.openstreetmap.org" "img-src 'self' data: https://tile.openstreetmap.org https://tiles.example.net" "".

(* ------------------------------------------------------------------ *)
(** ** The checks *)

Section Checks.
Context (produce : string -> response) (stack_URL : string) (family : string).
Context {B : Type} `{En : Engine B} `{U : Unicode} `{F : FloatJson}.
Notation Run := (Run (B:=B)).
Notation open := (open produce stack_URL).
Notation openWatched := (openWatched produce stack_URL family).
Notation waitSnapshot := (waitSnapshot produce).
Notation awaitPanelState := (awaitPanelState produce).
Notation inject := (inject produce).
Notation eval := (eval produce).
Notation deviceRows := (deviceRows produce).
Notation controls := (controls produce).
Notation figures := (figures produce).
Notation panelState := (panelState produce).
Notation PressTab := (PressTab produce).

Definition demand (b : bool) (why : string) : Run unit := if b then done tt else fail (Says why).
(** A [Check] before it is graded. *)
Record RenderedCheck := mkRendered { rc_ID : string; rc_Mutation : Mutation; rc_Run : Run unit }.
Definition interrupted : snapshot -> Run bool := when Interrupted.

(** The paths focused by Tab, up to the watch control. *)
Fixpoint tab_order (n : nat) (order : list string) : Run (list string) :=
  match n with
  | O => done order
  | S n =>
      PressTab ;;
      do p <- eval QActivePath ;
      let order := (order ++ [p])%list in
      if String.eqb p "#watch" then done order else tab_order n order
  end.
Definition checkKeyboard : RenderedCheck := mkRendered "AC1-keyboard"
  (finds "AC1-keyboard" "<button id=~watch~>Watch</button>" "<button id=~watch~ tabindex=~-1~>Watch</button>")
  (fixture (DSetPositions 200 family) ;; fixture DRestore ;;
   SetTheme produce "light" ;;
   SetViewport produce 1280 800 false ;;
   Navigate produce (stack_URL ++ "/map") ;;
   do order <- tab_order 8 [] ;
   let ti := indexOf order "#token" in
   let wi := indexOf order "#watch" in
   demand (negb (ti <? 0)) "the token field is not reachable by Tab" ;;
   demand (negb (wi <? 0)) "the watch control is not reachable by Tab" ;;
   demand (negb (wi <? ti)) "tabbing reaches the watch control before the token field" ;;
   eval QFocusToken ;;
   TypeInto produce "#token" viewerToken ;;
   PressTab ;;
   do focused <- eval QActivePath ;
   demand (String.eqb focused "#watch") "tabbing from the token field did not focus the watch control" ;;
   PressKey produce (of_list [byte_of 13]) ;;
   waitSnapshot (when (fun s => DeviceCount s =? 5)) (ms 15000) "activating the watch control from the keyboard did not start watching").

Definition checkAccessibleNames : RenderedCheck := mkRendered "AC1-names"
  (finds "AC1-names" "<label for=~token~ id=~token-label~>Viewer token</label>" "<span id=~token-label~>Viewer token</span>")
  (openWatched "light" 1280 800 ;;
   do nodes <- eval QAxTree ;
   match accessible_names nodes with
   | None => done tt
   | Some EmptyTree => fail (Says "the engine returned an empty accessibility tree")
   | Some (Missing _) => fail (Says "these controls have no accessible name in the engine's accessibility tree")
   | Some NoStatusName => fail (Says "the status line has no accessible name in the accessibility tree")
   end).

(** What a row must say with the feed severed and colour removed. *)
Definition colour_free_row (row : deviceRow) : Run unit :=
  demand (negb (String.eqb (dr_Text row) "")) "it renders no text at all with colour removed" ;;
  demand (negb (String.eqb (state_words (dr_State row)) "")) "it carries an unknown state" ;;
  demand (Contains (dr_Text row) (state_words (dr_State row))) "it does not contain the state in words" ;;
  demand (Contains (dr_Text row) "unconfirmed") "the unconfirmed annotation is not in the text".
Definition checkColourFree : RenderedCheck := mkRendered "AC1-colour-free"
  (finds "AC1-colour-free" "span.textContent = stateText(d.state);" "span.textContent = '';")
  (openWatched "light" 1280 800 ;;
   fixture DSever ;;
   waitSnapshot interrupted (ms 12000) "the page never noticed the severed feed" ;;
   SetVisionDeficiency produce "achromatopsia" ;;
   do rows <- deviceRows ;
   demand (Nat.eqb (length rows) 5) "expected 5 device rows" ;;
   each colour_free_row rows ;;
   each (fun state => demand (existsb (fun row => String.eqb (dr_State row) state) rows) "no device rendered the state") ["no-position"; "live"; "recent"; "stale"]).

Definition checkContrast (theme : string) : RenderedCheck := mkRendered ("AC2-contrast-" ++ theme)
  (if String.eqb theme "dark" then finds "AC2-contrast-dark" "--muted: #b6bfc9;" "--muted: #3a4149;"
   else finds ("AC2-contrast-" ++ theme) "--muted: #4d5359;" "--muted: #b9bec3;")
  (openWatched theme 1280 800 ;;
   inject "error" (txt "{~message~:~the server cannot read this family~}") ;;
   waitSnapshot interrupted (ms 5000) "the page never entered its interrupted paint" ;;
   do runs <- eval QTextRuns ;
   demand (negb (Nat.ltb (length runs) 8)) "too few text runs were measured" ;;
   do bounds <- eval QBoundaries ;
   let bad := (failing_runs runs ++ failing_boundaries bounds)%list in
   demand (Nat.eqb (length bad) 0) "contrast failures").

(** One control: its pixels unfocused and focused, and its outline. *)
Definition focus_shown (sel : string) : Run unit :=
  do before <- wrapping (Around "screenshotting it unfocused") (Screenshot produce sel) ;
  wrapping (Around "theme") (focusByTab produce sel) ;;
  do after <- wrapping (Around "screenshotting it focused") (Screenshot produce sel) ;
  do diff <- pixelDifference before after ;
  demand (negb (diff =? 0)) "focusing it changes not one rendered pixel" ;;
  do fi <- eval QFocusIndicator ;
  demand (negb (f_leb (fi_OutlineWidth fi) (f64 0) || String.eqb (fi_OutlineStyle fi) "none")) "it is focused with no outline painted" ;;
  demand (negb (below (fi_Ratio fi) (f64 3))) "its focus indicator is below the 3:1 floor".
Definition checkFocusIndicator : RenderedCheck := mkRendered "AC3-focus"
  (finds "AC3-focus" ":focus-visible {^      outline: 3px solid var(--focus);^      outline-offset: 2px;^    }" ":focus-visible {^      outline: none;^    }")
  (each (fun theme =>
     openWatched theme 1280 800 ;;
     do cs <- controls ;
     demand (negb (Nat.ltb (length cs) 4)) "too few controls were found" ;;
     each (fun c => focus_shown (ct_Path c)) cs) ["light"; "dark"]).

Definition theme_reading (theme : string) : Run (list bgReport) :=
  openWatched theme 1280 800 ;;
  do got <- eval QThemeBackgrounds ;
  demand (negb (Nat.ltb (length got) 2)) "body and the panel are both required" ;;
  done got.
Definition checkThemeFollowsPreference : RenderedCheck := mkRendered "AC3-theme"
  (finds "AC3-theme" "--bg: #12161b;" "--bg: #ffffff;")
  (do light <- theme_reading "light" ;
   do dark <- theme_reading "dark" ;
   each (fun sel =>
     match last_such bg_Selector light sel, last_such bg_Selector dark sel with
     | Some l, Some d =>
         demand (negb (f_ltb (bg_Luminance l) f_half)) "a light preference renders a dark slab" ;;
         demand (negb (f_ltb (f_thousandths 200) (bg_Luminance d))) "a dark preference renders what is not dark"
     | _, _ => fail (Says "it was not measured in both themes")
     end) ["body"; "#panel"; "#bar"]).

Definition checkTargetSize : RenderedCheck := mkRendered "AC4-target-size"
  (finds "AC4-target-size"
     "#watch {^      min-height: 32px; min-width: 44px; padding: .35rem .8rem; font: inherit; cursor: pointer;"
     "#watch {^      height: 14px; min-height: 0; min-width: 0; padding: 0; font-size: 8px; cursor: pointer;")
  (each (fun viewport =>
     openWatched "light" (fst viewport) (snd viewport) ;;
     do cs <- controls ;
     demand (negb (Nat.ltb (length cs) 4)) "too few controls were found" ;;
     demand (Nat.eqb (length (List.filter small cs)) 0) "controls are painted below 24x24 CSS pixels") [(1280, 800); (360, 640)]).

(** A control inside the viewport, and a box inside it and legible. *)
Definition control_inside (cs : list control) (width : float64) (sel : string) : Run unit :=
  match last_such ct_Path cs sel with
  | None => fail (Says "it is not rendered at a 360px viewport")
  | Some c => demand (negb (outside (ct_Left c) (ct_Right c) width)) "it is laid out outside the viewport"
  end.
Definition box_legible (width : float64) (b : box) : Run unit :=
  demand (negb (not_rendered b)) "it is not rendered at a 360px viewport" ;;
  demand (negb (outside (bx_Left b) (bx_Right b) width)) "it spans outside the viewport" ;;
  demand (negb (f_ltb (f64 640) (bx_Top b))) "it is laid out below a 640px-tall viewport" ;;
  demand (negb (f_ltb (bx_FontSize b) (f64 12))) "it renders below a legible floor of 12px".
Definition checkReflow : RenderedCheck := mkRendered "AC11-reflow"
  (finds "AC11-reflow" "html, body {^      margin: 0; height: 100%;" "html, body {^      margin: 0; height: 100%; min-width: 700px;")
  (openWatched "light" 360 640 ;;
   do rf <- eval QReflow ;
   demand (negb (f_ltb (f_add (rf_ClientWidth rf) f_half) (rf_ScrollWidth rf))) "at 360 CSS pixels the document scrolls sideways" ;;
   do cs <- controls ;
   each (control_inside cs (rf_ClientWidth rf)) ["#token"; "#watch"] ;;
   do boxes <- eval QBoxes ;
   each (box_legible (rf_ClientWidth rf)) boxes).

(** The text of a device without a position. *)
Definition shows_zero (text : string) : bool := existsb (fun bare => Contains text bare && negb (String.eqb bare "-")) ["0,0"; " 0 "; "-"; "no-position"].
Definition unreadable_row (row : deviceRow) : bool := String.eqb (dr_List row) "unlocated" && Contains (dr_Text row) "not readable".
Definition absent_row (rows : list deviceRow) : Run unit :=
  match last_such dr_ID rows dan with
  | None => fail (Says "the no-position device is not rendered at all")
  | Some d =>
      demand (Contains (dr_Text d) "no position recorded") "it renders no words a reader understands as an absence" ;;
      demand (negb (shows_zero (dr_Text d))) "it contains the bare token or a zero" ;;
      demand (String.eqb (dr_List d) "unlocated") "it is not listed among the devices without a position"
  end.
Definition unusable_row (rows : list deviceRow) : Run unit :=
  match last_such dr_ID rows erin with
  | None => fail (Says "the device whose coordinate could not be read is not rendered at all")
  | Some e =>
      demand (String.eqb (dr_List e) "unlocated") "it must render present but unlocated" ;;
      demand (Contains (dr_Text e) "not readable") "it does not say the position could not be read"
  end.
Definition checkAbsence : RenderedCheck := mkRendered "AC5-absence"
  (finds "AC5-absence" "'no-position': 'no position recorded'," "'no-position': '0',")
  (openWatched "light" 1280 800 ;;
   do rows <- deviceRows ;
   absent_row rows ;;
   unusable_row rows ;;
   do s <- eval QSnapshot ;
   demand (negb (existsb (fun id => String.eqb id dan || String.eqb id erin) (MarkerIDsJSON s))) "a device has a map marker despite having no usable position" ;;
   demand (Nat.eqb (length (MarkerIDsJSON s)) 3) "the map does not hold 3 markers" ;;
   inject "position" (txt "{~device_id~:~11111111-1111-1111-1111-111111111111~,~device_name~:~Alice phone~,~presentation~:~live~,~lat~:~nope~,~lon~:null}") ;;
   waitSnapshot (when (fun s => Nat.eqb (length (MarkerIDsJSON s)) 2)) (ms 5000) "a position event with an unreadable coordinate left the device's marker in place" ;;
   do rows <- deviceRows ;
   each (fun row => demand (negb (String.eqb (dr_ID row) alice) || unreadable_row row) "it must read as present but unlocated") rows).

Definition checkAggregates : RenderedCheck := mkRendered "AC6-aggregates"
  (finds "AC6-aggregates" "locatedCount + ' of ' + ids.length + ' on map, ' + unlocatedCount + ' without position'" "ids.length + ' devices'")
  (openWatched "light" 1280 800 ;;
   inject "teleport" (txt "{~device_id~:~11111111-1111-1111-1111-111111111111~,~presentation~:~live~}") ;;
   waitSnapshot (when (fun s => 0 <? RejectedCount s)) (ms 5000) "the page never rejected the unknown event type" ;;
   do fig <- figures ;
   demand (negb (String.eqb (fg_Located fig) "")) "the device-set figure is not rendered at all" ;;
   each (fun want => demand (Contains (fg_Located fig) want) "the device-set figure does not name the whole set") ["of"; "5"; "3"] ;;
   demand (Contains (fg_Located fig) "without position") "the rows excluded for want of a position are not reported" ;;
   demand (negb (bareCount (fg_Located fig))) "the device-set figure is a bare count" ;;
   demand (negb (String.eqb (fg_Rejected fig) "")) "one event was rejected but no figure says so" ;;
   demand (Contains (fg_Rejected fig) " of ") "the rejected figure does not state the set it was counted over" ;;
   do s <- eval QSnapshot ;
   demand (Contains (fg_Rejected fig) (Itoa (ReceivedCount s))) "the denominator is not the set it counted over" ;;
   demand (negb (String.eqb (fg_RejectedDetail fig) "")) "the rejected figure names no reason").

Definition bad_events : list (string * string) :=
  [("presentation", "{not json at all");
   ("teleport", txt "{~device_id~:~11111111-1111-1111-1111-111111111111~,~presentation~:~live~}");
   ("presentation", txt "{~device_id~:~11111111-1111-1111-1111-111111111111~,~presentation~:~offline~}");
   ("presentation", txt "{~presentation~:~live~}")].
(** The updates from the [i]-th on, each costing only itself. *)
Fixpoint bad_updates (before : snapshot) (i : Z) (evs : list (string * string)) : Run unit :=
  match evs with
  | [] => done tt
  | (typ, data) :: evs =>
      inject typ data ;;
      waitSnapshot (when (fun s => RejectedCount s =? RejectedCount before + i + 1)) (ms 5000) "an update was not rejected" ;;
      do s <- eval QSnapshot ;
      demand (DeviceCount s =? DeviceCount before) "one bad update removed a device" ;;
      demand (Nat.eqb (length (MarkerIDsJSON s)) (length (MarkerIDsJSON before))) "one bad update removed a marker" ;;
      demand (negb (String.eqb (Status s) "")) "the status line is blank" ;;
      do ps <- panelState ;
      demand (pn_Visible ps && negb (String.eqb (pn_Text ps) "")) "the panel has gone blank" ;;
      do rows <- deviceRows ;
      demand (Nat.eqb (length rows) 5) "the device rows drawn are not 5" ;;
      bad_updates before (i + 1) evs
  end.
(** Whether the row of Bob's phone reads stale; rows that cannot be read are none. *)
Definition bob_is_stale (_ : snapshot) : Run bool :=
  do rows <- passing_over deviceRows ;
  done (existsb (fun row => String.eqb (dr_ID row) bob && String.eqb (dr_State row) "stale") (default [] rows)).
Definition checkOneBadEvent : RenderedCheck := mkRendered "AC7-one-bad-event"
  (finds "AC7-one-bad-event" "function reject(why) {^      rejectedCount++;" "function reject(why) {^      devices = {}; markers = {};^      rejectedCount++;")
  (openWatched "light" 1280 800 ;;
   do before <- eval QSnapshot ;
   bad_updates before 0 bad_events ;;
   inject "presentation" (txt "{~device_id~:~22222222-2222-2222-2222-222222222222~,~device_name~:~Bob phone~,~presentation~:~stale~}") ;;
   waitSnapshot bob_is_stale (ms 5000) "after four unreadable updates the page no longer accepts a good one").

Definition reads_unconfirmed (row : deviceRow) : bool := Contains (dr_Text row) "unconfirmed".
Definition checkStaleFeed : RenderedCheck := mkRendered "AC8-stale"
  (finds "AC8-stale" "mark.textContent = MSG_UNCONFIRMED;" "mark.textContent = '';")
  (openWatched "light" 1280 800 ;;
   do before <- deviceRows ;
   demand (Nat.eqb (length before) 5) "expected 5 device rows before severing" ;;
   each (fun row => demand (negb (reads_unconfirmed row)) "it already reads as unconfirmed before the feed was severed") before ;;
   do severed <- clock ;
   fixture DSever ;;
   waitSnapshot interrupted (ms 10000) "ten seconds after the feed was severed the page still does not say the connection is interrupted" ;;
   do noticed <- clock ;
   demand (negb (ms 10000 <? noticed - severed)) "the page took too long to say the connection was interrupted" ;;
   do fig <- figures ;
   demand (Contains (ToLower (fg_Status fig)) "interrupt") "the status line does not read as interrupted" ;;
   do rows <- deviceRows ;
   demand (Nat.eqb (length rows) 5) "a device was silently removed" ;;
   each (fun row => demand (Contains (dr_Text row) "last known" && reads_unconfirmed row) "it does not read as last known rather than current") rows ;;
   fixture DRestore ;;
   waitSnapshot (when (fun s => negb (Interrupted s))) (ms 20000) "the restored feed never cleared the interruption" ;;
   do after <- deviceRows ;
   demand (Nat.eqb (length after) 5) "a device was silently removed" ;;
   each (fun row => demand (negb (reads_unconfirmed row)) "it still reads as unconfirmed") after).

Definition actionable (ps : panelStateReport) : bool := negb (String.eqb (pn_Text ps) "" || String.eqb (pn_Action ps) "").
Definition checkThreeStates : RenderedCheck := mkRendered "AC9-three-states"
  (finds "AC9-three-states" "if (!deviceSetKnown) { return 'loading'; }" "if (true) { return 'loading'; }")
  (fixture DRestore ;;
   fixture DHoldPositions ;;
   open "light" 1280 800 ;;
   do loading <- awaitPanelState "loading" (ms 15000) ;
   demand (actionable loading) "the loading state must carry text a person can act on" ;;
   fixture (DDelayPositions (ms 1200) 200 "[]") ;;
   open "light" 1280 800 ;;
   wrapping (Around "a slow device set did not put the page in its loading state") (awaitPanelState "loading" (ms 10000)) ;;
   do arrived <- attempt_value (awaitPanelState "empty" (ms 15000)) ;
   match arrived with
   | Err e => passing_over (eval QSnapshot) ;; fail (Around "the loading state was never resolved by the device set arriving" e)
   | Ok empty =>
       demand (actionable empty) "the empty state must carry text a person can act on" ;;
       demand (negb (String.eqb (pn_Text empty) (pn_Text loading))) "the empty state and the loading state are not distinct" ;;
       fixture DRefuseCredential ;;
       open "light" 1280 800 ;;
       do refused <- awaitPanelState "error" (ms 15000) ;
       demand (actionable refused) "the error state must carry text a person can act on" ;;
       demand (negb (String.eqb (pn_Text refused) (pn_Text loading) || String.eqb (pn_Text refused) (pn_Text empty))) "the error state is one of the other two states" ;;
       fixture DRestore ;;
       fixture DFailPositions ;;
       open "light" 1280 800 ;;
       wrapping (Around "an unreachable server did not produce the error state") (awaitPanelState "error" (ms 15000)) ;;
       do count <- eval QStateElements ;
       demand (count =? 1) "two of the three states could be shown at once"
   end).

(** The link of each region, in order. *)
Fixpoint region_links (regs : list region) : result failure (list string) :=
  match regs with
  | [] => Ok []
  | reg :: regs =>
      match doc_links reg with
      | [h] => rbind (region_links regs) (fun links => Ok (h :: links))
      | _ => Err (Says "the clause is exactly one documentation link per region")
      end
  end.
(** A link followed in the engine. *)
Definition follow (href : string) : Run unit :=
  let '(docPath, fragment, _) := Cut href "#" in
  wrapping (Around "following it") (Navigate produce (stack_URL ++ docPath)) ;;
  do ctype <- ResponseHeader docPath "content-type" ;
  demand (match ctype with Some _ => true | None => false end) "the engine recorded no response, so the link is dead" ;;
  demand (HasPrefix (default "" ctype) "text/html") "it answered with something other than a document" ;;
  do title <- eval QTitle ;
  demand (negb (String.eqb title "")) "it answered with a document that has no title" ;;
  do words <- eval QBodyWords ;
  demand (negb (words <? 100)) "it answered with too few words" ;;
  if String.eqb fragment "" then done tt
  else do landed <- eval (QHasElement fragment) ; demand landed "it links to a fragment which is not in the document".
Definition checkExplanation : RenderedCheck := mkRendered "AC10-explanation"
  (finds "AC10-explanation" ">How watching works</a>" ">A full explanation of how watching your family live map actually works from end to end</a>")
  (openWatched "light" 1280 800 ;;
   inject "teleport" (txt "{~device_id~:~x~,~presentation~:~live~}") ;;
   fixture DSever ;;
   waitSnapshot interrupted (ms 12000) "the page never entered its interrupted paint" ;;
   do names <- eval QNamePlacement ;
   demand (negb (Nat.eqb (length names) 0)) "no device name was rendered" ;;
   each (fun n => demand (np_InDeviceRow n) "it carries the `name` class outside a device row") names ;;
   do texts <- eval QChromeTexts ;
   demand (negb (Nat.ltb (length texts) 8)) "too few chrome texts were measured" ;;
   demand (existsb (fun t => negb (cx_InRegion t)) texts) "every chrome text measured was inside a declared region" ;;
   demand (forallb (fun t => cx_Words t <=? maxLabelWords) texts) "these are paragraphs, not labels" ;;
   do regs <- eval QRegions ;
   demand (negb (Nat.ltb (length regs) 2)) "the control bar and the device panel both need explanation" ;;
   do links <- of_result (region_links regs) ;
   each follow links).

Definition watching : snapshot -> Run bool := when (fun s => DeviceSetKnown s && String.eqb (StatusHealth s) "live").
Definition open_fixture : Run unit := fixture (DSetPositions 200 family) ;; fixture DRestore ;; open "light" 1280 800.
Definition checkPolicy : RenderedCheck := mkRendered "AC21-policy" policy_mutation
  (open_fixture ;;
   do csp <- ResponseHeader "/map" "content-security-policy" ;
   demand (negb (String.eqb (default "" csp) "")) "GET /map was served with no Content-Security-Policy" ;;
   do asset <- ResponseHeader "/static/leaflet.js" "content-security-policy" ;
   demand (negb (String.eqb (default "" asset) "")) "GET /static/leaflet.js was served with no Content-Security-Policy" ;;
   do violations <- Violations produce ;
   demand (Nat.eqb (length violations) 0) "the browser reported policy violations against the shipped page" ;;
   waitSnapshot watching (ms 20000) "under the policy the page never completed its positions request and its event stream" ;;
   do works <- eval QWorks ;
   demand (wk_Leaflet works) "the vendored Leaflet library did not run under the policy" ;;
   demand (wk_Hook works) "the page's own inline script did not run under the policy" ;;
   demand (wk_Styled works) "the page's inline stylesheet did not apply under the policy" ;;
   demand (negb (wk_Markers works =? 0)) "no device marker was drawn under the policy" ;;
   do requests <- Requests ;
   demand (existsb (fun u => Contains u tile_host) requests) "the page made no map tile request under the policy").

Definition egress_text (p : egress_problem) : string :=
  match p with
  | NoRequests => "the engine recorded no requests at all, so this check would pass vacuously"
  | Foreign urls => "the page made requests to an origin that is neither its own server nor the tile host:" ++ of_list [byte_of 10] ++ "    " ++ Join urls (of_list [byte_of 10] ++ "    ")
  | NoTiles => "the page requested no map tiles, so the no-token-to-the-tile-host claim was not exercised"
  | TokenSent u => "a tile request carries the viewer token: " ++ u
  | Referrer _ => "GET /map sent a Referrer-Policy that hands a live viewer token to the tile host"
  | Reports field => "the policy names a " ++ field
  | NamesHost field => "the policy names the host " ++ field ++ " beyond the server and the tile imagery"
  end.
Definition checkEgress : RenderedCheck := mkRendered "AC22-egress" egress_mutation
  (open_fixture ;;
   waitSnapshot watching (ms 20000) "the page never got as far as watching, so its network record proves nothing" ;;
   pause produce (ms 1500) ;;
   do requests <- Requests ;
   do referrer <- ResponseHeader "/map" "referrer-policy" ;
   do csp <- ResponseHeader "/map" "content-security-policy" ;
   match egress_verdict stack_URL requests referrer (default "" csp) with None => done tt | Some p => fail (Says (egress_text p)) end).

(** [Checks], and a check as the route grades it. *)
Definition Checks : list RenderedCheck :=
  [checkKeyboard; checkAccessibleNames; checkColourFree; checkContrast "light"; checkContrast "dark"; checkFocusIndicator; checkThemeFollowsPreference;
   checkTargetSize; checkAbsence; checkAggregates; checkOneBadEvent; checkStaleFeed; checkThreeStates; checkExplanation; checkReflow; checkPolicy; checkEgress].
Definition as_graded (c : RenderedCheck) : Check (B * Session) :=
  mkCheck (rc_ID c) (Some (rc_Mutation c)) (fun w =>
    let '(r, after) := rc_Run c (mkRunner (fst (fst w)) (snd (fst w)) (snd w) []) in
    (match r with Ok _ => true | Err _ => false end, r_events after, (r_browser after, r_records after))).
(** What [RunWeb] answers once an engine is up: the checks graded on a new stack. *)
Definition grade_session (b : B) : list Result :=
  fst (RunWeb_on produce family (map as_graded Checks) ((b, no_records), mkHarness NewStack [] 0 [])).
End Checks.
