(* ===== verification/MeasuringSpec.v ===== *)
(** What the measuring library's reports are of: the rows it reads are those the map page
    drew, so what the severed-feed check asks of them is true of the page; and the surface
    it takes a text to be on is the nearest opaque one. *)

From Stdlib Require Import ZArith Lia Bool String Ascii List.
From stdpp Require Import base option list strings gmap.
From S2P Require Import Prelude GoStrings Occurs Json Programs Repo.
From S2P Require Import UiSession UiChecks Viewer ViewerSpec Measuring.
Local Open Scope string_scope.
Local Open Scope Z_scope.

(* ------------------------------------------------------------------ *)
(** ** Elements *)

(** Induction on a document's nodes. *)
Lemma node_induction (P : node -> Prop) : (forall s, P (NText s)) -> (forall e children, Forall P children -> P (NElement e children)) -> forall n, P n.
Proof.
  intros Ht He. fix IH 1. intros [s|e children]; [apply Ht|]. apply He. induction children as [|n children IHc]; constructor; [apply IH|exact IHc].
Qed.
Definition elements (above : list resolved) (ns : list node) : list element := flat_map (below above) ns.
Lemma elements_app above ns ms : elements above (ns ++ ms) = (elements above ns ++ elements above ms)%list.
Proof. apply flat_map_app. Qed.
Definition no_panel (e : resolved) : Prop := has_id "panel" e = false.
Definition is_row (el : element) : bool := panel_row (el_self el) (el_above el).
(** Every element among some nodes, whatever they are inside of. *)
Fixpoint all_below (P : resolved -> Prop) (n : node) : Prop :=
  match n with NText _ => True | NElement e children => P e /\ fold_right (fun c Q => all_below P c /\ Q) True children end.
Lemma all_below_children P (children : list node) : fold_right (fun c Q => all_below P c /\ Q) True children <-> Forall (all_below P) children.
Proof. induction children; simpl; [by split|]. rewrite IHchildren. by rewrite Forall_cons. Qed.

Lemma no_rows_outside n : forall above, Forall no_panel above -> all_below no_panel n -> List.filter is_row (below above n) = [].
Proof.
  induction n as [s|e children IH] using node_induction; intros above Ha Hn; [done|]. destruct Hn as [He Hc]. apply all_below_children in Hc. cbn [below List.filter].
  replace (is_row _) with false.
  2: { symmetry. unfold is_row, panel_row. cbn [el_self el_above]. apply andb_false_iff. right. clear -Ha.
       induction Ha as [|x l Hx Hl IH]; [done|]. cbn. by rewrite Hx. }
  assert (Ha' : Forall no_panel (e :: above)) by by constructor. clear Ha.
  induction children as [|c children IHc]; [done|]. apply Forall_cons in IH as [IH1 IH2]. apply Forall_cons in Hc as [Hc1 Hc2]. cbn [flat_map].
  rewrite List.filter_app. unfold is_row in *. rewrite (IH1 _ Ha' Hc1). by apply IHc.
Qed.
Definition no_li (e : resolved) : Prop := String.eqb (e_tag e) "li" = false.
Lemma no_rows_without n : forall above, all_below no_li n -> List.filter is_row (below above n) = [].
Proof.
  induction n as [s|e children IH] using node_induction; intros above Hn; [done|]. destruct Hn as [He Hc]. apply all_below_children in Hc. cbn [below List.filter].
  replace (is_row _) with false by (unfold is_row, panel_row; cbn [el_self]; by rewrite He).
  induction children as [|c children IHc]; [done|]. apply Forall_cons in IH as [IH1 IH2]. apply Forall_cons in Hc as [Hc1 Hc2]. cbn [flat_map].
  rewrite List.filter_app. rewrite (IH1 _ Hc1). by apply IHc.
Qed.
Lemma no_rows_among (P : resolved -> Prop) above ns : (forall n, all_below P n -> List.filter is_row (below above n) = []) -> Forall (all_below P) ns ->
  List.filter is_row (elements above ns) = [].
Proof. intros HP. induction 1 as [|n ns Hn Hns IH]; [done|]. unfold elements. cbn [flat_map]. rewrite List.filter_app, HP by done. exact IH. Qed.

(* ------------------------------------------------------------------ *)
(** ** The page's document *)

Section MeasuringSpec.
Context `{M : Measures} `{F : FloatJson} `{B : Browser}.

(** The spans of a row, by their class, with a space between two. *)
Definition spans_of (r : row) : list (string * string) :=
  ([("name", w_name r); ("state", w_words r)] ++ (match w_note r with Some n => [("note", n)] | None => [] end) ++
   (match w_mark r with Some m => [("unconfirmed", m)] | None => [] end))%list.
Definition is_span (s : string * string) (n : node) : Prop :=
  exists e, n = NElement e [NText (snd s)] /\ e_tag e = "span" /\ e_attrs e = [("class", fst s)].
Inductive spaced : list (string * string) -> list node -> Prop :=
| spaced_one s n : is_span s n -> spaced [s] [n]
| spaced_more s n ss ns : is_span s n -> spaced ss ns -> spaced (s :: ss) (n :: NText " " :: ns).
Definition row_text (r : row) : string := String.concat " " (map snd (spans_of r)).
(** A row as it is drawn: the script makes it, and the engine lays it out, in sight, with
    the words of its text. *)
Definition is_li (r : row) (n : node) : Prop :=
  exists e children, n = NElement e children /\ e_tag e = "li" /\
    e_attrs e = [("data-device-id", w_id r); ("data-state", w_state r)] /\ spaced (spans_of r) children /\
    (forall above, visible (mkElement e children above) = true) /\
    (e_innerText e = "" \/ js_words (e_innerText e) = js_words (row_text r)).

(** A document that shows a drawing: the two lists are in the panel, which is the only
    element of its id; the rest of the document is anything without a panel, and without
    list items inside the panel. *)
Definition shows (dw : drawing) (d : document) : Prop :=
  exists before panel pre ul1 lis1 mid ul2 lis2 post after,
    d_children d = (before ++ NElement panel (pre ++ NElement ul1 lis1 :: mid ++ NElement ul2 lis2 :: post) :: after)%list /\
    has_id "panel" panel = true /\ no_li panel /\ no_li ul1 /\ no_li ul2 /\ id_of ul1 = "located" /\ id_of ul2 = "unlocated" /\
    Forall2 is_li (dw_located dw) lis1 /\ Forall2 is_li (dw_unlocated dw) lis2 /\
    Forall (all_below no_li) (pre ++ mid ++ post) /\ Forall (all_below no_panel) (d_head d ++ before ++ after) /\
    no_panel (d_html d) /\ no_panel (d_body d).

Lemma spaced_text ss ns : spaced ss ns -> String.concat "" (map textContent ns) = String.concat " " (map snd ss) /\ Forall (all_below no_li) ns.
Proof.
  induction 1 as [s n (e & -> & He & _)|s n ss ns (e & -> & He & _) Hs [IH1 IH2]].
  - cbn. split; [done|]. apply Forall_singleton. cbn. unfold no_li. by rewrite He.
  - split; [|constructor; [cbn; unfold no_li; by rewrite He|by constructor]]. destruct Hs; cbn in *; by rewrite IH1.
Qed.
(** What is read of a drawn row, in the list of an id. *)
Definition read_row (list_id : string) (r : row) : deviceRow := mkDeviceRow (w_id r) (w_state r) (one_line (row_text r)) list_id.
Lemma li_read r n above panel ul list_id : is_li r n -> has_id "panel" panel = true -> id_of ul = list_id ->
  map deviceRow_of (List.filter visible (List.filter is_row (below (ul :: panel :: above) n))) = [read_row list_id r].
Proof.
  intros (e & children & -> & Ht & Ha & Hs & Hv & Hi) Hp Hu. destruct (spaced_text _ _ Hs) as [Htx Hc]. cbn [below List.filter].
  assert (Er : is_row (mkElement e children (ul :: panel :: above)) = true).
  { unfold is_row, panel_row. cbn [el_self el_above existsb]. rewrite Ht, Hp. by rewrite orb_true_r. }
  rewrite Er. fold (elements (e :: ul :: panel :: above) children). rewrite (no_rows_among no_li); [|intros; by apply no_rows_without|done].
  cbn [List.filter]. rewrite Hv. cbn [map]. f_equal. unfold deviceRow_of, read_row. cbn [el_self parentElement el_above head].
  unfold attribute. rewrite Ha. cbn. rewrite Hu. f_equal. unfold one_line, rendered_text. cbn [el_self el_children]. fold (row_text r) in Htx. rewrite Htx.
  destruct (String.eqb_spec (e_innerText e) "") as [|Hne]; [done|]. destruct Hi as [Hi|Hi]; [done|by rewrite Hi].
Qed.
Lemma lis_read rows lis above panel ul : Forall2 is_li rows lis -> has_id "panel" panel = true ->
  map deviceRow_of (List.filter visible (List.filter is_row (elements (ul :: panel :: above) lis))) = map (read_row (id_of ul)) rows.
Proof.
  intros Hl Hp. induction Hl as [|r n rows lis Hr Hl IH]; [done|]. unfold elements. cbn [flat_map]. rewrite !List.filter_app, map_app.
  rewrite (li_read r n above panel ul (id_of ul)) by done. cbn [app map]. by rewrite <- IH.
Qed.

(** The rows the library reads are those drawn, in their order and their lists. *)
Lemma rows_read dw d : shows dw d -> deviceRows d = (map (read_row "located") (dw_located dw) ++ map (read_row "unlocated") (dw_unlocated dw))%list.
Proof.
  intros (before & panel & pre & ul1 & lis1 & mid & ul2 & lis2 & post & after & Ec & Hp & Hp' & H1 & H2 & I1 & I2 & L1 & L2 & Hn & Ho & Hh & Hb).
  unfold deviceRows. change (fun el => panel_row (el_self el) (el_above el)) with is_row. unfold everything, in_body. rewrite Ec.
  apply Forall_app in Hn as [Hpre Hn]. apply Forall_app in Hn as [Hmid Hpost]. apply Forall_app in Ho as [Hhead Ho]. apply Forall_app in Ho as [Hbef Haft].
  assert (Hout : forall above ns, Forall no_panel above -> Forall (all_below no_panel) ns -> List.filter is_row (elements above ns) = []).
  { intros above ns Ha Hns. apply (no_rows_among no_panel); [|done]. intros n. by apply no_rows_outside. }
  assert (Hin : forall above ns, Forall (all_below no_li) ns -> List.filter is_row (elements above ns) = []).
  { intros above ns Hns. apply (no_rows_among no_li); [|done]. intros n. by apply no_rows_without. }
  fold (elements [d_html d] (d_head d)). fold (elements [d_body d; d_html d] (before ++ NElement panel (pre ++ NElement ul1 lis1 :: mid ++ NElement ul2 lis2 :: post) :: after)).
  cbn [List.filter]. replace (is_row (mkElement (d_html d) _ _)) with false by (unfold is_row, panel_row; cbn; by rewrite andb_false_r).
  rewrite List.filter_app, (Hout [d_html d] (d_head d)) by (try done; by constructor). cbn [app List.filter].
  replace (is_row (body d)) with false by (unfold is_row, panel_row, body; cbn; rewrite Hh; by rewrite andb_false_r).
  assert (Hab : Forall no_panel [d_body d; d_html d]) by (repeat constructor; done).
  rewrite elements_app, List.filter_app, (Hout _ before) by done. cbn [app]. unfold elements at 1. cbn [flat_map]. fold (elements [d_body d; d_html d] after).
  rewrite List.filter_app, (Hout _ after), app_nil_r by done. cbn [below List.filter].
  replace (is_row (mkElement panel _ _)) with false by (unfold is_row, panel_row; cbn [el_self]; by rewrite Hp').
  fold (elements [panel; d_body d; d_html d] (pre ++ NElement ul1 lis1 :: mid ++ NElement ul2 lis2 :: post)).
  rewrite elements_app, List.filter_app, (Hin _ pre) by done. cbn [app]. unfold elements at 1. cbn [flat_map below].
  fold (elements [panel; d_body d; d_html d] (mid ++ NElement ul2 lis2 :: post)). fold (elements [ul1; panel; d_body d; d_html d] lis1).
  rewrite elements_app. unfold elements at 3. cbn [flat_map below]. fold (elements [panel; d_body d; d_html d] post). fold (elements [ul2; panel; d_body d; d_html d] lis2).
  cbn [app List.filter]. replace (is_row (mkElement ul1 _ _)) with false by (unfold is_row, panel_row; cbn [el_self]; by rewrite H1).
  rewrite !List.filter_app, (Hin _ mid) by done. cbn [app List.filter].
  replace (is_row (mkElement ul2 _ _)) with false by (unfold is_row, panel_row; cbn [el_self]; by rewrite H2).
  rewrite List.filter_app, (Hin _ post), app_nil_r, map_app by done.
  rewrite (lis_read (dw_located dw) lis1 [d_body d; d_html d] panel ul1), (lis_read (dw_unlocated dw) lis2 [d_body d; d_html d] panel ul2) by done. by rewrite I1, I2.
Qed.

(* ------------------------------------------------------------------ *)
(** ** What the checks find in them *)

(** White space splits a text, and the mark is of four words. *)
Definition splits_words : Prop :=
  (forall a b, js_words (a ++ " " ++ b) = (js_words a ++ js_words b)%list) /\ js_words MSG_UNCONFIRMED = ["(last"; "known"; "-"; "unconfirmed)"].
Lemma Join_last ws : exists p, Join (ws ++ ["(last"; "known"; "-"; "unconfirmed)"]) " " = (p ++ "(last known - unconfirmed)")%string.
Proof.
  induction ws as [|w ws [p IH]]; [by exists ""|]. exists (w ++ " " ++ p)%string. cbn [app Join].
  destruct (ws ++ _)%list as [|x l] eqn:E; [by destruct ws|]. by rewrite IH, !sapp_assoc.
Qed.
Lemma concat_marked (l : list string) m : l <> [] -> exists p, String.concat " " (l ++ [m]) = (p ++ " " ++ m)%string.
Proof.
  induction l as [|x l IH]; [done|]. intros _. destruct l as [|y l]; [by exists x|]. destruct (IH ltac:(done)) as [p Hp].
  exists (x ++ " " ++ p)%string. change (String.concat " " ((x :: y :: l) ++ [m])%list) with (x ++ " " ++ String.concat " " ((y :: l) ++ [m])%list)%string. by rewrite Hp, !sapp_assoc.
Qed.
Lemma marked_reads r : splits_words -> w_mark r = Some MSG_UNCONFIRMED ->
  Contains (one_line (row_text r)) "last known" && Contains (one_line (row_text r)) "unconfirmed" = true.
Proof.
  intros [Hs Hm] Er. assert (Ex : exists p, row_text r = (p ++ " " ++ MSG_UNCONFIRMED)%string).
  { unfold row_text, spans_of. rewrite Er. set (l := match w_note r with Some _ => _ | None => _ end).
    rewrite app_assoc, map_app. by apply concat_marked. }
  destruct Ex as [p ->]. unfold one_line. rewrite Hs, Hm. destruct (Join_last (js_words p)) as [q ->].
  change "(last known - unconfirmed)" with ("(" ++ "last known" ++ " - " ++ "unconfirmed" ++ ")")%string. rewrite andb_true_iff. split.
  - rewrite <- sapp_assoc. apply Contains_mid.
  - rewrite <- !sapp_assoc. rewrite (sapp_assoc (((q ++ _) ++ _) ++ _)). apply Contains_mid.
Qed.

Lemma drawn_count v : length (rows_of (draw v)) = size (devices (fam v)).
Proof.
  unfold rows_of. destruct (draw_lists v) as [-> ->]. rewrite length_app, !length_map, List.filter_length. unfold in_order. rewrite length_map.
  rewrite (Permutation_length (stable_sort_perm listed_before _)). apply length_map_to_list.
Qed.
Definition read_text (interrupted : bool) (d : Viewer.device) : string := one_line (row_text (row_of interrupted d)).
(** C39: what the audit reads off the map page is what the page holds, and the check of the
    severed feed finds there what it demands.  In a document that shows the page as drawn
    after any history whose names are strings - wherever else the document has what
    elements, and however it is laid out with the rows in sight - the rows reported are as
    many as the devices held, each of a device held, with its state, its list and its
    words; and while the connection is interrupted every one of them reads both as last
    known and as unconfirmed. *)
Theorem severed_feed_measured (hs : list happening) (d : document) :
  splits_words -> Forall well_named hs -> shows (drawn (history hs loaded)) d ->
  let v := history hs loaded in
  length (deviceRows d) = size (devices (fam v)) /\
  (forall row, row ∈ deviceRows d -> exists dev, devices (fam v) !! dr_ID row = Some dev /\ dr_State row = v_state dev /\
     dr_List row = (if v_located dev then "located" else "unlocated") /\ dr_Text row = read_text (interrupted (hlt v)) dev) /\
  (interrupted (hlt v) = true -> Forall (fun row => Contains (dr_Text row) "last known" && reads_unconfirmed row = true) (deviceRows d)).
Proof.
  intros Hw Hn Hsh v. pose proof (history_inv true hs (fun _ => Hn) loaded (inv_loaded true)) as Hi.
  pose proof (drawn_history hs Hn loaded (inv_loaded true) loaded_drawn) as Hd. fold v in Hsh, Hi, Hd. clearbody v. destruct Hi as [Hok _].
  rewrite Hd in Hsh. rewrite (rows_read _ _ Hsh). destruct (draw_lists v) as [E1 E2]. split; [|split].
  - rewrite <- drawn_count. unfold rows_of. by rewrite !length_app, !length_map.
  - rewrite E1, E2, !map_map. assert (Hin : forall p id dev, dev ∈ List.filter p (in_order v) ->
      devices (fam v) !! dr_ID (read_row id (row_of_viewer v dev)) = Some dev /\ p dev = true).
    { intros p id dev [Hdev Hp]%elem_of_filter_b. split; [|done]. by apply elem_of_in_order in Hdev. }
    intros row [(dev & -> & Hdev)%list_elem_of_fmap|(dev & -> & Hdev)%list_elem_of_fmap]%elem_of_app; exists dev.
    + destruct (Hin _ "located" dev Hdev) as [Hl Hp]. rewrite Hp. done.
    + destruct (Hin _ "unlocated" dev Hdev) as [Hl Hp]. apply negb_true_iff in Hp. rewrite Hp. done.
  - intros Hint. rewrite E1, E2, !map_map. apply Forall_app. split; apply Forall_map, Forall_forall; intros dev _; unfold reads_unconfirmed; cbn [read_row dr_Text];
      (apply marked_reads; [done|]); unfold row_of_viewer, row_of; by rewrite Hint.
Qed.

(* ------------------------------------------------------------------ *)
(** ** Nothing kept from the sweep *)

(** What an element is inside of is an element of the document too. *)
Lemma below_suffix n : forall above el, el ∈ below above n -> exists pre, chain_of el = (pre ++ above)%list.
Proof.
  induction n as [s|e children IH] using node_induction; intros above el; cbn [below]; [by intros ?%elem_of_nil|].
  intros [->|Hel]%elem_of_cons; [by exists [e]|]. apply list_elem_of_In, in_flat_map in Hel as (c & Hc & Hel).
  rewrite Forall_forall in IH. apply list_elem_of_In in Hc, Hel. destruct (IH c Hc _ _ Hel) as [pre ->]. exists (pre ++ [e])%list. by rewrite <- app_assoc.
Qed.
Lemma app_same_length {A} (p q r t : list A) : (p ++ r)%list = (q ++ t)%list -> length r = length t -> r = t.
Proof.
  revert q. induction p as [|x p IH]; intros [|y q] E Hl; [done| | |by injection E as _ E; apply (IH q)].
  - cbn in E. rewrite E in Hl. cbn in Hl. rewrite length_app in Hl. lia.
  - cbn in E. rewrite <- E in Hl. cbn in Hl. rewrite length_app in Hl. lia.
Qed.
Lemma below_ancestor n : forall above el pre a rest, el ∈ below above n -> chain_of el = (pre ++ a :: rest)%list -> (length above <= length rest)%nat ->
  exists el', el' ∈ below above n /\ chain_of el' = a :: rest.
Proof.
  induction n as [s|e children IH] using node_induction; intros above el pre a rest; cbn [below]; [by intros ?%elem_of_nil|].
  intros Hel Ec Hlen. assert (Hhere : length rest = length above -> exists el', el' ∈ mkElement e children above :: flat_map (below (e :: above)) children /\ chain_of el' = a :: rest).
  { intros El. exists (mkElement e children above). split; [by left|]. assert (Hs : exists p, chain_of el = (p ++ e :: above)%list).
    { apply elem_of_cons in Hel as [->|Hel]; [by exists []|]. apply list_elem_of_In, in_flat_map in Hel as (c & _ & Hel). apply list_elem_of_In in Hel. by apply (below_suffix c). }
    destruct Hs as [p Hp]. rewrite Hp in Ec. unfold chain_of. cbn. apply (app_same_length p pre); [done|]. cbn. by rewrite El. }
  destruct (decide (length rest = length above)) as [El|El]; [by apply Hhere|]. apply elem_of_cons in Hel as [->|Hel].
  - unfold chain_of in Ec. cbn in Ec. apply (f_equal length) in Ec. rewrite length_app in Ec. cbn in Ec. lia.
  - apply list_elem_of_In, in_flat_map in Hel as (c & Hc & Hel). apply list_elem_of_In in Hel. rewrite Forall_forall in IH.
    destruct (IH c ltac:(by apply list_elem_of_In) (e :: above) el pre a rest Hel Ec ltac:(cbn; lia)) as (el' & Hel' & Ec'). exists el'. split; [|done].
    right. apply list_elem_of_In, in_flat_map. exists c. split; [done|]. by apply list_elem_of_In.
Qed.
Lemma in_panel_row_app pre chain : in_panel_row chain = true -> in_panel_row (pre ++ chain) = true.
Proof. intros H. induction pre as [|e pre IH]; [done|]. cbn. by rewrite IH, orb_true_r. Qed.
Lemma named_ancestor d el p : el ∈ in_body d -> closest p el = true ->
  exists el' pre, el' ∈ everything d /\ p (el_self el') = true /\ chain_of el = (pre ++ chain_of el')%list.
Proof.
  intros Hel Hc. unfold closest in Hc. apply existsb_exists in Hc as (a & Ha & Hp). apply list_elem_of_In, list_elem_of_split in Ha as (pre & rest & Ec).
  unfold in_body in Hel. apply list_elem_of_In, in_flat_map in Hel as (c & Hcc & Hel). apply list_elem_of_In in Hel.
  destruct (decide (2 <= length rest)%nat) as [Hl|Hl].
  - destruct (below_ancestor c [d_body d; d_html d] el pre a rest Hel Ec Hl) as (el' & Hel' & Ec'). exists el', pre.
    assert (Ea : el_self el' = a) by (unfold chain_of in Ec'; congruence). rewrite Ec', Ea. split; [|done]. unfold everything. right. apply elem_of_app. right. right.
    unfold in_body. apply list_elem_of_In, in_flat_map. exists c. split; [done|by apply list_elem_of_In].
  - destruct (below_suffix c [d_body d; d_html d] el Hel) as [q Hq]. rewrite Hq in Ec. assert (Hs : a :: rest = [d_body d; d_html d] \/ a :: rest = [d_html d]).
    { destruct rest as [|b [|b' rest]]; [| |cbn in Hl; lia].
      - right. apply (app_same_length pre (q ++ [d_body d])); [|done]. rewrite <- app_assoc. exact (eq_sym Ec).
      - left. apply (app_same_length pre q); [exact (eq_sym Ec)|done]. }
    destruct Hs as [E|E]; injection E as -> ->.
    + exists (body d), q. split; [unfold everything; right; apply elem_of_app; right; by left|]. split; [done|]. by rewrite Hq.
    + eexists (mkElement (d_html d) _ []), (q ++ [d_body d])%list. split; [unfold everything; left|]. split; [done|]. rewrite Hq. cbn. by rewrite <- app_assoc.
Qed.

(** C40: the exclusion of device names from the brevity sweep hides nothing else.  When
    every element of class [name] that the audit reports is in a device row - what the
    check asks of it - each text of the page's body that an element in sight renders itself
    is among the texts swept, word for word, unless it is inside a device row or a marker's
    tooltip: no paragraph elsewhere can escape by its class. *)
Theorem nothing_escapes_the_sweep (d : document) :
  Forall (fun p => np_InDeviceRow p = true) (nameClassPlacement d) ->
  forall el, el ∈ in_body d -> visible el = true -> ownText el <> "" ->
  in_panel_row (chain_of el) = true \/ closest (has_class "leaflet-tooltip") el = true \/
  exists x, x ∈ chromeTexts d /\ cx_Text x = ownText el /\ cx_Path x = path (Some el) /\ cx_Words x = Z.of_nat (length (js_words (ownText el))).
Proof.
  intros Hn el Hel Hv Ht. destruct (closest (has_class "leaflet-tooltip") el) eqn:Etip; [by right; left|].
  destruct (closest (has_class "name") el) eqn:Ename.
  - left. destruct (named_ancestor d el _ Hel Ename) as (el' & pre & Hel' & Hc & ->). apply in_panel_row_app.
    unfold nameClassPlacement in Hn. rewrite Forall_map, Forall_forall in Hn. apply (Hn el'). by apply elem_of_filter_b.
  - right; right. assert (Ec : closest is_device_name el = false).
    { unfold closest, is_device_name in *. clear -Etip Ename. induction (chain_of el) as [|e l IH]; [done|]. cbn in *.
      apply orb_false_iff in Etip as [-> H1], Ename as [-> H2]. by apply IH. }
    eexists (mkChromeText (path (Some el)) (ownText el) (closest is_region el) _). split; [|by split].
    unfold chromeTexts. apply list_elem_of_In, in_flat_map. exists el. split; [by apply list_elem_of_In|]. unfold chromeText_of. rewrite Ec, Hv.
    destruct (String.eqb_spec (ownText el) ""); [done|]. by left.
Qed.

(* ------------------------------------------------------------------ *)
(** ** The surface behind a text *)

Definition unpainted (e : resolved) : Prop := match parseColor (backgroundColor (e_style e)) with Some c => f_ltb zero (c_a c) = false | None => True end.
Lemma blend_unpainted acc pre chain : Forall unpainted pre -> blend acc (pre ++ chain) = blend acc chain.
Proof.
  induction 1 as [|e pre He _ IH]; [done|]. cbn [app blend]. unfold unpainted in He. destruct (parseColor _); [rewrite He|]; exact IH.
Qed.
(** It is the background of the nearest element that paints one, when that is opaque; and
    with none painted, the canvas, white when that is not painted either. *)
Theorem surface_exact (d : document) (pre post : list resolved) (e : resolved) :
  Forall unpainted pre ->
  (forall bg, parseColor (backgroundColor (e_style e)) = Some bg -> f_ltb zero (c_a bg) = true -> opaque (c_a bg) = true ->
     effectiveBackground d (pre ++ e :: post) = bg) /\
  effectiveBackground d pre = match parseColor (backgroundColor (e_style (d_html d))) with
                              | Some canvas => if f_ltb zero (c_a canvas) then canvas else white
                              | None => white
                              end.
Proof.
  intros Hp. split.
  - intros bg Eb Ha Ho. pose proof (f_leb_not_ltb _ _ Ho) as Hl. unfold effectiveBackground. rewrite blend_unpainted by done. cbn [blend]. rewrite Eb, Ha.
    change (f_eqb (c_a clear) zero) with true. cbv iota. by rewrite Ho, Hl.
  - unfold effectiveBackground. rewrite <- (app_nil_r pre), blend_unpainted by done. cbn [blend].
    change (f_ltb (c_a clear) (decimal 999 1000)) with true. change (f_eqb (c_a clear) zero) with true. done.
Qed.
End MeasuringSpec.

(* ------------------------------------------------------------------ *)
(** ** Witnesses *)

#[local] Existing Instances ascii_unicode whole_floats plain_browser.
Fixpoint words_at (acc l : list ascii) : list string :=
  let last := match acc with [] => [] | _ => [of_list (rev acc)] end in
  match l with
  | [] => last
  | c :: l => if Ascii.eqb c " "%char then (last ++ words_at [] l)%list else words_at (c :: acc) l
  end.
#[local] Instance plain_measures : Measures := {|
  js_Number := fun t => match ParseFloat t with Some f => f | None => Floats.SpecFloat.S754_nan end;
  js_parseFloat := fun t => match ParseFloat t with Some f => f | None => Floats.SpecFloat.S754_nan end;
  js_parseInt := fun t => match ParseFloat t with Some f => f | None => Floats.SpecFloat.S754_nan end;
  js_pow := fun x _ => x;
  js_round := fun x => x;
  js_words := fun t => words_at [] (to_list t);
  js_length := fun t => Z.of_nat (String.length t);
  js_slice := fun n t => String.substring 0 (Z.to_nat n) t |}.
Lemma plain_splits : splits_words.
Proof.
  split; [|reflexivity]. intros a b. cbn [js_words plain_measures]. rewrite !to_list_app. generalize (@nil ascii) at 1 2. induction (to_list a) as [|c l IH]; intros acc; [done|].
  cbn [app words_at]. destruct (Ascii.eqb c " "); [rewrite IH; by rewrite app_assoc|apply IH].
Qed.

Definition black_on_white : computed := mkComputed "rgb(255, 255, 255)" "rgb(0, 0, 0)" "block" "visible" "1" "15" "400" "0" "none" "rgb(0, 0, 0)" "none" "0" "rgb(0, 0, 0)".
Definition in_sight : rect := mkRect (f64 0) (f64 100) (f64 0) (f64 100) (f64 20).
Definition plain (tag : string) (attrs : list (string * string)) : resolved := mkResolved tag false attrs black_on_white in_sight (-1) "".
Definition li_node (r : row) : node :=
  NElement (plain "li" [("data-device-id", w_id r); ("data-state", w_state r)])
    (match spans_of r with
     | [] => []
     | s :: ss => NElement (plain "span" [("class", fst s)]) [NText (snd s)] ::
                  flat_map (fun s => [NText " "; NElement (plain "span" [("class", fst s)]) [NText (snd s)]]) ss
     end).
Definition page_of (dw : drawing) : document :=
  mkDocument (plain "html" []) [NElement (plain "title" []) [NText "tracker"]] (plain "body" [])
    [NElement (plain "header" [("id", "bar")]) [];
     NElement (plain "section" [("id", "panel")])
       [NElement (plain "h2" [("id", "panel-heading")]) [NText "Devices"]; NElement (plain "ul" [("id", "located")]) (map li_node (dw_located dw));
        NElement (plain "h3" []) [NText "Without a position"]; NElement (plain "ul" [("id", "unlocated")]) (map li_node (dw_unlocated dw))];
     NElement (plain "div" [("id", "map")]) []] None (f64 100) (f64 100).
Lemma li_node_is r : is_li r (li_node r).
Proof.
  unfold li_node, is_li. do 2 eexists. split; [reflexivity|]. split; [done|]. split; [done|]. split; [|split; [done|by left]].
  assert (Hs : forall s, is_span s (NElement (plain "span" [("class", fst s)]) [NText (snd s)])) by (intros s; by eexists).
  unfold spans_of. destruct (w_note r), (w_mark r); cbn [app flat_map]; repeat first [apply spaced_one, Hs|apply spaced_more; [apply Hs|]].
Qed.
Lemma page_of_shows dw : shows dw (page_of dw).
Proof.
  exists [NElement (plain "header" [("id", "bar")]) []], (plain "section" [("id", "panel")]), [NElement (plain "h2" [("id", "panel-heading")]) [NText "Devices"]],
    (plain "ul" [("id", "located")]), (map li_node (dw_located dw)), [NElement (plain "h3" []) [NText "Without a position"]], (plain "ul" [("id", "unlocated")]),
    (map li_node (dw_unlocated dw)), [], [NElement (plain "div" [("id", "map")]) []].
  assert (Hl : forall rows, Forall2 is_li rows (map li_node rows)) by (intros rows; induction rows as [|r rows IH]; [constructor|constructor; [apply li_node_is|exact IH]]).
  repeat (split; [first [reflexivity|apply Hl|repeat constructor]|]). reflexivity.
Qed.

Definition severed : list happening := (two_phones ++ [Lost 1])%list.
Example severed_rows : map (fun r => (dr_ID r, dr_List r, dr_Text r)) (deviceRows (page_of (drawn (history severed loaded)))) =
  [("1", "located", "Zoe live now (last known - unconfirmed)"); ("2", "unlocated", "amy not seen lately (last known - unconfirmed)")].
Proof. vm_compute. reflexivity. Qed.
Lemma severed_feed_measured_witness :
  let v := history severed loaded in let d := page_of (drawn v) in
  interrupted (hlt v) = true /\ length (deviceRows d) = 2%nat /\
  Forall (fun row => Contains (dr_Text row) "last known" && reads_unconfirmed row = true) (deviceRows d).
Proof.
  destruct (severed_feed_measured severed (page_of (drawn (history severed loaded))) plain_splits) as (H1 & _ & H2).
  - apply Forall_app. split; [exact two_phones_named|]. apply Forall_singleton. exact I.
  - apply page_of_shows.
  - assert (Hi : interrupted (hlt (history severed loaded)) = true) by (vm_compute; reflexivity). split; [exact Hi|]. split; [|exact (H2 Hi)].
    rewrite H1. vm_compute. reflexivity.
Defined.

Lemma nothing_escapes_the_sweep_witness :
  let d := page_of (drawn (history severed loaded)) in exists x, x ∈ chromeTexts d /\ cx_Text x = "Devices" /\ cx_Words x = 1.
Proof.
  set (h2 := mkElement (plain "h2" [("id", "panel-heading")]) [NText "Devices"] [plain "section" [("id", "panel")]; plain "body" []; plain "html" []]).
  destruct (nothing_escapes_the_sweep (page_of (drawn (history severed loaded)))) with (el := h2) as [H|[H|(x & H1 & H2 & _ & H3)]].
  - vm_compute. repeat constructor.
  - vm_compute. do 2 right. left.
  - vm_compute. reflexivity.
  - vm_compute. discriminate.
  - vm_compute in H. discriminate H.
  - vm_compute in H. discriminate H.
  - exists x. split; [exact H1|]. split; [exact H2|]. rewrite H3. vm_compute. reflexivity.
Defined.
