(* ===== verification/UiChecksSpec.v ===== *)
(** What the rendered checks are worth.  Over an engine whose clock does not run back,
    every check ends with a verdict of its own, on the surface as it was opened with what
    happened meanwhile ([Checks_end]). *)

From Stdlib Require Import ZArith Lia Bool String Ascii List.
From stdpp Require Import base option list strings gmap.
From S2P Require Import Prelude GoStrings Json Programs Repo.
From S2P Require Import UiRecord UiRefusal UiStack UiStackSpec UiSession UiChecks.
Local Open Scope string_scope.
Local Open Scope Z_scope.
Local Open Scope program_scope.

(** An error of the check or of the engine, not the end of the model's polls. *)
Fixpoint real (e : failure) : Prop := match e with OutOfPolls => False | Around _ e => real e | _ => True end.

Section Checks.
Context (produce : string -> response) (stack_URL : string) (family : string).
Context {B : Type} `{En : Engine B} `{U : Unicode} `{F : FloatJson}.
Notation Run := (Run (B:=B)).
Notation Runner := (Runner (B:=B)).

(** The clock does not run back, and sleeping takes at least as long as asked. *)
Class Clock := {
  evaluate_time : forall A (q : query A) h b, eng_now b <= eng_now (snd (fst (eng_evaluate A q h b)));
  perform_time : forall g h b, eng_now b <= eng_now (snd (fst (eng_perform g h b)));
  capture_time : forall x h b, eng_now b <= eng_now (snd (fst (eng_capture x h b)));
  sleep_time : forall ns h b, eng_now b + ns <= eng_now (fst (eng_sleep ns h b)) }.
Context `{C : !Clock}.

Definition time (r : Runner) : Z := eng_now (r_browser r).
(** A runner later on: no earlier, on the same surface, with more having happened. *)
Definition later (r r' : Runner) : Prop := time r <= time r' /\ r_opened r' = r_opened r /\ exists evs, r_events r' = (r_events r ++ evs)%list.
Definition sound_at {A} (m : Run A) (r : Runner) : Prop := (forall e, fst (m r) = Err e -> real e) /\ later r (snd (m r)).
Definition sound {A} (m : Run A) : Prop := forall r, sound_at m r.

Lemma later_refl r : later r r.
Proof. split; [lia|]. split; [done|]. exists []. by rewrite app_nil_r. Qed.
Lemma later_trans r1 r2 r3 : later r1 r2 -> later r2 r3 -> later r1 r3.
Proof. intros (T1 & O1 & e1 & E1) (T2 & O2 & e2 & E2). split; [lia|]. split; [congruence|]. exists (e1 ++ e2)%list. by rewrite E2, E1, app_assoc. Qed.
Lemma later_note r b m : eng_now (r_browser r) <= eng_now b -> later r (note b m r).
Proof. intros H. split; [done|]. split; [done|]. by exists (m_traffic m). Qed.

Lemma andThen_at {A A'} (m : Run A) (f : A -> Run A') r :
  sound_at m r -> (forall a r1, m r = (Ok a, r1) -> later r r1 -> sound_at (f a) r1) -> sound_at (andThen m f) r.
Proof.
  intros [H1 H2] Hf. unfold sound_at, andThen in *. destruct (m r) as [[a|e] r1]; cbn [fst snd] in *.
  - destruct (Hf a r1 eq_refl H2) as [F1 F2]. split; [done|]. by eapply later_trans.
  - split; [|done]. by intros e' [= <-]; apply H1.
Qed.
Lemma andThen_sound {A A'} (m : Run A) (f : A -> Run A') : sound m -> (forall a, sound (f a)) -> sound (andThen m f).
Proof. intros H Hf r. apply andThen_at; [apply H|]. intros a r1 _ _. apply Hf. Qed.
Lemma done_sound {A} (a : A) : sound (done a).
Proof. intros r. split; [by intros e|apply later_refl]. Qed.
Lemma fail_sound {A} e : real e -> sound (A:=A) (fail e).
Proof. intros H r. split; [by intros e' [= <-]|apply later_refl]. Qed.
Lemma demand_sound b why : sound (demand b why).
Proof. destruct b; [apply done_sound|by apply fail_sound]. Qed.
Lemma each_sound {A} (f : A -> Run unit) l : (forall a, sound (f a)) -> sound (each f l).
Proof. intros H. induction l as [|a l IH]; [apply done_sound|]. apply andThen_sound; [apply H|by intros _]. Qed.
Lemma passing_over_sound {A} (m : Run A) : sound m -> sound (passing_over m).
Proof. intros H r. destruct (H r) as [_ H2]. unfold sound_at, passing_over in *. destruct (m r) as [[a|e] r1]; (split; [by intros ?|done]). Qed.
Lemma wrapping_sound {A} why (m : Run A) : sound m -> sound (wrapping (Around why) m).
Proof. intros H r. destruct (H r) as [H1 H2]. unfold sound_at, wrapping in *. destruct (m r) as [[a|e] r1]; cbn [fst snd] in *; (split; [|done]); [done|]. intros e' [= <-]. exact (H1 e eq_refl). Qed.
Lemma of_result_sound {A} (x : result failure A) : (forall e, x = Err e -> real e) -> sound (of_result x).
Proof. intros H r. split; [done|apply later_refl]. Qed.
(** An error kept as a value is an error of its own. *)
Lemma attempt_value_sound {A A'} (m : Run A) (f : result failure A -> Run A') :
  sound m -> (forall a, sound (f (Ok a))) -> (forall e, real e -> sound (f (Err e))) -> sound (andThen (attempt_value m) f).
Proof.
  intros H Ho He r. destruct (H r) as [H1 H2]. unfold sound_at, andThen, attempt_value in *. destruct (m r) as [[a|e] r1]; cbn [fst snd] in *.
  - destruct (Ho a r1) as [F1 F2]. split; [done|]. by eapply later_trans.
  - destruct (He e (H1 e eq_refl) r1) as [F1 F2]. split; [done|]. by eapply later_trans.
Qed.

Lemma eval_sound {A} (q : query A) : sound (eval produce q).
Proof. intros r. unfold sound_at, eval. pose proof (evaluate_time A q (surface produce r) (r_browser r)) as H. destruct (eng_evaluate _ _ _ _) as [[[a|e] b] m]; (split; [by intros ? [= <-]|by apply later_note]). Qed.
Lemma perform_sound g : sound (perform produce g).
Proof. intros r. unfold sound_at, perform. pose proof (perform_time g (surface produce r) (r_browser r)) as H. destruct (eng_perform _ _ _) as [[[e|] b] m]; (split; [by intros ? [= <-]|by apply later_note]). Qed.
Lemma capture_sound x : sound (capture produce x).
Proof. intros r. unfold sound_at, capture. pose proof (capture_time x (surface produce r) (r_browser r)) as H. destruct (eng_capture _ _ _) as [[[a|e] b] m]; (split; [by intros ? [= <-]|by apply later_note]). Qed.
Lemma pause_later ns r : 0 <= ns -> later r (snd (pause produce ns r)) /\ time r + ns <= time (snd (pause produce ns r)).
Proof.
  intros Hn. unfold pause. pose proof (sleep_time ns (surface produce r) (r_browser r)) as H. destruct (eng_sleep _ _ _) as [b m]. cbn [fst snd] in *.
  split; [apply later_note; lia|]. done.
Qed.
Lemma pause_sound ns : 0 <= ns -> sound (pause produce ns).
Proof. intros H r. split; [|by apply pause_later]. unfold pause. by destruct (eng_sleep _ _ _). Qed.
Lemma fixture_sound ev : sound (fixture ev).
Proof. intros r. split; [done|]. split; [cbn; unfold time; cbn; lia|]. split; [done|]. by exists [ev]. Qed.
Lemma reads_sound {A} (f : Runner -> A) : sound (fun r => (Ok (f r), r)).
Proof. intros r. split; [done|apply later_refl]. Qed.
Lemma reset_sound : sound ResetRecords.
Proof. intros r. split; [done|]. split; [cbn; unfold time; cbn; lia|]. split; [done|]. exists []. by rewrite app_nil_r. Qed.

(* ------------------------------------------------------------------ *)
(** ** The polls *)

(** Polls that are enough for a deadline. *)
Definition enough (fuel : nat) (deadline : Z) (r : Runner) : Prop := deadline <= time r + ms 150 * (Z.of_nat fuel - 1) /\ (0 < fuel)%nat.
Lemma enough_within within r : enough (polls_within within) (time r + within) r.
Proof. unfold enough, polls_within, ms. pose proof (Z.div_mod within 150000000) as H. pose proof (Z.mod_pos_bound within 150000000) as H2. change (150 * 1000000) with 150000000. split; lia. Qed.
Lemma enough_next fuel deadline r r' : enough (S fuel) deadline r -> time r < deadline -> time r + ms 150 <= time r' -> enough fuel deadline r'.
Proof. unfold enough, ms. intros [H1 H2] Ht Hs. split; [lia|]. destruct fuel; [lia|lia]. Qed.

(** One more poll: its pause leaves enough for the rest. *)
Lemma again_at {A} (poll : Run A) fuel deadline r r1 :
  enough (S fuel) deadline r -> time r < deadline -> later r r1 -> (forall r2, enough fuel deadline r2 -> sound_at poll r2) ->
  sound_at (andThen (pause produce (ms 150)) (fun _ => poll)) r1.
Proof.
  intros He Ht [L _] Hp. assert (H0 : 0 <= ms 150) by done. apply andThen_at; [by apply pause_sound|]. intros a r2 E _. apply Hp.
  eapply enough_next; [done|done|]. destruct (pause_later (ms 150) r1 H0) as [_ H]. rewrite E in H. cbn [snd] in H. lia.
Qed.
Lemma poll_snapshot_at ok why : (forall s, sound (ok s)) -> forall fuel deadline r, enough fuel deadline r -> sound_at (poll_snapshot produce fuel ok deadline why) r.
Proof.
  intros Hok. induction fuel as [|fuel IH]; intros deadline r He; [destruct He; lia|]. cbn [poll_snapshot].
  apply andThen_at; [apply reads_sound|]. intros t r0 [= <- <-] _. destruct (Z.ltb_spec (eng_now (r_browser r)) deadline) as [Ht|]; [|by apply fail_sound].
  apply andThen_at; [apply passing_over_sound, eval_sound|]. intros reading r1 _ L1.
  apply andThen_at; [destruct reading; [apply Hok|apply done_sound]|]. intros seen r2 _ L2.
  destruct seen; [apply done_sound|]. eapply again_at; [done|done|by eapply later_trans|auto].
Qed.
Lemma waitSnapshot_sound ok within why : (forall s, sound (ok s)) -> sound (waitSnapshot produce ok within why).
Proof. intros Hok r. apply andThen_at; [apply reads_sound|]. intros t r0 [= <- <-] _. by apply poll_snapshot_at, enough_within. Qed.

Lemma poll_panel_at want : forall fuel deadline r, enough fuel deadline r -> sound_at (poll_panel produce fuel want deadline) r.
Proof.
  induction fuel as [|fuel IH]; intros deadline r He; [destruct He; lia|]. cbn [poll_panel].
  apply andThen_at; [apply reads_sound|]. intros t r0 [= <- <-] _. destruct (Z.ltb_spec (eng_now (r_browser r)) deadline) as [Ht|]; [|by apply fail_sound].
  apply andThen_at; [apply passing_over_sound, eval_sound|]. intros reading r1 _ L1. cbn zeta.
  assert (Hagain : sound_at (andThen (pause produce (ms 150)) (fun _ => poll_panel produce fuel want deadline)) r1) by (eapply again_at; eauto).
  destruct reading as [ps|]; [|done]. destruct (_ && _); [apply done_sound|done].
Qed.
Lemma awaitPanelState_sound want within : sound (awaitPanelState produce want within).
Proof. intros r. apply andThen_at; [apply reads_sound|]. intros t r0 [= <- <-] _. apply poll_panel_at, enough_within. Qed.

(* ------------------------------------------------------------------ *)
(** ** The checks end *)

(** A program put together of sound ones. *)
Ltac head_of t := lazymatch t with ?f _ => head_of f | _ => t end.
Ltac sound_step :=
  lazymatch goal with
  | |- forall _, _ => intros
  | |- sound (andThen (attempt_value _) _) => apply attempt_value_sound
  | |- sound (andThen _ _) => apply andThen_sound
  | |- sound (done _) => apply done_sound
  | |- sound (fail _) => apply fail_sound; solve [exact I | assumption]
  | |- sound (demand _ _) => apply demand_sound
  | |- sound (each _ _) => apply each_sound
  | |- sound (passing_over _) => apply passing_over_sound
  | |- sound (wrapping _ _) => apply wrapping_sound
  | |- sound (UiSession.eval _ _) => apply eval_sound
  | |- sound (UiSession.perform _ _) => apply perform_sound
  | |- sound (capture _ _) => apply capture_sound
  | |- sound (pause _ _) => apply pause_sound; done
  | |- sound (fixture _) => apply fixture_sound
  | |- sound clock => apply reads_sound
  | |- sound Requests => apply reads_sound
  | |- sound Console => apply reads_sound
  | |- sound (ResponseHeader _ _) => apply reads_sound
  | |- sound ResetRecords => apply reset_sound
  | |- sound (waitSnapshot _ _ _ _) => apply waitSnapshot_sound
  | |- sound (awaitPanelState _ _ _) => apply awaitPanelState_sound
  | |- sound (when _ _) => apply done_sound
  | |- sound (if ?b then _ else _) => destruct b
  | |- sound (match ?x with _ => _ end) => destruct x
  | |- sound (let _ := _ in _) => cbn zeta
  | |- sound ?m => let h := head_of m in unfold h
  end.
Ltac sounds := repeat sound_step.

Lemma openWatched_sound theme w h : sound (openWatched produce stack_URL family theme w h).
Proof. sounds. Qed.
Lemma Screenshot_sound sel : sound (Screenshot produce sel).
Proof. sounds. Qed.
Lemma press_until_sound sel n : sound (press_until produce n sel).
Proof. induction n; cbn [press_until]; sounds; done. Qed.
Lemma focus_shown_sound sel : sound (focus_shown produce sel).
Proof. sounds; try apply press_until_sound. Qed.
Lemma tab_order_sound n : forall order, sound (tab_order produce n order).
Proof. induction n; intros order; cbn [tab_order]; sounds; auto. Qed.
Lemma bad_updates_sound before evs : forall i, sound (bad_updates produce before i evs).
Proof. induction evs as [|[typ data] evs IH]; intros i; cbn [bad_updates]; sounds; auto. Qed.
Lemma follow_sound href : sound (follow produce stack_URL href).
Proof. unfold follow. destruct (Cut href "#") as [[docPath fragment] found]. sounds. Qed.
Lemma region_links_real regs e : region_links regs = Err e -> real e.
Proof.
  revert e. induction regs as [|reg regs IH]; intros e; cbn [region_links]; [done|]. destruct (doc_links reg) as [|h [|]]; [by intros [= <-]| |by intros [= <-]].
  destruct (region_links regs) as [links|e']; [done|]. intros [= <-]. by apply IH.
Qed.

Ltac check_sound :=
  lazymatch goal with |- sound (rc_Run ?c) => let h := head_of c in unfold h; cbn [rc_Run] end;
  repeat lazymatch goal with
  | |- sound (openWatched _ _ _ _ _ _) => apply openWatched_sound
  | |- sound (focus_shown _ _) => apply focus_shown_sound
  | |- sound (tab_order _ _ _) => apply tab_order_sound
  | |- sound (bad_updates _ _ _ _) => apply bad_updates_sound
  | |- sound (follow _ _ _) => apply follow_sound
  | |- sound (of_result _) => apply of_result_sound, region_links_real
  | _ => sound_step
  end.
Lemma checks_sound c : c ∈ Checks produce stack_URL family -> sound (rc_Run c).
Proof.
  unfold Checks. rewrite !elem_of_cons. intros H. repeat destruct H as [-> |H]; [..|by apply elem_of_nil in H].
  all: check_sound.
Qed.

(** The checks have names of their own, and each a mutation of that name that changes
    something of the map page, so the route can demonstrate every one of them. *)
Lemma Checks_mutated : NoDup (map rc_ID (Checks produce stack_URL family)) /\
  forall c, c ∈ Checks produce stack_URL family -> mu_ID (rc_Mutation c) = rc_ID c /\
    forall body h, snd (apply_mutation (rc_Mutation c) "/map" body h) <> Some MNothing.
Proof.
  split; [apply (bool_decide_unpack _); by vm_compute|]. intros c. unfold Checks. rewrite !elem_of_cons. intros H.
  repeat destruct H as [-> |H]; [..|by apply elem_of_nil in H]; (split; [vm_compute; reflexivity|]).
  all: intros body h; unfold apply_mutation; lazymatch goal with |- context [rc_Mutation ?c] => let m := eval vm_compute in (rc_Mutation c) in change (rc_Mutation c) with m end.
  all: cbn [mu_ID mu_Path mu_Find mu_Replace mu_CSPFind mu_CSPReplace mu_DropHeader String.eqb Ascii.eqb Bool.eqb negb andb].
  all: repeat case_match; done.
Qed.

(** The session's results are the checks', in order. *)
Lemma graded_names cs w : map re_ID (fst (RunWeb_on produce family (map as_graded cs) w)) = map (rc_ID (B:=B)) cs.
Proof.
  revert w. induction cs as [|c cs IH]; intros w; [done|]. cbn [map RunWeb_on].
  pose proof (proj1 (run_on_demonstrated produce family (as_graded c) w)) as Hid. destruct (run_on produce family (as_graded c) w) as [r w']. specialize (IH w').
  destruct (RunWeb_on produce family (map as_graded cs) w') as [rs w'']. cbn [fst map] in *. by rewrite Hid, IH.
Qed.
Lemma session_names b : map re_ID (grade_session produce stack_URL family b) = map rc_ID (Checks produce stack_URL family).
Proof. apply graded_names. Qed.

(** What happens while a check runs installs no mutation. *)
Lemma on_event_mutation h ev : mutation (h_stack (on_event produce h ev)) = mutation (h_stack h).
Proof.
  destruct h as [[s b f d cl rf m e n c] flight admitted served]. destruct ev as [| | | | | | | |i| |]; try done; cbn [on_event].
  - unfold answer. cbn [h_flight h_stack]. destruct (flight !! i) as [[[m'|] path]|]; [|done..]. cbn [h_stack]. by destruct (snd _).
  - cbn [h_stack]. by destruct (admits _).
  - by destruct admitted.
Qed.
Lemma on_events_mutation evs : forall h, mutation (h_stack (on_events produce evs h)) = mutation (h_stack h).
Proof. induction evs as [|ev evs IH]; intros h; [done|]. unfold on_events in *. cbn [fold_left]. rewrite IH. apply on_event_mutation. Qed.

(** C33: each of the checks, started on any session and surface, ends with a verdict of its own - passed, refused in its own words, or an error of the engine: the polls its waits are given are enough, whatever the page answers, if the clock does not run back -; it leaves the surface with what happened to it meanwhile and the mutation it was started under still installed. *)
Theorem Checks_end c r : c ∈ Checks produce stack_URL family ->
  let '(verdict, r') := rc_Run c r in
  (forall e, verdict = Err e -> real e) /\ time r <= time r' /\
  exists evs, r_events r' = (r_events r ++ evs)%list /\ surface produce r' = on_events produce evs (surface produce r) /\
    mutation (h_stack (surface produce r')) = mutation (h_stack (surface produce r)).
Proof.
  intros Hc. pose proof (checks_sound c Hc r) as [He (Ht & Ho & evs & Hv)]. destruct (rc_Run c r) as [verdict r']. cbn [fst snd] in *.
  split; [done|]. split; [done|]. exists evs. split; [done|].
  assert (Hs : surface produce r' = on_events produce evs (surface produce r)) by (unfold surface, on_events; by rewrite Hv, Ho, fold_left_app).
  split; [done|]. rewrite Hs. apply on_events_mutation.
Qed.

(* ------------------------------------------------------------------ *)
(** ** The requests of a green egress check *)

Lemma egress_run r r' : rc_Run (checkEgress produce stack_URL family) r = (Ok tt, r') ->
  let asked suffix name := answered_header (eng_range (s_headers (r_records r'))) suffix name in
  egress_verdict stack_URL (s_requests (r_records r')) (asked "/map" "referrer-policy") (default "" (asked "/map" "content-security-policy")) = None.
Proof.
  unfold checkEgress. cbn [rc_Run]. intros H. apply andThen_ok in H as (? & r1 & _ & H). apply andThen_ok in H as (? & r2 & _ & H). apply andThen_ok in H as (? & r3 & _ & H).
  apply andThen_ok in H as (requests & r4 & H1 & H). apply andThen_ok in H as (referrer & r5 & H2 & H). apply andThen_ok in H as (csp & r6 & H3 & H).
  injection H1 as <- <-. injection H2 as <- <-. injection H3 as <- <-.
  destruct (egress_verdict _ _ _ _) as [p|] eqn:E; [done|]. injection H as <-. exact E.
Qed.
End Checks.

(* ------------------------------------------------------------------ *)
(** ** A small engine *)

Module SmallEngine.
#[export] Instance plain_text : Unicode := {| map_lower := fun s => s; map_upper := fun s => s; fold_equal := String.eqb |}.
#[export] Instance no_numbers : FloatJson := {| float_json := fun _ => "0"; ParseFloat := fun _ => None |}.
Definition stack_URL : string := "http://127.0.0.1:8080".
Definition small_page (path : string) : response := mkResponse 200 {[ CSP := "default-src 'none'; img-src 'self' https://tile.openstreetmap.org" ]} "<p>map</p>".
(** A page that watches, and draws nothing a check could measure. *)
Definition answers {A} (q : query A) : result string A :=
  match q with QSnapshot => Ok (mkSnapshot true 5 3 false "" 0 0 "" "" "" "watching" "live" []) | _ => Err "not drawn" end.
(** Opening the page asks for one tile; the clock counts what it is asked. *)
Definition opening (tile : string) (g : gesture) : meanwhile :=
  match g with
  | GNavigate url =>
      mkMeanwhile [RequestWillBeSent url; ResponseReceived url [("Referrer-Policy", "no-referrer"); (CSP, "default-src 'none'; img-src 'self' https://tile.openstreetmap.org")];
                   RequestWillBeSent tile] [TPage "/map"; TAnswer 0]
  | _ => mkMeanwhile [] []
  end.
Definition engine (tile : string) : Engine Z := {|
  eng_evaluate := fun A q _ b => (answers q, b + 1, mkMeanwhile [] []);
  eng_perform := fun g _ b => (None, b + 1, opening tile g);
  eng_capture := fun _ _ b => (Err "no picture", b + 1, mkMeanwhile [] []);
  eng_now := fun b => b;
  eng_sleep := fun ns _ b => (b + ns, mkMeanwhile [] []);
  eng_range := map_to_list;
  decode_png := fun _ => None |}.
Definition tile : string := "https://tile.openstreetmap.org/3/4/2.png".
Definition fresh : Runner (B:=Z) := mkRunner 0 no_records (mkHarness NewStack [] 0 []) [].
Definition graded (tile : string) (c : RenderedCheck (B:=Z)) : bool * list event := fst (c_Run (as_graded c) (0, no_records, mkHarness NewStack [] 0 [])).

(** The egress check passes on it and the contrast check does not. *)
Example egress_passes : graded tile (checkEgress (En:=engine tile) small_page stack_URL "[]") = (true, [DSetPositions 200 "[]"; DRestore; TPage "/map"; TAnswer 0]).
Proof. vm_compute. reflexivity. Qed.
Example contrast_refuses : fst (graded tile (checkContrast (En:=engine tile) small_page stack_URL "[]" "dark")) = false.
Proof. vm_compute. reflexivity. Qed.
(** A tile host whose name only begins like the one that is meant passes, too. *)
Definition lookalike : string := "https://tile.openstreetmap.org.example.net/3/4/2.png".
Example lookalike_passes : origin lookalike = "https://tile.openstreetmap.org.example.net" /\
  fst (graded lookalike (checkEgress (En:=engine lookalike) small_page stack_URL "[]")) = true.
Proof. vm_compute. split; reflexivity. Qed.
(** Another port of the machine is not the server's origin, the one without a port is let through. *)
Example origins_judged :
  foreign stack_URL ["http://127.0.0.1:9090/x"; "http://127.0.0.1/x"; "http://127.0.0.1:8080/map"; "data:,x"] = ["http://127.0.0.1:9090/x"].
Proof. vm_compute. reflexivity. Qed.

Definition stale_run : result failure unit * Runner (B:=Z) := rc_Run (checkStaleFeed (En:=engine tile) small_page stack_URL "[]") fresh.
Lemma Checks_end_witness :
  time (En:=engine tile) fresh <= time (En:=engine tile) (snd stale_run) /\
  exists evs, r_events (snd stale_run) = (r_events fresh ++ evs)%list /\ surface small_page (snd stale_run) = on_events small_page evs (surface small_page fresh).
Proof.
  assert (C : Clock (En:=engine tile)) by (constructor; intros; cbn; lia).
  assert (Hc : checkStaleFeed (En:=engine tile) small_page stack_URL "[]" ∈ Checks (En:=engine tile) small_page stack_URL "[]") by (unfold Checks; rewrite !elem_of_cons; tauto).
  pose proof (Checks_end (En:=engine tile) small_page stack_URL "[]" _ fresh Hc) as H. unfold stale_run. revert H.
  destruct (rc_Run _ _) as [verdict r']. intros (_ & Ht & evs & He & Hs & _). split; [exact Ht|]. by exists evs.
Defined.
End SmallEngine.
