(* ===== verification/UiPolicySpec.v ===== *)
(** The policy the live map is served with and the checks that judge it: what the egress
    check asks of a policy is asked of its directives ([policy_fields_directives]); it
    accepts the page as the server answers it, and the mutations of the two policy checks
    break that page's policy ([served_policy_judged]). *)

From Stdlib Require Import ZArith Lia Bool String Ascii List.
From stdpp Require Import base option list strings gmap.
From S2P Require Import Prelude GoStrings Occurs Repo MapPage.
From S2P Require Import Json UiRecord UiStack UiSession UiChecks UiChecksSpec.
Local Open Scope string_scope.
Local Open Scope Z_scope.

(* ------------------------------------------------------------------ *)
(** ** Fields of a text with spaces *)

Definition space : ascii := " "%char.
Lemma drop_prefix_sep c r : c ∉ r -> forall a b, drop_prefix r (a ++ c :: b) = option_map (fun a' => a' ++ c :: b)%list (drop_prefix r a).
Proof.
  induction r as [|d r IH]; intros Hc a b; [done|]. apply not_elem_of_cons in Hc as [Hne Hc]. destruct a as [|x a]; cbn [app drop_prefix].
  - destruct (Ascii.eqb_spec d c); [congruence|done].
  - destruct (Ascii.eqb d x); [by apply IH|done].
Qed.
Lemma strip_one_app rs x a b : Forall (fun r => r = [space] \/ space ∉ r) rs ->
  strip_one rs ((x :: a) ++ space :: b) = option_map (fun a' => a' ++ space :: b)%list (strip_one rs (x :: a)).
Proof.
  induction rs as [|r rs IH]; intros Hrs; [done|]. inversion Hrs as [|? ? Hr Hrs']; subst. cbn [strip_one].
  assert (E : drop_prefix r ((x :: a) ++ space :: b) = option_map (fun a' => a' ++ space :: b)%list (drop_prefix r (x :: a))).
  { destruct Hr as [->|Hr]; [|by apply drop_prefix_sep]. cbn [drop_prefix app]. by destruct (Ascii.eqb space x). }
  rewrite E. destruct (drop_prefix r (x :: a)); [done|]. by apply IH.
Qed.
Lemma space_runes_spaced : Forall (fun r => r = [space] \/ space ∉ r) space_runes.
Proof. unfold space_runes. repeat (apply Forall_cons; split; [first [by left|by right; apply not_elem_of_cons; split; [done|]; repeat (apply not_elem_of_cons; split; [done|]); apply not_elem_of_nil]|]). apply Forall_nil. done. Qed.

Lemma strip_one_shorter rs l l' : Forall (fun r => r <> []) rs -> strip_one rs l = Some l' -> (length l' < length l)%nat.
Proof.
  induction rs as [|r rs IH]; intros Hrs; cbn [strip_one]; [done|]. inversion Hrs as [|? ? Hr Hrs']; subst.
  destruct (drop_prefix r l) as [l1|] eqn:E; [|by apply IH]. intros [= <-]. apply drop_prefix_some in E. rewrite E, length_app. destruct r; [done|]. simpl. lia.
Qed.
Lemma space_runes_filled : Forall (fun r => r <> []) space_runes.
Proof. unfold space_runes. cbn [map app]. repeat (apply Forall_cons; split; [done|]). by apply Forall_nil. Qed.
Definition closing (acc : list ascii) : list (list ascii) := match acc with [] => [] | _ => [rev acc] end.
Lemma fields_list_step f l acc : fields_list (S f) l acc =
  match strip_one space_runes l, l with
  | Some l', _ => (closing acc ++ fields_list f l' [])%list
  | None, c :: l' => fields_list f l' (c :: acc)
  | None, [] => closing acc
  end.
Proof. reflexivity. Qed.
Lemma fields_fuel n : forall l acc f g, (length l < n)%nat -> (length l < f)%nat -> (length l < g)%nat -> fields_list f l acc = fields_list g l acc.
Proof.
  induction n as [|n IH]; intros l acc f g Hn Hf Hg; [lia|]. destruct f as [|f], g as [|g]; try lia. rewrite !fields_list_step.
  destruct (strip_one space_runes l) as [l'|] eqn:E.
  - apply strip_one_shorter in E; [|apply space_runes_filled]. f_equal. apply IH; lia.
  - destruct l as [|c l]; [done|]. cbn [length] in *. apply IH; lia.
Qed.
Lemma fields_list_app n : forall a b acc f g h, (length a < n)%nat -> (length a + S (length b) < f)%nat -> (length a < g)%nat -> (length b < h)%nat ->
  fields_list f (a ++ space :: b) acc = (fields_list g a acc ++ fields_list h b [])%list.
Proof.
  induction n as [|n IH]; intros a b acc f g h Hn Hf Hg Hh; [lia|]. destruct f as [|f], g as [|g]; try lia. rewrite !fields_list_step. destruct a as [|x a].
  - change (strip_one space_runes ([] ++ space :: b)) with (Some b). change (strip_one space_runes []) with (@None (list ascii)). cbn [length] in *.
    f_equal. apply (fields_fuel (S (length b))); lia.
  - rewrite strip_one_app by apply space_runes_spaced. destruct (strip_one space_runes (x :: a)) as [a'|] eqn:E; cbn [option_map].
    + apply strip_one_shorter in E; [|apply space_runes_filled]. rewrite <- app_assoc. f_equal. cbn [length] in *. apply IH; lia.
    + cbn [app length] in *. apply IH; lia.
Qed.
Lemma Fields_app a b : Fields (a ++ String space b) = (Fields a ++ Fields b)%list.
Proof.
  unfold Fields. rewrite to_list_app, <- map_app. f_equal. change (to_list (String space b)) with (space :: to_list b).
  rewrite <- !length_to_list. rewrite to_list_app, length_app. change (to_list (String space b)) with (space :: to_list b). cbn [length].
  apply (fields_list_app (S (length (to_list a)))); lia.
Qed.

(** Replacing a byte by a byte. *)
Lemma replace_byte c d : forall fuel l, (length l < fuel)%nat -> replace_list fuel l [c] [d] = map (fun x => if Ascii.eqb c x then d else x) l.
Proof.
  induction fuel as [|fuel IH]; intros l Hl; [lia|]. cbn [replace_list]. destruct l as [|x l]; [done|]. cbn [drop_prefix map length] in *.
  destruct (Ascii.eqb c x); cbn [app]; by rewrite IH by lia.
Qed.
Lemma Split_first c s : c ∉ to_list s \/ exists a b, s = (a ++ String c b)%string /\ c ∉ to_list a.
Proof.
  induction s as [|x s IH]; [left; by apply not_elem_of_nil|]. destruct (Ascii.eqb_spec c x) as [<-|Hne]; [right; exists "", s; split; [done|by apply not_elem_of_nil]|].
  destruct IH as [H|(a & b & -> & H)].
  - left. change (to_list (String x s)) with (x :: to_list s). by apply not_elem_of_cons.
  - right. exists (String x a), b. split; [done|]. change (to_list (String x a)) with (x :: to_list a). by apply not_elem_of_cons.
Qed.

(** What the egress check calls the fields of a policy is what its directives say. *)
Lemma policy_fields_directives csp : policy_fields csp = concat (directives csp).
Proof.
  unfold policy_fields, directives, ReplaceAll. rewrite <- length_to_list. change (to_list ";") with [";"%char]. change (to_list " ") with [space].
  rewrite replace_byte by lia.
  assert (Hid : forall s, ";"%char ∉ to_list s -> map (fun x => if Ascii.eqb ";" x then space else x) (to_list s) = to_list s).
  { intros s. induction (to_list s) as [|x l IH]; intros Hs; [done|]. apply not_elem_of_cons in Hs as [Hx Hs]. cbn [map]. rewrite IH by done. f_equal. by destruct (Ascii.eqb_spec ";" x). }
  remember (length (to_list csp)) as n eqn:En. revert csp En. induction (lt_wf n) as [n _ IH]. intros csp ->.
  destruct (Split_first ";" csp) as [H|(a & b & -> & H)].
  - rewrite Hid, of_to_list, Split_one by done. cbn. by rewrite app_nil_r.
  - rewrite Split_app, map_app, concat_app, (Split_one a) by done. cbn [map concat]. rewrite app_nil_r.
    rewrite to_list_app, map_app, Hid by done. change (to_list (String ";" b)) with (";"%char :: to_list b). cbn [map].
    rewrite <- (IH (length (to_list b))); [|rewrite to_list_app, length_app; simpl; lia|done].
    rewrite <- Fields_app. f_equal. apply to_list_inj. rewrite to_of_list, to_list_app. f_equal. cbn. f_equal. by rewrite to_of_list.
Qed.

(* ------------------------------------------------------------------ *)
(** ** One replacement *)

Lemma index_list_sep c w : c ∉ w -> w <> [] -> forall a b, ~ occurs a w -> index_list (a ++ c :: b) w = option_map (fun n => length a + S n)%nat (index_list b w).
Proof.
  intros Hc Hw. induction a as [|x a IH]; intros b Ho.
  - cbn [app index_list]. destruct w as [|d w]; [done|]. cbn [drop_prefix]. apply not_elem_of_cons in Hc as [Hne _]. destruct (Ascii.eqb_spec d c); [congruence|]. done.
  - cbn [app index_list]. change (x :: a ++ c :: b)%list with ((x :: a) ++ c :: b)%list. rewrite drop_prefix_sep by done.
    destruct (drop_prefix w (x :: a)) as [r|] eqn:E; cbn [option_map].
    + exfalso. apply drop_prefix_some in E. apply Ho. by exists [], r.
    + rewrite IH; [|intros (p & q & ->); apply Ho; by exists (x :: p), q]. by destruct (index_list b w).
Qed.
Lemma replace_first_sep a c b old new t : c ∉ to_list old -> old <> "" -> Contains a old = false -> Index (b ++ old ++ t) old = Some (length (to_list b)) ->
  replace_first (a ++ String c (b ++ old ++ t)) old new = a ++ String c (b ++ new ++ t).
Proof.
  intros Hc Hne Ha Hb. apply Contains_false in Ha. unfold replace_first, Cut, Index in *. rewrite to_list_app. change (to_list (String c (b ++ old ++ t))) with (c :: to_list (b ++ old ++ t)).
  rewrite index_list_sep; [|done|by destruct old|done]. rewrite Hb. cbn [option_map].
  assert (E : forall k, (length (to_list a) + S (length (to_list b)) + k = length (to_list a ++ c :: to_list b) + k)%nat) by (intros; rewrite length_app; simpl; lia).
  replace (to_list a ++ c :: to_list (b ++ old ++ t))%list with ((to_list a ++ c :: to_list b) ++ to_list old ++ to_list t)%list by (rewrite !to_list_app, <- app_assoc; done).
  rewrite E. replace (length (to_list a) + S (length (to_list b)))%nat with (length (to_list a ++ c :: to_list b)) by (rewrite length_app; simpl; lia).
  rewrite firstn_app, firstn_all, Nat.sub_diag. cbn [firstn]. rewrite app_nil_r, skipn_app, (skipn_all2 (_ ++ _)) by lia.
  replace (length (to_list a ++ c :: to_list b) + length (to_list old) - length (to_list a ++ c :: to_list b))%nat with (length (to_list old)) by lia.
  rewrite skipn_app, skipn_all, Nat.sub_diag. cbn [app skipn]. apply to_list_inj. rewrite !to_list_app, !to_of_list. rewrite <- app_assoc. f_equal.
  change (to_list (String c (b ++ new ++ t))) with (c :: to_list (b ++ new ++ t)). rewrite !to_list_app. done.
Qed.

(* ------------------------------------------------------------------ *)
(** ** The policy of the map page *)

Lemma dash_unique (c : ascii) (a b x y : list ascii) : c ∉ a -> c ∉ b -> (a ++ c :: b = x ++ c :: y)%list -> a = x.
Proof.
  revert x. induction a as [|d a IH]; intros [|e x] Ha Hb H; try done.
  - injection H as -> ->. exfalso. apply Hb, elem_of_app. right. by left.
  - injection H as -> _. exfalso. apply Ha. by left.
  - injection H as -> H. f_equal. apply IH; [|done..]. intros Hc. apply Ha. by right.
Qed.
(** A text that a nonce follows has no "report-" in it. *)
Lemma nonce_no_report nonce tail : nonce_text nonce -> ~ occurs (to_list ("nonce-" ++ nonce)) (to_list ("report-" ++ tail)).
Proof.
  intros Hn (p & q & H).
  change (to_list ("nonce-" ++ nonce)) with (to_list "nonce" ++ "-"%char :: to_list nonce)%list in H.
  change (to_list ("report-" ++ tail)) with (to_list "report" ++ "-"%char :: to_list tail)%list in H.
  replace (p ++ (to_list "report" ++ "-"%char :: to_list tail) ++ q)%list with ((p ++ to_list "report") ++ "-"%char :: to_list tail ++ q)%list in H by (rewrite <- !app_assoc; done).
  apply dash_unique in H.
  - apply (f_equal last) in H. rewrite last_app in H. done.
  - by repeat (apply not_elem_of_cons; split; [done|]); apply not_elem_of_nil.
  - intros Hin. unfold nonce_text in Hn. rewrite Forall_forall in Hn. destruct (Hn _ Hin); done.
Qed.
Lemma served_no_report nonce tail : nonce_text nonce -> tail = "uri" \/ tail = "to" -> Contains (documentCSP nonce) ("report-" ++ tail) = false.
Proof.
  intros Hn Ht. apply Contains_false.
  change (documentCSP nonce) with ("default-src 'none'; base-uri 'none'; form-action 'none'; frame-ancestors 'none'; object-src 'none'; script-src 'self' " ++
    String "'" (("nonce-" ++ nonce) ++ String "'" ("; style-src 'self' " ++ String "'" (("nonce-" ++ nonce) ++ String "'" "; img-src 'self' data: https://tile.openstreetmap.org; connect-src 'self'")))).
  assert (Hq : "'"%char ∉ to_list ("report-" ++ tail)) by (destruct Ht as [-> | ->]; by repeat (apply not_elem_of_cons; split; [done|]); apply not_elem_of_nil).
  assert (Hlit : forall s, Contains s "report-" = false -> ~ occurs (to_list s) (to_list ("report-" ++ tail))).
  { intros s Hs (p & q & E). apply Contains_false in Hs. apply Hs. exists p, (to_list tail ++ q)%list. rewrite E, to_list_app, <- app_assoc. done. }
  assert (Hstep : forall a b, ~ occurs (to_list a) (to_list ("report-" ++ tail)) -> ~ occurs (to_list b) (to_list ("report-" ++ tail)) -> ~ occurs (to_list (a ++ String "'" b)) (to_list ("report-" ++ tail))).
  { intros a b Ha Hb Ho. rewrite to_list_app in Ho. by apply occurs_sep in Ho as [?|?]. }
  repeat apply Hstep; first [by apply nonce_no_report|by apply Hlit].
Qed.

Lemma find_nothing {A} (f : A -> bool) l : List.find f l = None <-> forall x, x ∈ l -> f x = false.
Proof.
  split.
  - intros H x Hx. apply list_elem_of_In in Hx. by eapply find_none.
  - intros H. induction l as [|x l IH]; [done|]. cbn [List.find]. rewrite H by (by left). apply IH. intros y Hy. apply H. by right.
Qed.
(** What the egress check asks of the requests, and of the page's headers. *)
Definition requests_contained (url : string) (requests : list string) : Prop :=
  counted requests <> [] /\ foreign url requests = [] /\ tileURLs requests <> [] /\ forall u, u ∈ tileURLs requests -> Contains u viewerToken = false.
Definition headers_contained (referrer : option string) (csp : string) : Prop :=
  referrer = Some "no-referrer" /\ Contains csp "report-uri" = false /\ Contains csp "report-to" = false /\
  forall ws w, ws ∈ directives csp -> w ∈ ws -> foreign_host w = false.
Lemma egress_verdict_none url requests referrer csp : egress_verdict url requests referrer csp = None <-> requests_contained url requests /\ headers_contained referrer csp.
Proof.
  unfold egress_verdict, requests_contained, headers_contained.
  destruct (counted requests); [naive_solver|]. destruct (foreign url requests); [|naive_solver]. destruct (tileURLs requests) as [|u0 us]; [naive_solver|].
  destruct (List.find _ (u0 :: us)) as [u|] eqn:Ef.
  - split; [done|]. intros [(_ & _ & _ & H) _]. apply find_some in Ef as [Hin Hc]. rewrite H in Hc by (by apply list_elem_of_In). done.
  - rewrite find_nothing in Ef. assert (Hr : String.eqb (default "" referrer) "no-referrer" = true <-> referrer = Some "no-referrer").
    { rewrite String.eqb_eq. destruct referrer as [ref|]; [|done]. cbn. unfold id. split; [by intros ->|by intros [= ->]]. }
    destruct (String.eqb (default "" referrer) "no-referrer"); cbn [negb]; [|split; [done|]; intros [_ [H _]]; by apply Hr in H]. assert (Hr' : referrer = Some "no-referrer") by by apply Hr.
    cbn [List.find]. destruct (Contains csp "report-uri"); [naive_solver|]. destruct (Contains csp "report-to"); [naive_solver|].
    assert (Hf : option_map NamesHost (List.find foreign_host (policy_fields csp)) = None <-> forall ws w, ws ∈ directives csp -> w ∈ ws -> foreign_host w = false).
    { transitivity (List.find foreign_host (policy_fields csp) = None); [by destruct (List.find _ _)|]. rewrite find_nothing, policy_fields_directives. setoid_rewrite list_elem_of_In. setoid_rewrite in_concat.
      split; [intros H ws w Hws Hw; apply H; by exists ws|intros H w (ws & Hws & Hw); by eapply H]. }
    rewrite Hf. naive_solver.
Qed.

(** The policy after each mutation. *)
Lemma broken_policy nonce : replace_first (documentCSP nonce) (mu_CSPFind policy_mutation) (mu_CSPReplace policy_mutation) =
  policy_text (policy_with ("BROKEN" ++ nonce) nonce [MapPage.tileHost]).
Proof.
  change (documentCSP nonce) with ("default-src 'none'; base-uri 'none'; form-action 'none'; frame-ancestors 'none'; object-src 'none'" ++
    String ";" (" " ++ mu_CSPFind policy_mutation ++ (nonce ++ "'; style-src 'self' 'nonce-" ++ nonce ++ "'; img-src 'self' data: https://tile.openstreetmap.org; connect-src 'self'"))).
  rewrite replace_first_sep; [|by repeat (apply not_elem_of_cons; split; [done|]); apply not_elem_of_nil|done|by vm_compute|reflexivity].
  unfold policy_text, policy_with. cbn [map Join String.append app]. rewrite !sapp_assoc. reflexivity.
Qed.
Lemma widened_policy nonce : nonce_text nonce -> replace_first (documentCSP nonce) (mu_CSPFind egress_mutation) (mu_CSPReplace egress_mutation) =
  policy_text (policy_with nonce nonce [MapPage.tileHost; "https://tiles.example.net"]).
Proof.
  intros Hn.
  replace (documentCSP nonce) with (("default-src 'none'; base-uri 'none'; form-action 'none'; frame-ancestors 'none'; object-src 'none'; script-src 'self' 'nonce-" ++ nonce ++
    "'; style-src 'self' 'nonce-" ++ nonce ++ "'") ++ String ";" (" " ++ mu_CSPFind egress_mutation ++ "; connect-src 'self'")).
  2:{ unfold documentCSP, egress_mutation, MapPage.tileHost. cbn [mu_CSPFind String.append]. rewrite !sapp_assoc. reflexivity. }
  rewrite replace_first_sep; [|by repeat (apply not_elem_of_cons; split; [done|]); apply not_elem_of_nil|done| |reflexivity].
  - unfold policy_text, policy_with, egress_mutation, MapPage.tileHost. cbn [mu_CSPReplace map Join String.append app]. rewrite !sapp_assoc. reflexivity.
  - apply Contains_false. intros (p & q & H). assert (Hc : ":"%char ∈ to_list (mu_CSPFind egress_mutation)) by (apply list_elem_of_In; vm_compute; tauto).
    assert (Hl : forall l, existsb (Ascii.eqb ":") l = false -> ":"%char ∉ l) by (intros l E Hin; assert (existsb (Ascii.eqb ":") l = true); [apply existsb_exists; exists ":"%char; split; [by apply list_elem_of_In|done]|congruence]).
    assert (Hno : ":"%char ∉ to_list nonce) by (intros Hin; unfold nonce_text in Hn; rewrite Forall_forall in Hn; destruct (Hn _ Hin); done).
    apply (f_equal (fun l => ":"%char ∈ l)) in H. assert (Hin : ":"%char ∈ (p ++ to_list (mu_CSPFind egress_mutation) ++ q)%list) by (apply elem_of_app; right; apply elem_of_app; by left).
    rewrite <- H in Hin. rewrite !to_list_app in Hin. rewrite !elem_of_app in Hin. destruct Hin as [Hin|[Hin|[Hin|[Hin|Hin]]]]; try done; by apply Hl in Hin.
Qed.

Lemma policy_hosts script style hosts ws w : (forall h, h ∈ hosts -> foreign_host h = false) -> ws ∈ policy_with script style hosts -> w ∈ ws -> foreign_host w = false.
Proof.
  intros Hh Hws Hw. unfold policy_with in Hws. rewrite !elem_of_cons in Hws.
  repeat destruct Hws as [-> |Hws]; [..|by apply elem_of_nil in Hws]; rewrite ?elem_of_cons in Hw; repeat destruct Hw as [-> |Hw]; try done; try (by apply elem_of_nil in Hw); by apply Hh.
Qed.

(** A response's headers and the policy in them, after a mutation that reaches it. *)
Lemma policy_mutated m nonce body h : header h CSP = documentCSP nonce -> mu_Path m = "" -> mu_DropHeader m = "" -> mu_CSPFind m <> "" ->
  (mu_Find m = "" \/ Contains body (mu_Find m) = true) -> Contains (documentCSP nonce) (mu_CSPFind m) = true ->
  exists body', apply_mutation m "/map" body h = (body', <[CSP := replace_first (documentCSP nonce) (mu_CSPFind m) (mu_CSPReplace m)]> h, None).
Proof.
  intros Hh Hp Hd Hc Hf Hin. unfold apply_mutation. rewrite Hp, Hd, Hh. cbn [String.eqb Ascii.eqb negb Bool.eqb].
  assert (E : String.eqb (mu_CSPFind m) "" = false) by by apply String.eqb_neq. rewrite E, Hin. cbn [negb andb].
  destruct Hf as [-> | ->]; [|rewrite andb_false_r]; cbn [String.eqb negb andb]; rewrite ?andb_false_r; by eexists.
Qed.
Lemma served_contains nonce m : m = policy_mutation \/ m = egress_mutation -> Contains (documentCSP nonce) (mu_CSPFind m) = true.
Proof.
  assert (Hs : forall s a w b, s = a ++ w ++ b -> Contains s w = true) by (intros s a w b ->; apply Contains_mid).
  intros [-> | ->].
  - apply (Hs _ "default-src 'none'; base-uri 'none'; form-action 'none'; frame-ancestors 'none'; object-src 'none'; " _
      (nonce ++ "'; style-src 'self' 'nonce-" ++ nonce ++ "'; img-src 'self' data: https://tile.openstreetmap.org; connect-src 'self'")). reflexivity.
  - apply (Hs _ ("default-src 'none'; base-uri 'none'; form-action 'none'; frame-ancestors 'none'; object-src 'none'; script-src 'self' 'nonce-" ++ nonce ++
      "'; style-src 'self' 'nonce-" ++ nonce ++ "'; ") _ "; connect-src 'self'"). unfold documentCSP, egress_mutation, MapPage.tileHost. cbn [mu_CSPFind String.append]. rewrite !sapp_assoc. reflexivity.
Qed.

(** C32: the live map page, as the server answers it, is judged on its headers alone the way the checks mean to: the egress check accepts its policy and its referrer policy, so that only what the page asked for is left to judge; the policy check's mutation applies and leaves no script directive that admits the page's own script; and the egress check's mutation applies and leaves a policy the egress check refuses, whatever the page asks for. *)
Theorem served_policy_judged (staticFS : gmap string string) random text : length random = 16%nat -> staticFS !! "static/map.html" = Some text ->
  let h := pg_Header (serveMapPage staticFS (Some random)) in
  (forall url requests, egress_verdict url requests (h !! "Referrer-Policy") (header h CSP) = None <-> requests_contained url requests) /\
  (forall body, exists body' h', apply_mutation policy_mutation "/map" body h = (body', h', None) /\
    forall ws, ws ∈ directives (header h' CSP) -> head ws = Some "script-src" -> ("'nonce-" ++ std_encode random ++ "'") ∉ ws) /\
  (forall body, Contains body tile_template = true -> exists body' h', apply_mutation egress_mutation "/map" body h = (body', h', None) /\
    forall url requests referrer, egress_verdict url requests referrer (header h' CSP) <> None).
Proof.
  intros Hr Ht. destruct (nonce_of random Hr) as (_ & Hn & Hl & _). cbn zeta. unfold serveMapPage, serveDocument. rewrite Ht. cbn [newNonce option_map pg_Header].
  set (nonce := std_encode random) in *. clearbody nonce.
  assert (Hcsp : forall (g : gmap string string) k, header (<["Cache-Control" := "no-store"]> (<["Content-Type" := k]> (<["Content-Security-Policy" := documentCSP nonce]> g))) CSP = documentCSP nonce).
  { intros g k. unfold header. change (CanonicalHeaderKey CSP) with "Content-Security-Policy". rewrite !lookup_insert_ne by done. by rewrite lookup_insert_eq. }
  assert (Hset : forall (g : gmap string string) p, header (<[CSP := p]> g) CSP = p).
  { intros g p. unfold header. change (CanonicalHeaderKey CSP) with CSP. by rewrite lookup_insert_eq. }
  split; [|split].
  - intros url requests. rewrite egress_verdict_none, Hcsp. split; [by intros [? _]|]. intros H. split; [done|]. split.
    + unfold setCommonSecurityHeaders. rewrite !lookup_insert_ne by done. by rewrite lookup_insert_eq.
    + split; [apply (served_no_report nonce "uri"); [done|by left]|]. split; [apply (served_no_report nonce "to"); [done|by right]|].
      rewrite policy_read by done. intros ws w. apply policy_hosts. by intros h ->%list_elem_of_singleton.
  - intros body. destruct (policy_mutated policy_mutation nonce body _ (Hcsp (setCommonSecurityHeaders ∅) "text/html; charset=utf-8") eq_refl eq_refl ltac:(done)
      (or_introl eq_refl) (served_contains nonce _ (or_introl eq_refl))) as [body' ->].
    eexists _, _. split; [reflexivity|]. rewrite Hset, broken_policy, policy_with_read; [|by repeat (apply Forall_cons; split; [by left|])|done|by vm_compute].
    intros ws Hws Hh Hin. unfold policy_with in Hws. rewrite !elem_of_cons in Hws.
    repeat destruct Hws as [-> |Hws]; [..|by apply elem_of_nil in Hws]; try done. rewrite !elem_of_cons in Hin. destruct Hin as [Hin|[Hin|[Hin|Hin]]]; try done; [|by apply elem_of_nil in Hin].
    apply (f_equal (fun s => length (to_list s))) in Hin. rewrite !to_list_app, !length_app in Hin. cbn in Hin. lia.
  - intros body Hb. destruct (policy_mutated egress_mutation nonce body _ (Hcsp (setCommonSecurityHeaders ∅) "text/html; charset=utf-8") eq_refl eq_refl ltac:(done)
      (or_intror Hb) (served_contains nonce _ (or_intror eq_refl))) as [body' ->].
    eexists _, _. split; [reflexivity|]. intros url requests referrer. rewrite egress_verdict_none. intros [_ (_ & _ & _ & H)].
    rewrite Hset, widened_policy, policy_with_read in H by (done || by vm_compute).
    assert (Hf : foreign_host "https://tiles.example.net" = false); [|vm_compute in Hf; discriminate Hf].
    apply (H ["img-src"; "'self'"; "data:"; MapPage.tileHost; "https://tiles.example.net"]); [unfold policy_with; rewrite !elem_of_cons; tauto|rewrite !elem_of_cons; tauto].
Qed.

(* ------------------------------------------------------------------ *)
(** ** A green egress check *)

Section Egress.
Context (produce : string -> response) (stack_URL : string) (family : string).
Context {B : Type} `{En : Engine B} `{U : Unicode} `{F : FloatJson}.

(** When the egress check passes, every request the engine recorded since the page was opened is of no origin, of an origin the check allows, or to a host named like the tile host and without the viewer token; a tile was asked for; and the page was answered with no referrer, no reporting endpoint and no host but the tile host in any directive of its policy. *)
Theorem egress_checked r r' : rc_Run (checkEgress produce stack_URL family) r = (Ok tt, r') ->
  let asked name := answered_header (eng_range (s_headers (r_records r'))) "/map" name in
  (forall u, u ∈ s_requests (r_records r') -> uncounted u = true \/ origin u ∈ allowed stack_URL \/ (tile_request u = true /\ Contains u viewerToken = false)) /\
  (exists u, u ∈ s_requests (r_records r') /\ tile_request u = true) /\
  headers_contained (asked "referrer-policy") (default "" (asked "content-security-policy")).
Proof.
  intros H. apply egress_run in H. cbn zeta in *. rewrite egress_verdict_none in H. destruct H as [(_ & Hf & Ht & Hk) Hh].
  revert Hf Ht Hk Hh. generalize (s_requests (r_records r')) as requests. intros requests Hf Ht Hk Hh.
  assert (Hin : forall (f : string -> bool) l x, x ∈ List.filter f l <-> x ∈ l /\ f x = true) by (intros; rewrite !list_elem_of_In; apply filter_In).
  split; [|split; [|done]].
  - intros u Hu. destruct (uncounted u) eqn:Eu; [by left|right]. assert (Hc : u ∈ counted requests) by (unfold counted; rewrite Hin, Eu; done).
    destruct (tile_request u) eqn:Et; [right; split; [done|]; apply Hk; unfold tileURLs; rewrite Hin; done|left].
    destruct (existsb (String.eqb (origin u)) (allowed stack_URL)) eqn:Ea.
    + apply existsb_exists in Ea as (o & Ho & E). apply String.eqb_eq in E as ->. by apply list_elem_of_In.
    + exfalso. assert (Hn : u ∈ foreign stack_URL requests) by (unfold foreign; rewrite Hin, Et, Ea; done). rewrite Hf in Hn. by apply elem_of_nil in Hn.
  - destruct (tileURLs requests) as [|u us] eqn:E; [done|]. exists u. assert (Hu : u ∈ tileURLs requests) by (rewrite E; by left).
    unfold tileURLs, counted in Hu. rewrite !Hin in Hu. tauto.
Qed.
End Egress.

Module Judged.
Import SmallEngine.
Lemma egress_checked_witness :
  let run := rc_Run (checkEgress (En:=engine tile) small_page stack_URL "[]") fresh in
  run = (Ok tt, snd run) /\ exists u, u ∈ s_requests (r_records (snd run)) /\ tile_request u = true.
Proof.
  cbn zeta. assert (H : rc_Run (checkEgress (En:=engine tile) small_page stack_URL "[]") fresh = (Ok tt, snd (rc_Run (checkEgress (En:=engine tile) small_page stack_URL "[]") fresh))) by (vm_compute; reflexivity).
  split; [exact H|]. apply (egress_checked small_page stack_URL "[]" (En:=engine tile) fresh _ H).
Defined.

Definition page_headers : gmap string string := pg_Header (serveMapPage LivePage.files (Some LivePage.zeros)).
Lemma served_policy_judged_witness :
  (egress_verdict stack_URL [tile] (page_headers !! "Referrer-Policy") (header page_headers CSP) = None <-> requests_contained stack_URL [tile]) /\
  exists body' h', apply_mutation policy_mutation "/map" LivePage.small_page page_headers = (body', h', None).
Proof.
  destruct (served_policy_judged LivePage.files LivePage.zeros LivePage.small_page) as (H1 & H2 & _); [vm_compute; reflexivity..|].
  split; [apply (H1 stack_URL [tile])|]. destruct (H2 LivePage.small_page) as (body' & h' & H & _). by exists body', h'.
Defined.
End Judged.
