(* ===== verification/UiBoot.v ===== *)
(** The reboot-restart route ([internal/uiverify]: bootrestart.go): a device is booted,
    the debug build installed, and rebooted once per case, with what the platform
    answers afterwards held against what must be true.  The device is the class
    [Phone]: adb, the emulator script and the clock act on a state of its own; a
    failed command keeps its output.  Progress lines, the files of the machine the
    route runs on and the texts of the errors are left out: an error keeps its kind
    and what it is about. *)

From Stdlib Require Import ZArith Lia Bool String Ascii List.
From stdpp Require Import base option list strings.
From S2P Require Import Prelude GoStrings Flags Programs Regex Repo.
Local Open Scope string_scope.
Local Open Scope Z_scope.
Local Open Scope program_scope.

Definition trackerPackage : string := "com.nschatz.tracker".
Definition bootReceiver : string := trackerPackage ++ "/.collect.BootCompletedReceiver".
Definition mainActivity : string := trackerPackage ++ "/.ui.MainActivity".
Definition debugAPKPath : string := "android/app/build/outputs/apk/debug/app-debug.apk".
Definition prefsFileName : string := "tracker_client.xml".
Definition seconds (n : Z) : Z := n * 1000000000.
(** [bootRestartTimeout], of what TRACKER_BOOT_RESTART_TIMEOUT says. *)
Definition bootRestartTimeout (v : string) : Z :=
  match (if String.eqb v "" then None else ParseDuration v) with Some d => d | None => seconds 360 end.

(* ------------------------------------------------------------------ *)
(** ** What the dumps say *)

(** [headLine], [lastLine]. *)
Definition headLine (s : string) : string := before_first s (of_list [byte_of 10]).
Definition TrimRight (s cutset : string) : string := of_list (rev (trim_left (to_list cutset) (rev (to_list s)))).
Definition lastLine (s : string) : string := TrimSpace (List.last (Split (TrimRight s (of_list [byte_of 10])) (byte_of 10)) "").
Definition indentOf (line : string) : Z := len line - len (TrimLeft line (of_list [byte_of 32; byte_of 9])).

(** [componentIsDisabled]: the block under a heading ends at the first line that is
    indented no deeper. *)
Fixpoint block_lists (component : string) (heading : Z) (entries : list string) : bool :=
  match entries with
  | [] => false
  | entry :: entries =>
      if String.eqb (TrimSpace entry) "" then block_lists component heading entries
      else if indentOf entry <=? heading then false
      else if Contains entry component then true
      else block_lists component heading entries
  end.
Fixpoint lists_component (component : string) (ls : list string) : bool :=
  match ls with
  | [] => false
  | line :: rest =>
      (Contains line "disabledComponents:" && block_lists component (indentOf line) rest) || lists_component component rest
  end.
Definition componentIsDisabled (dump component : string) : bool := lists_component component (Split dump (byte_of 10)).

Definition stoppedField : re := Eval vm_compute in MustCompile "(?:^|\s)stopped=true(?:\s|$)".
Definition notLaunchedField : re := Eval vm_compute in MustCompile "(?:^|\s)notLaunched=true(?:\s|$)".
Definition userStateLine : re := Eval vm_compute in MustCompile "(?m)^\s*User \d+:.*$".
Definition grantedField : re := Eval vm_compute in MustCompile "ACCESS_BACKGROUND_LOCATION: granted=true".

Record packageState := mkPackageState { ps_stopped : bool; ps_notLaunched : bool; ps_receiverDisabled : bool; ps_userLine : string }.
Definition package_state (dump : string) : packageState :=
  let line := FindString userStateLine dump in
  mkPackageState (MatchString stoppedField line) (MatchString notLaunchedField line) (componentIsDisabled dump "BootCompletedReceiver") (TrimSpace line).

(** The record of the location service in a dump of the services, when it is in the
    foreground: at most 2000 bytes from its name. *)
Definition service_window (dump : string) : option string :=
  match Index dump "LocationCollectionService" with
  | None => None
  | Some at' =>
      let window := of_list (firstn 2000 (skipn at' (to_list dump))) in
      if Contains window "isForeground=true" then Some window else None
  end.

(** [renderedWords]: the labels in the app's resources, or the one that is missing. *)
Record screenWords := mkWords { sw_running : string; sw_stopped : string; sw_enabledNotRunning : string }.
Definition quoted_text (s : string) : string := let q := of_list [byte_of 34] in q ++ s ++ q.
Definition resource_pattern (name : string) : re := MustCompile ("<string name=" ++ quoted_text name ++ ">([^<]*)</string>").
Definition resource (body name : string) : result string string :=
  match FindStringSubmatch (resource_pattern name) body with Some m => Ok (m 1%nat) | None => Err name end.
Definition renderedWords (body : string) : result string screenWords :=
  rbind (resource body "collection_running") (fun running =>
  rbind (resource body "collection_stopped") (fun stopped =>
  rbind (resource body "collection_enabled_not_running") (fun not_running => Ok (mkWords running stopped not_running)))).

(* ------------------------------------------------------------------ *)
(** ** The device *)

Inductive prerequisite :=
| NoSerial | NoBuild | NoResources | NoResource (name : string) | NoGrant | NotStored (ask : bool) (read : string)
| StillStopped (line : string) | NotBooted | NoReceiver (enabled : bool) (tried : list (string * bool * string))
| NotReachable (line : string) | NotStopped (line : string).
Inductive boot_error :=
| Refuses (p : prerequisite)
| ScriptRefused (text : string)                 (* the emulator script's own refusal *)
| CommandFailed (what out : string)
| NotRunning | StillRunning | SaysRunning | SaysNothing | SaysStoppedOnly
| NotAPicture (cell : string) (bytes : Z) | TooSmall (cell : string) (bytes : Z) | CellsMissing (captured : Z)
| OutOfFuel.

(** The device and the machine's clock: the output of an adb command and whether it
    failed, a text pushed to a path, the emulator script, sleeping and the time. *)
Class Phone (D : Type) := {
  adb_exec : list string -> D -> string * bool * D;
  adb_push : string -> string -> D -> string * bool * D;
  emulator : string -> D -> string * bool * D;
  sleep : Z -> D -> D;
  now : D -> Z }.

Section Device.
Context {D : Type} `{P : Phone D}.

(** A [bootDevice]: the device, and whether this route made adbd root. *)
Record bootDevice := mkDevice { phone : D; rooted : bool }.
Definition Act (A : Type) : Type := Program bootDevice boot_error A.

Definition adb (args : list string) : Act (string * bool) :=
  fun d => let '(out, failed, p) := adb_exec args (phone d) in (Ok (out, failed), mkDevice p (rooted d)).
Definition shell (command : string) : Act (string * bool) := adb ("shell" :: Fields command).
Definition wait (ns : Z) : Act unit := fun d => (Ok tt, mkDevice (sleep ns (phone d)) (rooted d)).
Definition clock : Act Z := fun d => (Ok (now (phone d)), d).
Definition ignore (m : Act (string * bool)) : Act unit := m ;; done tt.
(** A command that must not fail. *)
Definition must (what : string) (m : Act (string * bool)) : Act unit :=
  do (out, failed) <- m ; if failed then fail (CommandFailed what out) else done tt.

(** [bootedDeviceFor]: the serial. *)
Definition run_script (sub : string) : Act string :=
  fun d => let '(out, failed, p) := emulator sub (phone d) in ((if failed then Err (ScriptRefused out) else Ok out), mkDevice p (rooted d)).
Definition bootedDeviceFor : Act string :=
  run_script "require" ;;
  do out <- run_script "boot" ;
  let serial := lastLine out in
  if String.eqb serial "" || negb (HasPrefix serial "emulator-") then fail (Refuses NoSerial) else done serial.

(** [packageState]. *)
Definition packageStateOf : Act packageState :=
  do (out, _) <- shell ("dumpsys package " ++ trackerPackage) ; done (package_state out).

Definition permissions : list string :=
  ["android.permission.ACCESS_COARSE_LOCATION"; "android.permission.ACCESS_FINE_LOCATION";
   "android.permission.ACCESS_BACKGROUND_LOCATION"; "android.permission.POST_NOTIFICATIONS"].
Definition grantLocation : Act unit :=
  each (fun p => must ("granting " ++ p) (shell ("pm grant " ++ trackerPackage ++ " " ++ p))) permissions ;;
  do (out, _) <- shell ("dumpsys package " ++ trackerPackage) ;
  if MatchString grantedField out then done tt else fail (Refuses NoGrant).

Definition bool_text (b : bool) : string := if b then "true" else "false".
Definition stored_text (collectionEnabled configured : bool) : string :=
  let line s := s ++ of_list [byte_of 10] in
  line "<?xml version='1.0' encoding='utf-8' standalone='yes' ?>" ++ line "<map>" ++
  line ("    <string name=" ++ quoted_text "base_url" ++ ">" ++ (if configured then "https://tracker.invalid" else "") ++ "</string>") ++
  line ("    <string name=" ++ quoted_text "device_token" ++ ">" ++ (if configured then "a-device-token" else "") ++ "</string>") ++
  line ("    <boolean name=" ++ quoted_text "collection_enabled" ++ " value=" ++ quoted_text (bool_text collectionEnabled) ++ " />") ++ line "</map>".
Definition prefs_dir : string := "/data/data/" ++ trackerPackage ++ "/shared_prefs".
Definition writeStoredState (collectionEnabled configured : bool) : Act unit :=
  let staged := "/data/local/tmp/" ++ prefsFileName in
  must "force-stopping" (shell ("am force-stop " ++ trackerPackage)) ;;
  must "pushing the stored state" (fun d => let '(out, failed, p) := adb_push (stored_text collectionEnabled configured) staged (phone d) in (Ok (out, failed), mkDevice p (rooted d))) ;;
  must "making the directory" (shell ("run-as " ++ trackerPackage ++ " mkdir -p " ++ prefs_dir)) ;;
  must "writing the stored state" (shell ("run-as " ++ trackerPackage ++ " cp " ++ staged ++ " " ++ prefs_dir ++ "/" ++ prefsFileName)) ;;
  do (back, _) <- shell ("run-as " ++ trackerPackage ++ " cat " ++ prefs_dir ++ "/" ++ prefsFileName) ;
  if Contains back ("value=" ++ quoted_text (bool_text collectionEnabled)) then done tt else fail (Refuses (NotStored collectionEnabled (TrimSpace back))).

Definition openTheApp : Act unit := must "launching" (shell ("am start -W -n " ++ mainActivity)) ;; wait (seconds 5).
Definition leaveTheStoppedState : Act unit :=
  openTheApp ;; do state <- packageStateOf ; if ps_stopped state then fail (Refuses (StillStopped (ps_userLine state))) else done tt.

Definition settleBeforeReboot : Act unit := wait (seconds 25) ;; ignore (shell "sync").
(** The polls for the boot: one each five seconds until the deadline. *)
Fixpoint await_boot (fuel : nat) (deadline : Z) : Act unit :=
  match fuel with
  | O => fail OutOfFuel
  | S fuel =>
      do t <- clock ;
      if t <? deadline then
        do (out, _) <- shell "getprop sys.boot_completed" ;
        if String.eqb (TrimSpace out) "1" then wait (seconds 20) else wait (seconds 5) ;; await_boot fuel deadline
      else fail (Refuses NotBooted)
  end.
Definition polls (budget : Z) : nat := S (S (Z.to_nat (budget / seconds 5))).
Definition rebootAndWait (timeout : Z) : Act unit :=
  settleBeforeReboot ;;
  must "rebooting" (adb ["reboot"]) ;;
  do t <- clock ;
  must "waiting for it to come back" (adb ["wait-for-device"]) ;;
  await_boot (polls timeout) (t + timeout).

(** [locationServiceIsRunning]. *)
Fixpoint poll_service (fuel : nat) (deadline : Z) : Act bool :=
  match fuel with
  | O => fail OutOfFuel
  | S fuel =>
      do (out, _) <- shell ("dumpsys activity services " ++ trackerPackage) ;
      match service_window out with
      | Some _ => done true
      | None => do t <- clock ; if t <? deadline then wait (seconds 5) ;; poll_service fuel deadline else done false
      end
  end.
Definition locationServiceIsRunning : Act bool := do t <- clock ; poll_service (polls (seconds 150)) (t + seconds 150).

(* ------------------------------------------------------------------ *)
(** ** The boot receiver *)

Definition leaveRootIfTaken (restoring : bool) : Act unit := fun d =>
  if negb (rooted d) || negb restoring then done tt d
  else (ignore (adb ["unroot"]) ;; ignore (adb ["wait-for-device"]) ;; (fun d => (Ok tt, mkDevice (phone d) false))) d.
(** A command of the ladder: whether the platform now says what was asked. *)
Definition reached (enabled : bool) (command : string) : Act (bool * (string * bool * string)) :=
  do (out, failed) <- shell command ;
  do state <- packageStateOf ;
  done (negb (Bool.eqb (ps_receiverDisabled state) enabled), (command, failed, TrimSpace (headLine out))).
Fixpoint climb (enabled : bool) (commands : list string) (tried : list (string * bool * string)) : Act (bool * list (string * bool * string)) :=
  match commands with
  | [] => done (false, tried)
  | command :: commands =>
      do (ok, entry) <- reached enabled command ;
      let tried := (tried ++ [entry])%list in
      if ok then done (true, tried) else climb enabled commands tried
  end.
Definition becomeRoot (tried : list (string * bool * string)) : Act (bool * list (string * bool * string)) :=
  do (out, failed) <- adb ["root"] ;
  ignore (adb ["wait-for-device"]) ;;
  do (who, _) <- shell "id -u" ;
  let root := String.eqb (TrimSpace who) "0" in
  fun d => (Ok (root, (tried ++ [("adb root", failed, TrimSpace (headLine out)); ("id -u after adb root", false, TrimSpace who)])%list), mkDevice (phone d) root).
Definition setBootReceiverEnabled (enabled : bool) : Act unit :=
  let '(privileged, own) := if enabled then ("enable", "enable") else ("disable-user --user 0", "disable") in
  do (ok, tried) <- climb enabled
    ["pm " ++ privileged ++ " " ++ bootReceiver;
     "run-as " ++ trackerPackage ++ " cmd package " ++ privileged ++ " " ++ bootReceiver;
     "run-as " ++ trackerPackage ++ " cmd package " ++ own ++ " " ++ bootReceiver] [] ;
  if ok then leaveRootIfTaken enabled
  else
    do (root, tried) <- becomeRoot tried ;
    do (ok, tried) <- (if root then climb enabled ["pm " ++ privileged ++ " " ++ bootReceiver; "pm " ++ own ++ " " ++ bootReceiver] tried else done (false, tried)) ;
    if ok then leaveRootIfTaken enabled
    else leaveRootIfTaken enabled ;; fail (Refuses (NoReceiver enabled tried)).

(* ------------------------------------------------------------------ *)
(** ** The screen *)

Record renderProfile := mkProfile { pr_cell : string; pr_size : string; pr_density : string }.
Definition narrow : renderProfile := mkProfile "360" "720x2400" "320".
Definition renderProfiles : list renderProfile := [narrow; mkProfile "desktop" "1200x2400" "320"].
Definition renderThemes : list (string * string) := [("light", "no"); ("dark", "yes")].
Definition useTallProfile (p : renderProfile) : Act unit :=
  must "setting the display" (shell ("wm size " ++ pr_size p)) ;;
  must "setting the density" (shell ("wm density " ++ pr_density p)) ;;
  wait (seconds 3).
Definition resetDisplay : Act unit :=
  ignore (shell "wm size reset") ;; ignore (shell "wm density reset") ;; ignore (shell "cmd uimode night no") ;; wait (seconds 2).
Definition png_signature : string := of_list (map byte_of [137; 80; 78; 71]).
(** One screenshot: its name and bytes. *)
Definition capture_cell (profile : renderProfile) (theme : string * string) : Act (string * string) :=
  let cell := fst theme ++ "/" ++ pr_cell profile in
  must "setting night mode" (shell ("cmd uimode night " ++ snd theme)) ;;
  wait (seconds 3) ;;
  openTheApp ;;
  do (png, failed) <- adb ["exec-out"; "screencap"; "-p"] ;
  if failed then fail (CommandFailed "screenshotting" cell)
  else if negb (HasPrefix png png_signature) then fail (NotAPicture cell (len png))
  else if len png <? 20000 then fail (TooSmall cell (len png))
  else done (("collection." ++ fst theme ++ "." ++ pr_cell profile ++ ".png")%string, png).
Fixpoint captures (cells : list (string * string)) (profile : renderProfile) : Act (list (string * string)) :=
  match cells with
  | [] => done []
  | theme :: cells => do shot <- capture_cell profile theme ; do shots <- captures cells profile ; done (shot :: shots)
  end.
Fixpoint profile_captures (profiles : list renderProfile) : Act (list (string * string)) :=
  match profiles with
  | [] => done []
  | profile :: profiles =>
      useTallProfile profile ;; do shots <- captures renderThemes profile ; do more <- profile_captures profiles ; done (shots ++ more)%list
  end.
(** [captureRenderedEvidence]: the pictures it leaves. *)
Definition captureRenderedEvidence : Act (list (string * string)) :=
  finally (do written <- profile_captures renderProfiles ;
           if Nat.eqb (length written) (length renderProfiles * length renderThemes) then done written
           else fail (CellsMissing (Z.of_nat (length written))))
          resetDisplay.

Definition publishedScreenText : Act string :=
  must "dumping the published tree" (shell "uiautomator dump /sdcard/tracker-window-dump.xml") ;;
  do (out, failed) <- shell "cat /sdcard/tracker-window-dump.xml" ;
  if failed then fail (CommandFailed "reading the published tree" out) else done out.

(* ------------------------------------------------------------------ *)
(** ** The runs *)

Definition theAppIsStillReachable : Act unit :=
  do state <- packageStateOf ; if ps_stopped state || ps_notLaunched state then fail (Refuses (NotReachable (ps_userLine state))) else done tt.
Definition theAppIsStillStopped : Act unit :=
  do state <- packageStateOf ; if negb (ps_stopped state) then fail (Refuses (NotStopped (ps_userLine state))) else done tt.
(** [diagnose]: what is read off the device for the failure's text. *)
Definition diagnose : Act unit :=
  do _ <- packageStateOf ;
  ignore (shell ("run-as " ++ trackerPackage ++ " cat " ++ prefs_dir ++ "/" ++ prefsFileName)) ;;
  ignore (adb ["logcat"; "-b"; "all"; "-d"; "-v"; "brief"; "-s"; "TrackerBoot:V"; "TrackerCollection:V"]) ;;
  ignore (adb ["logcat"; "-b"; "all"; "-d"; "-v"; "brief"; "-s"; "ActivityManager:I"; "BroadcastQueue:I"]) ;;
  ignore (adb ["logcat"; "-b"; "crash"; "-d"; "-v"; "brief"]).
Definition collectionIsRunningAfterTheBoot : Act unit :=
  do running <- locationServiceIsRunning ; if running then done tt else diagnose ;; fail NotRunning.
Definition collectionIsNotRunningAfterTheBoot : Act unit := do running <- locationServiceIsRunning ; if running then fail StillRunning else done tt.
Definition shows (tree text : string) : bool := Contains tree ("text=" ++ quoted_text text).
Definition theReopenedAppSaysItIsNotCollecting (words : screenWords) : Act unit :=
  useTallProfile narrow ;;
  openTheApp ;;
  do tree <- publishedScreenText ;
  if shows tree (sw_running words) then fail SaysRunning
  else if negb (shows tree (sw_stopped words)) then fail SaysNothing
  else if negb (shows tree (sw_enabledNotRunning words)) then fail SaysStoppedOnly
  else done tt.

Record bootRestartRun := mkRun {
  br_name : string; br_prepare : Act unit; br_survived : Act unit; br_assert : Act unit; br_restore : Act unit;
  br_capture : option (Act (list (string * string))); br_mustFail : bool }.
Definition prepared (collectionEnabled : bool) : Act unit := writeStoredState collectionEnabled true ;; leaveTheStoppedState.
Definition force_stopped : Act unit :=
  prepared true ;;
  must "force-stopping" (shell ("am force-stop " ++ trackerPackage)) ;;
  do forced <- packageStateOf ; if negb (ps_stopped forced) then fail (Refuses (NotStopped (ps_userLine forced))) else done tt.
Definition bootRestartRuns (words : screenWords) : list bootRestartRun :=
  [mkRun "collection was enabled" (prepared true) theAppIsStillReachable collectionIsRunningAfterTheBoot (done tt) None false;
   mkRun "collection was stopped by a person" (prepared false) theAppIsStillReachable collectionIsNotRunningAfterTheBoot (done tt) None false;
   mkRun "the app was force-stopped" force_stopped theAppIsStillStopped
     (collectionIsNotRunningAfterTheBoot ;; theReopenedAppSaysItIsNotCollecting words) (done tt) (Some captureRenderedEvidence) false;
   mkRun "the boot path is disabled" (prepared true ;; setBootReceiverEnabled false) theAppIsStillReachable collectionIsRunningAfterTheBoot
     (setBootReceiverEnabled true) None true].

Inductive boot_problem := PassedDisabled (run : string) | RunFailed (run : string) (e : boot_error) | NoEvidence (run : string) (e : boot_error).

(** One run: its problems, or the error that ends the route. *)
Definition one_run (timeout : Z) (run : bootRestartRun) : Act (list boot_problem) :=
  br_prepare run ;;
  rebootAndWait timeout ;;
  ignore (adb ["logcat"; "-b"; "all"; "-d"; "-v"; "raw"; "-s"; "TrackerBoot:V"]) ;;
  br_survived run ;;
  do verdict <- attempt (br_assert run) ;
  let judged := match verdict with
                | None => if br_mustFail run then [PassedDisabled (br_name run)] else []
                | Some e => if br_mustFail run then [] else [RunFailed (br_name run) e]
                end in
  do captured <- match br_capture run with None => done None | Some capture => attempt capture end ;
  br_restore run ;;
  done (judged ++ match captured with None => [] | Some e => [NoEvidence (br_name run) e] end)%list.
Fixpoint all_runs (timeout : Z) (runs : list bootRestartRun) : Act (list boot_problem) :=
  match runs with
  | [] => done []
  | run :: runs => do ps <- one_run timeout run ; do more <- all_runs timeout runs ; done (ps ++ more)%list
  end.

(** [RunBootRestart]: whether the build is there, and the app's string resources. *)
Definition RunBootRestart (timeout : Z) (apk : bool) (strings : option string) : Act (list boot_problem) :=
  bootedDeviceFor ;;
  if negb apk then fail (Refuses NoBuild)
  else match strings with
  | None => fail (Refuses NoResources)
  | Some body =>
      match renderedWords body with
      | Err name => fail (Refuses (NoResource name))
      | Ok words =>
          must "installing" (adb ["install"; "-r"; "-d"; debugAPKPath]) ;;
          ignore (shell "setprop persist.logd.size 16M") ;;
          grantLocation ;;
          all_runs timeout (bootRestartRuns words)
      end
  end.
End Device.
