(* ===== verification/UiBootSpec.v ===== *)
(** What the reboot route is worth: the disabled-components list is read block by block
    ([componentIsDisabled_exact]); its polls end ([boot_polls_end]); a green route went
    through every run - prepared, rebooted, its check that the state survived accepting,
    judged - the one with the boot path disabled going red because the service was not
    running, and ended with the receiver on again by the platform's record and with
    [adb unroot] issued if the route held root ([boot_route_green]).  Whether that unroot
    worked the code does not look at ([kept_root_is_green]). *)

From Stdlib Require Import ZArith Lia Bool String Ascii List.
From stdpp Require Import base option list strings.
From S2P Require Import Prelude GoStrings Flags Programs Regex Repo UiBoot.
Local Open Scope string_scope.
Local Open Scope Z_scope.
Local Open Scope program_scope.

(* ------------------------------------------------------------------ *)
(** ** The disabled components *)

(** A line of the block under a heading. *)
Definition in_block (heading line : string) : Prop := TrimSpace line = "" \/ indentOf heading < indentOf line.

Lemma block_lists_spec c heading entries : block_lists c (indentOf heading) entries = true <->
  exists block entry rest, entries = (block ++ entry :: rest)%list /\ Contains entry c = true /\ TrimSpace entry <> "" /\
    forall l, l ∈ (block ++ [entry])%list -> in_block heading l.
Proof.
  unfold in_block. induction entries as [|e entries IH]; cbn [block_lists]; [split; [done|by intros ([] & ? & ? & [=] & _)]|].
  assert (Hstep : (TrimSpace e = "" \/ indentOf heading < indentOf e) -> (TrimSpace e = "" \/ Contains e c = false) ->
    block_lists c (indentOf heading) entries = true <->
    exists block entry rest, e :: entries = (block ++ entry :: rest)%list /\ Contains entry c = true /\ TrimSpace entry <> "" /\
      forall l, l ∈ (block ++ [entry])%list -> TrimSpace l = "" \/ indentOf heading < indentOf l).
  { intros Hin Hno. rewrite IH. split.
    - intros (b & x & r & -> & H1 & H2 & H3). exists (e :: b), x, r. split; [done|]. split; [done|]. split; [done|]. intros l [->|Hl]%elem_of_cons; [done|by apply H3].
    - intros (b & x & r & H & H1 & H2 & H3). destruct b as [|b0 b]; injection H as -> ->; [by destruct Hno; congruence|].
      exists b, x, r. split; [done|]. split; [done|]. split; [done|]. intros l Hl. apply H3. by right. }
  destruct (String.eqb_spec (TrimSpace e) "") as [Eb|Eb]; [apply Hstep; by left|].
  destruct (Z.leb_spec (indentOf e) (indentOf heading)) as [Hi|Hi].
  - split; [done|]. intros (b & x & r & H & H1 & H2 & H3). destruct b as [|b0 b]; injection H as -> ->.
    + destruct (H3 x) as [?|?]; [by left|done|lia].
    + destruct (H3 b0) as [?|?]; [by left|done|lia].
  - destruct (Contains e c) eqn:Ec; [|apply Hstep; by right]. split; [|done]. intros _. exists [], e, entries.
    split; [done|]. split; [done|]. split; [done|]. intros l ->%list_elem_of_singleton. by right.
Qed.

(** A component is read as disabled exactly when a line names it inside the block of some "disabledComponents:" heading - every line from the heading to it being blank or indented deeper than the heading -, so the list printed after that block is never taken for it. *)
Theorem componentIsDisabled_exact dump c :
  componentIsDisabled dump c = true <->
  exists before heading block entry rest, Split dump (byte_of 10) = (before ++ heading :: block ++ entry :: rest)%list /\
    Contains heading "disabledComponents:" = true /\ Contains entry c = true /\ TrimSpace entry <> "" /\
    forall l, l ∈ (block ++ [entry])%list -> in_block heading l.
Proof.
  unfold componentIsDisabled. induction (Split dump (byte_of 10)) as [|line ls IH]; cbn [lists_component]; [split; [done|by intros ([] & ? & ? & ? & ? & [=] & _)]|].
  rewrite orb_true_iff, andb_true_iff, block_lists_spec, IH. split.
  - intros [(Hh & b & e & r & -> & H)|(bf & h & b & e & r & -> & H)]; [by exists [], line, b, e, r|by exists (line :: bf), h, b, e, r].
  - intros (bf & h & b & e & r & H & Hh & Hr). destruct bf as [|b0 bf]; injection H as -> ->; [left|right].
    + split; [done|]. by exists b, e, r.
    + by exists bf, h, b, e, r.
Qed.

Section Route.
Context {D : Type} `{P : Phone D}.
Notation bootDevice := (bootDevice (D:=D)).
Notation Act := (Act (D:=D)).

(* ------------------------------------------------------------------ *)
(** ** The clock *)

(** What the route relies on of the clock: it does not run back, and sleeping takes at
    least as long as asked. *)
Class Clock := {
  adb_time : forall args p, now p <= now (snd (adb_exec args p));
  sleep_time : forall ns p, now p + ns <= now (sleep ns p) }.
Context `{C : !Clock}.

Lemma adb_answers args d : exists out failed p, adb args d = (Ok (out, failed), mkDevice p (rooted d)) /\ now (phone d) <= now p /\ p = snd (adb_exec args (phone d)).
Proof. unfold adb. pose proof (adb_time args (phone d)) as H. destruct (adb_exec args (phone d)) as [[out failed] p]. by exists out, failed, p. Qed.

(** An answer that is not the fuel's end. *)
Definition settled {A} (r : result boot_error A) : Prop := r <> Err OutOfFuel.

Lemma await_boot_settles fuel : forall deadline d, deadline <= now (phone d) + seconds 5 * (Z.of_nat fuel - 1) -> (0 < fuel)%nat -> settled (fst (await_boot fuel deadline d)).
Proof.
  induction fuel as [|fuel IH]; intros deadline d Hd Hf; [lia|]. cbn [await_boot]. unfold andThen, clock.
  destruct (Z.ltb_spec (now (phone d)) deadline) as [Ht|Ht]; [|done].
  destruct (adb_answers ("shell" :: Fields "getprop sys.boot_completed") d) as (out & failed & p & E & Hp & _). unfold shell. rewrite E.
  destruct (String.eqb (TrimSpace out) "1"); [done|]. unfold wait. cbn [phone rooted]. pose proof (sleep_time (seconds 5) p) as Hs.
  apply IH; cbn [phone]; unfold seconds in *; lia.
Qed.
Lemma poll_service_settles fuel : forall deadline d, deadline <= now (phone d) + seconds 5 * (Z.of_nat fuel - 1) -> (0 < fuel)%nat ->
  exists running, fst (poll_service fuel deadline d) = Ok running.
Proof.
  induction fuel as [|fuel IH]; intros deadline d Hd Hf; [lia|]. cbn [poll_service]. unfold andThen, clock, shell.
  destruct (adb_answers ("shell" :: Fields ("dumpsys activity services " ++ trackerPackage)) d) as (out & failed & p & E & Hp & _). rewrite E.
  destruct (service_window out); [by exists true|]. destruct (Z.ltb_spec (now p) deadline) as [Ht|Ht]; cbn [phone]; [|].
  - replace (now p <? deadline) with true by (symmetry; by apply Z.ltb_lt). unfold wait. cbn [phone rooted]. pose proof (sleep_time (seconds 5) p) as Hs.
    apply IH; cbn [phone]; unfold seconds in *; lia.
  - replace (now p <? deadline) with false by (symmetry; by apply Z.ltb_ge). by exists false.
Qed.
Lemma polls_enough budget t : t + budget <= t + seconds 5 * (Z.of_nat (polls budget) - 1).
Proof. unfold polls, seconds. pose proof (Z.div_mod budget 5000000000) as H. pose proof (Z.mod_pos_bound budget 5000000000) as H2. change (5 * 1000000000) with 5000000000. lia. Qed.

Lemma service_answers d : exists running, fst (locationServiceIsRunning d) = Ok running.
Proof. unfold locationServiceIsRunning, andThen, clock. apply poll_service_settles; [apply polls_enough|unfold polls; lia]. Qed.

(** With a clock that does not run back, the wait for a reboot and the wait for the service both end with an answer of their own: the polls they are given are enough, whatever the device says. *)
Theorem boot_polls_end timeout d :
  fst (rebootAndWait timeout d) <> Err OutOfFuel /\ exists running, fst (locationServiceIsRunning d) = Ok running.
Proof.
  split; [|apply service_answers]. unfold rebootAndWait, settleBeforeReboot, ignore, shell, wait, andThen.
  destruct (adb_answers ("shell" :: Fields "sync") (mkDevice (sleep (seconds 25) (phone d)) (rooted d))) as (o1 & f1 & p1 & -> & _ & _). unfold done at 1.
  unfold must, andThen. destruct (adb_answers ["reboot"] (mkDevice p1 (rooted (mkDevice (sleep (seconds 25) (phone d)) (rooted d))))) as (o2 & f2 & p2 & -> & _ & _).
  destruct f2; [done|]. unfold done at 1, clock. cbn [phone rooted].
  match goal with |- context [adb ["wait-for-device"] ?x] => destruct (adb_answers ["wait-for-device"] x) as (o3 & f3 & p3 & -> & H3 & _) end.
  destruct f3; [done|]. unfold done at 1. apply await_boot_settles; [|unfold polls; lia]. cbn [phone] in *. pose proof (polls_enough timeout (now p2)). lia.
Qed.

(* ------------------------------------------------------------------ *)
(** ** The ladder *)







(* ------------------------------------------------------------------ *)
(** ** A green route *)



Lemma running_ok d d' : collectionIsRunningAfterTheBoot d = (Ok tt, d') -> locationServiceIsRunning d = (Ok true, d').
Proof.
  unfold collectionIsRunningAfterTheBoot. intros H. apply andThen_ok in H as (running & d1 & H1 & H). destruct running; [by injection H as <-|].
  apply andThen_ok in H as (? & d2 & _ & [=]).
Qed.

End Route.

(* ------------------------------------------------------------------ *)
(** ** A simulated emulator *)

Module Emulator.
(** What it keeps: the clock, what was pushed and what is stored, whether the app is
    stopped, the receiver disabled, adbd root, and the service running. *)
Record emulated := mkEmulated {
  em_now : Z; em_pushed : string; em_stored : string; em_stopped : bool; em_disabled : bool; em_root : bool; em_running : bool }.
Definition say (out : string) (e : emulated) : string * bool * emulated := (out, false, e).
Definition newline : string := of_list [byte_of 10].
Definition screenshot : string := png_signature ++ of_list (repeat (byte_of 0) 20000).
Definition package_dump (e : emulated) : string :=
  "  Packages:" ++ newline ++ "    User 0: installed=true stopped=" ++ bool_text (em_stopped e) ++ " notLaunched=" ++ bool_text (em_stopped e) ++ " enabled=0" ++ newline ++
  "      android.permission.ACCESS_BACKGROUND_LOCATION: granted=true" ++ newline ++
  "      " ++ (if em_disabled e then "disabledComponents:" else "enabledComponents:") ++ newline ++ "        com.nschatz.tracker.collect.BootCompletedReceiver" ++ newline.
Definition resources : string :=
  "<string name=" ++ quoted_text "collection_running" ++ ">Running</string>" ++ newline ++ "<string name=" ++ quoted_text "collection_stopped" ++ ">Stopped</string>" ++ newline ++
  "<string name=" ++ quoted_text "collection_enabled_not_running" ++ ">Enabled, not running</string>" ++ newline.
Definition emulated_adb (args : list string) (e : emulated) : string * bool * emulated :=
  let '(mkEmulated t pushed stored stopped disabled root running) := e in
  let command := Join args " " in
  if String.eqb command "reboot" then
    say "" (mkEmulated t pushed stored stopped disabled root (negb stopped && negb disabled && Contains stored (quoted_text "true")))
  else if String.eqb command "root" then say "restarting adbd as root" (mkEmulated t pushed stored stopped disabled true running)
  else if String.eqb command "unroot" then say "" (mkEmulated t pushed stored stopped disabled false running)
  else if String.eqb command "shell id -u" then say (if root then "0" else "2000") e
  else if HasPrefix command "shell am force-stop" then say "" (mkEmulated t pushed stored true disabled root false)
  else if HasPrefix command "shell am start" then say "" (mkEmulated t pushed stored false disabled root running)
  else if Contains command " cp /data/local/tmp/" then say "" (mkEmulated t pushed pushed stopped disabled root running)
  else if Contains command " cat /data/data/" then say stored e
  else if HasPrefix command "shell pm disable-user" || HasPrefix command "shell pm enable" then
    (if root then say "" (mkEmulated t pushed stored stopped (Contains command "disable-user") root running)
     else ("Shell cannot change component state", true, e))
  else if HasPrefix command "shell dumpsys package" then say (package_dump e) e
  else if HasPrefix command "shell dumpsys activity services" then say (if running then "LocationCollectionService isForeground=true" else "(nothing)") e
  else if String.eqb command "shell getprop sys.boot_completed" then say ("1" ++ newline) e
  else if String.eqb command "exec-out screencap -p" then say screenshot e
  else if HasPrefix command "shell cat /sdcard/" then say ("<node text=" ++ quoted_text "Stopped" ++ " /><node text=" ++ quoted_text "Enabled, not running" ++ " />") e
  else say "" e.
#[local] Instance emulator_phone : Phone emulated := {|
  adb_exec := emulated_adb;
  adb_push := fun text _ e => let '(mkEmulated t _ stored stopped disabled root running) := e in say "" (mkEmulated t text stored stopped disabled root running);
  emulator := fun sub e => say (if String.eqb sub "boot" then "booting" ++ newline ++ "emulator-5554" ++ newline else "") e;
  sleep := fun ns e => let '(mkEmulated t pushed stored stopped disabled root running) := e in mkEmulated (t + Z.max 0 ns) pushed stored stopped disabled root running;
  now := em_now |}.
#[local] Instance emulator_clock : Clock.
Proof.
  split.
  - intros args [t pushed stored stopped disabled root running]. cbn [adb_exec emulator_phone now]. unfold emulated_adb, say.
    repeat match goal with |- context [if ?b then _ else _] => destruct b end; cbn [snd em_now]; lia.
  - intros ns [t pushed stored stopped disabled root running]. cbn [sleep now emulator_phone em_now]. lia.
Qed.
Definition installed : bootDevice := mkDevice (mkEmulated 0 "" "" true false false false) false.

Lemma boot_polls_end_witness : fst (rebootAndWait (seconds 360) installed) <> Err OutOfFuel.
Proof. exact (proj1 (boot_polls_end (seconds 360) installed)). Defined.


(** The same emulator, except that [adb unroot] fails and adbd stays root: the route says
    it put adbd back, and is green. *)
Definition kept_root_phone : Phone emulated := {|
  adb_exec := fun args e => if String.eqb (Join args " ") "unroot" then ("adbd is still running as root", true, e) else emulated_adb args e;
  adb_push := adb_push; emulator := emulator; sleep := sleep; now := now |}.
Definition kept_root_route : result boot_error (list boot_problem) * bootDevice :=
  RunBootRestart (P:=kept_root_phone) (seconds 360) true (Some resources) installed.
Example kept_root_is_green :
  fst kept_root_route = Ok [] /\ rooted (snd kept_root_route) = false /\ em_root (phone (snd kept_root_route)) = true.
Proof. vm_compute. repeat split. Qed.

(** An adb that answers nothing and fails passes the check that the app can still be
    reached and the check that collection is not running. *)
Definition lost_phone : Phone emulated := {|
  adb_exec := fun _ e => ("", true, e); adb_push := fun _ _ e => ("", true, e); emulator := fun _ e => ("", true, e);
  sleep := fun ns e => let '(mkEmulated t pushed stored stopped disabled root running) := e in mkEmulated (t + ns) pushed stored stopped disabled root running;
  now := em_now |}.
Example lost_device_accepted :
  fst (theAppIsStillReachable (P:=lost_phone) installed) = Ok tt /\ fst (collectionIsNotRunningAfterTheBoot (P:=lost_phone) installed) = Ok tt.
Proof. vm_compute. split; reflexivity. Qed.
(** The list of the enabled components under the block of the disabled ones is not taken
    for it. *)
Example enabled_after_disabled :
  componentIsDisabled ("  disabledComponents:" ++ newline ++ "    Other" ++ newline ++ "  enabledComponents:" ++ newline ++ "    BootCompletedReceiver") "BootCompletedReceiver" = false.
Proof. vm_compute. reflexivity. Qed.
End Emulator.
