(* ===== verification/UiMain.v ===== *)
(** The command [cmd/uiverify]: which route an argument runs, and the exit status.  A
    route's error is printed and the status is 1; an argument it does not know is 2.
    The browser route leaves its run record behind, whatever the verdict. *)

From Stdlib Require Import ZArith Lia Bool String Ascii List.
From stdpp Require Import base option list strings gmap.
From S2P Require Import Prelude GoStrings Json Repo.
From S2P Require Import UiRecord UiSpec UiRefusal UiBoot.
Local Open Scope string_scope.
Local Open Scope Z_scope.

Section Main.
Context `{U : Unicode} `{X : JUnit} `{T : Times} `{M : Machine} {D : Type} `{P : Phone D}.

(** [runWeb]: the status, and the record written. *)
Definition runWeb (env : Environ) : Z * option RunRecord :=
  match run_web env with
  | Err _ => (1, None)
  | Ok results => (match Summarise results with SOk => 0 | _ => 1 end, Some (RecordRun "web" results))
  end.
Definition status_of {E} (problems : list E) : Z := match problems with [] => 0 | _ => 1 end.
Definition status_opt {E} (e : option E) : Z := match e with None => 0 | Some _ => 1 end.

(** What the routes need beside the tree: the staged directory and the pins of the
    refusal route, and the device, the budget and the app's files of the reboot route. *)
Definition uiverify_main (args : list string) (env : Environ) (t : Tree) (fresh : string) (pins : sdkPins)
    (device : bootDevice (D:=D)) (apk : bool) (resources : option string) : Z * option RunRecord :=
  match args with
  | _ :: cmd :: _ =>
      if String.eqb cmd "web" then runWeb env
      else if String.eqb cmd "refusal" then (status_of (snd (CheckRefusal fresh pins env)), None)
      else if String.eqb cmd "record" then (status_opt (ui_CheckRecord t), None)
      else if String.eqb cmd "docs" then (status_of (CheckDocuments t), None)
      else if String.eqb cmd "android" then (status_opt (CheckAndroidRun t), None)
      else if String.eqb cmd "bootrestart" then
        (match fst (RunBootRestart (bootRestartTimeout (Getenv env "TRACKER_BOOT_RESTART_TIMEOUT")) apk resources device) with Ok ps => status_of ps | Err _ => 1 end, None)
      else (2, None)
  | _ => (2, None)
  end.

Lemma NewSessionFrom_started engines : forall reasons engine, NewSessionFrom engines reasons = Ok engine -> engine ∈ engines /\ NewSession engine = None.
Proof.
  induction engines as [|e engines IH]; intros reasons engine; cbn [NewSessionFrom]; [done|].
  destruct (NewSession e) eqn:E; [|intros [= <-]; split; [by left|done]]. intros H. apply IH in H as [H1 H2]. split; [by right|done].
Qed.

(** A green browser route had an engine that came up, and its record names every check. *)
Lemma web_green env record : runWeb env = (0, record) ->
  exists engines engine, FindEngines env = Ok engines /\ engine ∈ engines /\ NewSession engine = None /\
    record = Some (mkRunRecord "web" (map re_ID (grade engine)) (map re_ID (grade engine))) /\ forall r, r ∈ grade engine -> re_Passed r = true /\ re_Demonstrated r = true.
Proof.
  unfold runWeb, run_web. destruct (FindEngines env) as [engines|]; [|done]. destruct (NewSessionFrom engines []) as [engine|] eqn:E; [|done].
  destruct (Summarise (grade engine)) eqn:Es; [|done..]. rewrite Summarise_ok in Es. apply NewSessionFrom_started in E as [E1 E2].
  intros [= <-]. exists engines, engine. split; [done|]. split; [done|]. split; [done|]. split; [|done]. unfold RecordRun. by rewrite !filter_all by (intros r Hr; by apply Es).
Qed.
End Main.
